(* ===== verification/_CoqProject ===== *)
-Q . S2P
Prelude.v
Utf8.v
Sha256.v
Strconv.v
GoNum.v
FloatInt.v
GoTime.v
Types.v
Ids.v
Windows.v
Validate.v
Fusion.v
OpsTypes.v
Server.v
Db.v
PgQueue.v
Queueing.v
PgEpisode.v
Appending.v
Replaying.v
PgFact.v
FactWriting.v
FactReading.v
Supersession.v
Failures.v
PgForget.v
PgEncoding.v
PgSearch.v
Statements.v
Ports.v
Memory.v
Worker.v
System.v
Postgres.v
Abstract.v
Refinement.v
Deployment.v
Consolidation.v
Recalling.v
Running.v
Settling.v
Ops.v
Backfilling.v
BackfillPg.v
Migrations.v
Migrate.v
Migrating.v
Json.v
Prompts.v
Extract.v
Doubles.v
Doubling.v
Extraction.v
Extracting.v
Clients.v
Eval.v
Loading.v
EvalL1.v
Tables.v
Evaluation.v
Quickstart.v
Touring.v
