(* ===== verification/Prelude.v ===== *)
(** * A verification library for mempher

    mempher is a memory layer for agents, written in Go over PostgreSQL: an
    append-only log of episodes (L0), facts extracted from it with bitemporal
    windows (L1), a vector projection, a job queue that keeps both projections up
    to date, and a recall that fuses several search channels. This development
    models it operation by operation and proves what makes it correct. This file
    holds what all the others share: Go's [(value, error)] results, the state and
    error monad [op] of the code that touches a world, machine integers, stable
    sorting, lists; the rest of this comment is the guide to the whole.

    ** How the program is put together, and where each part is modelled

    The root package ([src/*.go]) talks to ports, Go interfaces; [src/postgres]
    implements the storage ports over one pool; [src/ops] is the operational half;
    [src/extract] is the extractor a worker is usually given, and its subpackages
    and [src/embed] the clients of model services; [src/eval] measures the whole.

    - Go itself: [Utf8] (strings are bytes; runes, [ValidString], [TrimSpace]),
      [GoNum] (binary32 and binary64 with their rounding, [cmp.Compare]), [GoTime]
      (instants and locations), [Strconv], [Sha256]; [FloatInt] shows where sums,
      products and roots of small integers are exact, or at least numbers.
    - The data model: [Types] ([errors.go], [id.go], [episode.go], [append.go],
      [queue.go], [fact.go], [encoding.go], [recall.go], [forget.go], and the
      sentinels of [postgres/errors.go] and [extract/errors.go]), [Ids] (their
      textual form, [id.go]), [Windows] (the validity window), [Validate] ([validate.go]), [OpsTypes] ([ops/inspect.go],
      [ops/scope.go], [ops/validate.go]).
    - The ports: [Ports] ([store.go], [queue.go], [fact.go], [encoding.go],
      [clock.go], [tokens.go], [ops/ops.go]): an interface is a record of operations
      over a world [W], a type assertion an optional field, and what a client relies
      on is a class ([ReadOnlyStore], [ReadOnlyFacts], [SearchSpec], [FactsSpec],
      [CompleteSearch], [CompleteFacts], [FitExtractor]).
    - The write and the read loop: [Memory] ([mempher.go], [forget.go]), and [Fusion]
      ([fusion.go]) for the ranking. [Recall] runs its channels in goroutines: the
      model takes the order they run in as an argument.
    - The consolidation loop: [Worker] ([worker.go]).
    - Operating a deployment: [Ops] ([ops/ops.go], [ops/backfill.go]).
    - The adapter: [Server] (what PostgreSQL and its driver are taken to do), [Db]
      (the tables of [postgres/migrations/*.sql] with their CHECKs, keys, foreign
      keys and triggers), and on them [PgQueue] ([postgres/queue.go]), [PgEpisode]
      ([postgres/episode.go]), [PgFact] ([postgres/fact.go]), [PgForget]
      ([postgres/forget.go]), [PgEncoding] ([postgres/encoding.go],
      [postgres/scope.go]), [PgSearch] ([postgres/search.go]), and [Postgres]
      ([postgres/store.go]), which makes them the ports' records. [Statements] has the
      text of the statements these files assemble filter by filter.
    - The schema's history: [Migrations] ([postgres/migrations.go],
      [postgres/inspect.go]) and [Migrate] ([postgres/migrate.go], and [New] of
      [postgres/store.go]).
    - The extractor: [Json] ([extract/schema.go], and the rewriting for strict mode
      of [extract/openai/openai.go]), [Extract] ([extract/extract.go],
      [extract/parse.go], [extract/prompt.go]), [Prompts] (the two prompts it ships),
      [Clients] ([extract/anthropic/anthropic.go], [extract/openai/openai.go],
      [embed/openai/openai.go]).
    - The harness: [Eval] ([eval/eval.go], [eval/metrics.go],
      [eval/longmemeval.go]), [Loading] (the iterator of [eval/longmemeval.go]),
      [EvalL1] ([eval/l1.go]) and [Tables] (the tables both summaries print).
    - The doubles that tests wire in instead of a clock and a model: [Doubles]
      ([memphertest/*.go]).
    - The one program of the repository: [Quickstart] ([examples/quickstart/main.go]),
      whose run is over a world of the database and the doubles, with the lines it
      prints beside it.

    A method of the source is a definition of the same name, prefixed where two
    files would clash; a SQL statement is a function from the database to the
    database and the rows it returns, its WHERE and ORDER BY definitions of their
    own; an error is a value of [Error], which keeps the sentinel that [errors.Is]
    would find and no message.

    ** What is proved

    - The database ([System]; [Queueing]; [Appending] and [Replaying]; [FactWriting] and
      [FactReading]; [PgForget], [PgEncoding], [PgSearch]): the adapter's writes form a step relation, and every
      reachable database is well formed ([system_invariant]), its log immutable
      ([log_immutable]) and its numbering never reused ([seq_never_reused]). Each
      operation is characterised by itself: the queue is a state machine whose rows
      move only along it, a lease is exclusive and work is bounded; an append reads
      back as written and a replay misses nothing; extractions are idempotent and
      recorded; an erasure succeeds, is complete, and touches nothing else; searches
      answer only with what a query may see.
    - The SQL ([Statements]): read clause by clause under the values bound to it, an
      assembled statement selects the rows the model's query selects
      ([statements_read]), and no value is ever part of its text
      ([statements_carry_no_values]).
    - What the adapter is for its clients ([Abstract], [Refinement]): a machine of
      logs, vectors and beliefs, with nothing of tables in it, says what each call
      may answer; every run of calls against the adapter, the queue working in
      between, is a run of that machine ([adapter_refines]), so that, nothing being
      forgotten, what a client has seen stays ([client_history]). A change of mind
      leaves both claims answerable, each in its time ([Supersession]).
    - The library against its ports ([Memory], [Worker], [Fusion]): fusion computes
      its reference list; a recall does not depend on its schedule, spends its budget
      as documented, fails only when every channel did, and stays in its scope.
    - The library over the adapter ([Deployment], [Consolidation]): an appended batch
      is stored and scheduled; what was forgotten is never recalled; a drain reports
      every job it claimed. Recall misses nothing without saying so ([Recalling]):
      what a request asks for is in the answer, or the answer is truncated, or the
      report of a channel shows its depth used up ([Recall_complete], against the
      classes [CompleteSearch] and [CompleteFacts]), so that what was appended is
      recalled ([appended_recalled]). A worker that runs on among others ([Running]), which lease
      jobs and may die with them, frees what a crashed one held within its reclaim
      interval, and waits when there is nothing
      left to do; every job that is due is run within as many turns as there are
      attempts left in the queue ([Settling], [due_jobs_run]), so that what was
      appended is encoded ([appended_encoded]).
    - Backfilling ([Backfilling], against the class [BackfillSpec]; [BackfillPg]
      discharges it for PostgreSQL): all missing work up to the reported position is
      queued, over one scope or all, and resuming until done ends.
    - Migrating ([Migrating]): which directories and which ledgers are accepted, that
      exactly the pending scripts run, each with its row, that the lock is given back
      on every path, that the second run changes nothing and [New] then connects.
    - Extraction ([Extraction]): whatever the model answers, what comes back passes
      validation and nothing acceptable is lost; an extractor's identity is its options. An
      extract job over the adapter then fails only because of its model
      ([Extracting], on the ways an extraction can fail of [Failures]). A schema in strict mode requires what it must and changes in nothing else
      ([Json]); an embedder returns one vector per text in order ([Clients]).
    - Evaluating ([Evaluation]): the benchmark's labels, the batches of an ingestion
      and the log's sequence numbers name the same episodes; a score and a summary
      count what they say, and are printed in columns that line up
      ([metrics_table_aligned]); a haystack splits into its conversations; the iterator
      over the benchmark ends, with its elements in order ([Loading]).
    - The doubles ([Doubling]): the hashed vectors are numbers and depend on the words
      of a text alone, the rules assert and retract what they say, and with the hashing
      embedder an encode job is always done.
    - The quickstart as a whole ([Touring]): over any server that keeps its laws and
      in any order of its goroutines, no step fails and nothing of its scope is left
      ([main_completes], by total-correctness triples over a program that prints);
      [quick_output] is a run of it, line by line.

    Beside these, [Example]s show the places where the code does not do what its
    comments say: [FactWriting.assertion_dropped], [FactReading.closed_windows_tie],
    [Supersession.closing_at_start_fails], [Loading.truncated_file_reads_clean],
    [BackfillPg.resumed_walk_skips_scopes], [Migrating.stale_extension_schema],
    [Ports.CountTokens_wraps], [Clients.indexes_unchecked],
    [Recalling.fact_limit_unreported], [PgForget.foreign_job_survives], and the theorem
    [Queueing.Fail_unstorable_message].

    ** Fuel and bounds

    Integers are [Z] with the source's bounds as hypotheses or, where the code can
    leave them, with the wrap-around written out ([int64], [int32] below). Counts and
    sequence numbers of PostgreSQL, bigints, are [Z] without their upper end. Go's loops without a
    structural bound take fuel, and a theorem says it is enough: [lock_loop] polls
    at most once per interval of its timeout ([acquireMigrationLock_ends]);
    [drain_loop] and [trim_cue] are bounded by the list or text they consume;
    a backfill ends with fuel above its budget and one page per page of the
    catalogue ([Backfill_covers_scope], [Backfill_covers_all],
    [backfill_until_done_ends]); [backoff_loop] by the attempts. In [execute],
    [digits_upto], [absorb_all], [batches], [embed_batches] and [ingest_batches] the
    fuel is the length of the input ([EmbedDocuments_spec] and [ingest_labels] show
    it enough); [drain_passes] has the bound the code has.
    [Worker.Run] takes as fuel the turns it is observed for, and its theorems hold of
    every number of them; [yield_questions] is bounded by what the file holds.

    ** What is not modelled

    - Transport, connection pools, cancellation but for its effect where the code
      looks at it, logging, and the wording of messages.
    - What PostgreSQL computes: text search, ranking, cosine distance, approximate
      nearest neighbours, collation, uuid generation, the effect of DDL. These are
      the parameters of [Server] and [MigrationServer], used through the documented
      behaviour of [ServerLaws]. Concurrent transactions are serialised: a statement
      or transaction is one step, and [Lease] takes the rows another session holds
      locked as an argument.
    - JSON text, dates, uuids, case folding, rune classes, [math.Log2], the shortest
      text of a float, the HTTP exchange and the environment: the parameters of
      [Texts], [Wire] and of the sections that use them. Of the template language,
      only the two actions the embedded files use.
    - The digits of the tables a summary prints, progress callbacks, JSON's decoder, the test
      database ([internal/pgtest], which starts containers). The quickstart connects
      and migrates through operations on its world given from outside. *)

From stdpp Require Export base tactics option list sorting strings.
From Stdlib Require Export ZArith Lia.

#[global] Unset Program Cases.
#[export] Set Default Goal Selector "!".

Declare Scope mempher_scope.
Delimit Scope mempher_scope with mempher.
Open Scope mempher_scope.

(** ** Results: Go's [(value, error)] pairs *)

Section Result.
Context {E : Type}.

Inductive result (A : Type) : Type :=
  | Ok (a : A)
  | Err (e : E).
End Result.
Arguments result : clear implicits.
Arguments Ok {E A} _.
Arguments Err {E A} _.

Definition rbind {E A B} (m : result E A) (k : A -> result E B) : result E B :=
  match m with
  | Ok a => k a
  | Err e => Err e
  end.

Definition is_ok {E A} (m : result E A) : bool :=
  match m with Ok _ => true | Err _ => false end.

Notation "'let?' x ':=' m 'in' k" := (rbind m (fun x => k))
  (at level 10, x pattern, m at level 100, k at level 200) : mempher_scope.

(** [if err := check; err != nil { return err }]. *)
Notation "m ';;?' k" := (rbind m (fun _ => k))
  (at level 100, right associativity) : mempher_scope.

(** The guard of one case of a validating [switch]. *)
Definition reject {E} (c : bool) (e : E) : result E unit :=
  if c then Err e else Ok tt.

(** [for i, x := range xs { if err := f(x); err != nil { return err } }] *)
Fixpoint check_all {E A} (f : A -> result E unit) (l : list A) : result E unit :=
  match l with
  | [] => Ok tt
  | x :: l' => f x ;;? check_all f l'
  end.

(** [for x := range xs { y, err := f(x); ...; out = append(out, y) }] *)
Fixpoint map_res {E A B} (f : A -> result E B) (l : list A) : result E (list B) :=
  match l with
  | [] => Ok []
  | x :: l' => let? y := f x in let? ys := map_res f l' in Ok (y :: ys)
  end.

(** ** State and error *)

(** An operation over a state [S]: the state it leaves, whatever the outcome,
    and the value or the error it returns. *)
Definition op (E S A : Type) : Type := S -> S * result E A.

Definition oret {E S A} (a : A) : op E S A := fun s => (s, Ok a).
Definition ofail {E S A} (e : E) : op E S A := fun s => (s, Err e).
Definition olift {E S A} (r : result E A) : op E S A := fun s => (s, r).
Definition oget {E S} : op E S S := fun s => (s, Ok s).
Definition oput {E S} (s : S) : op E S unit := fun _ => (s, Ok tt).
Definition obind {E S A B} (m : op E S A) (k : A -> op E S B) : op E S B :=
  fun s =>
    match m s with
    | (s', Ok a) => k a s'
    | (s', Err e) => (s', Err e)
    end.

(** [m] inside a transaction: an error rolls every write back. *)
Definition atomically {E S A} (m : op E S A) : op E S A :=
  fun s =>
    match m s with
    | (s', Ok a) => (s', Ok a)
    | (_, Err e) => (s, Err e)
    end.

(** [m] with its error translated, as a [fmt.Errorf] that chooses a sentinel. *)
Definition omap_err {E S A} (f : E -> E) (m : op E S A) : op E S A :=
  fun s =>
    match m s with
    | (s', Ok a) => (s', Ok a)
    | (s', Err e) => (s', Err (f e))
    end.

(** [for _, x := range xs { y, err := f(x); if err != nil { return err }; ... }] *)
Fixpoint omapM {E S A B} (f : A -> op E S B) (l : list A) : op E S (list B) :=
  match l with
  | [] => oret []
  | x :: l' => obind (f x) (fun y => obind (omapM f l') (fun ys => oret (y :: ys)))
  end.
Fixpoint ofor {E S A} (f : A -> op E S unit) (l : list A) : op E S unit :=
  match l with
  | [] => oret tt
  | x :: l' => obind (f x) (fun _ => ofor f l')
  end.

Notation "'let!' x ':=' m 'in' k" := (obind m (fun x => k))
  (at level 10, x pattern, m at level 100, k at level 200) : mempher_scope.
Notation "m ';;;' k" := (obind m (fun _ => k))
  (at level 100, right associativity) : mempher_scope.

(** ** Machine integers *)

(** Two's complement wrap-around at [w] bits. *)
Definition wrap (w z : Z) : Z := (z + 2 ^ (w - 1)) mod 2 ^ w - 2 ^ (w - 1).
Definition int64 (z : Z) : Z := wrap 64 z.
Definition int32 (z : Z) : Z := wrap 32 z.
Definition maxInt64 : Z := 2 ^ 63 - 1.

Lemma wrap_id w z : (0 < w)%Z -> (- 2 ^ (w - 1) <= z < 2 ^ (w - 1))%Z -> wrap w z = z.
Proof.
  intros Hw Hz. unfold wrap.
  assert (2 ^ w = 2 * 2 ^ (w - 1))%Z as Heq.
  { rewrite <- Z.pow_succ_r by lia. f_equal. lia. }
  rewrite Z.mod_small; lia.
Qed.

Lemma wrap_range w z : (0 < w)%Z -> (- 2 ^ (w - 1) <= wrap w z < 2 ^ (w - 1))%Z.
Proof.
  intros Hw. unfold wrap.
  assert (2 ^ w = 2 * 2 ^ (w - 1))%Z as Heq.
  { rewrite <- Z.pow_succ_r by lia. f_equal. lia. }
  assert (0 < 2 ^ w)%Z by (apply Z.pow_pos_nonneg; lia).
  pose proof (Z.mod_pos_bound (z + 2 ^ (w - 1)) (2 ^ w)). lia.
Qed.

Lemma int64_id z : (- 2 ^ 63 <= z < 2 ^ 63)%Z -> int64 z = z.
Proof. intros. apply wrap_id; lia. Qed.

Lemma int32_id z : (- 2 ^ 31 <= z < 2 ^ 31)%Z -> int32 z = z.
Proof. intros. apply wrap_id; lia. Qed.

(** ** Results: lemmas *)

Lemma rbind_Ok {E A B} (m : result E A) (k : A -> result E B) b :
  rbind m k = Ok b <-> exists a, m = Ok a /\ k a = Ok b.
Proof. destruct m; naive_solver. Qed.

Lemma rbind_Err {E A B} (m : result E A) (k : A -> result E B) e :
  rbind m k = Err e <-> m = Err e \/ exists a, m = Ok a /\ k a = Err e.
Proof. destruct m; naive_solver. Qed.

Lemma reject_Ok {E} c (e : E) u : reject c e = Ok u <-> c = false.
Proof. destruct c, u; naive_solver. Qed.

Lemma reject_Err {E} c (e e' : E) : reject c e = Err e' <-> c = true /\ e' = e.
Proof. destruct c; naive_solver. Qed.

Lemma check_all_Ok {E A} (f : A -> result E unit) l u :
  check_all f l = Ok u <-> Forall (fun x => f x = Ok tt) l.
Proof.
  destruct u. induction l as [|x l IH]; simpl.
  - split; [constructor|done].
  - rewrite rbind_Ok, Forall_cons, <- IH. split.
    + intros ([] & ? & ?); done.
    + intros [? ?]. by exists tt.
Qed.

Lemma check_all_Err {E A} (f : A -> result E unit) l e :
  check_all f l = Err e ->
  exists pre x post, l = pre ++ x :: post /\ f x = Err e /\
    Forall (fun y => f y = Ok tt) pre.
Proof.
  induction l as [|x l IH]; simpl; [done|].
  rewrite rbind_Err. intros [Hx | ([] & Hx & Hl)].
  - exists [], x, l. auto.
  - destruct (IH Hl) as (pre & y & post & -> & ? & ?).
    exists (x :: pre), y, post. auto.
Qed.

Lemma map_res_Ok {E A B} (f : A -> result E B) l ys :
  map_res f l = Ok ys <-> Forall2 (fun x y => f x = Ok y) l ys.
Proof.
  revert ys. induction l as [|x l IH]; intros ys; simpl.
  - split; [by intros [= <-]; constructor|]. intros H. by inversion H.
  - rewrite rbind_Ok. setoid_rewrite rbind_Ok. split.
    + intros (y & Hy & ys' & Hys & [= <-]). constructor; [done|]. by apply IH.
    + intros H. inversion H as [|? y ? ys' Hy Hys]; subst. apply IH in Hys. eauto 6.
Qed.

Lemma map_res_total {E A B} (f : A -> result E B) (g : A -> B) l :
  Forall (fun x => f x = Ok (g x)) l -> map_res f l = Ok (map g l).
Proof. induction 1 as [|x l Hx Hl IH]; simpl; [done|]. by rewrite Hx, IH. Qed.

Lemma atomically_Err {E S A} (m : op E S A) s s' e :
  atomically m s = (s', Err e) -> s' = s.
Proof. unfold atomically. destruct (m s) as [? []]; naive_solver. Qed.

Lemma atomically_Ok {E S A} (m : op E S A) s s' a :
  atomically m s = (s', Ok a) <-> m s = (s', Ok a).
Proof. unfold atomically. destruct (m s) as [? []]; naive_solver. Qed.

Lemma obind_Ok {E S A B} (m : op E S A) (k : A -> op E S B) s s' b :
  obind m k s = (s', Ok b) <->
  exists s1 a, m s = (s1, Ok a) /\ k a s1 = (s', Ok b).
Proof. unfold obind. destruct (m s) as [? []]; naive_solver. Qed.

(** What an operation does to the state, whatever it answers: [keeps R m] says
    every run of [m] is an [R]-step, [reads m] that it leaves the state alone. *)
Definition keeps {E S A} (R : S -> S -> Prop) (m : op E S A) : Prop := forall s, R s (m s).1.
Definition reads {E S A} (m : op E S A) : Prop := forall s, (m s).1 = s.

Section Keeps.
Context {E S : Type} (R : S -> S -> Prop) `{!Reflexive R}.

Lemma keeps_reads {A} (m : op E S A) : reads m -> keeps R m.
Proof. intros H s. by rewrite H. Qed.

Lemma keeps_guard {A B} (m : op E S A) (k : A -> op E S B) :
  reads m -> (forall a, keeps R (k a)) -> keeps R (obind m k).
Proof.
  intros Hm Hk s. unfold obind. specialize (Hm s). destruct (m s) as [s' [a|e]]; simpl in *; subst;
    [apply Hk|done].
Qed.

Lemma keeps_then_reads {A B} (m : op E S A) (k : A -> op E S B) :
  keeps R m -> (forall a, reads (k a)) -> keeps R (obind m k).
Proof.
  intros Hm Hk s. unfold obind. specialize (Hm s). destruct (m s) as [s' [a|e]]; simpl in *; [|done].
  by rewrite Hk.
Qed.

Lemma keeps_bind `{!Transitive R} {A B} (m : op E S A) (k : A -> op E S B) :
  keeps R m -> (forall a, keeps R (k a)) -> keeps R (obind m k).
Proof.
  intros Hm Hk s. unfold obind. specialize (Hm s). destruct (m s) as [s' [a|e]]; simpl in *; [|done].
  transitivity s'; [done|apply Hk].
Qed.

Lemma keeps_map_err {A} f (m : op E S A) : keeps R m -> keeps R (omap_err f m).
Proof. intros Hm s. unfold omap_err. specialize (Hm s). by destruct (m s) as [s' []]. Qed.

Lemma keeps_atomically {A} (m : op E S A) : keeps R m -> keeps R (atomically m).
Proof. intros Hm s. unfold atomically. specialize (Hm s). by destruct (m s) as [s' []]. Qed.
End Keeps.

Lemma reads_olift {E S A} (r : result E A) : reads (olift r : op E S A).
Proof. done. Qed.
Lemma reads_ofail {E S A} (e : E) : reads (ofail e : op E S A).
Proof. done. Qed.
Lemma reads_oret {E S A} (a : A) : reads (oret a : op E S A).
Proof. done. Qed.
Lemma reads_bind {E S A B} (m : op E S A) (k : A -> op E S B) :
  reads m -> (forall a, reads (k a)) -> reads (obind m k).
Proof.
  intros Hm Hk s. unfold obind. specialize (Hm s). destruct (m s) as [s' [a|e]]; simpl in *; subst;
    [apply Hk|done].
Qed.
Lemma reads_map_err {E S A} f (m : op E S A) : reads m -> reads (omap_err f m).
Proof. intros Hm s. unfold omap_err. specialize (Hm s). by destruct (m s) as [s' []]. Qed.

Lemma reads_omapM {E S A B} (f : A -> op E S B) l : (forall x, reads (f x)) -> reads (omapM f l).
Proof.
  intros Hf. induction l as [|x l IH]; [done|]. cbn. apply reads_bind; [apply Hf|]. intros y.
  apply reads_bind; [done|]. intros ys. done.
Qed.

Lemma keeps_ofor {E S A} (R : S -> S -> Prop) `{!Reflexive R} `{!Transitive R} (f : A -> op E S unit) l :
  (forall x, keeps R (f x)) -> keeps R (ofor f l).
Proof.
  intros Hf. induction l as [|x l IH]; [by intros s|]. cbn. apply keeps_bind; [assumption..|apply Hf|].
  intros []. done.
Qed.

(** A loop that returned has done each of its turns, if later ones undo nothing. *)
Lemma ofor_all {E S A} (R : S -> S -> Prop) `{!Reflexive R} `{!Transitive R} (P : A -> S -> Prop)
    (f : A -> op E S unit) l s s' :
  (forall x, keeps R (f x)) -> (forall x s1 s2, f x s1 = (s2, Ok tt) -> P x s2) ->
  (forall x s1 s2, R s1 s2 -> P x s1 -> P x s2) ->
  ofor f l s = (s', Ok tt) -> forall x, x ∈ l -> P x s'.
Proof.
  intros Hk Hf Hmono. revert s. induction l as [|y l IH]; intros s; [by intros _ x ?%not_elem_of_nil|].
  cbn. rewrite obind_Ok. intros (s1 & [] & Hy & Hl) x [->|Hx]%elem_of_cons; [|by eapply IH].
  eapply Hmono; [|by eapply Hf]. pose proof (keeps_ofor R f l Hk s1) as H. by rewrite Hl in H.
Qed.

Lemma obind_olift {E S A B} (r : result E A) (k : A -> op E S B) s :
  obind (olift r) k s = match r with Ok a => k a s | Err e => (s, Err e) end.
Proof. by destruct r. Qed.

Create HintDb mempher discriminated.
#[export] Hint Resolve reads_olift reads_ofail reads_oret reads_bind reads_map_err : mempher.
Create Rewrite HintDb mempher.
#[export] Hint Rewrite @rbind_Ok @rbind_Err @reject_Ok @reject_Err @check_all_Ok
  @obind_Ok @atomically_Ok : mempher.

(** Invert a chain of binds and guards that returned. *)
Ltac inv_result :=
  repeat match goal with
  | H : rbind _ _ = Ok _ |- _ => apply rbind_Ok in H; destruct H as (? & ? & ?)
  | H : reject _ _ = Ok _ |- _ => apply reject_Ok in H
  | H : check_all _ _ = Ok _ |- _ => apply check_all_Ok in H
  | H : Ok _ = Ok _ |- _ => injection H as H; subst
  | H : Err _ = Ok _ |- _ => discriminate H
  | H : Ok _ = Err _ |- _ => discriminate H
  | u : unit |- _ => destruct u
  end.

(** ** Stable sorting, as [slices.SortStableFunc] *)

Section Sort.
Context {A : Type} (leb : A -> A -> bool).

Fixpoint insert_by (x : A) (l : list A) : list A :=
  match l with
  | [] => [x]
  | y :: l' => if leb x y then x :: y :: l' else y :: insert_by x l'
  end.

Fixpoint sort_by (l : list A) : list A :=
  match l with
  | [] => []
  | x :: l' => insert_by x (sort_by l')
  end.

Lemma insert_by_Permutation x l : insert_by x l ≡ₚ x :: l.
Proof.
  induction l as [|y l IH]; simpl; [done|].
  destruct (leb x y); [done|]. rewrite IH. apply Permutation_swap.
Qed.

Lemma sort_by_Permutation l : sort_by l ≡ₚ l.
Proof.
  induction l as [|x l IH]; simpl; [done|]. by rewrite insert_by_Permutation, IH.
Qed.

Lemma elem_of_sort_by x l : x ∈ sort_by l <-> x ∈ l.
Proof. by rewrite sort_by_Permutation. Qed.

Lemma length_sort_by l : length (sort_by l) = length l.
Proof. by rewrite sort_by_Permutation. Qed.

(** A list sorted already is left as it is: ties keep their order. *)
Lemma sort_by_sorted_id l :
  StronglySorted (fun x y => leb x y = true) l -> sort_by l = l.
Proof.
  induction 1 as [|x l Hl IH Hx]; simpl; [done|]. rewrite IH.
  destruct l as [|y l]; simpl; [done|].
  apply Forall_cons in Hx as [-> _]. done.
Qed.

Context (leb_total : forall x y, leb x y = true \/ leb y x = true).
Context (leb_trans : forall x y z, leb x y = true -> leb y z = true -> leb x z = true).

Lemma insert_by_Sorted x l :
  StronglySorted (fun x y => leb x y = true) l ->
  StronglySorted (fun x y => leb x y = true) (insert_by x l).
Proof using leb_total leb_trans.
  induction 1 as [|y l Hl IH Hy]; simpl; [repeat constructor|].
  destruct (leb x y) eqn:Hxy.
  - constructor; [by constructor|]. constructor; [done|].
    eapply Forall_impl; [exact Hy|]. eauto.
  - constructor; [done|]. rewrite insert_by_Permutation. constructor; [|done].
    destruct (leb_total x y); [congruence|done].
Qed.

Lemma sort_by_Sorted l : StronglySorted (fun x y => leb x y = true) (sort_by l).
Proof using leb_total leb_trans.
  induction l; simpl; [constructor|]. by apply insert_by_Sorted.
Qed.

(** The sorted order does not depend on the order of the input, as long as
    the comparison tells the elements apart. *)
Lemma sort_by_unique l l' :
  (forall x y, x ∈ l -> y ∈ l -> leb x y = true -> leb y x = true -> x = y) ->
  l ≡ₚ l' -> sort_by l = sort_by l'.
Proof using leb_total leb_trans.
  intros Hanti Hp.
  apply (StronglySorted_unique_strong (fun x y => leb x y = true)).
  - intros x y Hx Hy. rewrite elem_of_sort_by in Hx, Hy. rewrite <- Hp in Hy.
    by apply Hanti.
  - apply sort_by_Sorted.
  - apply sort_by_Sorted.
  - by rewrite !sort_by_Permutation.
Qed.
End Sort.

(** Sorting looks at the comparison of the list's own elements only. *)
Lemma insert_by_ext {A} (leb leb' : A -> A -> bool) x l :
  (forall y, y ∈ l -> leb x y = leb' x y) -> insert_by leb x l = insert_by leb' x l.
Proof.
  induction l as [|y l IH]; cbn; intros H; [done|]. rewrite (H y) by by left. rewrite IH; [done|].
  intros z Hz. apply H. by right.
Qed.

Lemma sort_by_ext {A} (leb leb' : A -> A -> bool) l :
  (forall x y, x ∈ l -> y ∈ l -> leb x y = leb' x y) -> sort_by leb l = sort_by leb' l.
Proof.
  induction l as [|x l IH]; cbn; intros H; [done|]. rewrite IH.
  - apply insert_by_ext. intros y Hy%elem_of_sort_by. apply H; [by left|by right].
  - intros y z Hy Hz. apply H; by right.
Qed.

(** ** Lists *)

Lemma Forall_map_impl {A B} (P : B -> Prop) (Q : A -> Prop) (f : A -> B) (l : list A) :
  (forall x, Q x -> P (f x)) -> Forall Q l -> Forall P (map f l).
Proof. intros Hf Hl. apply Forall_map. by eapply Forall_impl. Qed.

Lemma Forall_filter_keep {A} (P : A -> Prop) (f : A -> bool) (l : list A) :
  Forall P l -> Forall P (List.filter f l).
Proof.
  rewrite !Forall_forall. setoid_rewrite list_elem_of_In.
  setoid_rewrite filter_In. naive_solver.
Qed.

Lemma NoDup_map_filter {A B} (g : A -> B) (f : A -> bool) (l : list A) :
  NoDup (map g l) -> NoDup (map g (List.filter f l)).
Proof.
  induction l as [|x l IH]; simpl; [done|].
  rewrite NoDup_cons. intros [Hx Hl].
  destruct (f x); simpl; [|auto]. constructor; [|auto].
  rewrite list_elem_of_In, in_map_iff in *. setoid_rewrite filter_In. naive_solver.
Qed.

Lemma NoDup_filter_b {A} (f : A -> bool) (l : list A) : NoDup l -> NoDup (List.filter f l).
Proof.
  intros H. pose proof (NoDup_map_filter (fun x => x) f l) as Hm. rewrite !map_id in Hm. auto.
Qed.

Lemma filter_map {A B} (g : A -> B) (f : B -> bool) (l : list A) :
  List.filter f (map g l) = map g (List.filter (fun x => f (g x)) l).
Proof. induction l as [|x l IH]; cbn; [done|]. rewrite IH. by destruct (f (g x)). Qed.

Lemma filter_and {A} (f g : A -> bool) (l : list A) :
  List.filter f (List.filter g l) = List.filter (fun x => g x && f x) l.
Proof. induction l as [|x l IH]; cbn; [done|]. destruct (g x); cbn; by rewrite IH. Qed.

Lemma filter_comm {A} (f g : A -> bool) (l : list A) :
  List.filter f (List.filter g l) = List.filter g (List.filter f l).
Proof.
  induction l as [|x l IH]; simpl; [done|].
  destruct (f x) eqn:Hf, (g x) eqn:Hg; simpl; rewrite ?Hf, ?Hg; by rewrite IH.
Qed.

Lemma find_elem {A} (f : A -> bool) (l : list A) x :
  List.find f l = Some x -> x ∈ l /\ f x = true.
Proof. intros [H ?]%find_some. by rewrite list_elem_of_In. Qed.

Lemma find_absent {A} (f : A -> bool) (l : list A) :
  List.find f l = None -> forall x, x ∈ l -> f x = false.
Proof. intros H x Hx. eapply find_none; [exact H|]. by apply list_elem_of_In. Qed.

Lemma StronglySorted_impl {A} (R S : A -> A -> Prop) (l : list A) :
  (forall x y, R x y -> S x y) -> StronglySorted R l -> StronglySorted S l.
Proof.
  intros HRS. induction 1 as [|x l Hl IH Hx]; constructor; [done|]. eapply Forall_impl; [exact Hx|]. auto.
Qed.

(** Rows a key tells apart. *)
Lemma NoDup_key {A B} (key : A -> B) (l : list A) x y :
  NoDup (map key l) -> x ∈ l -> y ∈ l -> key x = key y -> x = y.
Proof.
  induction l as [|z l IH]; simpl; [by intros _ ?%not_elem_of_nil|].
  rewrite NoDup_cons, !elem_of_cons. intros [Hz Hl] [-> | Hx] [-> | Hy] Heq; [done| | |by apply IH];
    destruct Hz; [rewrite Heq|rewrite <- Heq]; by apply list_elem_of_fmap_2.
Qed.

Lemma NoDup_app_fresh {B} (l k : list B) :
  NoDup l -> NoDup k -> (forall x, x ∈ l -> x ∈ k -> False) -> NoDup (l ++ k).
Proof. intros. apply NoDup_app. naive_solver. Qed.

Lemma elem_of_filter_b {A} (f : A -> bool) (l : list A) x :
  x ∈ List.filter f l <-> x ∈ l /\ f x = true.
Proof. by rewrite !list_elem_of_In, filter_In. Qed.

Lemma filter_all {A} (f : A -> bool) (l : list A) :
  (forall x, x ∈ l -> f x = true) -> List.filter f l = l.
Proof.
  induction l as [|x l IH]; cbn; intros Hf; [done|]. rewrite Hf by by left. f_equal. apply IH. intros y Hy.
  apply Hf. by right.
Qed.

Lemma filter_none {A} (f : A -> bool) (l : list A) :
  List.filter f l = [] <-> forall x, x ∈ l -> f x = false.
Proof.
  induction l as [|x l IH]; simpl.
  - split; [|done]. intros _ x Hx. by apply not_elem_of_nil in Hx.
  - destruct (f x) eqn:Hf; setoid_rewrite elem_of_cons.
    + split; [done|]. intros H. rewrite H in Hf; auto; done.
    + rewrite IH. naive_solver.
Qed.

#[export] Hint Resolve sort_by_Permutation Forall_filter_keep NoDup_map_filter : mempher.

(** ** Comparison functions, as [cmp.Compare] and the [slices.SortFunc] callbacks *)

Class TotalCmp {A} (c : A -> A -> comparison) : Prop := {
  cmp_flip : forall x y, c y x = CompOpp (c x y);
  cmp_trans : forall x y z, c x y <> Gt -> c y z <> Gt -> c x z <> Gt;
}.

Definition leb_of {A} (c : A -> A -> comparison) (x y : A) : bool :=
  match c x y with Gt => false | _ => true end.
(** Compare by [c1], then by [c2] where [c1] ties. *)
Definition cmp_lex {A} (c1 c2 : A -> A -> comparison) (x y : A) : comparison :=
  match c1 x y with Eq => c2 x y | o => o end.
Definition cmp_on {A B} (f : A -> B) (c : B -> B -> comparison) (x y : A) : comparison :=
  c (f x) (f y).
(** Descending. *)
Definition cmp_rev {A} (c : A -> A -> comparison) (x y : A) : comparison := c y x.
Definition sort_func {A} (c : A -> A -> comparison) (l : list A) : list A :=
  sort_by (leb_of c) l.

Section TotalCmp.
Context {A : Type} (c : A -> A -> comparison) `{!TotalCmp c}.

Lemma cmp_refl x : c x x = Eq.
Proof. pose proof (cmp_flip x x). by destruct (c x x). Qed.

Lemma cmp_Eq_l x y z : c x y = Eq -> c x z = c y z.
Proof.
  intros Hxy. pose proof (cmp_flip x y) as Hyx. rewrite Hxy in Hyx. simpl in Hyx.
  pose proof (cmp_flip x z). pose proof (cmp_flip y z).
  pose proof (cmp_trans x y z). pose proof (cmp_trans y x z).
  pose proof (cmp_trans z x y). pose proof (cmp_trans z y x).
  destruct (c x z), (c y z); simpl in *; try done; naive_solver congruence.
Qed.

Lemma leb_of_total x y : leb_of c x y = true \/ leb_of c y x = true.
Proof. unfold leb_of. rewrite (cmp_flip x y). destruct (c x y); auto. Qed.

Lemma leb_of_trans x y z :
  leb_of c x y = true -> leb_of c y z = true -> leb_of c x z = true.
Proof.
  unfold leb_of. pose proof (cmp_trans x y z).
  destruct (c x y), (c y z), (c x z); naive_solver congruence.
Qed.

Lemma leb_of_antisym x y : leb_of c x y = true -> leb_of c y x = true -> c x y = Eq.
Proof. unfold leb_of. rewrite (cmp_flip x y). by destruct (c x y). Qed.

Lemma sort_func_Sorted l :
  StronglySorted (fun x y => c x y <> Gt) (sort_func c l).
Proof.
  assert (forall l, StronglySorted (fun x y => leb_of c x y = true) l ->
               StronglySorted (fun x y => c x y <> Gt) l) as Himp.
  { induction 1 as [|x k Hk IH Hx]; constructor; [done|].
    eapply Forall_impl; [exact Hx|]. intros y. unfold leb_of. by destruct (c x y). }
  apply Himp, sort_by_Sorted; [apply leb_of_total|apply leb_of_trans].
Qed.

(** Sorting is insensitive to the input's order where [c] never ties. *)
Lemma sort_func_unique l l' :
  (forall x y, x ∈ l -> y ∈ l -> c x y = Eq -> x = y) ->
  l ≡ₚ l' -> sort_func c l = sort_func c l'.
Proof.
  intros Hinj. apply sort_by_unique; [apply leb_of_total|apply leb_of_trans|].
  intros x y Hx Hy H1 H2. apply Hinj; [done|done|]. by apply leb_of_antisym.
Qed.

Lemma sort_func_sorted_id l :
  StronglySorted (fun x y => c x y <> Gt) l -> sort_func c l = l.
Proof.
  intros H. apply sort_by_sorted_id.
  induction H as [|x k Hk IH Hx]; constructor; [done|].
  eapply Forall_impl; [exact Hx|]. intros y. unfold leb_of. by destruct (c x y).
Qed.

(** Filtering and sorting commute when the comparison tells the elements apart. *)
Lemma sort_func_filter (p : A -> bool) l :
  (forall x y, x ∈ l -> y ∈ l -> c x y = Eq -> x = y) ->
  sort_func c (List.filter p l) = List.filter p (sort_func c l).
Proof using All.
  intros Hinj. rewrite (sort_func_unique (List.filter p l) (List.filter p (sort_func c l))).
  - apply sort_func_sorted_id. pose proof (sort_func_Sorted l) as Hs.
    induction Hs as [|x k Hk IH Hx]; cbn; [constructor|]. destruct (p x); [|done]. constructor; [done|].
    apply Forall_forall. intros y [Hy _]%elem_of_filter_b. rewrite Forall_forall in Hx. by apply Hx.
  - intros x y [Hx _]%elem_of_filter_b [Hy _]%elem_of_filter_b. by apply Hinj.
  - unfold sort_func. generalize (sort_by_Permutation (leb_of c) l). generalize (sort_by (leb_of c) l).
    intros k Hk. clear -Hk. induction Hk as [|x k l _ IH|x y l|]; cbn; [done| | |by etransitivity].
    + destruct (p x); [by apply Permutation_skip|done].
    + destruct (p x), (p y); [constructor|done..].
Qed.
End TotalCmp.

#[export] Instance Zcompare_total : TotalCmp Z.compare.
Proof.
  split; [intros; apply Z.compare_antisym|].
  intros x y z. rewrite !Z.compare_le_iff. lia.
Qed.

#[export] Instance Ncompare_total : TotalCmp N.compare.
Proof.
  split; [intros; apply N.compare_antisym|].
  intros x y z. rewrite !N.compare_le_iff. lia.
Qed.

#[export] Instance String_compare_total : TotalCmp String.compare.
Proof.
  split; [intros; apply String.compare_antisym|].
  intros x y z H1 H2.
  assert (forall a b, String.compare a b <> Gt <-> String.le a b) as Hle.
  { intros a b. unfold String.le, String.leb. destruct (String.compare a b); simpl; naive_solver. }
  rewrite Hle in *. by transitivity y.
Qed.

#[export] Instance cmp_rev_total {A} (c : A -> A -> comparison) :
  TotalCmp c -> TotalCmp (cmp_rev c).
Proof.
  intros [Hf Ht]. split; unfold cmp_rev; [intros; apply Hf|].
  intros x y z H1 H2. by apply (Ht z y x).
Qed.

#[export] Instance cmp_on_total {A B} (f : A -> B) (c : B -> B -> comparison) :
  TotalCmp c -> TotalCmp (cmp_on f c).
Proof. intros [Hf Ht]. split; unfold cmp_on; eauto. Qed.

#[export] Instance cmp_lex_total {A} (c1 c2 : A -> A -> comparison) :
  TotalCmp c1 -> TotalCmp c2 -> TotalCmp (cmp_lex c1 c2).
Proof.
  intros H1 H2. split; unfold cmp_lex.
  - intros x y. rewrite (cmp_flip (c:=c1) x y), (cmp_flip (c:=c2) x y).
    by destruct (c1 x y).
  - intros x y z Hxy Hyz. pose proof (cmp_trans (c:=c1) x y z) as Ht.
    destruct (c1 x y) eqn:E1; [|clear Hxy|done].
    + rewrite (cmp_Eq_l c1 x y z E1) in *. destruct (c1 y z); try done.
      by apply (cmp_trans x y z).
    + destruct (c1 x z) eqn:E2; [|done|].
      * exfalso. pose proof (cmp_Eq_l c1 x z y E2) as E3. rewrite E1 in E3.
        rewrite (cmp_flip (c:=c1) z y), <- E3 in Hyz. simpl in Hyz.
        done.
      * intros _. apply Ht; [done| |done]. by destruct (c1 y z).
Qed.

(** ** Pages: [WHERE p ORDER BY c LIMIT n] *)

Definition page {A} (c : A -> A -> comparison) (p : A -> bool) (n : nat) (l : list A) : list A :=
  take n (sort_func c (List.filter p l)).

(** What a page holds: rows that match, in order, and all of them up to the limit. *)
Definition is_page {A} (c : A -> A -> comparison) (P : A -> Prop) (n : nat) (l rows : list A) : Prop :=
  (forall r, r ∈ rows -> r ∈ l /\ P r) /\
  (length rows <= n)%nat /\
  StronglySorted (fun x y => c x y <> Gt) rows /\
  (forall r, r ∈ l -> P r -> r ∉ rows -> length rows = n /\ forall x, x ∈ rows -> c x r <> Gt).

Lemma page_spec {A} (c : A -> A -> comparison) `{!TotalCmp c} (p : A -> bool) (P : A -> Prop) n l :
  (forall r, p r = true <-> P r) -> is_page c P n l (page c p n l).
Proof.
  intros Hp. unfold page. set (all := sort_func c (List.filter p l)).
  assert (forall r, r ∈ all <-> r ∈ l /\ P r) as Hall.
  { intros r. unfold all, sort_func. by rewrite elem_of_sort_by, elem_of_filter_b, Hp. }
  pose proof (sort_func_Sorted c (List.filter p l)) as Hs. fold all in Hs.
  pose proof (take_drop n all) as Htd. rewrite <- Htd in Hs.
  apply StronglySorted_app in Hs as (Hcross & Hst & _). split; [|split; [|split; [done|]]].
  - intros r Hr. apply Hall. rewrite <- Htd. apply elem_of_app. by left.
  - rewrite length_take. lia.
  - intros r Hr Hb Hn. assert (r ∈ drop n all) as Hd.
    { assert (r ∈ all) as Hra by (by apply Hall). rewrite <- Htd in Hra.
      apply elem_of_app in Hra as [|]; done. }
    split; [|intros x Hx; by apply Hcross].
    assert (0 < length (drop n all))%nat
      by (destruct (drop _ all); [by apply not_elem_of_nil in Hd|simpl; lia]).
    rewrite length_take, length_drop in *. lia.
Qed.

(** A page misses a row that qualifies only when it is full. *)
Lemma page_full {A} `{!EqDecision A} (c : A -> A -> comparison) `{!TotalCmp c} (p : A -> bool) n (l : list A) x :
  x ∈ l -> p x = true -> x ∈ page c p n l \/ length (page c p n l) = n.
Proof.
  intros Hx Hp. destruct (page_spec c p (fun r => p r = true) n l (fun r => iff_refl _)) as (_ & _ & _ & Hout).
  destruct (decide (x ∈ page c p n l)) as [|Hn]; [by left|]. right. by destruct (Hout x Hx Hp Hn).
Qed.

(** A page by a key no two rows share is in strict order. *)
Lemma page_strict {A} (c : A -> A -> comparison) `{!TotalCmp c} (p : A -> bool) n (l : list A) :
  NoDup l -> (forall x y, x ∈ l -> y ∈ l -> c x y = Eq -> x = y) ->
  StronglySorted (fun x y => c x y = Lt) (page c p n l).
Proof.
  intros Hnd Hinj. unfold page. set (all := sort_func c (List.filter p l)).
  assert (NoDup all) as Hall.
  { unfold all, sort_func. rewrite sort_by_Permutation. by apply NoDup_filter_b. }
  assert (forall r, r ∈ all -> r ∈ l) as Hin.
  { intros r. unfold all, sort_func. rewrite elem_of_sort_by, elem_of_filter_b. tauto. }
  pose proof (sort_func_Sorted c (List.filter p l)) as Hs. fold all in Hs.
  pose proof (take_drop n all) as Htd. rewrite <- Htd in Hs, Hall, Hin.
  apply StronglySorted_app in Hs as (_ & Hs & _). apply NoDup_app in Hall as (Hall & _ & _).
  assert (forall r, r ∈ take n all -> r ∈ l) as Hin' by (intros; apply Hin, elem_of_app; by left).
  clear Hin Htd. induction Hs as [|x k Hk IH Hx]; constructor; apply NoDup_cons in Hall as [Hnx Hall].
  - apply IH; [done|]. intros r Hr. apply Hin'. by right.
  - rewrite Forall_forall in Hx |- *. intros y Hy. specialize (Hx y Hy).
    destruct (c x y) eqn:E; [|done|done]. destruct Hnx.
    rewrite (Hinj x y); [done|apply Hin'; by left|apply Hin'; by right|done].
Qed.

Lemma NoDup_page {A B} (key : A -> B) (c : A -> A -> comparison) (p : A -> bool) n (l : list A) :
  NoDup (map key l) -> NoDup (map key (page c p n l)).
Proof.
  intros Hnd. unfold page. assert (NoDup (map key (sort_func c (List.filter p l)))) as H.
  { unfold sort_func. rewrite sort_by_Permutation. by apply NoDup_map_filter. }
  rewrite <- (take_drop n (sort_func c (List.filter p l))), map_app in H. by apply NoDup_app in H as [? _].
Qed.
