(* ===== verification/Utf8.v ===== *)
(** * Go strings

    A Go [string] is a sequence of bytes; [len] counts bytes. This file holds
    what the source uses of [unicode/utf8], [unicode] and [strings]: decoding a
    rune, [utf8.ValidString], [strings.IndexFunc], [strings.TrimSpace],
    [strings.FieldsFunc], [strings.Contains], slicing,
    and the rune classes [unicode.IsControl] and [unicode.IsSpace]. *)

From Stdlib Require Import NArith Ascii String.
From S2P Require Import Prelude.

#[local] Open Scope N_scope.

Definition bytes_of (s : string) : list N := map N_of_ascii (list_ascii_of_string s).
Definition of_bytes (l : list N) : string := string_of_list_ascii (map ascii_of_N l).

(** [len(s)]. *)
Definition len (s : string) : Z := Z.of_nat (String.length s).

(** [s[:n]], for [n] within the string. *)
Definition slice_to (s : string) (n : nat) : string := String.substring 0 n s.

(** ** Decoding *)

Definition RuneError : N := 0xFFFD.

Definition in_range (lo b hi : N) : bool := (lo <=? b) && (b <=? hi).
Definition is_cont (b : N) : bool := in_range 0x80 b 0xBF.

(** The range the second byte of a sequence may take, by its first byte. *)
Definition second_ok (b0 b1 : N) : bool :=
  if b0 =? 0xE0 then in_range 0xA0 b1 0xBF
  else if b0 =? 0xED then in_range 0x80 b1 0x9F
  else if b0 =? 0xF0 then in_range 0x90 b1 0xBF
  else if b0 =? 0xF4 then in_range 0x80 b1 0x8F
  else is_cont b1.

(** [utf8.DecodeRune]: the rune and its width; an invalid encoding is
    [(RuneError, 1)]. *)
Definition decode_rune (l : list N) : N * nat :=
  match l with
  | [] => (RuneError, 0%nat)
  | b0 :: r =>
      if b0 <? 0x80 then (b0, 1%nat)
      else if in_range 0xC2 b0 0xDF then
        match r with
        | b1 :: _ => if is_cont b1 then ((b0 - 0xC0) * 64 + (b1 - 0x80), 2%nat)
                     else (RuneError, 1%nat)
        | _ => (RuneError, 1%nat)
        end
      else if in_range 0xE0 b0 0xEF then
        match r with
        | b1 :: b2 :: _ =>
            if second_ok b0 b1 && is_cont b2
            then (((b0 - 0xE0) * 64 + (b1 - 0x80)) * 64 + (b2 - 0x80), 3%nat)
            else (RuneError, 1%nat)
        | _ => (RuneError, 1%nat)
        end
      else if in_range 0xF0 b0 0xF4 then
        match r with
        | b1 :: b2 :: b3 :: _ =>
            if second_ok b0 b1 && is_cont b2 && is_cont b3
            then ((((b0 - 0xF0) * 64 + (b1 - 0x80)) * 64 + (b2 - 0x80)) * 64
                    + (b3 - 0x80), 4%nat)
            else (RuneError, 1%nat)
        | _ => (RuneError, 1%nat)
        end
      else (RuneError, 1%nat)
  end.

(** [for i, r := range s]: the runes with their widths. [n] bounds the number
    of runes; the length of the byte sequence is enough, see [runes_fuel]. *)
Fixpoint runes_upto (n : nat) (l : list N) : list (N * nat) :=
  match n, l with
  | S n', _ :: _ =>
      let rw := decode_rune l in rw :: runes_upto n' (drop (snd rw) l)
  | _, _ => []
  end.
Definition runes (l : list N) : list (N * nat) := runes_upto (length l) l.

Definition rune_ok (rw : N * nat) : bool := negb ((fst rw =? RuneError) && (snd rw =? 1)%nat).

Definition valid_bytes (l : list N) : bool := forallb rune_ok (runes l).

(** [utf8.ValidString]. *)
Definition ValidString (s : string) : bool := valid_bytes (bytes_of s).

(** [utf8.RuneCountInString]; PostgreSQL's [length(text)] in a UTF-8 database. *)
Definition rune_count (s : string) : Z := Z.of_nat (length (runes (bytes_of s))).

Definition newline : string := String (Ascii.ascii_of_nat 10) EmptyString.

(** ** Rune classes *)

(** Category Cc. *)
Definition IsControl (r : N) : bool := (r <=? 0x1F) || in_range 0x7F r 0x9F.

(** Property White_Space. *)
Definition IsSpace (r : N) : bool :=
  in_range 0x09 r 0x0D || (r =? 0x20) || (r =? 0x85) || (r =? 0xA0) || (r =? 0x1680)
  || in_range 0x2000 r 0x200A || (r =? 0x2028) || (r =? 0x2029) || (r =? 0x202F)
  || (r =? 0x205F) || (r =? 0x3000).

(** [strings.IndexFunc(s, f) >= 0]. *)
Definition contains_func (f : N -> bool) (s : string) : bool :=
  existsb (fun rw => f (fst rw)) (runes (bytes_of s)).

(** [strings.TrimSpace]: the widths of the leading and of the trailing white
    space are dropped. *)
Fixpoint space_width (rs : list (N * nat)) : nat :=
  match rs with
  | (r, w) :: rs' => if IsSpace r then (w + space_width rs')%nat else 0%nat
  | [] => 0%nat
  end.

Definition TrimSpace (s : string) : string :=
  let l := bytes_of s in
  let rs := runes l in
  let lead := space_width rs in
  let mid := drop lead l in
  let trail := space_width (rev (runes mid)) in
  of_bytes (take (length mid - trail) mid).

(** [strings.FieldsFunc]: the bytes read so far of a field, and the rest. *)
Fixpoint fields_from (is_separator : N -> bool) (rs : list (N * nat)) (l current : list N) : list (list N) :=
  let flush := match current with [] => [] | _ => [current] end in
  match rs with
  | [] => flush
  | (r, w) :: rs' =>
      if is_separator r then flush ++ fields_from is_separator rs' (drop w l) []
      else fields_from is_separator rs' (drop w l) (current ++ take w l)
  end.
Definition FieldsFunc (is_separator : N -> bool) (s : string) : list string :=
  let l := bytes_of s in map of_bytes (fields_from is_separator (runes l) l []).

(** [strings.Contains]. *)
Definition ContainsString (s sub : string) : bool :=
  match String.index 0 sub s with Some _ => true | None => false end.

(** ** Lemmas *)

Lemma bytes_of_app a b : bytes_of (a ++ b)%string = (bytes_of a ++ bytes_of b)%list.
Proof.
  unfold bytes_of. rewrite <- map_app. f_equal.
  induction a; simpl; [done|]. by f_equal.
Qed.

Lemma length_bytes_of s : length (bytes_of s) = String.length s.
Proof. unfold bytes_of. rewrite length_map. induction s; simpl; auto. Qed.

Lemma decode_rune_width l : l <> [] -> (1 <= snd (decode_rune l) <= length l)%nat.
Proof.
  destruct l as [|b0 l]; [done|]. intros _. unfold decode_rune.
  repeat case_match; simpl; lia.
Qed.

(** A rune that decodes does so whatever follows it. *)
Lemma decode_rune_app l k :
  l <> [] -> rune_ok (decode_rune l) = true -> decode_rune (l ++ k) = decode_rune l.
Proof.
  destruct l as [|b0 l]; [done|]. intros _. simpl.
  destruct l as [|b1 [|b2 [|b3 l]]]; simpl;
    repeat case_match; simpl; try done; simplify_eq/=; try done.
Qed.

Lemma runes_fuel n l : (length l <= n)%nat -> runes_upto n l = runes l.
Proof.
  unfold runes. revert l. induction n as [n IH] using lt_wf_ind. intros l Hl.
  destruct l as [|b l]; [by destruct n|]. destruct n as [|n]; simpl in Hl; [lia|].
  cbn [runes_upto length]. f_equal.
  pose proof (decode_rune_width (b :: l) ltac:(done)) as Hw. simpl in Hw.
  set (w := snd (decode_rune (b :: l))) in *.
  assert (length (drop w (b :: l)) <= length l)%nat as Hd.
  { rewrite length_drop. simpl in *. lia. }
  rewrite (IH n) by lia. symmetry. destruct (decide (length l < S n)%nat).
  - apply IH; [lia|done].
  - lia.
Qed.

Lemma runes_cons l : l <> [] ->
  runes l = decode_rune l :: runes (drop (snd (decode_rune l)) l).
Proof.
  destruct l as [|b l]; [done|]. intros _.
  pose proof (decode_rune_width (b :: l) ltac:(done)) as Hw.
  unfold runes at 1. cbn [length runes_upto]. f_equal. apply runes_fuel.
  rewrite length_drop. simpl in *. lia.
Qed.

Lemma runes_nil : runes [] = [].
Proof. done. Qed.

Lemma length_runes l : (length (runes l) <= length l)%nat.
Proof.
  unfold runes. generalize (length l) as n. intros n. revert l.
  induction n as [|n IH]; intros l; simpl; [lia|].
  destruct l; simpl; [lia|]. apply le_n_S, IH.
Qed.

(** A valid sequence decodes the same in front of anything. *)
Lemma runes_app a b : valid_bytes a = true -> runes (a ++ b) = runes a ++ runes b.
Proof.
  remember (length a) as n eqn:Hn. revert a Hn.
  induction n as [n IH] using lt_wf_ind. intros a -> Hv.
  destruct a as [|x a]; [done|].
  pose proof (decode_rune_width (x :: a) ltac:(done)) as Hw.
  unfold valid_bytes in Hv. rewrite runes_cons in Hv by done.
  simpl forallb in Hv. apply andb_prop in Hv as [Hr Hv].
  rewrite (runes_cons (x :: a)) by done.
  rewrite runes_cons by done. rewrite decode_rune_app by done.
  rewrite drop_app_le by lia. simpl. f_equal.
  eapply IH; [|done|done]. rewrite length_drop. simpl in *. lia.
Qed.

Lemma valid_bytes_app a b :
  valid_bytes a = true -> valid_bytes (a ++ b) = valid_bytes b.
Proof.
  intros Ha. unfold valid_bytes in *. by rewrite runes_app, forallb_app, Ha.
Qed.

Lemma ValidString_app a b :
  ValidString a = true -> ValidString b = true -> ValidString (a ++ b)%string = true.
Proof. unfold ValidString. rewrite bytes_of_app. intros Ha. by rewrite valid_bytes_app. Qed.

Lemma string_app_assoc (a b c : string) : ((a ++ b) ++ c)%string = (a ++ (b ++ c))%string.
Proof. induction a as [|x a IH]; [done|exact (f_equal (String x) IH)]. Qed.

Lemma string_app_nil_r (a : string) : (a ++ "")%string = a.
Proof. induction a as [|x a IH]; [done|exact (f_equal (String x) IH)]. Qed.

Lemma len_app a b : len (a ++ b)%string = (len a + len b)%Z.
Proof.
  unfold len. induction a as [|c a IH]; [done|].
  change (String c a ++ b)%string with (String c (a ++ b)). cbn [String.length]. lia.
Qed.

Lemma len_nonneg s : (0 <= len s)%Z.
Proof. unfold len. lia. Qed.

Lemma len_zero s : len s = 0%Z <-> s = ""%string.
Proof. unfold len. destruct s; simpl; split; intros; try done; lia. Qed.

Lemma rune_count_app a b : ValidString a = true -> rune_count (a ++ b)%string = (rune_count a + rune_count b)%Z.
Proof. intros Ha. unfold rune_count. rewrite bytes_of_app, runes_app by done. rewrite length_app. lia. Qed.

(** Characters never outnumber bytes. *)
Lemma rune_count_len s : (0 <= rune_count s <= len s)%Z.
Proof.
  unfold rune_count, len. pose proof (length_runes (bytes_of s)).
  rewrite length_bytes_of in *. lia.
Qed.

Lemma rune_count_pos s : s <> ""%string -> (1 <= rune_count s)%Z.
Proof.
  intros Hs. unfold rune_count. rewrite runes_cons; simpl; [lia|].
  destruct s; simpl; done.
Qed.

#[export] Hint Resolve len_nonneg ValidString_app rune_count_pos : mempher.

(** The control characters are those the two ranges of Cc list, and an ASCII
    blank is white space without being a control character. *)
Example IsControl_newline : IsControl 0x0A = true. Proof. reflexivity. Qed.
Example TrimSpace_both : TrimSpace "  a b	" = "a b"%string. Proof. reflexivity. Qed.
Example ValidString_e_acute : ValidString (of_bytes [0xC3; 0xA9]) = true.
Proof. reflexivity. Qed.
Example ValidString_cut : ValidString (of_bytes [0xC3]) = false. Proof. reflexivity. Qed.

Lemma len_slice_to s n : len (slice_to s n) = Z.min (Z.of_nat n) (len s).
Proof.
  unfold len, slice_to. revert n. induction s as [|c s IH]; intros [|n]; simpl; [lia|lia|lia|].
  specialize (IH n). lia.
Qed.

(** ** Cutting *)

(** A rune reads the bytes it is wide, at most four. *)
Lemma decode_rune_prefix l :
  l <> [] -> rune_ok (decode_rune l) = true ->
  decode_rune (take (snd (decode_rune l)) l) = decode_rune l /\ (snd (decode_rune l) <= 4)%nat.
Proof.
  destruct l as [|b0 l]; [done|]. intros _. unfold decode_rune at 1 3 4 5.
  destruct (b0 <? 0x80) eqn:E0.
  { intros _. cbn [snd take]. cbn. rewrite E0. split; [done|lia]. }
  destruct (in_range 0xC2 b0 0xDF) eqn:E1.
  { destruct l as [|b1 l]; [done|]. destruct (is_cont b1) eqn:E2; [|done].
    intros _. cbn [snd take]. cbn. rewrite E0, E1, E2. split; [done|lia]. }
  destruct (in_range 0xE0 b0 0xEF) eqn:E2.
  { destruct l as [|b1 [|b2 l]]; [done..|]. destruct (_ && _) eqn:E3; [|done].
    intros _. cbn [snd take]. cbn. rewrite E0, E1, E2, E3. split; [done|lia]. }
  destruct (in_range 0xF0 b0 0xF4) eqn:E3; [|done].
  destruct l as [|b1 [|b2 [|b3 l]]]; [done..|]. destruct (_ && _) eqn:E4; [|done].
  intros _. cbn [snd take]. cbn. rewrite E0, E1, E2, E3, E4. split; [done|lia].
Qed.

Lemma rune_alone l :
  l <> [] -> rune_ok (decode_rune l) = true -> valid_bytes (take (snd (decode_rune l)) l) = true.
Proof.
  intros Hl Hok. destruct (decode_rune_prefix l Hl Hok) as [Hp _].
  pose proof (decode_rune_width l Hl) as Hw. set (w := snd (decode_rune l)) in *.
  assert (take w l <> []) as Hne by (intros H; apply (f_equal length) in H; rewrite length_take in H; simpl in H; lia).
  unfold valid_bytes. rewrite runes_cons by done. rewrite Hp. fold w.
  rewrite drop_ge by (rewrite length_take; lia). rewrite runes_nil. simpl. by rewrite Hok.
Qed.

(** A cut of a valid sequence is at most three bytes past a boundary. *)
Lemma valid_bytes_cut l n :
  valid_bytes l = true -> (n <= length l)%nat ->
  exists k, (k <= 3)%nat /\ (k <= n)%nat /\ valid_bytes (take (n - k) l) = true.
Proof.
  remember (length l) as len eqn:Hlen. revert l n Hlen.
  induction len as [len IH] using lt_wf_ind. intros l n -> Hv Hn.
  destruct l as [|b l]; [exists 0%nat; split; [lia|split; [lia|by destruct (n - 0)%nat]]|].
  pose proof (decode_rune_width (b :: l) ltac:(done)) as Hw.
  unfold valid_bytes in Hv. rewrite runes_cons in Hv by done. simpl forallb in Hv.
  apply andb_prop in Hv as [Hr Hv]. destruct (decode_rune_prefix (b :: l) ltac:(done) Hr) as [_ H4].
  pose proof (rune_alone (b :: l) ltac:(done) Hr) as Ha.
  set (w := snd (decode_rune (b :: l))) in *. destruct (decide (n < w)%nat) as [Hlt|Hge].
  { exists n. split; [lia|]. split; [lia|]. by rewrite Nat.sub_diag. }
  destruct (IH (length (drop w (b :: l))) ltac:(rewrite length_drop; lia) (drop w (b :: l)) (n - w)%nat
    eq_refl Hv ltac:(rewrite length_drop; lia)) as (k & Hk3 & Hkn & Hk).
  exists k. split; [lia|]. split; [lia|].
  replace (take (n - k) (b :: l)) with (take w (b :: l) ++ take (n - w - k) (drop w (b :: l))).
  - by rewrite valid_bytes_app.
  - rewrite <- (take_drop w (b :: l)) at 3. rewrite take_app. f_equal.
    + rewrite take_take. f_equal. lia.
    + f_equal. rewrite length_take. lia.
Qed.

Lemma bytes_of_slice_to s n : bytes_of (slice_to s n) = take n (bytes_of s).
Proof.
  unfold bytes_of, slice_to. revert n. induction s as [|c s IH]; intros [|n]; simpl; [done..|].
  f_equal. apply IH.
Qed.

Lemma slice_to_slice_to s n k : (n <= k)%nat -> slice_to (slice_to s k) n = slice_to s n.
Proof.
  unfold slice_to. revert n k. induction s as [|c s IH]; intros [|n] [|k] H; simpl; try done; [lia|].
  f_equal. apply IH. lia.
Qed.

Lemma slice_to_all s n : (String.length s <= n)%nat -> slice_to s n = s.
Proof.
  unfold slice_to. revert n. induction s as [|c s IH]; intros [|n] H; simpl in *; try done; [lia|].
  f_equal. apply IH. lia.
Qed.

(** As above, for strings. *)
Lemma ValidString_cut_near s n :
  ValidString s = true -> (n <= String.length s)%nat ->
  exists k, (k <= 3)%nat /\ (k <= n)%nat /\ ValidString (slice_to s (n - k)) = true.
Proof.
  intros Hv Hn. destruct (valid_bytes_cut (bytes_of s) n Hv) as (k & ? & ? & Hk);
    [by rewrite length_bytes_of|].
  exists k. split; [done|]. split; [done|]. unfold ValidString. by rewrite bytes_of_slice_to.
Qed.
