(* ===== verification/Sha256.v ===== *)
(** * SHA-256 ([crypto/sha256], [encoding/hex])

    The digest the program takes of a migration's source ([postgres/migrations.go])
    and of an extractor's options ([extract/extract.go]): words are naturals below
    2^32, and the result is the hexadecimal text. *)

From S2P Require Import Prelude Utf8.

#[local] Open Scope N_scope.

Definition word (x : N) : N := N.land x 0xFFFFFFFF.
Definition add32 (x y : N) : N := word (x + y).
Definition rotr (n x : N) : N := N.lor (N.shiftr x n) (word (N.shiftl x (32 - n))).
Definition not32 (x : N) : N := N.lxor x 0xFFFFFFFF.

Definition big0 (x : N) : N := N.lxor (rotr 2 x) (N.lxor (rotr 13 x) (rotr 22 x)).
Definition big1 (x : N) : N := N.lxor (rotr 6 x) (N.lxor (rotr 11 x) (rotr 25 x)).
Definition small0 (x : N) : N := N.lxor (rotr 7 x) (N.lxor (rotr 18 x) (N.shiftr x 3)).
Definition small1 (x : N) : N := N.lxor (rotr 17 x) (N.lxor (rotr 19 x) (N.shiftr x 10)).
Definition choose (x y z : N) : N := N.lxor (N.land x y) (N.land (not32 x) z).
Definition majority (x y z : N) : N := N.lxor (N.land x y) (N.lxor (N.land x z) (N.land y z)).

(** *** The constants

    As the standard defines them: the first thirty-two bits of the fractional
    parts of the cube roots and of the square roots of the first primes. *)
Definition is_prime (n : N) : bool :=
  forallb (fun d => negb (n mod d =? 0)) (map N.of_nat (seq 2 (N.to_nat n - 2))).
Definition primes (n : nat) : list N := take n (List.filter is_prime (map N.of_nat (seq 2 310))).

(** The largest [r] below [lo + 2^bits] whose cube is at most [x]. *)
Fixpoint cube_root (bits : nat) (lo x : N) : N :=
  match bits with
  | O => lo
  | S bits' =>
      let mid := lo + 2 ^ N.of_nat bits' in
      cube_root bits' (if mid * mid * mid <=? x then mid else lo) x
  end.

Definition cube_fraction (p : N) : N := word (cube_root 36 0 (N.shiftl p 96)).
Definition square_fraction (p : N) : N := word (N.sqrt (N.shiftl p 64)).

Definition round_constants : list N := Eval vm_compute in map cube_fraction (primes 64).

Record Digest : Set := MkDigest { da : N; db : N; dc : N; dd : N; de : N; df : N; dg : N; dh : N }.

Definition initial : Digest := Eval vm_compute in
  match map square_fraction (primes 8) with
  | [a; b; c; d; e; f; g; h] => MkDigest a b c d e f g h
  | _ => MkDigest 0 0 0 0 0 0 0 0
  end.

(** One round: [k] the constant, [w] the word of the schedule. *)
Definition round (s : Digest) (kw : N * N) : Digest :=
  let t1 := add32 (dh s) (add32 (big1 (de s)) (add32 (choose (de s) (df s) (dg s)) (add32 kw.1 kw.2))) in
  let t2 := add32 (big0 (da s)) (majority (da s) (db s) (dc s)) in
  MkDigest (add32 t1 t2) (da s) (db s) (dc s) (add32 (dd s) t1) (de s) (df s) (dg s).

(** The schedule, newest word first, extended by [n] words. *)
Fixpoint extend_schedule (n : nat) (ws : list N) : list N :=
  match n with
  | O => ws
  | S n' =>
      extend_schedule n'
        (add32 (small1 (nth 1 ws 0)) (add32 (nth 6 ws 0) (add32 (small0 (nth 14 ws 0)) (nth 15 ws 0))) :: ws)
  end.

Definition absorb_block (s : Digest) (block : list N) : Digest :=
  let t := foldl round s (zip round_constants (rev (extend_schedule 48 (rev block)))) in
  MkDigest (add32 (da s) (da t)) (add32 (db s) (db t)) (add32 (dc s) (dc t)) (add32 (dd s) (dd t))
    (add32 (de s) (de t)) (add32 (df s) (df t)) (add32 (dg s) (dg t)) (add32 (dh s) (dh t)).

(** [n] bytes of [x], big-endian. *)
Fixpoint big_endian (n : nat) (x : N) : list N :=
  match n with
  | O => []
  | S n' => big_endian n' (N.shiftr x 8) ++ [N.land x 0xFF]
  end.

(** The message, a one bit, zeros to eight bytes short of a block, its bit length. *)
Definition padded (msg : list N) : list N :=
  let l := N.of_nat (length msg) in
  msg ++ 0x80 :: repeat 0 (N.to_nat ((119 - l mod 64) mod 64)) ++ big_endian 8 (8 * l).

Fixpoint words_of (l : list N) : list N :=
  match l with
  | a :: b :: c :: d :: l' => N.lor (N.shiftl a 24) (N.lor (N.shiftl b 16) (N.lor (N.shiftl c 8) d)) :: words_of l'
  | _ => []
  end.

(** The words, sixteen at a time; as many blocks as words are enough. *)
Fixpoint absorb_all (fuel : nat) (ws : list N) (s : Digest) : Digest :=
  match fuel, ws with
  | S fuel', _ :: _ => absorb_all fuel' (drop 16 ws) (absorb_block s (take 16 ws))
  | _, _ => s
  end.

Definition Sum256 (msg : list N) : list N :=
  let ws := words_of (padded msg) in
  let s := absorb_all (length ws) ws initial in
  concat (map (big_endian 4) [da s; db s; dc s; dd s; de s; df s; dg s; dh s]).

(** [hex.EncodeToString]. *)
Definition hex_digit (n : N) : N := if n <? 10 then 48 + n else 87 + n.
Definition EncodeToString (l : list N) : string :=
  of_bytes (concat (map (fun b => [hex_digit (N.shiftr b 4); hex_digit (N.land b 15)]) l)).

Definition sha256_hex (s : string) : string := EncodeToString (Sum256 (bytes_of s)).

(** The published test vectors of one and of two blocks. *)
Example sha256_abc :
  sha256_hex "abc" = "ba7816bf8f01cfea414140de5dae2223b00361a396177a9cb410ff61f20015ad"%string.
Proof. vm_compute. reflexivity. Qed.

Example sha256_two_blocks :
  sha256_hex "abcdbcdecdefdefgefghfghighijhijkijkljklmklmnlmnomnopnopq" =
    "248d6a61d20638b8e5c026930c3e6039a33ce45964ff2167f6ecedd419db06c1"%string.
Proof. vm_compute. reflexivity. Qed.

Lemma length_EncodeToString l : String.length (EncodeToString l) = (2 * length l)%nat.
Proof.
  unfold EncodeToString. rewrite <- length_bytes_of. unfold bytes_of, of_bytes.
  rewrite String.list_ascii_of_string_of_list_ascii, !length_map. induction l as [|b l IH]; cbn; [done|]. lia.
Qed.

Lemma length_big_endian n x : length (big_endian n x) = n.
Proof. revert x. induction n as [|n IH]; intros x; cbn; [done|]. rewrite length_app, IH. cbn. lia. Qed.

(** A digest is sixty-four hexadecimal digits. *)
Lemma length_sha256_hex s : String.length (sha256_hex s) = 64%nat.
Proof. unfold sha256_hex. by rewrite length_EncodeToString. Qed.
