(* ===== verification/Strconv.v ===== *)
(** * Decimal text ([strconv])

    [Atoi] and [Itoa], and that one undoes the other: the numbers in a migration's
    name and in an extension's version, and the lengths in an extractor's digest. *)

From S2P Require Import Prelude Utf8.

#[local] Open Scope Z_scope.

Definition is_digit (b : N) : bool := in_range 48 b 57.

(** The value of a run of decimal digits. *)
Definition digits_value (l : list N) : Z := foldl (fun acc b => 10 * acc + Z.of_N (b - 48)) 0 l.

(** [strconv.Atoi]: an optional sign, digits, and a value of an [int]. *)
Definition Atoi (s : string) : option Z :=
  let signed := match bytes_of s with
                | b :: l => if N.eqb b 45 then (-1, l) else if N.eqb b 43 then (1, l) else (1, b :: l)
                | [] => (1, [])
                end in
  match signed.2 with
  | [] => None
  | l =>
      let v := signed.1 * digits_value l in
      if forallb is_digit l && (- 2 ^ 63 <=? v) && (v <? 2 ^ 63) then Some v else None
  end.

(** The digits of [n]; its binary size is enough fuel. *)
Fixpoint digits_upto (fuel : nat) (n : N) : list N :=
  match fuel with
  | O => []
  | S fuel' => if (n <? 10)%N then [(48 + n)%N] else digits_upto fuel' (n / 10) ++ [(48 + n mod 10)%N]
  end.
Definition digits_of (n : N) : list N := digits_upto (S (N.size_nat n)) n.

(** [strconv.Itoa]. *)
Definition Itoa (z : Z) : string :=
  of_bytes (if z <? 0 then 45%N :: digits_of (Z.to_N (- z)) else digits_of (Z.to_N z)).

(** ** Bytes and strings *)

Lemma bytes_below s : Forall (fun b => (b < 256)%N) (bytes_of s).
Proof. apply Forall_forall. intros b (c & -> & _)%list_elem_of_fmap. apply Ascii.N_ascii_bounded. Qed.

Lemma bytes_of_bytes l : Forall (fun b => (b < 256)%N) l -> bytes_of (of_bytes l) = l.
Proof.
  intros Hl. unfold bytes_of, of_bytes. rewrite String.list_ascii_of_string_of_list_ascii, map_map.
  rewrite <- (map_id l) at 2. apply map_ext_in. intros b Hb%list_elem_of_In. rewrite Forall_forall in Hl.
  by apply Ascii.N_ascii_embedding, Hl.
Qed.

Lemma of_bytes_of s : of_bytes (bytes_of s) = s.
Proof.
  unfold bytes_of, of_bytes. rewrite map_map. rewrite <- (String.string_of_list_ascii_of_string s) at 2. f_equal.
  rewrite <- (map_id (String.list_ascii_of_string s)) at 2. apply map_ext. intros a. apply Ascii.ascii_N_embedding.
Qed.

Lemma bytes_of_inj s t : bytes_of s = bytes_of t -> s = t.
Proof. intros H. by rewrite <- (of_bytes_of s), <- (of_bytes_of t), H. Qed.

(** ** Digits *)

Lemma digits_upto_spec fuel n :
  (n < 2 ^ N.of_nat fuel)%N -> (0 < fuel)%nat ->
  Forall (fun b => (48 <= b <= 57)%N) (digits_upto fuel n) /\ digits_value (digits_upto fuel n) = Z.of_N n /\
  digits_upto fuel n <> [].
Proof.
  revert n. induction fuel as [|fuel IH]; intros n Hn Hpos; [lia|]. cbn [digits_upto].
  destruct (N.ltb_spec n 10) as [Hlt|Hge].
  { split_and!; [apply Forall_singleton; cbv beta; lia| |done]. unfold digits_value. cbn [foldl]. lia. }
  rewrite Nat2N.inj_succ, N.pow_succ_r' in Hn. pose proof (N.div_mod n 10 ltac:(done)) as Hdm.
  pose proof (N.mod_lt n 10 ltac:(done)) as Hm.
  set (q := (n / 10)%N) in *. set (m := (n mod 10)%N) in *. clearbody q m.
  destruct fuel as [|fuel]; [cbn in Hn; lia|].
  destruct (IH q) as (Hd & Hv & _); [lia..|].
  split_and!.
  - apply Forall_app. split; [done|apply Forall_singleton; cbv beta; lia].
  - unfold digits_value in *. rewrite foldl_app, Hv. cbn [foldl]. lia.
  - by destruct (digits_upto _ _).
Qed.

Lemma digits_of_spec n :
  Forall (fun b => (48 <= b <= 57)%N) (digits_of n) /\ digits_value (digits_of n) = Z.of_N n /\ digits_of n <> [].
Proof.
  unfold digits_of. apply digits_upto_spec; [|lia]. rewrite Nat2N.inj_succ, N.pow_succ_r'.
  assert (N.size n = N.of_nat (N.size_nat n)) as Heq.
  { destruct n as [|p]; [done|]. cbn. induction p as [p IH|p IH|]; cbn; [..|done]; rewrite ?IH; lia. }
  rewrite <- Heq. pose proof (N.size_gt n) as Hgt. set (p := (2 ^ N.size n)%N) in *. clearbody p. lia.
Qed.

Lemma digits_bytes n : Forall (fun b => (b < 256)%N) (digits_of n).
Proof. eapply Forall_impl; [apply digits_of_spec|]. cbn. lia. Qed.

Lemma bytes_of_Itoa z : 0 <= z -> bytes_of (Itoa z) = digits_of (Z.to_N z).
Proof.
  intros Hz. unfold Itoa. replace (z <? 0) with false by lia. apply bytes_of_bytes, digits_bytes.
Qed.

Lemma Itoa_inj y z : 0 <= y -> 0 <= z -> Itoa y = Itoa z -> y = z.
Proof.
  intros Hy Hz Heq%(f_equal bytes_of). rewrite !bytes_of_Itoa in Heq by done.
  destruct (digits_of_spec (Z.to_N y)) as (_ & Hvy & _), (digits_of_spec (Z.to_N z)) as (_ & Hvz & _).
  rewrite Heq in Hvy. lia.
Qed.

Lemma all_digits l : Forall (fun b => (48 <= b <= 57)%N) l -> forallb is_digit l = true.
Proof.
  intros Hd. apply forallb_forall. intros x Hx%list_elem_of_In. rewrite Forall_forall in Hd.
  destruct (Hd x Hx). unfold is_digit, in_range. by apply andb_true_iff; split; apply N.leb_le.
Qed.

(** What [Itoa] writes of an [int], [Atoi] reads. *)
Lemma Atoi_Itoa z : - 2 ^ 63 <= z < 2 ^ 63 -> Atoi (Itoa z) = Some z.
Proof.
  intros Hz. unfold Atoi, Itoa. destruct (Z.ltb_spec z 0) as [Hneg|Hpos].
  - rewrite bytes_of_bytes by (constructor; [done|apply digits_bytes]). cbn [N.eqb Pos.eqb fst snd].
    destruct (digits_of_spec (Z.to_N (- z))) as (Hd & Hv & Hne). destruct (digits_of _) as [|b l]; [done|].
    rewrite Hv. replace (forallb is_digit (b :: l)) with true.
    + replace (-1 * Z.of_N (Z.to_N (- z))) with z by lia. replace (- 2 ^ 63 <=? z) with true by lia.
      by replace (z <? 2 ^ 63) with true by lia.
    + symmetry. by apply all_digits.
  - rewrite bytes_of_bytes by apply digits_bytes.
    destruct (digits_of_spec (Z.to_N z)) as (Hd & Hv & Hne). destruct (digits_of _) as [|b l]; [done|].
    assert ((48 <= b <= 57)%N) as Hb by (by apply Forall_cons in Hd as [? _]).
    rewrite (proj2 (N.eqb_neq b 45)), (proj2 (N.eqb_neq b 43)) by lia. cbn [fst snd].
    rewrite Hv. replace (forallb is_digit (b :: l)) with true.
    + replace (1 * Z.of_N (Z.to_N z)) with z by lia. replace (- 2 ^ 63 <=? z) with true by lia.
      by replace (z <? 2 ^ 63) with true by lia.
    + symmetry. by apply all_digits.
Qed.

(** ** Padding *)

Lemma digits_upto_length fuel n k : (n < 10 ^ N.of_nat (S k))%N -> (length (digits_upto fuel n) <= S k)%nat.
Proof.
  revert n k. induction fuel as [|fuel IH]; intros n k Hn; cbn [digits_upto]; [cbn; lia|].
  destruct (N.ltb_spec n 10) as [|Hge]; [cbn; lia|]. rewrite length_app. cbn [length].
  destruct k as [|k]; [cbn in Hn; lia|]. rewrite Nat2N.inj_succ, N.pow_succ_r' in Hn.
  specialize (IH (n / 10)%N k). rewrite Nat.add_1_r. apply le_n_S, IH. apply N.Div0.div_lt_upper_bound. lia.
Qed.

Lemma digits_value_zeros k l : digits_value (repeat 48%N k ++ l) = digits_value l.
Proof. induction k as [|k IH]; [done|]. unfold digits_value in *. cbn [repeat app foldl]. by rewrite <- IH. Qed.

Lemma zeros_digits k : Forall (fun b => (48 <= b <= 57)%N) (repeat 48%N k).
Proof. induction k as [|k IH]; constructor; [lia|done]. Qed.
