(* ===== verification/GoNum.v ===== *)
(** * Go floating-point numbers and [cmp.Compare]

    [float32] and [float64] are IEEE 754 binary32 and binary64; the Standard
    Library's [SpecFloat] gives their arithmetic as executable functions over
    an inductive type, so scores here carry the rounding they carry in Go. *)

From Stdlib Require Export SpecFloat.
From S2P Require Import Prelude.

#[local] Open Scope Z_scope.

Notation float64 := spec_float (only parsing).
Notation float32 := spec_float (only parsing).

#[export] Instance spec_float_eq_dec : EqDecision spec_float.
Proof. solve_decision. Defined.

(** [float64(z)] for an integer, and the literals the source writes. *)
Definition f64_of_Z (z : Z) : float64 := binary_normalize 53 1024 z 0 false.
Definition f32_of_Z (z : Z) : float32 := binary_normalize 24 128 z 0 false.
(** [n / 2^k], exactly representable here. *)
Definition f64_of_dyadic (n k : Z) : float64 := binary_normalize 53 1024 n (- k) false.
Definition f32_of_dyadic (n k : Z) : float32 := binary_normalize 24 128 n (- k) false.

Definition f64_add : float64 -> float64 -> float64 := SFadd 53 1024.
Definition f64_sub : float64 -> float64 -> float64 := SFsub 53 1024.
Definition f64_mul : float64 -> float64 -> float64 := SFmul 53 1024.
Definition f64_div : float64 -> float64 -> float64 := SFdiv 53 1024.

(** [float32(x)] for a [float64]. *)
Definition f32_of_f64 (x : float64) : float32 :=
  match x with
  | S754_finite s m e => binary_normalize 24 128 (cond_Zopp s (Zpos m)) e s
  | _ => x
  end.

Definition f_zero : spec_float := S754_zero false.

(** [<] and [>], both false when an operand is NaN. *)
Definition f_ltb (x y : spec_float) : bool :=
  match SFcompare x y with Some Lt => true | _ => false end.
Definition f_gtb (x y : spec_float) : bool := f_ltb y x.
Definition f_eqb (x y : spec_float) : bool :=
  match SFcompare x y with Some Eq => true | _ => false end.

Definition is_nan (x : spec_float) : bool :=
  match x with S754_nan => true | _ => false end.
Definition is_inf (x : spec_float) : bool :=
  match x with S754_infinity _ => true | _ => false end.

(** [cmp.Compare] on floats: a NaN is less than any number and equal to a NaN,
    and the two zeros are equal. *)
Definition fcompare (x y : spec_float) : comparison :=
  if is_nan x then (if is_nan y then Eq else Lt)
  else if is_nan y then Gt
  else match SFcompare x y with Some c => c | None => Eq end.

(** ** [cmp.Compare] is a total preorder *)

(** The order key: the class, then the exponent, then the mantissa. *)
Definition fkey (x : spec_float) : Z * Z * Z :=
  match x with
  | S754_nan => (-3, 0, 0)
  | S754_infinity true => (-2, 0, 0)
  | S754_finite true m e => (-1, - e, - Zpos m)
  | S754_zero _ => (0, 0, 0)
  | S754_finite false m e => (1, e, Zpos m)
  | S754_infinity false => (2, 0, 0)
  end.

Definition key_compare : Z * Z * Z -> Z * Z * Z -> comparison :=
  cmp_lex (cmp_on (fun k => k.1.1) Z.compare)
    (cmp_lex (cmp_on (fun k => k.1.2) Z.compare) (cmp_on snd Z.compare)).

#[export] Instance key_compare_total : TotalCmp key_compare.
Proof. apply cmp_lex_total; [|apply cmp_lex_total]; apply cmp_on_total, Zcompare_total. Qed.

Lemma key_compare_eq c x y z x' y' z' :
  c = match x ?= x' with
      | Eq => match y ?= y' with Eq => z ?= z' | o => o end
      | o => o
      end ->
  c = key_compare (x, y, z) (x', y', z').
Proof. auto. Qed.

Lemma fcompare_key x y : fcompare x y = key_compare (fkey x) (fkey y).
Proof.
  destruct x as [[]|[]| |[] m e], y as [[]|[]| |[] m' e'];
    apply key_compare_eq; try reflexivity.
  unfold fcompare. simpl. rewrite Z.compare_opp, (Z.compare_antisym e e'). by destruct (e ?= e').
Qed.

#[export] Instance fcompare_total : TotalCmp fcompare.
Proof.
  split; intros *; rewrite !fcompare_key; [apply cmp_flip|apply cmp_trans].
Qed.
#[global] Opaque key_compare.
