(* ===== verification/FloatInt.v ===== *)
(** * Floating-point numbers that are integers

    Where a computation stays among integers a format represents exactly, its sums,
    products and conversions round nothing; and a rounding whose operand is far from
    the largest exponent overflows to nothing. *)

From S2P Require Import Prelude GoNum.

#[local] Open Scope Z_scope.

(** ** Shifting *)

Lemma digits_log2 p : Zpos (digits2_pos p) = Z.log2 (Zpos p) + 1.
Proof.
  induction p as [p IH|p IH|]; cbn [digits2_pos]; [| |done]; rewrite Pos2Z.inj_succ, IH.
  - rewrite Pos2Z.inj_xI, Z.log2_succ_double by lia. lia.
  - rewrite Pos2Z.inj_xO, Z.log2_double by lia. lia.
Qed.

Lemma Zdigits2_log2 z : 0 < z -> Zdigits2 z = Z.log2 z + 1.
Proof. destruct z; [lia|intros _; apply digits_log2|lia]. Qed.

Lemma iter_pos_nat {A} (f : A -> A) p x : iter_pos f p x = Nat.iter (Pos.to_nat p) f x.
Proof.
  revert x. induction p as [p IH|p IH|]; intros x; cbn [iter_pos]; [| |done].
  - rewrite !IH, Pos2Nat.inj_xI, Nat.iter_succ_r, Nat.mul_comm, Nat.mul_succ_r, Nat.mul_1_r, Nat.iter_add. done.
  - rewrite !IH, Pos2Nat.inj_xO, Nat.mul_comm, Nat.mul_succ_r, Nat.mul_1_r, Nat.iter_add. done.
Qed.

Lemma iter_xO p d : Zpos (Pos.iter xO p d) = Zpos p * 2 ^ Zpos d.
Proof.
  enough (forall n, Zpos (Nat.iter n xO p) = Zpos p * 2 ^ Z.of_nat n) as H
    by (rewrite Pos2Nat.inj_iter; etransitivity; [apply H|by rewrite positive_nat_Z]).
  induction n as [|n IH]; [cbn; lia|]. rewrite Nat.iter_succ, Pos2Z.inj_xO, IH, Nat2Z.inj_succ, Z.pow_succ_r by lia. lia.
Qed.

(** [shr_1] halves, and of an even number loses nothing. *)
Lemma shr_1_even m : 0 <= m -> shr_1 (Build_shr_record (m * 2) false false) = Build_shr_record m false false.
Proof. intros Hm. rewrite Z.mul_comm. by destruct m. Qed.

Lemma shr_exact n m : 0 <= m ->
  Nat.iter n shr_1 (Build_shr_record (m * 2 ^ Z.of_nat n) false false) = Build_shr_record m false false.
Proof.
  revert m. induction n as [|n IH]; intros m Hm; [by rewrite Z.mul_1_r|].
  rewrite Nat.iter_succ_r, Nat2Z.inj_succ, Z.pow_succ_r, Z.mul_assoc, <- (Z.mul_assoc m 2), (Z.mul_comm 2), Z.mul_assoc by lia.
  rewrite shr_1_even by lia. by apply IH.
Qed.

Lemma shr_1_half r : 0 <= shr_m r -> shr_m (shr_1 r) = shr_m r / 2.
Proof.
  destruct r as [m ? ?]. cbn [shr_m]. intros Hm. destruct m as [|[p|p|]|]; try done; cbn [shr_1 shr_m].
  - rewrite Pos2Z.inj_xI. replace (2 * Z.pos p + 1) with (1 + Z.pos p * 2) by lia. by rewrite Z.div_add.
  - rewrite Pos2Z.inj_xO, Z.mul_comm. by rewrite Z.div_mul.
Qed.

Lemma shr_half n r : 0 <= shr_m r -> shr_m (Nat.iter n shr_1 r) = shr_m r / 2 ^ Z.of_nat n.
Proof.
  intros Hr. induction n as [|n IH]; [by rewrite Z.div_1_r|]. rewrite Nat.iter_succ.
  rewrite shr_1_half, IH, Z.div_div, Nat2Z.inj_succ, Z.pow_succ_r by (rewrite ?IH; try apply Z.div_pos; lia).
  by rewrite Z.mul_comm.
Qed.

(** ** Exact integers of a format *)

Section Format.
Context (prec emax : Z) (Hprec : 1 < prec) (Hemax : prec < emax).

(** The integer [z], exactly. *)
Definition int_float (z : Z) : spec_float := binary_normalize prec emax z 0 false.

(** Where the last digit of an integer with [p]'s digits goes. *)
Definition ulp_of (p : positive) : Z := Z.log2 (Zpos p) + 1 - prec.
Definition mantissa_of (p : positive) : positive := Z.to_pos (Zpos p * 2 ^ (- ulp_of p)).

Lemma ulp_of_bounds p : Zpos p < 2 ^ prec -> 1 - prec <= ulp_of p <= 0.
Proof using Type.
  intros Hp. pose proof (Z.log2_nonneg (Zpos p)). unfold ulp_of.
  assert (Z.log2 (Zpos p) < prec) by (apply Z.log2_lt_pow2; lia). lia.
Qed.

Lemma mantissa_pos p : Zpos p < 2 ^ prec -> Zpos (mantissa_of p) = Zpos p * 2 ^ (- ulp_of p).
Proof using Type.
  intros Hp%ulp_of_bounds. unfold mantissa_of. rewrite Z2Pos.id; [done|].
  assert (0 < 2 ^ (- ulp_of p)) by (apply Z.pow_pos_nonneg; lia). lia.
Qed.

Lemma mantissa_log2 p : Zpos p < 2 ^ prec -> Z.log2 (Zpos (mantissa_of p)) = prec - 1.
Proof using Type.
  intros Hp. pose proof (ulp_of_bounds p Hp). rewrite mantissa_pos, Z.log2_mul_pow2 by lia. unfold ulp_of. lia.
Qed.

Lemma fexp_ulp p : Zpos p < 2 ^ prec -> fexp prec emax (Z.log2 (Zpos p) + 1) = ulp_of p.
Proof using Hprec Hemax.
  intros Hp. pose proof (ulp_of_bounds p Hp). unfold fexp, emin. fold (ulp_of p). unfold ulp_of in *. lia.
Qed.

(** A mantissa that has its digits already stays as it is. *)
Lemma shr_fexp_full p : Zpos p < 2 ^ prec ->
  shr_fexp prec emax (Zpos (mantissa_of p)) (ulp_of p) loc_Exact =
  (Build_shr_record (Zpos (mantissa_of p)) false false, ulp_of p).
Proof using Hprec Hemax.
  intros Hp. unfold shr_fexp. rewrite Zdigits2_log2, mantissa_log2 by done.
  replace (prec - 1 + 1 + ulp_of p) with (Z.log2 (Zpos p) + 1) by (unfold ulp_of; lia).
  by rewrite fexp_ulp, Z.sub_diag by done.
Qed.

(** [p] held as [m] at exponent [-k], with too many digits or just enough. *)
Lemma round_aux_exact s m p k :
  Zpos m = Zpos p * 2 ^ k -> Zpos p < 2 ^ prec -> 0 <= k -> 0 <= ulp_of p + k ->
  binary_round_aux prec emax s (Zpos m) (- k) loc_Exact = S754_finite s (mantissa_of p) (ulp_of p).
Proof using Hprec Hemax.
  intros Hm Hp Hk Hs. unfold binary_round_aux.
  assert (shr_fexp prec emax (Zpos m) (- k) loc_Exact = (Build_shr_record (Zpos (mantissa_of p)) false false, ulp_of p)) as ->.
  { unfold shr_fexp. rewrite Zdigits2_log2, Hm, Z.log2_mul_pow2 by lia.
    replace (k + Z.log2 (Zpos p) + 1 + - k) with (Z.log2 (Zpos p) + 1) by lia.
    rewrite fexp_ulp by done. replace (ulp_of p - - k) with (ulp_of p + k) by lia.
    assert (Zpos p * 2 ^ k = Zpos (mantissa_of p) * 2 ^ (ulp_of p + k)) as ->.
    { rewrite mantissa_pos, <- Z.mul_assoc, <- Z.pow_add_r by (pose proof (ulp_of_bounds p Hp); lia).
      f_equal. f_equal. lia. }
    destruct (ulp_of p + k) as [|n|n] eqn:Hn; [rewrite Z.mul_1_r; cbn; f_equal; lia| |lia].
    unfold shr. rewrite iter_pos_nat, <- (positive_nat_Z n). cbn [shr_record_of_loc].
    rewrite shr_exact, positive_nat_Z by lia. f_equal. lia. }
  cbn [shr_m loc_of_shr_record round_nearest_even]. rewrite shr_fexp_full by done. cbn [shr_m].
  pose proof (ulp_of_bounds p Hp). by replace (ulp_of p <=? emax - prec) with true by lia.
Qed.

Lemma round_exact s m p k :
  Zpos m = Zpos p * 2 ^ k -> Zpos p < 2 ^ prec -> 0 <= k ->
  binary_round prec emax s m (- k) = S754_finite s (mantissa_of p) (ulp_of p).
Proof using Hprec Hemax.
  intros Hm Hp Hk. unfold binary_round. rewrite digits_log2, Hm, Z.log2_mul_pow2 by lia.
  replace (k + Z.log2 (Zpos p) + 1 + - k) with (Z.log2 (Zpos p) + 1) by lia. rewrite fexp_ulp by done.
  unfold shl_align. destruct (ulp_of p - - k) as [|d|d] eqn:Hd; [apply round_aux_exact; lia..|].
  assert (Pos.iter xO m d = mantissa_of p) as ->.
  { apply Pos2Z.inj. rewrite iter_xO, Hm, mantissa_pos, <- Z.mul_assoc, <- Z.pow_add_r by lia. do 2 f_equal. lia. }
  pose proof (ulp_of_bounds p Hp). rewrite <- (Z.opp_involutive (ulp_of p)) at 1.
  apply round_aux_exact; [by rewrite mantissa_pos|done|lia|lia].
Qed.

Lemma round_integer s p : Zpos p < 2 ^ prec -> binary_round prec emax s p 0 = S754_finite s (mantissa_of p) (ulp_of p).
Proof using Hprec Hemax. intros Hp. apply (round_exact s p p 0); lia. Qed.

Definition exact (z : Z) : Prop := Z.abs z < 2 ^ prec.

Lemma normalize_exact z k : exact z -> 0 <= k -> binary_normalize prec emax (z * 2 ^ k) (- k) false = int_float z.
Proof using Hprec Hemax.
  unfold exact, int_float. intros Hz Hk. assert (0 < 2 ^ k) as H2 by (apply Z.pow_pos_nonneg; lia).
  destruct z as [|p|p]; [done| |].
  - destruct (Zpos p * 2 ^ k) as [|m|m] eqn:Hm; [lia| |lia]. cbn [binary_normalize].
    by rewrite (round_exact false m p k), round_integer by lia.
  - destruct (Zneg p * 2 ^ k) as [|m|m] eqn:Hm; [lia|lia|]. cbn [binary_normalize].
    by rewrite (round_exact true m p k), round_integer by lia.
Qed.

Lemma int_float_cases z : exact z ->
  z = 0 /\ int_float z = S754_zero false \/
  exists s p, z = cond_Zopp s (Zpos p) /\ Zpos p < 2 ^ prec /\ int_float z = S754_finite s (mantissa_of p) (ulp_of p).
Proof using Hprec Hemax.
  unfold exact, int_float. intros Hz. destruct z as [|p|p]; [by left|right..].
  - exists false, p. split; [done|]. split; [done|]. by apply round_integer.
  - exists true, p. split; [done|]. split; [done|]. by apply round_integer.
Qed.

(** ** Arithmetic on them *)

Lemma align_value p ez : Zpos p < 2 ^ prec -> ez <= ulp_of p ->
  Zpos (shl_align (mantissa_of p) (ulp_of p) ez).1 = Zpos p * 2 ^ (- ez).
Proof using Hprec.
  intros Hp He. pose proof (ulp_of_bounds p Hp). unfold shl_align.
  destruct (ez - ulp_of p) as [|d|d] eqn:Hd; [|lia|]; cbn [fst].
  - rewrite mantissa_pos by done. do 2 f_equal. lia.
  - rewrite iter_xO, mantissa_pos, <- Z.mul_assoc, <- Z.pow_add_r by lia. do 2 f_equal. lia.
Qed.

Lemma cond_Zopp_mul s z k : cond_Zopp s (z * k) = cond_Zopp s z * k.
Proof using Type. destruct s; cbn; lia. Qed.

Lemma SFadd_int x y : exact x -> exact y -> exact (x + y) ->
  SFadd prec emax (int_float x) (int_float y) = int_float (x + y).
Proof using Hprec Hemax.
  intros Hx Hy Hxy.
  destruct (int_float_cases x Hx) as [[-> Ex]|(s & p & Ez & Hp & Ex)], (int_float_cases y Hy) as [[-> Ey]|(s' & q & Ez' & Hq & Ey)];
    rewrite ?Z.add_0_r, ?Z.add_0_l, ?Ex, ?Ey; [done..|].
  cbn [SFadd]. pose proof (ulp_of_bounds p Hp). pose proof (ulp_of_bounds q Hq).
  rewrite !align_value, !cond_Zopp_mul, <- Ez, <- Ez', <- Z.mul_add_distr_r by lia.
  rewrite <- (Z.opp_involutive (Z.min _ _)) at 2. apply normalize_exact; [done|lia].
Qed.

Lemma SFsub_int x y : exact x -> exact y -> exact (x - y) ->
  SFsub prec emax (int_float x) (int_float y) = int_float (x - y).
Proof using Hprec Hemax.
  intros Hx Hy Hxy.
  destruct (int_float_cases x Hx) as [[-> Ex]|(s & p & Ez & Hp & Ex)], (int_float_cases y Hy) as [[-> Ey]|(s' & q & Ez' & Hq & Ey)];
    rewrite ?Z.sub_0_r, ?Z.sub_0_l, ?Ex, ?Ey; [done| |done|].
  - subst y. unfold int_float. destruct s'; symmetry; by apply round_integer.
  - cbn [SFsub]. pose proof (ulp_of_bounds p Hp). pose proof (ulp_of_bounds q Hq).
    rewrite !align_value, !cond_Zopp_mul, <- Ez, <- Ez', <- Z.mul_sub_distr_r by lia.
    rewrite <- (Z.opp_involutive (Z.min _ _)) at 2. apply normalize_exact; [done|lia].
Qed.

Lemma SFmul_square x : exact x -> exact (x * x) -> SFmul prec emax (int_float x) (int_float x) = int_float (x * x).
Proof using Hprec Hemax.
  intros Hx Hxx. destruct (int_float_cases x Hx) as [[-> Ex]|(s & p & Ez & Hp & Ex)]; rewrite Ex; [done|].
  cbn [SFmul]. rewrite xorb_nilpotent. pose proof (ulp_of_bounds p Hp).
  assert (x * x = Zpos (p * p)) as Hsq by (destruct s; subst x; cbn; lia).
  rewrite Hsq in Hxx |- *. unfold int_float. cbn [binary_normalize]. unfold exact in Hxx. cbn [Z.abs] in Hxx.
  rewrite round_integer by done. replace (ulp_of p + ulp_of p) with (- (- ulp_of p + - ulp_of p)) by lia.
  apply round_aux_exact; [|done|lia|].
  - rewrite Pos2Z.inj_mul, mantissa_pos, Z.pow_add_r by lia. lia.
  - unfold ulp_of at 1. assert (Z.log2 (Zpos p) + Z.log2 (Zpos p) <= Z.log2 (Zpos (p * p))) by (apply Z.log2_mul_below; lia).
    unfold ulp_of in *. lia.
Qed.
End Format.

(** A wider format holds a narrower one's integers. *)
Lemma int_float_widen prec emax prec' emax' z :
  1 < prec -> prec < emax -> 1 < prec' -> prec' < emax' -> exact prec z -> exact prec' z ->
  match int_float prec emax z with
  | S754_finite s m e => binary_normalize prec' emax' (cond_Zopp s (Zpos m)) e s
  | x => x
  end = int_float prec' emax' z.
Proof.
  intros H1 H2 H3 H4 Hz Hz'. destruct (int_float_cases prec emax H1 H2 z Hz) as [[-> ->]|(s & p & Ez & Hp & ->)]; [done|].
  pose proof (ulp_of_bounds prec p Hp). rewrite mantissa_pos, cond_Zopp_mul, <- Ez by done.
  rewrite <- (Z.opp_involutive (ulp_of prec p)) at 2. rewrite <- normalize_exact with (k := - ulp_of prec p) by (done || lia).
  destruct z as [|z|z]; [destruct s; done|..]; destruct (_ * _) eqn:Hm; try done;
    assert (0 < 2 ^ (- ulp_of prec p)) by (apply Z.pow_pos_nonneg; lia); lia.
Qed.

(** ** Sizes *)

(** A number under [2 ^ hi] in absolute value, and one of at least [2 ^ lo]. *)
Definition below (hi : Z) (x : spec_float) : Prop :=
  match x with S754_zero _ => True | S754_finite _ m e => Z.log2 (Zpos m) + e < hi | _ => False end.
Definition above (lo : Z) (x : spec_float) : Prop :=
  match x with S754_finite _ m e => lo <= Z.log2 (Zpos m) + e | _ => False end.

Lemma below_finite hi x : below hi x -> is_nan x = false /\ is_inf x = false.
Proof. by destruct x. Qed.

Section Sizes.
Context (prec emax : Z) (Hprec : 1 < prec) (Hemax : prec < emax).

Lemma shr_fexp_spec m e l : 0 <= m ->
  exists n r, shr_fexp prec emax m e l = (r, e + n) /\ 0 <= n /\ shr_m r = m / 2 ^ n /\
    (n = 0 \/ e + n = fexp prec emax (Zdigits2 m + e)).
Proof using Type.
  intros Hm. assert (shr_m (shr_record_of_loc m l) = m) as Hr by (by destruct l as [|[]]).
  unfold shr_fexp. destruct (fexp prec emax (Zdigits2 m + e) - e) as [|n|n] eqn:Hn; cbn [shr].
  - exists 0, (shr_record_of_loc m l). rewrite Hr, Z.div_1_r. split_and!; [f_equal; lia|done|done|by left].
  - exists (Zpos n), (iter_pos shr_1 n (shr_record_of_loc m l)).
    split; [done|]. split; [done|]. split; [by rewrite iter_pos_nat, shr_half, Hr, positive_nat_Z by lia|right; lia].
  - exists 0, (shr_record_of_loc m l). rewrite Hr, Z.div_1_r. split_and!; [f_equal; lia|done|done|by left].
Qed.

Lemma round_nearest_even_bounds m l : m <= round_nearest_even m l <= m + 1.
Proof using Type. destruct l as [|[]]; cbn; [|destruct (Z.even m)|..]; lia. Qed.

Lemma Zdigits2_le m k : 0 <= m -> 0 <= k -> m < 2 ^ k -> Zdigits2 m <= k.
Proof using Type.
  intros Hm Hk Hlt. destruct (Z.eq_dec m 0) as [->|Hz]; [cbn; lia|]. rewrite Zdigits2_log2 by lia.
  assert (Z.log2 m < k) by (apply Z.log2_lt_pow2; lia). lia.
Qed.

(** A rounding that stays clear of the largest exponent is a number. *)
Lemma round_aux_below s m e l hi :
  0 <= m -> m < 2 ^ (hi - e) -> e <= hi -> e <= emax - prec -> emin prec emax <= hi -> hi < emax ->
  below (hi + 1) (binary_round_aux prec emax s m e l).
Proof using Hprec Hemax.
  intros Hm Hlt He Hex Hmin Hhi. unfold binary_round_aux.
  destruct (shr_fexp_spec m e l Hm) as (n & r & -> & Hn & Hr & Hcase).
  assert (e + n <= hi /\ e + n <= emax - prec) as [Hen Henx].
  { destruct Hcase as [->|Hf]; [lia|]. rewrite Hf. pose proof (Zdigits2_le m (hi - e) Hm ltac:(lia) Hlt).
    unfold fexp, emin in *. lia. }
  set (m' := round_nearest_even (shr_m r) (loc_of_shr_record r)).
  assert (0 <= m' <= 2 ^ (hi - (e + n))) as Hm'.
  { pose proof (round_nearest_even_bounds (shr_m r) (loc_of_shr_record r)) as Hb. fold m' in Hb. rewrite Hr in Hb.
    assert (0 <= m / 2 ^ n < 2 ^ (hi - (e + n))); [|lia]. split; [apply Z.div_pos; lia|].
    apply Z.div_lt_upper_bound; [lia|]. rewrite <- Z.pow_add_r by lia. by replace (n + (hi - (e + n))) with (hi - e) by lia. }
  destruct (shr_fexp_spec m' (e + n) loc_Exact) as (n2 & r2 & -> & Hn2 & Hr2 & Hcase2); [lia|].
  assert (e + n + n2 <= emax - prec) as Hfin.
  { destruct Hcase2 as [->|Hf]; [lia|]. rewrite Hf.
    assert (Zdigits2 m' <= hi - (e + n) + 1); [|unfold fexp, emin in *; lia].
    apply Zdigits2_le; [lia|lia|]. rewrite Z.pow_add_r by lia. lia. }
  destruct (shr_m r2) as [|p|p] eqn:Hp; cbn [below]; [done| |].
  - replace (e + n + n2 <=? emax - prec) with true by lia. cbn [below].
    assert (Zpos p * 2 ^ n2 <= 2 ^ (hi - (e + n))).
    { etransitivity; [|apply Hm']. rewrite Hr2, Z.mul_comm. apply Z.mul_div_le. lia. }
    apply Z.log2_le_mono in H. rewrite Z.log2_mul_pow2, Z.log2_pow2 in H by lia. lia.
  - assert (0 <= m' / 2 ^ n2) by (apply Z.div_pos; lia). lia.
Qed.

Lemma log2_div m n : 0 < m -> 0 <= n <= Z.log2 m -> Z.log2 (m / 2 ^ n) = Z.log2 m - n.
Proof using Type. intros Hm Hn. rewrite <- Z.shiftr_div_pow2 by lia. rewrite Z.log2_shiftr by lia. lia. Qed.

(** Among the normal numbers, rounding does not fall below a power of two. *)
Lemma shr_fexp_above m e l lo :
  0 < m -> lo <= Z.log2 m + e -> emin prec emax + prec <= lo + 1 ->
  exists n r, shr_fexp prec emax m e l = (r, e + n) /\ 0 < shr_m r /\ lo <= Z.log2 (shr_m r) + (e + n).
Proof using Hprec.
  intros Hm Hlo Hmin. destruct (shr_fexp_spec m e l) as (n & r & Hs & Hn & Hr & Hcase); [lia|].
  exists n, r. split; [done|]. pose proof (Z.log2_nonneg m) as H0. assert (0 <= n <= Z.log2 m) as Hnm.
  { destruct Hcase as [->|Hf]; [lia|]. rewrite Zdigits2_log2 in Hf by done. unfold fexp in Hf. lia. }
  rewrite Hr. split; [|rewrite log2_div by done; lia].
  apply Z.div_str_pos. split; [lia|]. etransitivity; [|by apply Z.log2_spec]. apply Z.pow_le_mono_r; lia.
Qed.

Lemma round_aux_above s m e l lo hi :
  0 < m -> lo <= Z.log2 m + e -> emin prec emax + prec <= lo + 1 ->
  m < 2 ^ (hi - e) -> e <= hi -> e <= emax - prec -> emin prec emax <= hi -> hi < emax ->
  above lo (binary_round_aux prec emax s m e l).
Proof using Hprec Hemax.
  intros Hm Hlo Hmin Hlt He Hex Hhi Hmax.
  pose proof (round_aux_below s m e l hi ltac:(lia) Hlt He Hex Hhi Hmax) as Hfin. revert Hfin. unfold binary_round_aux.
  destruct (shr_fexp_above m e l lo Hm Hlo Hmin) as (n & r & -> & Hpos & Hge).
  pose proof (round_nearest_even_bounds (shr_m r) (loc_of_shr_record r)) as Hb.
  set (m' := round_nearest_even (shr_m r) (loc_of_shr_record r)) in *.
  destruct (shr_fexp_above m' (e + n) loc_Exact lo) as (n2 & r2 & -> & Hpos2 & Hge2); [lia| |done|].
  { pose proof (Z.log2_le_mono (shr_m r) m'). lia. }
  destruct (shr_m r2) as [|p|p]; [lia| |lia]. destruct (_ <=? _); cbn [below above]; [lia|done].
Qed.
End Sizes.

(** ** Dividing by a norm *)

Definition f64_sqrt : float64 -> float64 := SFsqrt 53 1024.
(** [float64(x)] for a [float32]. *)
Definition f64_of_f32 (x : float32) : float64 :=
  match x with
  | S754_finite s m e => binary_normalize 53 1024 (cond_Zopp s (Zpos m)) e s
  | _ => x
  end.

Lemma f64_of_f32_int z : exact 24 z -> f64_of_f32 (f32_of_Z z) = f64_of_Z z.
Proof.
  intros Hz. assert (exact 53 z) as Hz' by (eapply Z.lt_trans; [exact Hz|done]).
  pose proof (int_float_widen 24 128 53 1024 z ltac:(lia) ltac:(lia) ltac:(lia) ltac:(lia) Hz Hz') as H.
  change (f64_of_f32 (int_float 24 128 z) = int_float 53 1024 z). rewrite <- H. by destruct (int_float 24 128 z).
Qed.

(** The square root of a positive integer is one at least. *)
Lemma sqrt_above z : 0 < z < 2 ^ 48 -> above 0 (f64_sqrt (f64_of_Z z)) /\ below 25 (f64_sqrt (f64_of_Z z)).
Proof.
  intros [Hz Hlt]. destruct (int_float_cases 53 1024 ltac:(lia) ltac:(lia) z) as [[-> _]|(s & p & Ez & Hp & Hf)];
    [unfold exact; lia|lia|].
  change (f64_of_Z z) with (int_float 53 1024 z). rewrite Hf. assert (s = false /\ z = Zpos p) as [-> ->] by (destruct s; cbn in Ez; lia || done).
  pose proof (ulp_of_bounds 53 p Hp) as Hu. pose proof (mantissa_log2 53 p Hp) as Hlog. pose proof (mantissa_pos 53 p Hp) as Hm.
  assert (Z.log2 (Zpos p) < 48) as Hlp by (apply Z.log2_lt_pow2; lia).
  cbn [SFsqrt f64_sqrt]. unfold f64_sqrt, SFsqrt, SFsqrt_core_binary. rewrite Zdigits2_log2, Hlog by lia.
  set (e := ulp_of 53 p) in *. set (e' := Z.min _ _).
  assert (2 * e' <= e /\ e' <= -1 /\ -1000 <= e') as (He1 & He2 & He3).
  { unfold e', fexp, emin. rewrite !Z.div2_div. unfold e, ulp_of in *. pose proof (Z.log2_nonneg (Zpos p)). Z.div_mod_to_equations. lia. }
  assert ((match e - 2 * e' with Z0 => Zpos (mantissa_of 53 p) | Zpos _ => Z.shiftl (Zpos (mantissa_of 53 p)) (e - 2 * e') | Zneg _ => 0 end)
    = Zpos p * 2 ^ (- 2 * e')) as ->.
  { transitivity (Z.shiftl (Zpos (mantissa_of 53 p)) (e - 2 * e')); [by destruct (e - 2 * e') eqn:Hd; [..|lia]|].
    rewrite Z.shiftl_mul_pow2, Hm, <- Z.mul_assoc, <- Z.pow_add_r by lia. do 2 f_equal. lia. }
  pose proof (Z.sqrtrem_sqrt (Zpos p * 2 ^ (- 2 * e'))) as Hq. destruct (Z.sqrtrem _) as [q r]. cbn [fst] in Hq. subst q.
  assert (2 ^ (- e') * 2 ^ (- e') = 2 ^ (- 2 * e')) as Hsq by (rewrite <- Z.pow_add_r by lia; f_equal; lia).
  assert (0 < 2 ^ (- e')) as H2 by (apply Z.pow_pos_nonneg; lia).
  assert (2 ^ (- e') <= Z.sqrt (Zpos p * 2 ^ (- 2 * e'))) as Hlow by (apply Z.sqrt_le_square; nia).
  assert (Z.sqrt (Zpos p * 2 ^ (- 2 * e')) < 2 ^ (24 - e')) as Hup.
  { apply Z.sqrt_lt_square; [nia|apply Z.pow_nonneg; lia|]. rewrite <- Z.pow_add_r by lia.
    replace (24 - e' + (24 - e')) with (48 + - 2 * e') by lia. rewrite Z.pow_add_r by lia. nia. }
  assert (0 <= Z.log2 (Z.sqrt (Zpos p * 2 ^ (- 2 * e'))) + e') as Hl0.
  { apply Z.log2_le_mono in Hlow. rewrite Z.log2_pow2 in Hlow by lia. lia. }
  split.
  - apply (round_aux_above 53 1024) with (hi := 24); unfold emin; lia.
  - apply (round_aux_below 53 1024) with (hi := 24); unfold emin; lia.
Qed.

(** Dividing by one or more makes nothing larger. *)
Lemma div_below z y : exact 24 z -> above 0 y -> below 25 y -> below 25 (f64_div (f64_of_Z z) y).
Proof.
  intros Hz Ha Hb. assert (exact 53 z) as Hz' by (eapply Z.lt_trans; [exact Hz|done]).
  change (f64_of_Z z) with (int_float 53 1024 z). destruct y as [| | |s2 m2 e2]; cbn [above below] in Ha, Hb; try done.
  destruct (int_float_cases 53 1024 ltac:(lia) ltac:(lia) z Hz') as [[-> ->]|(s & p & Ez & Hp & ->)]; [done|].
  pose proof (ulp_of_bounds 53 p Hp) as Hu. pose proof (mantissa_log2 53 p Hp) as Hlog. pose proof (mantissa_pos 53 p Hp) as Hm.
  assert (Zpos p < 2 ^ 24) as Hp24 by (unfold exact in Hz; destruct s; subst z; cbn in Hz |- *; lia).
  assert (Z.log2 (Zpos p) < 24) as Hlp by (apply Z.log2_lt_pow2; lia).
  cbn [f64_div SFdiv]. unfold f64_div, SFdiv, SFdiv_core_binary. rewrite !Zdigits2_log2, Hlog by lia.
  set (e1 := ulp_of 53 p) in *. set (e' := Z.min _ _). pose proof (Z.log2_nonneg (Zpos m2)) as H2.
  assert (e' <= e1 - e2 /\ e' <= 0) as [He1 He2] by (unfold e', fexp, emin, e1, ulp_of in *; lia).
  assert ((match e1 - e2 - e' with Z0 => Zpos (mantissa_of 53 p) | Zpos _ => Z.shiftl (Zpos (mantissa_of 53 p)) (e1 - e2 - e') | Zneg _ => 0 end)
    = Zpos p * 2 ^ (- e2 - e')) as ->.
  { transitivity (Z.shiftl (Zpos (mantissa_of 53 p)) (e1 - e2 - e')); [by destruct (e1 - e2 - e') eqn:Hd; [..|lia]|].
    rewrite Z.shiftl_mul_pow2, Hm, <- Z.mul_assoc, <- Z.pow_add_r by lia. do 2 f_equal. lia. }
  assert (0 <= - e2 - e') as Hs by lia.
  pose proof (Z.div_eucl_eq (Zpos p * 2 ^ (- e2 - e')) (Zpos m2)) as Hq. 
  pose proof (Z.div_pos (Zpos p * 2 ^ (- e2 - e')) (Zpos m2)) as Hq0.
  pose proof (Z.div_lt_upper_bound (Zpos p * 2 ^ (- e2 - e')) (Zpos m2) (2 ^ (24 - e'))) as Hq1.
  unfold Z.div in Hq0, Hq1. destruct (Z.div_eucl _ _) as [q r].
  assert (0 < 2 ^ (- e2 - e')) as Hpow by (apply Z.pow_pos_nonneg; lia).
  assert (2 ^ (24 - e') * 2 ^ (Z.max 0 (- e2)) >= 2 ^ 24 * 2 ^ (- e2 - e')) as Hge.
  { rewrite <- !Z.pow_add_r by lia. apply Z.le_ge, Z.pow_le_mono_r; lia. }
  assert (2 ^ Z.max 0 (- e2) <= Zpos m2) as Hm2.
  { etransitivity; [|by apply Z.log2_spec]. apply Z.pow_le_mono_r; lia. }
  apply (round_aux_below 53 1024) with (hi := 24); unfold emin in *; try lia.
  apply Hq1; [lia|]. assert (0 < 2 ^ (24 - e')) by (apply Z.pow_pos_nonneg; lia). nia.
Qed.

Lemma f32_of_f64_below x : below 25 x -> below 26 (f32_of_f64 x).
Proof.
  destruct x as [| | |s m e]; try done. cbn [below f32_of_f64]. intros Hx.
  assert (binary_normalize 24 128 (cond_Zopp s (Zpos m)) e s = binary_round 24 128 s m e) as -> by (by destruct s).
  unfold binary_round. rewrite digits_log2. set (t := fexp 24 128 _).
  assert (Z.log2 (Zpos m) + 1 + e - 24 <= t <= 1) as Ht by (unfold t, fexp, emin in *; lia).
  pose proof (Z.log2_nonneg (Zpos m)) as H0. pose proof (Z.log2_spec (Zpos m) ltac:(lia)) as [_ Hm].
  unfold shl_align. destruct (t - e) as [|d|d] eqn:Hd;
    apply (round_aux_below 24 128) with (hi := 25); unfold emin in *; try lia.
  - eapply Z.lt_le_trans; [exact Hm|apply Z.pow_le_mono_r; lia].
  - eapply Z.lt_le_trans; [exact Hm|apply Z.pow_le_mono_r; lia].
  - rewrite iter_xO. replace (25 - t) with (Z.pos d + (25 - e)) by lia. rewrite (Z.pow_add_r 2 (Z.pos d)) by lia.
    assert (2 ^ Z.succ (Z.log2 (Zpos m)) <= 2 ^ (25 - e)) by (apply Z.pow_le_mono_r; lia).
    assert (0 < 2 ^ Z.pos d) by (apply Z.pow_pos_nonneg; lia). nia.
Qed.
