(* ===== verification/GoTime.v ===== *)
(** * Go's [time.Time] and [time.Duration]

    A [Time] is an instant, in nanoseconds since Go's zero time, with the
    identity of its [*Location]: [Before], [After] and [IsZero] read the instant
    alone, while [==] on structs that hold one compares the location pointer
    too. Monotonic clock readings are not modelled. *)

From S2P Require Import Prelude.

#[local] Open Scope Z_scope.

Record Time : Type := MkTime { t_ns : Z; t_loc : N }.

#[export] Instance Time_eq_dec : EqDecision Time.
Proof. solve_decision. Defined.

(** [time.Time{}]; location 0 is UTC. *)
Definition zeroTime : Time := MkTime 0 0.
Definition utc (ns : Z) : Time := MkTime ns 0.

Definition IsZero (t : Time) : bool := t_ns t =? 0.
Definition Before (t u : Time) : bool := t_ns t <? t_ns u.
Definition After (t u : Time) : bool := t_ns u <? t_ns t.
Definition UTC (t : Time) : Time := MkTime (t_ns t) 0.

Definition Duration : Type := Z.
Definition Add (t : Time) (d : Duration) : Time := MkTime (t_ns t + d) (t_loc t).
(** [Time.Sub] saturates. *)
Definition Sub (t u : Time) : Duration := Z.max (- 2 ^ 63) (Z.min maxInt64 (t_ns t - t_ns u)).

Definition Millisecond : Duration := 1000000.
Definition Second : Duration := 1000 * Millisecond.
Definition Minute : Duration := 60 * Second.

Lemma Before_lt t u : Before t u = true <-> t_ns t < t_ns u.
Proof. unfold Before. lia. Qed.
Lemma Before_ge t u : Before t u = false <-> t_ns u <= t_ns t.
Proof. unfold Before. lia. Qed.
Lemma IsZero_eq t : IsZero t = true <-> t_ns t = 0.
Proof. unfold IsZero. lia. Qed.
Lemma IsZero_neq t : IsZero t = false <-> t_ns t <> 0.
Proof. unfold IsZero. lia. Qed.
Lemma UTC_UTC t : UTC (UTC t) = UTC t.
Proof. done. Qed.

#[export] Hint Rewrite Before_lt Before_ge IsZero_eq IsZero_neq : mempher.
