(* ===== verification/Types.v ===== *)
(** * The data model

    The sentinels, identifiers and records of the root package, with the fields
    the Go structs have ([errors.go], [id.go], [episode.go], [append.go],
    [queue.go], [fact.go], [encoding.go], [recall.go], [forget.go]).

    An identifier minted by the database is sixteen bytes; it is kept as the
    number those bytes write in big-endian order, so that [bytes.Compare] is
    comparison of numbers and the zero id is 0. A string type of Go is a
    [string], its declared constants are definitions and [Valid] is the source's
    [switch]; nothing keeps another string out of such a field but a check. *)

From stdpp Require Export gmap.
From S2P Require Export Prelude Utf8 GoNum GoTime.

#[local] Open Scope Z_scope.

(** ** Errors *)

Inductive Sentinel : Set :=
  | ErrInvalidScope | ErrInvalidContent | ErrInvalidRole | ErrInvalidSource
  | ErrInvalidActor | ErrInvalidBinding | ErrInvalidChannel | ErrInvalidJobKind
  | ErrInvalidJobState | ErrInvalidFact | ErrInvalidValidity
  | ErrInvalidExtraction | ErrInvalidConfig
  | ErrNotFound
  | ErrDimensionMismatch | ErrEmbedderMismatch | ErrFactConflict
  | ErrAllChannelsFailed
  | ErrJobNotLeased | ErrJobNotDead | ErrJobOutstanding | ErrClosed.

(** The sentinels of [postgres/errors.go]. *)
Inductive PgSentinel : Set :=
  | ErrUnsupportedServer | ErrMissingExtension | ErrUnsupportedExtension
  | ErrChecksumMismatch | ErrDatabaseAhead | ErrSchemaConfigMismatch
  | ErrSchemaNotReady | ErrLockTimeout.

(** The sentinels of [extract/errors.go]. *)
Inductive ExtractSentinel : Set := ErrMalformedResponse | ErrPromptTooLarge.

#[export] Instance ExtractSentinel_eq_dec : EqDecision ExtractSentinel.
Proof. solve_decision. Defined.
#[export] Instance Sentinel_eq_dec : EqDecision Sentinel.
Proof. solve_decision. Defined.
#[export] Instance PgSentinel_eq_dec : EqDecision PgSentinel.
Proof. solve_decision. Defined.

(** An error, up to its message: the sentinel or the driver error it wraps.
    [fmt.Errorf("...: %w", err)] adds text only and is [err] here; two [%w]
    verbs, like [errors.Join], are [EJoin]. *)
Inductive Error : Set :=
  | EWrap (s : Sentinel)
  | EWrapPg (s : PgSentinel)
  | EWrapX (s : ExtractSentinel)
  | EPg (sqlstate : string)
  | ENoRows
  | EOther (what : string)
  | EJoin (e1 e2 : Error).

#[export] Instance Error_eq_dec : EqDecision Error.
Proof. solve_decision. Defined.

(** [errors.Is]. *)
Fixpoint errors_is (e : Error) (s : Sentinel) : bool :=
  match e with
  | EWrap s' => bool_decide (s' = s)
  | EJoin e1 e2 => errors_is e1 s || errors_is e2 s
  | _ => false
  end.

Abbreviation res := (result Error).

(** ** Identifiers *)

Definition ScopeID : Type := string.
Definition EpisodeID : Type := N.
Definition JobID : Type := N.
Definition FactID : Type := N.
Definition ModelID : Type := string.
Definition ExtractorID : Type := string.
Definition WorkerID : Type := string.
Definition Actor : Type := string.
Definition Source : Type := string.
Definition Subject : Type := string.
Definition Predicate : Type := string.

(** [EpisodeID.IsZero], [JobID.IsZero], [FactID.IsZero]. *)
Definition IsZeroID (id : N) : bool := N.eqb id 0.

Definition MaxScopeIDLen : Z := 200.
Definition MaxActorLen : Z := 200.
Definition MaxSourceLen : Z := 100.

(** ** Episodes *)

Definition MaxContentLen : Z := Z.shiftl 1 20.
Definition MaxBindingKeys : Z := 32.
Definition MaxBindingKeyLen : Z := 64.
Definition MaxBindingValueLen : Z := 512.

Definition Role : Type := string.
Definition RoleUser : Role := "user".
Definition RoleAssistant : Role := "assistant".
Definition RoleSystem : Role := "system".
Definition RoleTool : Role := "tool".
Definition RoleObservation : Role := "observation".

Definition one_of (s : string) (l : list string) : bool := bool_decide (s ∈ l).

(** [Role.Valid]. *)
Definition Role_Valid (r : Role) : bool :=
  one_of r [RoleUser; RoleAssistant; RoleSystem; RoleTool; RoleObservation].

(** [Role.MarshalText] and [Role.UnmarshalText]. *)
Definition Role_MarshalText (r : Role) : res string :=
  if negb (Role_Valid r) then Err (EWrap ErrInvalidRole) else Ok r.
Definition Role_UnmarshalText (text : string) : res Role :=
  let candidate := text in
  if negb (Role_Valid candidate) then Err (EWrap ErrInvalidRole) else Ok candidate.

(** A [map[string]string]; [None] is the nil map. *)
Definition Binding : Type := option (gmap string string).
Definition Binding_entries (b : Binding) : gmap string string := default ∅ b.

(** [Binding.Clone]: a copy holds the same entries, and nil stays nil. Values
    here are immutable, so the copy is the value. *)
Definition Binding_Clone (b : Binding) : Binding :=
  match b with
  | None => None
  | Some m => Some (map_fold (fun k v out => <[k := v]> out) ∅ m)
  end.

Record Episode : Type := MkEpisode {
  ep_id : EpisodeID;
  ep_scope : ScopeID;
  ep_seq : Z;
  ep_content : string;
  ep_role : Role;
  ep_actor : Actor;
  ep_source : Source;
  ep_occurred : Time;
  ep_ingested : Time;
  ep_binding : Binding;
}.

Record NewEpisode : Type := MkNewEpisode {
  ne_scope : ScopeID;
  ne_content : string;
  ne_role : Role;
  ne_actor : Actor;
  ne_source : Source;
  ne_occurred : Time;
  ne_ingested : Time;
  ne_binding : Binding;
}.

(** ** Jobs *)

Definition DefaultMaxAttempts : Z := 5.
Definition DefaultLeaseDuration : Duration := 5 * Minute.

Definition JobKind : Type := string.
Definition JobKindEncode : JobKind := "encode".
Definition JobKindExtract : JobKind := "extract".

(** [JobKind.Valid]. *)
Definition JobKind_Valid (k : JobKind) : bool := one_of k [JobKindEncode; JobKindExtract].

Definition JobState : Type := string.
Definition JobStatePending : JobState := "pending".
Definition JobStateRunning : JobState := "running".
Definition JobStateDone : JobState := "done".
Definition JobStateDead : JobState := "dead".

(** [JobState.Valid]. *)
Definition JobState_Valid (s : JobState) : bool :=
  one_of s [JobStatePending; JobStateRunning; JobStateDone; JobStateDead].

Record NewJob : Type := MkNewJob {
  nj_kind : JobKind;
  nj_scope : ScopeID;
  nj_episodes : list EpisodeID;
  nj_run_after : Time;
  nj_max_attempts : Z;
}.

Record Job : Type := MkJob {
  job_id : JobID;
  job_kind : JobKind;
  job_scope : ScopeID;
  job_episodes : list EpisodeID;
  job_state : JobState;
  job_attempts : Z;
  job_max_attempts : Z;
  job_run_after : Time;
  job_leased_until : Time;
  job_leased_by : WorkerID;
  job_last_error : string;
  job_created : Time;
  job_updated : Time;
}.

Record LeaseRequest : Type := MkLeaseRequest {
  lr_kinds : list JobKind;
  lr_worker : WorkerID;
  lr_limit : Z;
  lr_duration : Duration;
  lr_now : Time;
}.

(** ** Appends *)

Definition MaxAppendBatch : Z := 64.

Record AppendRequest : Type := MkAppendRequest {
  ar_scope : ScopeID;
  ar_content : string;
  ar_role : Role;
  ar_actor : Actor;
  ar_source : Source;
  ar_occurred : Time;
  ar_binding : Binding;
}.

Record AppendCommand : Type := MkAppendCommand {
  ac_episodes : list NewEpisode;
  ac_jobs : list NewJob;
}.

Record AppendResult : Type := MkAppendResult {
  res_episodes : list Episode;
  res_jobs : list Job;
}.

(** ** Encodings *)

Definition Vector : Type := list float32.
(** [Vector.Dimensions]. *)
Definition Dimensions (v : Vector) : Z := Z.of_nat (length v).

Record Encoding : Type := MkEncoding {
  enc_episode : EpisodeID;
  enc_model : ModelID;
  enc_vector : Vector;
  enc_surprise : float32;
  enc_at : Time;
}.

(** ** Facts *)

Definition MaxExtractorLen : Z := 200.
Definition MaxSubjectLen : Z := 200.
Definition MaxPredicateLen : Z := 100.
Definition MaxObjectLen : Z := 1000.
Definition MaxStatementLen : Z := 4000.
Definition MaxAssertionsPerExtraction : Z := 64.
Definition MaxRetractionsPerExtraction : Z := 64.

(** [Validity] and the calculus of windows are in [Windows]. *)
Record Validity : Type := MkValidity { v_from : Time; v_to : Time }.

#[export] Instance Validity_eq_dec : EqDecision Validity.
Proof. solve_decision. Defined.

Record Fact : Type := MkFact {
  f_id : FactID;
  f_scope : ScopeID;
  f_extractor : ExtractorID;
  f_subject : Subject;
  f_predicate : Predicate;
  f_object : string;
  f_statement : string;
  f_valid : Validity;
  f_confidence : float32;
  f_episodes : list EpisodeID;
  f_asserted : Time;
  f_updated : Time;
}.

Record Assertion : Type := MkAssertion {
  a_subject : Subject;
  a_predicate : Predicate;
  a_object : string;
  a_statement : string;
  a_valid : Validity;
  a_confidence : float32;
}.

Record Retraction : Type := MkRetraction { r_fact : FactID; r_at : Time }.

Record ExtractRequest : Type := MkExtractRequest {
  xr_scope : ScopeID;
  xr_episodes : list Episode;
  xr_known : list Fact;
  xr_now : Time;
}.

Record ExtractResult : Type := MkExtractResult {
  xr_assert : list Assertion;
  xr_retract : list Retraction;
}.

Record ExtractCommand : Type := MkExtractCommand {
  xc_scope : ScopeID;
  xc_extractor : ExtractorID;
  xc_episodes : list EpisodeID;
  xc_assert : list Assertion;
  xc_retract : list Retraction;
  xc_at : Time;
}.

Record FactQuery : Type := MkFactQuery {
  fq_scope : ScopeID;
  fq_extractor : ExtractorID;
  fq_as_of : Time;
  fq_at : Time;
  fq_include_closed : bool;
  fq_subjects : list Subject;
  fq_predicates : list Predicate;
  fq_min_confidence : float32;
  fq_text : string;
  fq_limit : Z;
}.

(** ** Recall *)

Definition DefaultRecallLimit : Z := 10.
Definition DefaultCandidatesPerChannel : Z := 50.
Definition DefaultFactLimit : Z := 32.

Definition Channel : Type := string.
Definition ChannelSemantic : Channel := "semantic".
Definition ChannelLexical : Channel := "lexical".
Definition ChannelFact : Channel := "fact".

(** [Channel.Valid]. *)
Definition Channel_Valid (c : Channel) : bool :=
  one_of c [ChannelSemantic; ChannelLexical; ChannelFact].

Record ChannelQuery : Type := MkChannelQuery {
  cq_scope : ScopeID;
  cq_as_of : Time;
  cq_occurred_from : Time;
  cq_occurred_to : Time;
  cq_binding : Binding;
  cq_roles : list Role;
  cq_limit : Z;
}.

Record SemanticQuery : Type := MkSemanticQuery {
  sq_channel : ChannelQuery;
  sq_vector : Vector;
  sq_model : ModelID;
}.

Record LexicalQuery : Type := MkLexicalQuery {
  lq_channel : ChannelQuery;
  lq_text : string;
}.

Record Candidate : Type := MkCandidate {
  cand_episode : Episode;
  cand_channel : Channel;
  cand_rank : Z;
  cand_score : float64;
}.

Record RecallRequest : Type := MkRecallRequest {
  rr_scope : ScopeID;
  rr_query : string;
  rr_as_of : Time;
  rr_occurred_from : Time;
  rr_occurred_to : Time;
  rr_binding : Binding;
  rr_roles : list Role;
  rr_channels : list Channel;
  rr_candidates : Z;
  rr_limit : Z;
  rr_fact_limit : Z;
  rr_min_confidence : float32;
  rr_subjects : list Subject;
  rr_max_tokens : Z;
}.

Record ChannelHit : Type := MkChannelHit {
  hit_channel : Channel;
  hit_rank : Z;
  hit_score : float64;
}.

Record ChannelReport : Type := MkChannelReport {
  rep_channel : Channel;
  rep_candidates : Z;
  rep_duration : Duration;
  rep_err : option Error;
}.

Record RecalledEpisode : Type := MkRecalledEpisode {
  re_episode : Episode;
  re_score : float64;
  re_hits : list ChannelHit;
  re_tokens : Z;
}.

Record RecalledFact : Type := MkRecalledFact { rf_fact : Fact; rf_tokens : Z }.

Record Recollection : Type := MkRecollection {
  rec_scope : ScopeID;
  rec_as_of : Time;
  rec_facts : list RecalledFact;
  rec_episodes : list RecalledEpisode;
  rec_channels : list ChannelReport;
  rec_tokens : Z;
  rec_truncated : bool;
}.

(** ** Erasure *)

Definition MaxForgetEpisodes : Z := 1000.

Record ForgetRequest : Type := MkForgetRequest {
  fr_scope : ScopeID;
  fr_episodes : list EpisodeID;
}.

Record ForgetResult : Type := MkForgetResult {
  fg_scope : ScopeID;
  fg_episodes : Z;
  fg_encodings : Z;
  fg_facts : Z;
  fg_extractions : Z;
  fg_jobs : Z;
  fg_scope_removed : bool;
}.

(** ** Lemmas *)

#[export] Instance Role_dec (r : Role) : Decision (Role_Valid r = true) := _.

Lemma one_of_spec s l : one_of s l = true <-> s ∈ l.
Proof. unfold one_of. by rewrite bool_decide_eq_true. Qed.

Lemma IsZeroID_false id : IsZeroID id = false <-> id <> 0%N.
Proof. unfold IsZeroID. apply N.eqb_neq. Qed.

Lemma Binding_Clone_id b : Binding_Clone b = b.
Proof.
  destruct b as [m|]; [|done]. simpl. f_equal.
  induction m as [|k v m Hk Hf IH] using map_first_key_ind.
  - by rewrite map_fold_empty.
  - rewrite map_fold_insert_first_key by done. by rewrite IH.
Qed.

#[export] Hint Rewrite one_of_spec IsZeroID_false Binding_Clone_id : mempher.
