(* ===== verification/Ids.v ===== *)
(** * The textual form of identifiers ([id.go])

    Episodes, jobs and facts are named by uuids, whose text is another package's:
    here, a parser and a printer, related by what the package documents. *)

From S2P Require Import Prelude Types.

#[local] Open Scope Z_scope.

Section Ids.
(** [uuid.Parse] and [UUID.String]. *)
Context (Parse : string -> res N) (String_ : N -> string).

(** [ParseEpisodeID], [ParseJobID], [ParseFactID]: the zero identifier beside an error. *)
Definition ParseEpisodeID (s : string) : EpisodeID * option Error :=
  match Parse s with Err e => (0%N, Some e) | Ok id => (id, None) end.
Definition ParseJobID (s : string) : JobID * option Error :=
  match Parse s with Err e => (0%N, Some e) | Ok id => (id, None) end.
Definition ParseFactID (s : string) : FactID * option Error :=
  match Parse s with Err e => (0%N, Some e) | Ok id => (id, None) end.

Definition EpisodeID_String (id : EpisodeID) : string := String_ id.
Definition JobID_String (id : JobID) : string := String_ id.
Definition FactID_String (id : FactID) : string := String_ id.

(** [EpisodeID.MarshalText], [FactID.MarshalText]: they never fail. *)
Definition EpisodeID_MarshalText (id : EpisodeID) : res string := Ok (EpisodeID_String id).
Definition FactID_MarshalText (id : FactID) : res string := Ok (FactID_String id).

(** [UnmarshalText]: what the receiver holds afterwards, and the error. *)
Definition EpisodeID_UnmarshalText (text : string) (id : EpisodeID) : EpisodeID * option Error :=
  match ParseEpisodeID text with
  | (_, Some e) => (id, Some e)
  | (parsed, None) => (parsed, None)
  end.
Definition FactID_UnmarshalText (text : string) (id : FactID) : FactID * option Error :=
  match ParseFactID text with
  | (_, Some e) => (id, Some e)
  | (parsed, None) => (parsed, None)
  end.

(** What is written reads back, over whatever stood there; and text that is not an
    identifier leaves what stood there. *)
Lemma UnmarshalText_spec id :
  (forall n, Parse (String_ n) = Ok n) ->
  (exists text, EpisodeID_MarshalText id = Ok text /\ forall old, EpisodeID_UnmarshalText text old = (id, None)) /\
  (exists text, FactID_MarshalText id = Ok text /\ forall old, FactID_UnmarshalText text old = (id, None)) /\
  ParseJobID (JobID_String id) = (id, None) /\
  forall text e old, Parse text = Err e ->
    EpisodeID_UnmarshalText text old = (old, Some e) /\ FactID_UnmarshalText text old = (old, Some e) /\
    (ParseEpisodeID text).1 = 0%N.
Proof.
  intros Hp. split_and!.
  - eexists. split; [done|]. intros old. unfold EpisodeID_UnmarshalText, ParseEpisodeID, EpisodeID_String. by rewrite Hp.
  - eexists. split; [done|]. intros old. unfold FactID_UnmarshalText, ParseFactID, FactID_String. by rewrite Hp.
  - unfold ParseJobID, JobID_String. by rewrite Hp.
  - intros text e old He. unfold EpisodeID_UnmarshalText, FactID_UnmarshalText, ParseEpisodeID, ParseFactID. by rewrite He.
Qed.
End Ids.
