(* ===== verification/Windows.v ===== *)
(** * Validity windows ([fact.go], [validate.go])

    The half-open event-time window of a fact: its three predicates and its
    validation, and the calculus the fact store rests on. *)

From S2P Require Import Types.

#[local] Open Scope Z_scope.

(** [Validity.IsOpen]. *)
Definition IsOpen (v : Validity) : bool := IsZero (v_to v).

(** [Validity.Contains]. *)
Definition Contains (v : Validity) (t : Time) : bool :=
  if Before t (v_from v) then false
  else IsOpen v || Before t (v_to v).

(** [Validity.Overlaps]. *)
Definition Overlaps (v other : Validity) : bool :=
  if negb (IsOpen v) && negb (Before (v_from other) (v_to v)) then false
  else if negb (IsOpen other) && negb (Before (v_from v) (v_to other)) then false
  else true.

(** [Validity.Validate]. *)
Definition Validity_Validate (v : Validity) : res unit :=
  reject (IsZero (v_from v)) (EWrap ErrInvalidValidity) ;;?
  reject (negb (IsOpen v) && negb (Before (v_from v) (v_to v))) (EWrap ErrInvalidValidity).

(** ** Specification *)

(** The instants a window holds at. *)
Definition holds_at (v : Validity) (t : Z) : Prop :=
  t_ns (v_from v) <= t /\ (t_ns (v_to v) = 0 \/ t < t_ns (v_to v)).

(** A window that begins, and ends after it began if it ends. *)
Definition window_ok (v : Validity) : Prop :=
  t_ns (v_from v) <> 0 /\ (t_ns (v_to v) = 0 \/ t_ns (v_from v) < t_ns (v_to v)).

Lemma IsOpen_spec v : IsOpen v = true <-> t_ns (v_to v) = 0.
Proof. apply IsZero_eq. Qed.

Lemma Contains_spec v t : Contains v t = true <-> holds_at v (t_ns t).
Proof. unfold Contains, holds_at, IsOpen, Before, IsZero. case_match; lia. Qed.

Lemma Validity_Validate_spec v : Validity_Validate v = Ok tt <-> window_ok v.
Proof.
  unfold Validity_Validate, window_ok, IsOpen, Before, IsZero.
  autorewrite with mempher. setoid_rewrite reject_Ok. split.
  - intros (_ & ? & ?). lia.
  - intros [? ?]. exists tt. lia.
Qed.

Lemma Validity_Validate_error v e :
  Validity_Validate v = Err e -> e = EWrap ErrInvalidValidity.
Proof. unfold Validity_Validate, reject. repeat case_match; naive_solver. Qed.

Lemma Overlaps_sym v w : Overlaps v w = Overlaps w v.
Proof. unfold Overlaps. repeat case_match; done. Qed.

(** Two usable windows overlap exactly when they share an instant. *)
Lemma Overlaps_shared v w :
  window_ok v -> window_ok w ->
  Overlaps v w = true <-> exists t, holds_at v t /\ holds_at w t.
Proof.
  unfold window_ok, Overlaps, holds_at, IsOpen, Before, IsZero. intros Hv Hw. split.
  - intros H. exists (Z.max (t_ns (v_from v)) (t_ns (v_from w))).
    repeat case_match; try done; lia.
  - intros (t & ? & ?). repeat case_match; try done; lia.
Qed.

(** Adjacent windows do not overlap: a change of state needs no gap. *)
Lemma Overlaps_adjacent v w :
  window_ok v -> IsOpen v = false -> t_ns (v_to v) <= t_ns (v_from w) ->
  Overlaps v w = false.
Proof.
  unfold Overlaps, IsOpen, Before, IsZero. intros _ Hc Hle.
  repeat case_match; try done; lia.
Qed.

#[export] Hint Resolve Overlaps_sym : mempher.
#[export] Hint Rewrite IsOpen_spec Contains_spec Validity_Validate_spec : mempher.
