(* ===== verification/Validate.v ===== *)
(** * Input validation ([validate.go])

    One definition per [Validate] method, its cases in the order of the
    source's: the first rule broken decides the sentinel. The specification of
    each method follows, a predicate that says what it accepts. *)

From S2P Require Import Types Windows.

#[local] Open Scope Z_scope.

(** [ScopeID.Validate]. *)
Definition ScopeID_Validate (s : ScopeID) : res unit :=
  reject (len s =? 0) (EWrap ErrInvalidScope) ;;?
  reject (len s >? MaxScopeIDLen) (EWrap ErrInvalidScope) ;;?
  reject (negb (ValidString s)) (EWrap ErrInvalidScope) ;;?
  reject (contains_func IsControl s) (EWrap ErrInvalidScope).

(** [Actor.Validate]. *)
Definition Actor_Validate (a : Actor) : res unit :=
  reject (len a >? MaxActorLen) (EWrap ErrInvalidActor) ;;?
  reject (negb (ValidString a)) (EWrap ErrInvalidActor).

(** [Source.Validate]. *)
Definition Source_Validate (s : Source) : res unit :=
  reject (len s =? 0) (EWrap ErrInvalidSource) ;;?
  reject (len s >? MaxSourceLen) (EWrap ErrInvalidSource) ;;?
  reject (negb (ValidString s)) (EWrap ErrInvalidSource).

(** One entry of [Binding.Validate]'s loop. *)
Definition Binding_entry_Validate (kv : string * string) : res unit :=
  let '(key, value) := kv in
  reject (len key =? 0) (EWrap ErrInvalidBinding) ;;?
  reject (len key >? MaxBindingKeyLen) (EWrap ErrInvalidBinding) ;;?
  reject (len value >? MaxBindingValueLen) (EWrap ErrInvalidBinding) ;;?
  reject (negb (ValidString key) || negb (ValidString value)) (EWrap ErrInvalidBinding).

(** [Binding.Validate]. Go ranges over the map in no order; every error it can
    return wraps the same sentinel. *)
Definition Binding_Validate (b : Binding) : res unit :=
  reject (Z.of_nat (size (Binding_entries b)) >? MaxBindingKeys) (EWrap ErrInvalidBinding) ;;?
  check_all Binding_entry_Validate (map_to_list (Binding_entries b)).

(** [AppendRequest.Validate]. *)
Definition AppendRequest_Validate (r : AppendRequest) : res unit :=
  ScopeID_Validate (ar_scope r) ;;?
  reject (len (ar_content r) =? 0) (EWrap ErrInvalidContent) ;;?
  reject (len (ar_content r) >? MaxContentLen) (EWrap ErrInvalidContent) ;;?
  reject (negb (ValidString (ar_content r))) (EWrap ErrInvalidContent) ;;?
  reject (negb (Role_Valid (ar_role r))) (EWrap ErrInvalidRole) ;;?
  Actor_Validate (ar_actor r) ;;?
  Source_Validate (ar_source r) ;;?
  Binding_Validate (ar_binding r).

(** [Subject.Validate]. *)
Definition Subject_Validate (s : Subject) : res unit :=
  reject (len s =? 0) (EWrap ErrInvalidFact) ;;?
  reject (len s >? MaxSubjectLen) (EWrap ErrInvalidFact) ;;?
  reject (negb (ValidString s)) (EWrap ErrInvalidFact) ;;?
  reject (contains_func IsControl s) (EWrap ErrInvalidFact).

(** [Predicate.Validate]. *)
Definition Predicate_Validate (p : Predicate) : res unit :=
  reject (len p =? 0) (EWrap ErrInvalidFact) ;;?
  reject (len p >? MaxPredicateLen) (EWrap ErrInvalidFact) ;;?
  reject (negb (ValidString p)) (EWrap ErrInvalidFact) ;;?
  reject (contains_func IsSpace p) (EWrap ErrInvalidFact) ;;?
  reject (contains_func IsControl p) (EWrap ErrInvalidFact).

(** [f < 0 || f > 1], false on NaN. *)
Definition outside_unit (f : spec_float) : bool :=
  f_ltb f f_zero || f_gtb f (f32_of_Z 1).

(** [RecallRequest.Validate]. *)
Definition RecallRequest_Validate (r : RecallRequest) : res unit :=
  ScopeID_Validate (rr_scope r) ;;?
  reject (bool_decide (TrimSpace (rr_query r) = ""%string)) (EWrap ErrInvalidContent) ;;?
  reject (len (rr_query r) >? MaxContentLen) (EWrap ErrInvalidContent) ;;?
  check_all (fun ch => reject (negb (Channel_Valid ch)) (EWrap ErrInvalidChannel))
    (rr_channels r) ;;?
  check_all (fun role => reject (negb (Role_Valid role)) (EWrap ErrInvalidRole))
    (rr_roles r) ;;?
  check_all Subject_Validate (rr_subjects r) ;;?
  reject (rr_limit r <? 0) (EWrap ErrInvalidConfig) ;;?
  reject (rr_fact_limit r <? 0) (EWrap ErrInvalidConfig) ;;?
  reject (outside_unit (rr_min_confidence r)) (EWrap ErrInvalidConfig) ;;?
  reject (rr_candidates r <? 0) (EWrap ErrInvalidConfig) ;;?
  reject (rr_max_tokens r <? 0) (EWrap ErrInvalidConfig) ;;?
  reject (negb (IsZero (rr_occurred_from r)) && negb (IsZero (rr_occurred_to r))
          && Before (rr_occurred_to r) (rr_occurred_from r)) (EWrap ErrInvalidConfig) ;;?
  Binding_Validate (rr_binding r).

(** [Assertion.Validate]. *)
Definition Assertion_Validate (a : Assertion) : res unit :=
  Subject_Validate (a_subject a) ;;?
  Predicate_Validate (a_predicate a) ;;?
  reject (len (a_object a) =? 0) (EWrap ErrInvalidFact) ;;?
  reject (len (a_object a) >? MaxObjectLen) (EWrap ErrInvalidFact) ;;?
  reject (negb (ValidString (a_object a))) (EWrap ErrInvalidFact) ;;?
  reject (bool_decide (TrimSpace (a_statement a) = ""%string)) (EWrap ErrInvalidFact) ;;?
  reject (len (a_statement a) >? MaxStatementLen) (EWrap ErrInvalidFact) ;;?
  reject (negb (ValidString (a_statement a))) (EWrap ErrInvalidFact) ;;?
  reject (outside_unit (a_confidence a)) (EWrap ErrInvalidFact) ;;?
  Validity_Validate (a_valid a).

(** [Retraction.Validate]. *)
Definition Retraction_Validate (r : Retraction) : res unit :=
  reject (IsZeroID (r_fact r)) (EWrap ErrInvalidExtraction) ;;?
  reject (IsZero (r_at r)) (EWrap ErrInvalidExtraction).

(** [ExtractCommand.Validate]. *)
Definition ExtractCommand_Validate (c : ExtractCommand) : res unit :=
  ScopeID_Validate (xc_scope c) ;;?
  reject (bool_decide (xc_extractor c = ""%string)) (EWrap ErrInvalidExtraction) ;;?
  reject (bool_decide (length (xc_episodes c) = 0%nat)) (EWrap ErrInvalidExtraction) ;;?
  reject (Z.of_nat (length (xc_assert c)) >? MaxAssertionsPerExtraction)
    (EWrap ErrInvalidExtraction) ;;?
  reject (Z.of_nat (length (xc_retract c)) >? MaxRetractionsPerExtraction)
    (EWrap ErrInvalidExtraction) ;;?
  reject (IsZero (xc_at c)) (EWrap ErrInvalidExtraction) ;;?
  check_all (fun e => reject (IsZeroID e) (EWrap ErrInvalidExtraction)) (xc_episodes c) ;;?
  check_all Assertion_Validate (xc_assert c) ;;?
  check_all Retraction_Validate (xc_retract c).

(** [FactQuery.Validate]. *)
Definition FactQuery_Validate (q : FactQuery) : res unit :=
  ScopeID_Validate (fq_scope q) ;;?
  reject (bool_decide (fq_extractor q = ""%string)) (EWrap ErrInvalidConfig) ;;?
  check_all Subject_Validate (fq_subjects q) ;;?
  check_all Predicate_Validate (fq_predicates q) ;;?
  reject (outside_unit (fq_min_confidence q)) (EWrap ErrInvalidConfig) ;;?
  reject (fq_limit q <? 0) (EWrap ErrInvalidConfig) ;;?
  reject (len (fq_text q) >? MaxContentLen) (EWrap ErrInvalidContent).

(** [ForgetRequest.Validate]. *)
Definition ForgetRequest_Validate (r : ForgetRequest) : res unit :=
  ScopeID_Validate (fr_scope r) ;;?
  reject (Z.of_nat (length (fr_episodes r)) >? MaxForgetEpisodes) (EWrap ErrInvalidConfig) ;;?
  check_all (fun id => reject (IsZeroID id) (EWrap ErrInvalidConfig)) (fr_episodes r).

(** ** What the validators accept *)

(** A label: bounded, valid UTF-8, of at least [lo] bytes. *)
Definition label_ok (lo hi : Z) (s : string) : Prop :=
  lo <= len s <= hi /\ ValidString s = true.

Definition clean_label (hi : Z) (s : string) : Prop :=
  label_ok 1 hi s /\ contains_func IsControl s = false.

Definition binding_ok (b : Binding) : Prop :=
  Z.of_nat (size (Binding_entries b)) <= MaxBindingKeys /\
  map_Forall (fun k v => label_ok 1 MaxBindingKeyLen k /\ label_ok 0 MaxBindingValueLen v)
    (Binding_entries b).

Definition append_ok (r : AppendRequest) : Prop :=
  clean_label MaxScopeIDLen (ar_scope r) /\
  label_ok 1 MaxContentLen (ar_content r) /\
  Role_Valid (ar_role r) = true /\
  label_ok 0 MaxActorLen (ar_actor r) /\
  label_ok 1 MaxSourceLen (ar_source r) /\
  binding_ok (ar_binding r).

Definition in_unit (f : spec_float) : Prop := outside_unit f = false.

Definition assertion_ok (a : Assertion) : Prop :=
  clean_label MaxSubjectLen (a_subject a) /\
  clean_label MaxPredicateLen (a_predicate a) /\
  contains_func IsSpace (a_predicate a) = false /\
  label_ok 1 MaxObjectLen (a_object a) /\
  label_ok 0 MaxStatementLen (a_statement a) /\
  TrimSpace (a_statement a) <> ""%string /\
  in_unit (a_confidence a) /\
  window_ok (a_valid a).

Ltac validate :=
  repeat (rewrite rbind_Ok || setoid_rewrite rbind_Ok || setoid_rewrite reject_Ok
          || rewrite reject_Ok).

Lemma rbind_reject_Ok {B} c (e : Error) (k : unit -> res B) b :
  (reject c e ;;? k tt) = Ok b <-> c = false /\ k tt = Ok b.
Proof. destruct c; simpl; naive_solver. Qed.

Lemma seq_Ok {B} (m : res unit) (k : res B) b :
  (m ;;? k) = Ok b <-> m = Ok tt /\ k = Ok b.
Proof. rewrite rbind_Ok. split; [intros ([] & ? & ?)|]; naive_solver. Qed.

Lemma reject_Ok_tt c (e : Error) : reject c e = Ok tt <-> c = false.
Proof. apply reject_Ok. Qed.

(** Turn a validator that returned nil into the facts it established. *)
Ltac val_norm := rewrite ?seq_Ok, ?reject_Ok_tt, ?orb_false_iff, ?negb_false_iff.

Lemma ScopeID_Validate_spec s : ScopeID_Validate s = Ok tt <-> clean_label MaxScopeIDLen s.
Proof.
  unfold ScopeID_Validate, clean_label, label_ok. val_norm.
  pose proof (len_nonneg s). intuition lia.
Qed.

Lemma Actor_Validate_spec a : Actor_Validate a = Ok tt <-> label_ok 0 MaxActorLen a.
Proof.
  unfold Actor_Validate, label_ok. val_norm. pose proof (len_nonneg a). intuition lia.
Qed.

Lemma Source_Validate_spec s : Source_Validate s = Ok tt <-> label_ok 1 MaxSourceLen s.
Proof.
  unfold Source_Validate, label_ok. val_norm. pose proof (len_nonneg s). intuition lia.
Qed.

Lemma Subject_Validate_spec s : Subject_Validate s = Ok tt <-> clean_label MaxSubjectLen s.
Proof.
  unfold Subject_Validate, clean_label, label_ok. val_norm.
  pose proof (len_nonneg s). intuition lia.
Qed.

Lemma Predicate_Validate_spec p :
  Predicate_Validate p = Ok tt <->
  clean_label MaxPredicateLen p /\ contains_func IsSpace p = false.
Proof.
  unfold Predicate_Validate, clean_label, label_ok. val_norm.
  pose proof (len_nonneg p). intuition lia.
Qed.

Lemma Binding_entry_Validate_spec k v :
  Binding_entry_Validate (k, v) = Ok tt <->
  label_ok 1 MaxBindingKeyLen k /\ label_ok 0 MaxBindingValueLen v.
Proof.
  unfold Binding_entry_Validate, label_ok. val_norm.
  pose proof (len_nonneg k). pose proof (len_nonneg v). intuition lia.
Qed.

Lemma Binding_Validate_spec b : Binding_Validate b = Ok tt <-> binding_ok b.
Proof.
  unfold Binding_Validate, binding_ok. val_norm.
  rewrite check_all_Ok, map_Forall_to_list, Z.gtb_ltb, Z.ltb_ge.
  apply and_iff_compat_l. apply Forall_iff. intros [k v]. simpl.
  apply Binding_entry_Validate_spec.
Qed.

Lemma AppendRequest_Validate_spec r : AppendRequest_Validate r = Ok tt <-> append_ok r.
Proof.
  unfold AppendRequest_Validate, append_ok. val_norm.
  rewrite ScopeID_Validate_spec, Actor_Validate_spec, Source_Validate_spec,
    Binding_Validate_spec.
  unfold label_ok. pose proof (len_nonneg (ar_content r)). intuition lia.
Qed.

Lemma Assertion_Validate_spec a : Assertion_Validate a = Ok tt <-> assertion_ok a.
Proof.
  unfold Assertion_Validate, assertion_ok. val_norm.
  rewrite Subject_Validate_spec, Predicate_Validate_spec, Validity_Validate_spec,
    bool_decide_eq_false.
  unfold label_ok, in_unit.
  pose proof (len_nonneg (a_object a)). pose proof (len_nonneg (a_statement a)).
  intuition lia.
Qed.

#[export] Hint Rewrite ScopeID_Validate_spec Actor_Validate_spec Source_Validate_spec
  Subject_Validate_spec Predicate_Validate_spec Binding_Validate_spec
  AppendRequest_Validate_spec Assertion_Validate_spec : mempher.
