(* ===== verification/Fusion.v ===== *)
(** * Reciprocal rank fusion ([fusion.go])

    [FusionOptions.resolve], [FusionOptions.weight] and [fuse], with the scores
    in binary64 and the accumulation in the order of the source's loops, and a
    reference specification that says what a fused list is, episode by episode. *)

From S2P Require Import Types.

#[local] Open Scope Z_scope.

Definition DefaultFusionK : float64 := f64_of_Z 60.
Definition DefaultLexicalWeight : float64 := f64_of_dyadic 1 2.

Record FusionOptions : Type := MkFusionOptions {
  fo_K : float64;
  fo_Weights : option (gmap string float64);
}.

Definition fo_entries (o : FusionOptions) : gmap string float64 := default ∅ (fo_Weights o).

(** One pass of the loop of [resolve] over the sorted channel names. *)
Definition weight_check (o : FusionOptions) (ch : Channel) : res unit :=
  let w := default f_zero (fo_entries o !! ch) in
  reject (negb (Channel_Valid ch)) (EWrap ErrInvalidChannel) ;;?
  reject (f_ltb w f_zero) (EWrap ErrInvalidConfig).

(** [FusionOptions.resolve]. *)
Definition resolve (o : FusionOptions) : res FusionOptions :=
  if f_ltb (fo_K o) f_zero then Err (EWrap ErrInvalidConfig) else
  let k := if f_eqb (fo_K o) f_zero then DefaultFusionK else fo_K o in
  check_all (weight_check o) (sort_func String.compare (map_to_list (fo_entries o)).*1) ;;?
  let weights := fo_entries o in
  let weights := match weights !! ChannelLexical with
                 | None => <[ChannelLexical := DefaultLexicalWeight]> weights
                 | Some _ => weights
                 end in
  Ok (MkFusionOptions k (Some weights)).

(** [FusionOptions.weight]. *)
Definition weight (o : FusionOptions) (c : Channel) : float64 :=
  match fo_entries o !! c with
  | Some w => w
  | None => f64_of_Z 1
  end.

Record channelResult : Type := MkChannelResult {
  cr_channel : Channel;
  cr_candidates : list Candidate;
  cr_facts : list Fact;
  cr_elapsed : Duration;
  cr_err : option Error;
}.

Definition cand_id (c : Candidate) : EpisodeID := ep_id (cand_episode c).

(** The accumulator of one episode, and the loop's state: [order] and [byID]. *)
Record entry : Type := MkEntry {
  en_episode : Episode;
  en_score : float64;
  en_hits : list ChannelHit;
}.

Record fuse_state : Type := MkFuseState {
  fs_order : list EpisodeID;
  fs_byID : gmap N entry;
}.

Definition hit_of (ch : Channel) (cand : Candidate) : ChannelHit :=
  MkChannelHit ch (cand_rank cand) (cand_score cand).

Definition rrf_term (opts : FusionOptions) (ch : Channel) (cand : Candidate) : float64 :=
  f64_div (weight opts ch) (f64_add (fo_K opts) (f64_of_Z (cand_rank cand))).

(** [acc.score += ...; acc.hits = append(acc.hits, ...)] *)
Definition accumulate (opts : FusionOptions) (ch : Channel) (cand : Candidate)
    (acc : entry) : entry :=
  MkEntry (en_episode acc) (f64_add (en_score acc) (rrf_term opts ch cand))
    (en_hits acc ++ [hit_of ch cand]).

(** The body of the inner loop, with the channel's [seen] set. *)
Definition fuse_candidate (opts : FusionOptions) (ch : Channel)
    (st : fuse_state * gset N) (cand : Candidate) : fuse_state * gset N :=
  let '(s, seen) := st in
  let id := cand_id cand in
  if bool_decide (id ∈ seen) then st else
  match fs_byID s !! id with
  | Some acc =>
      (MkFuseState (fs_order s) (<[id := accumulate opts ch cand acc]> (fs_byID s)),
       {[id]} ∪ seen)
  | None =>
      let acc := MkEntry (cand_episode cand) f_zero [] in
      (MkFuseState (fs_order s ++ [id]) (<[id := accumulate opts ch cand acc]> (fs_byID s)),
       {[id]} ∪ seen)
  end.

(** The body of the outer loop: a failed channel is passed over. *)
Definition fuse_channel (opts : FusionOptions) (s : fuse_state) (r : channelResult)
    : fuse_state :=
  match cr_err r with
  | Some _ => s
  | None => (foldl (fuse_candidate opts (cr_channel r)) (s, ∅) (cr_candidates r)).1
  end.

(** The two comparison callbacks. *)
Definition cmp_hit : ChannelHit -> ChannelHit -> comparison := cmp_on hit_channel String.compare.
Definition cmp_fused : RecalledEpisode -> RecalledEpisode -> comparison :=
  cmp_lex (cmp_rev (cmp_on re_score fcompare))
    (cmp_rev (cmp_on (fun e => ep_id (re_episode e)) N.compare)).

Definition recalled_of (acc : entry) : RecalledEpisode :=
  MkRecalledEpisode (en_episode acc) (en_score acc) (sort_func cmp_hit (en_hits acc)) 0.

(** [fuse]. *)
Definition fuse (results : list channelResult) (opts : FusionOptions) : list RecalledEpisode :=
  let s := foldl (fuse_channel opts) (MkFuseState [] ∅) results in
  let fused := omap (fun id => recalled_of <$> fs_byID s !! id) (fs_order s) in
  sort_func cmp_fused fused.

(** ** Reference specification *)

(** The rankings that count: those of the channels that answered. *)
Definition answered (results : list channelResult) : list channelResult :=
  List.filter (fun r => bool_decide (cr_err r = None)) results.

(** Where a channel first lists an episode. *)
Definition first_rank (id : EpisodeID) (cands : list Candidate) : option Candidate :=
  List.find (fun c => N.eqb id (cand_id c)) cands.

(** What the channels say about one episode, in the order they were asked. *)
Definition findings (id : EpisodeID) (results : list channelResult) : list (Channel * Candidate) :=
  omap (fun r => pair (cr_channel r) <$> first_rank id (cr_candidates r)) (answered results).

Definition spec_score (opts : FusionOptions) (fs : list (Channel * Candidate)) : float64 :=
  foldl (fun s hc => f64_add s (rrf_term opts hc.1 hc.2)) f_zero fs.

Definition spec_entry (opts : FusionOptions) (fs : list (Channel * Candidate)) : option entry :=
  match fs with
  | [] => None
  | hc :: _ =>
      Some (MkEntry (cand_episode hc.2) (spec_score opts fs)
              (map (fun hc => hit_of hc.1 hc.2) fs))
  end.

(** Every candidate id once, where it first appears. *)
Definition first_occurrences (ids : list N) : list N :=
  foldl (fun acc id => if bool_decide (id ∈ acc) then acc else acc ++ [id]) [] ids.

Definition all_ids (results : list channelResult) : list N :=
  concat (map (fun r => map cand_id (cr_candidates r)) (answered results)).

(** The fused list before it is sorted. *)
Definition unsorted (results : list channelResult) (opts : FusionOptions) : list RecalledEpisode :=
  omap (fun id => recalled_of <$> spec_entry opts (findings id results))
    (first_occurrences (all_ids results)).

Definition fuse_spec (results : list channelResult) (opts : FusionOptions)
    : list RecalledEpisode :=
  sort_func cmp_fused (unsorted results opts).

(** ** [fuse] implements the specification *)

Definition fo_step (acc : list N) (id : N) : list N :=
  if bool_decide (id ∈ acc) then acc else acc ++ [id].

Lemma spec_entry_snoc opts fs ch c :
  spec_entry opts (fs ++ [(ch, c)]) =
  Some (accumulate opts ch c
    (default (MkEntry (cand_episode c) f_zero []) (spec_entry opts fs))).
Proof.
  destruct fs as [|hc fs]; [done|]. simpl. unfold spec_score. simpl.
  by rewrite foldl_app, map_app.
Qed.

Lemma spec_entry_None opts fs : spec_entry opts fs = None <-> fs = [].
Proof. by destruct fs. Qed.

Lemma first_rank_None id cands : first_rank id cands = None <-> id ∉ map cand_id cands.
Proof.
  induction cands as [|c cands IH]; simpl; [split; [intros _ ?%not_elem_of_nil|]; done|].
  rewrite not_elem_of_cons, <- IH. destruct (N.eqb_spec id (cand_id c)); naive_solver.
Qed.

Lemma first_rank_snoc id cands c :
  first_rank id (cands ++ [c]) =
  match first_rank id cands with
  | Some c' => Some c'
  | None => if N.eqb id (cand_id c) then Some c else None
  end.
Proof.
  induction cands as [|c' cands IH]; simpl; [done|]. by destruct (N.eqb id (cand_id c')).
Qed.

(** [s] is what the loop has accumulated once the findings per episode are [F]. *)
Record represents (opts : FusionOptions) (s : fuse_state) (order : list N)
    (F : N -> list (Channel * Candidate)) : Prop := {
  rp_order : fs_order s = order;
  rp_byID : forall id, fs_byID s !! id = spec_entry opts (F id);
  rp_dom : forall id, id ∈ order <-> F id <> [];
}.

Definition step_findings (ch : Channel) (cands : list Candidate)
    (F : N -> list (Channel * Candidate)) (id : N) : list (Channel * Candidate) :=
  F id ++ option_list (pair ch <$> first_rank id cands).

Lemma option_list_Some {A} (x : A) : option_list (Some x) = [x].
Proof. done. Qed.

Lemma represents_ext opts s order F G :
  (forall id, F id = G id) -> represents opts s order F -> represents opts s order G.
Proof.
  intros HFG [Ho Hb Hd]. split; [done| |]; intros id; rewrite <- HFG; [apply Hb|apply Hd].
Qed.

(** One more finding for one episode. *)
Lemma represents_add opts s order F ch c :
  represents opts s order F ->
  let id := cand_id c in
  let acc := default (MkEntry (cand_episode c) f_zero []) (fs_byID s !! id) in
  represents opts
    (MkFuseState (fo_step order id) (<[id := accumulate opts ch c acc]> (fs_byID s)))
    (fo_step order id)
    (fun id' => if N.eqb id' id then F id' ++ [(ch, c)] else F id').
Proof.
  intros [Ho Hb Hd] id acc. split; [done| |]; intros id'; simpl.
  - destruct (N.eqb_spec id' id) as [->|Hne].
    + rewrite lookup_insert_eq, spec_entry_snoc. unfold acc. by rewrite Hb.
    + by rewrite lookup_insert_ne by done.
  - unfold fo_step. destruct (N.eqb_spec id' id) as [->|Hne]; case_bool_decide as Hin.
    + split; [|done]. intros _ []%app_nil. done.
    + rewrite elem_of_app, list_elem_of_singleton. split; [|auto]. intros _ []%app_nil. done.
    + apply Hd.
    + rewrite elem_of_app, list_elem_of_singleton, Hd. naive_solver.
Qed.

(** An episode the channel ranked before changes nothing. *)
Lemma step_findings_repeat ch cands c F id' :
  cand_id c ∈ map cand_id cands -> step_findings ch (cands ++ [c]) F id' = step_findings ch cands F id'.
Proof.
  intros Hin. unfold step_findings. rewrite first_rank_snoc.
  destruct (first_rank id' cands) eqn:E; [done|].
  apply first_rank_None in E. destruct (N.eqb_spec id' (cand_id c)) as [->|]; done.
Qed.

(** An episode the channel ranks first is accumulated into its entry, or a new one. *)
Lemma fuse_candidate_fresh opts ch c s seen order F :
  represents opts s order F -> cand_id c ∉ seen ->
  fuse_candidate opts ch (s, seen) c =
  (MkFuseState (fo_step order (cand_id c))
    (<[cand_id c:=accumulate opts ch c (default (MkEntry (cand_episode c) f_zero []) (fs_byID s !! cand_id c))]> (fs_byID s)),
   {[cand_id c]} ∪ seen).
Proof.
  intros Hr Hseen. unfold fuse_candidate. rewrite bool_decide_false by done.
  pose proof (rp_dom _ _ _ _ Hr (cand_id c)) as Hd. pose proof (rp_byID _ _ _ _ Hr (cand_id c)) as Hb.
  rewrite <- (spec_entry_None opts), <- Hb in Hd. rewrite (rp_order _ _ _ _ Hr).
  unfold fo_step. destruct (fs_byID s !! cand_id c) eqn:E; simpl.
  - rewrite bool_decide_true; [done|]. apply Hd. intros E'. discriminate (eq_trans (eq_sym E) E').
  - rewrite bool_decide_false; [done|]. intros Hc. by apply Hd in Hc.
Qed.

Lemma fuse_candidates_represents opts ch cands s order F :
  represents opts s order F ->
  exists seen,
    (foldl (fuse_candidate opts ch) (s, ∅) cands).2 = seen /\
    (forall id, id ∈ seen <-> id ∈ map cand_id cands) /\
    represents opts (foldl (fuse_candidate opts ch) (s, ∅) cands).1
      (foldl fo_step order (map cand_id cands)) (step_findings ch cands F).
Proof.
  intros Hrep. induction cands as [|c cands IH] using rev_ind.
  { exists ∅. split; [done|]. split; [set_solver|].
    eapply represents_ext; [|exact Hrep]. intros id. unfold step_findings. simpl.
    by rewrite app_nil_r. }
  destruct IH as (seen & Hseen & Hdom & Hr).
  rewrite !foldl_app, !map_app, !foldl_app. cbn [foldl map].
  destruct (foldl (fuse_candidate opts ch) (s, ∅) cands) as [s1 seen1]. cbn [fst snd] in *. subst seen1.
  destruct (decide (cand_id c ∈ seen)) as [Hin|Hin].
  - assert (fuse_candidate opts ch (s1, seen) c = (s1, seen)) as -> by (unfold fuse_candidate; by rewrite bool_decide_true).
    exists seen. split; [done|]. rewrite Hdom in Hin. split.
    { intros id'. rewrite elem_of_app, list_elem_of_singleton, Hdom. naive_solver. }
    assert (cand_id c ∈ foldl fo_step order (map cand_id cands)) as Hord.
    { apply (rp_dom _ _ _ _ Hr). unfold step_findings.
      destruct (first_rank (cand_id c) cands) eqn:E; [|by apply first_rank_None in E].
      intros []%app_nil. done. }
    unfold fo_step at 1. rewrite bool_decide_true by done.
    eapply represents_ext; [|exact Hr]. intros id'. symmetry. by apply step_findings_repeat.
  - rewrite (fuse_candidate_fresh _ _ _ _ _ _ _ Hr Hin). rewrite Hdom in Hin.
    exists ({[cand_id c]} ∪ seen). split; [done|]. split.
    { intros id'. rewrite elem_of_app, list_elem_of_singleton, elem_of_union, elem_of_singleton, Hdom. naive_solver. }
    eapply represents_ext; [|apply (represents_add opts s1 _ _ ch c Hr)]. intros id'. unfold step_findings.
    rewrite first_rank_snoc. destruct (N.eqb_spec id' (cand_id c)) as [->|Hne].
    + apply first_rank_None in Hin. rewrite Hin. simpl. by rewrite app_nil_r.
    + by destruct (first_rank id' cands).
Qed.

Lemma fuse_channels_represent opts results :
  represents opts (foldl (fuse_channel opts) (MkFuseState [] ∅) results)
    (first_occurrences (all_ids results)) (fun id => findings id results).
Proof.
  unfold first_occurrences, all_ids, findings, answered. fold fo_step.
  induction results as [|r results IH] using rev_ind.
  { split; [done| |]; intros id; [apply lookup_empty|]. simpl.
    split; [by intros ?%not_elem_of_nil|done]. }
  rewrite foldl_app, List.filter_app. simpl. unfold fuse_channel at 1.
  destruct (cr_err r) as [e|] eqn:Hr.
  - rewrite bool_decide_false by done. by rewrite app_nil_r.
  - rewrite bool_decide_true by done.
    destruct (fuse_candidates_represents opts (cr_channel r) (cr_candidates r) _ _ _ IH)
      as (_ & _ & _ & H).
    rewrite map_app, concat_app, foldl_app. simpl. rewrite app_nil_r.
    eapply represents_ext; [|exact H]. intros id. simpl. unfold step_findings.
    rewrite omap_app. simpl. by destruct (first_rank id (cr_candidates r)).
Qed.

Lemma omap_ext_in {A B} (f g : A -> option B) (l : list A) :
  (forall x, x ∈ l -> f x = g x) -> omap f l = omap g l.
Proof.
  induction l as [|x l IH]; intros H; [done|]. csimpl. rewrite (H x) by set_solver.
  rewrite IH; [done|]. set_solver.
Qed.

Lemma fuse_unsorted results opts :
  fuse results opts = sort_func cmp_fused (unsorted results opts).
Proof.
  pose proof (fuse_channels_represent opts results) as [Ho Hb _].
  unfold fuse, unsorted. rewrite Ho. f_equal. apply omap_ext_in.
  intros id _. by rewrite Hb.
Qed.

(** C6: [fuse] returns exactly what the specification says, bit for bit: one
    entry per distinct episode of the channels that answered, carrying the
    episode as first seen, the rounded sum of weight/(K+rank) over the channels
    that found it, each at the rank of its first listing there, and one hit per
    such channel; sorted by score with ties to the newer id. *)
Theorem fuse_refines_spec results opts : fuse results opts = fuse_spec results opts.
Proof. apply fuse_unsorted. Qed.

Lemma first_rank_Some id cands c :
  first_rank id cands = Some c -> cand_id c = id /\ c ∈ cands.
Proof.
  unfold first_rank. intros [H1 H2]%find_some. apply N.eqb_eq in H2.
  split; [done|]. by apply list_elem_of_In.
Qed.

Lemma spec_entry_id opts id results en :
  spec_entry opts (findings id results) = Some en -> ep_id (en_episode en) = id.
Proof.
  destruct (findings id results) as [|[ch c] fs] eqn:E; [done|]. intros [= <-]. simpl.
  assert ((ch, c) ∈ findings id results) as Hin by (rewrite E; set_solver).
  unfold findings in Hin. apply list_elem_of_omap in Hin as (r & _ & Hr).
  apply fmap_Some in Hr as (c' & Hc & [= -> ->]). by apply first_rank_Some in Hc as [Hid _].
Qed.

Definition re_id (r : RecalledEpisode) : EpisodeID := ep_id (re_episode r).

Lemma fo_NoDup ids acc : NoDup acc -> NoDup (foldl fo_step acc ids).
Proof.
  revert acc. induction ids as [|id ids IH]; intros acc Hacc; [done|]. simpl. apply IH.
  unfold fo_step. case_bool_decide; [done|]. apply NoDup_app. split; [done|].
  split; [set_solver|]. apply NoDup_singleton.
Qed.

Lemma fo_elem ids acc id : id ∈ foldl fo_step acc ids <-> id ∈ acc \/ id ∈ ids.
Proof.
  revert acc. induction ids as [|id' ids IH]; intros acc; simpl.
  - split; [auto|]. intros [H|H%not_elem_of_nil]; done.
  - rewrite IH, elem_of_cons. unfold fo_step. case_bool_decide; set_solver.
Qed.

Lemma unsorted_ids results opts :
  map re_id (unsorted results opts) = first_occurrences (all_ids results).
Proof.
  pose proof (fuse_channels_represent opts results) as [_ _ Hd].
  unfold unsorted. set (l := first_occurrences (all_ids results)) in *.
  assert (forall id, id ∈ l -> findings id results <> []) as Hl by (intros; by apply Hd).
  clear Hd. induction l as [|id l IH]; [done|]. csimpl.
  destruct (spec_entry opts (findings id results)) as [en|] eqn:E.
  - csimpl. rewrite IH by set_solver. f_equal. by apply spec_entry_id in E.
  - apply spec_entry_None in E. exfalso. apply (Hl id); [set_solver|done].
Qed.

#[export] Instance cmp_fused_total : TotalCmp cmp_fused.
Proof.
  apply cmp_lex_total; apply cmp_rev_total; apply cmp_on_total;
    [apply fcompare_total|apply Ncompare_total].
Qed.

Lemma cmp_fused_Eq x y : cmp_fused x y = Eq -> re_id x = re_id y.
Proof.
  unfold cmp_fused, cmp_lex, cmp_rev, cmp_on. destruct (fcompare _ _); try done.
  intros H%N.compare_eq. done.
Qed.

(** Strictly before in the fused order: no two entries tie. *)
Definition ranks_before (x y : RecalledEpisode) : Prop := cmp_fused x y = Lt.

Lemma fuse_Permutation results opts : fuse results opts ≡ₚ unsorted results opts.
Proof. rewrite fuse_unsorted. apply sort_by_Permutation. Qed.

Lemma ranks_before_strict l :
  NoDup (map re_id l) -> StronglySorted (fun x y => cmp_fused x y <> Gt) l ->
  StronglySorted ranks_before l.
Proof.
  intros Hnd. induction 1 as [|x k Hk IH Hx]; [constructor|].
  apply NoDup_cons in Hnd as [Hin Hnd]. constructor; [by apply IH|].
  apply Forall_forall. intros y Hy. rewrite Forall_forall in Hx. specialize (Hx y Hy).
  unfold ranks_before. destruct (cmp_fused x y) eqn:E; [|done|done].
  apply cmp_fused_Eq in E. destruct Hin. fold (re_id x). rewrite E.
  apply list_elem_of_fmap. by exists y.
Qed.

Lemma elem_of_all_ids results id :
  id ∈ all_ids results <->
  exists r, r ∈ results /\ cr_err r = None /\ id ∈ map cand_id (cr_candidates r).
Proof.
  unfold all_ids, answered. induction results as [|r results IH]; simpl.
  - split; [by intros ?%not_elem_of_nil|]. intros (r & ?%not_elem_of_nil & _). done.
  - case_bool_decide as Hr; simpl; [rewrite elem_of_app|]; rewrite IH;
      setoid_rewrite elem_of_cons; naive_solver.
Qed.

(** Every entry carries an episode some answering channel returned. *)
Lemma fuse_from results opts re :
  re ∈ fuse results opts ->
  exists r c, r ∈ results /\ cr_err r = None /\ c ∈ cr_candidates r /\ re_episode re = cand_episode c.
Proof.
  rewrite fuse_Permutation. unfold unsorted. intros (id & _ & Hid)%list_elem_of_omap.
  apply fmap_Some in Hid as (en & Hen & ->). unfold spec_entry in Hen.
  destruct (findings id results) as [|[ch c] fs] eqn:Hf; [done|]. injection Hen as <-.
  assert ((ch, c) ∈ findings id results) as Hin by (rewrite Hf; by left).
  apply list_elem_of_omap in Hin as (r & Hr & Hrc). apply fmap_Some in Hrc as (c' & Hc & [= -> ->]).
  apply elem_of_filter_b in Hr as [Hr Herr%bool_decide_eq_true]. apply first_rank_Some in Hc as [_ Hc].
  by exists r, c'.
Qed.

(** the fused list holds every episode that some answering channel listed
    and no other, each exactly once, in a strict order: score descending, and
    the newer id first where two scores are equal, so that no two entries tie
    and the order is fully determined. *)
Theorem fuse_correct results opts :
  StronglySorted ranks_before (fuse results opts) /\
  NoDup (map re_id (fuse results opts)) /\
  (forall id, id ∈ map re_id (fuse results opts) <->
     exists r, r ∈ results /\ cr_err r = None /\ id ∈ map cand_id (cr_candidates r)).
Proof.
  pose proof (fuse_Permutation results opts) as Hp.
  assert (NoDup (map re_id (fuse results opts))) as Hnd.
  { rewrite Hp, unsorted_ids. apply fo_NoDup, NoDup_nil_2. }
  split; [|split; [done|]].
  - apply ranks_before_strict; [done|]. rewrite fuse_unsorted. apply sort_func_Sorted, _.
  - intros id. rewrite Hp, unsorted_ids, <- elem_of_all_ids. unfold first_occurrences.
    fold fo_step. rewrite fo_elem. split; [|auto]. by intros [?%not_elem_of_nil|].
Qed.

(** ** Resolved options *)

(** What [resolve] accepts: nothing negative, every weighted channel known. *)
Definition fusion_ok (o : FusionOptions) : Prop :=
  f_ltb (fo_K o) f_zero = false /\
  forall ch w, fo_entries o !! ch = Some w -> Channel_Valid ch = true /\ f_ltb w f_zero = false.

Lemma elem_of_keys {V} (m : gmap string V) k : k ∈ (map_to_list m).*1 <-> is_Some (m !! k).
Proof.
  rewrite list_elem_of_fmap. split.
  - intros ([k' v] & -> & H%elem_of_map_to_list). by exists v.
  - intros [v Hv]. exists (k, v). by rewrite elem_of_map_to_list.
Qed.

Lemma weight_check_Ok o ch :
  weight_check o ch = Ok tt <->
  Channel_Valid ch = true /\ f_ltb (default f_zero (fo_entries o !! ch)) f_zero = false.
Proof.
  unfold weight_check, reject. destruct (Channel_Valid ch), (f_ltb _ _); simpl; naive_solver.
Qed.

Lemma resolve_checks o :
  check_all (weight_check o) (sort_func String.compare (map_to_list (fo_entries o)).*1) = Ok tt <->
  (forall ch w, fo_entries o !! ch = Some w -> Channel_Valid ch = true /\ f_ltb w f_zero = false).
Proof.
  rewrite check_all_Ok, Forall_forall. unfold sort_func. setoid_rewrite elem_of_sort_by.
  setoid_rewrite elem_of_keys. setoid_rewrite weight_check_Ok. split.
  - intros H ch w Hw. specialize (H ch (ex_intro _ w Hw)) as [Hv Hn]. split; [done|].
    revert Hn. unfold Channel in *. by rewrite Hw.
  - intros H ch [w Hw]. destruct (H ch w Hw) as [Hv Hn]. split; [done|].
    unfold Channel in *. by rewrite Hw.
Qed.

Lemma weight_Some k m ch :
  weight (MkFusionOptions k (Some m)) ch = match m !! ch with Some w => w | None => f64_of_Z 1 end.
Proof. done. Qed.

(** [FusionOptions.resolve] accepts exactly the options with no negative
    smoothing constant, no negative weight and no unknown channel; what it
    returns states every weight in force: a given weight is kept, the lexical
    channel weighs 1/4 when it is not named, any other channel 1, and a zero K
    becomes the default. *)
Theorem resolve_spec o :
  (fusion_ok o <-> is_ok (resolve o) = true) /\
  (forall o', resolve o = Ok o' ->
     fo_K o' = (if f_eqb (fo_K o) f_zero then DefaultFusionK else fo_K o) /\
     forall ch, weight o' ch =
       match fo_entries o !! ch with
       | Some w => w
       | None => if String.eqb ch ChannelLexical then DefaultLexicalWeight else f64_of_Z 1
       end).
Proof.
  unfold fusion_ok. rewrite <- resolve_checks. unfold resolve.
  destruct (f_ltb (fo_K o) f_zero); [split; [split; [intros []|]|]; done|].
  destruct (check_all _ _) as [[]|e]; simpl; [|split; [split; [intros []|]|]; done].
  split; [done|]. intros o' [= <-]. simpl. split; [done|]. intros ch. rewrite weight_Some.
  destruct (fo_entries o !! ChannelLexical) eqn:El.
  - destruct (String.eqb_spec ch ChannelLexical) as [->|]; [by rewrite El|done].
  - destruct (String.eqb_spec ch ChannelLexical) as [->|Hne].
    + by rewrite lookup_insert_eq, El.
    + rewrite lookup_insert_ne by done. by destruct (fo_entries o !! ch).
Qed.

Lemma resolve_spec_witness :
  exists o', resolve (MkFusionOptions f_zero None) = Ok o' /\
    fo_K o' = DefaultFusionK /\ weight o' ChannelLexical = DefaultLexicalWeight.
Proof.
  eexists. split; [vm_compute; reflexivity|].
  destruct (proj2 (resolve_spec (MkFusionOptions f_zero None)) _ eq_refl) as [HK Hw].
  split; [exact HK|]. exact (Hw ChannelLexical).
Defined.
