(* ===== verification/OpsTypes.v ===== *)
(** * Requests and answers of the operational half ([ops/])

    The records of [ops/scope.go], [ops/inspect.go] and [ops/backfill.go] and the
    four [Validate] methods of [ops/validate.go]. *)

From S2P Require Import Types Validate.

#[local] Open Scope Z_scope.

Record OpsScope : Type := MkOpsScope {
  os_id : ScopeID;
  os_last_seq : Z;
  os_created : Time;
}.

Record ScopeQuery : Type := MkScopeQuery {
  scq_prefix : ScopeID;
  scq_after : ScopeID;
  scq_limit : Z;
}.

Record JobQuery : Type := MkJobQuery {
  jq_scope : ScopeID;
  jq_kinds : list JobKind;
  jq_states : list JobState;
  jq_after : JobID;
  jq_limit : Z;
}.

Record JobCount : Type := MkJobCount {
  jc_kind : JobKind;
  jc_state : JobState;
  jc_jobs : Z;
  jc_oldest : Time;
}.

Record PurgeRequest : Type := MkPurgeRequest {
  pr_before : Time;
  pr_states : list JobState;
  pr_limit : Z;
}.

Record PendingEncodings : Type := MkPendingEncodings {
  pe_scope : ScopeID;
  pe_model : ModelID;
  pe_after_seq : Z;
  pe_limit : Z;
}.

Record PendingExtractions : Type := MkPendingExtractions {
  px_scope : ScopeID;
  px_extractor : ExtractorID;
  px_after_seq : Z;
  px_limit : Z;
}.

Record BackfillRequest : Type := MkBackfillRequest {
  br_scope : ScopeID;
  br_kinds : list JobKind;
  br_after_seq : Z;
  br_batch : Z;
  br_limit : Z;
  br_run_after : Time;
}.

Record BackfillCount : Type := MkBackfillCount {
  bc_episodes : Z;
  bc_jobs : Z;
  bc_collapsed : Z;
}.

Record BackfillResult : Type := MkBackfillResult {
  bf_encode : BackfillCount;
  bf_extract : BackfillCount;
  bf_next_scope : ScopeID;
  bf_next_seq : Z;
  bf_done : bool;
}.

(** [s != ""], and validation of an optional scope. *)
Definition is_empty (s : string) : bool := String.eqb s "".
Definition opt_scope_Validate (s : ScopeID) : res unit :=
  if is_empty s then Ok tt else ScopeID_Validate s.

(** [JobQuery.Validate]. *)
Definition JobQuery_Validate (q : JobQuery) : res unit :=
  opt_scope_Validate (jq_scope q) ;;?
  check_all (fun k => reject (negb (JobKind_Valid k)) (EWrap ErrInvalidJobKind)) (jq_kinds q) ;;?
  check_all (fun s => reject (negb (JobState_Valid s)) (EWrap ErrInvalidJobState)) (jq_states q) ;;?
  reject (jq_limit q <? 0) (EWrap ErrInvalidConfig).

(** One state of [PurgeRequest.Validate]'s loop: a live state and an unknown
    one are refused with the same sentinel. *)
Definition purge_state_check (s : JobState) : res unit :=
  if one_of s [JobStateDone; JobStateDead] then Ok tt
  else if one_of s [JobStatePending; JobStateRunning] then Err (EWrap ErrInvalidJobState)
  else Err (EWrap ErrInvalidJobState).

(** [PurgeRequest.Validate]. *)
Definition PurgeRequest_Validate (r : PurgeRequest) : res unit :=
  reject (IsZero (pr_before r)) (EWrap ErrInvalidConfig) ;;?
  check_all purge_state_check (pr_states r) ;;?
  reject (pr_limit r <? 0) (EWrap ErrInvalidConfig).

(** [ScopeQuery.Validate]. *)
Definition ScopeQuery_Validate (q : ScopeQuery) : res unit :=
  opt_scope_Validate (scq_prefix q) ;;?
  opt_scope_Validate (scq_after q) ;;?
  reject (scq_limit q <? 0) (EWrap ErrInvalidConfig).

(** [BackfillRequest.Validate]. *)
Definition BackfillRequest_Validate (r : BackfillRequest) : res unit :=
  opt_scope_Validate (br_scope r) ;;?
  check_all (fun k => reject (negb (JobKind_Valid k)) (EWrap ErrInvalidJobKind)) (br_kinds r) ;;?
  reject (br_after_seq r <? 0) (EWrap ErrInvalidConfig) ;;?
  reject ((0 <? br_after_seq r) && is_empty (br_scope r)) (EWrap ErrInvalidConfig) ;;?
  reject (br_batch r <? 0) (EWrap ErrInvalidConfig) ;;?
  reject (br_limit r <? 0) (EWrap ErrInvalidConfig).

Lemma is_empty_spec s : is_empty s = true <-> s = ""%string.
Proof. apply String.eqb_eq. Qed.

(** Only finished states pass. *)
Lemma purge_state_check_Ok s :
  purge_state_check s = Ok tt <-> s = JobStateDone \/ s = JobStateDead.
Proof.
  unfold purge_state_check. transitivity (one_of s [JobStateDone; JobStateDead] = true).
  - destruct (one_of s [JobStateDone; JobStateDead]); [done|].
    by destruct (one_of s [JobStatePending; JobStateRunning]).
  - rewrite one_of_spec, !elem_of_cons, elem_of_nil. naive_solver.
Qed.

#[export] Hint Rewrite is_empty_spec purge_state_check_Ok : mempher.
