(* ===== verification/Server.v ===== *)
(** * What the development assumes of PostgreSQL and its driver

    The adapter leaves to code that is not in the repository: the timestamptz
    codec, which keeps microseconds of an instant, the server's [uuidv7()]
    default, what it accepts as text, the collation text columns sort by, and
    the two searches, full text and pgvector's. [Server] takes them as parameters, [ServerLaws] names
    the documented behaviour the theorems use, and [demo_server] is a concrete
    server the witnesses run against.

    Not modelled, here or in the files that use this one: the transport, the
    cancellation of a context, and the planner's freedom in the order of an unordered result (rows come back
    in table order; theorems about such results speak of membership). *)

From S2P Require Import Types.

#[local] Open Scope Z_scope.

Definition no_nul (s : string) : bool := negb (contains_func (N.eqb 0) s).

Class Server : Type := {
  (** The instant a timestamptz column gives back for one sent to it. *)
  pg_ts : Z -> Z;
  (** The [n]th id the server mints. *)
  uuidv7 : nat -> N;
  (** [ts_rank_cd] of a text column against the lexemes of a query. *)
  pg_rank : string -> string -> spec_float;
  (** Whether a text shares a lexeme with a query: [@@] against [anyLexemeQuery]. *)
  pg_match : string -> string -> bool;
  (** pgvector's cosine distance, [<=>]. *)
  pg_cosine : list spec_float -> list spec_float -> spec_float;
  (** [ORDER BY] a distance [LIMIT n], answered by an approximate index. *)
  pg_ann : forall A, (A -> spec_float) -> nat -> list A -> list A;
  (** The strings it accepts for a text parameter. *)
  pg_text : string -> bool;
  (** The order of text columns under the database's collation. *)
  pg_collate : string -> string -> comparison;
}.

Class ServerLaws (S : Server) : Prop := {
  (** Timestamps keep their order, down to the column's resolution... *)
  pg_ts_mono : forall x y, x <= y -> pg_ts x <= pg_ts y;
  (** ... and one read back and sent again is the same. *)
  pg_ts_idem : forall x, pg_ts (pg_ts x) = pg_ts x;
  uuidv7_inj : forall m n, uuidv7 m = uuidv7 n -> m = n;
  uuidv7_nonzero : forall n, uuidv7 n <> 0%N;
  (** A UTF-8 database refuses invalid UTF-8, and any zero byte. *)
  pg_text_spec : forall s, pg_text s = true <-> ValidString s = true /\ no_nul s = true;
  #[global] pg_collate_total :: TotalCmp pg_collate;
  (** The index gives rows of the table, each at most once, no more than asked. *)
  pg_ann_sub : forall A dist n (l : list A), pg_ann A dist n l ⊆+ l;
  pg_ann_limit : forall A dist n (l : list A), (length (pg_ann A dist n l) <= n)%nat;
  (** Deterministic collations tie only equal strings. *)
  pg_collate_eq : forall a b, pg_collate a b = Eq -> a = b;
}.

(** Whole microseconds, and ids in minting order. *)
#[export] Instance demo_server : Server := {
  pg_ts x := x / 1000 * 1000;
  uuidv7 n := N.of_nat (S n);
  pg_text s := ValidString s && no_nul s;
  pg_rank query text := if String.eqb query text then f32_of_Z 1 else f_zero;
  pg_match query text := match String.index 0 query text with Some _ => true | None => false end;
  pg_cosine v w := if bool_decide (v = w) then f_zero else f64_of_Z 1;
  pg_ann A dist n l := take n (sort_func (cmp_on dist fcompare) l);
  pg_collate := String.compare;
}.

#[export] Instance demo_server_laws : ServerLaws demo_server.
Proof.
  split; simpl; intros.
  - pose proof (Z.div_le_mono x y 1000). lia.
  - rewrite Z.div_mul by lia. done.
  - lia.
  - lia.
  - apply andb_true_iff.
  - apply String_compare_total.
  - apply (submseteq_trans _ (sort_func (cmp_on dist fcompare) l)).
    + apply sublist_submseteq, sublist_take.
    + apply Permutation_submseteq, sort_by_Permutation.
  - rewrite length_take. lia.
  - by apply String.compare_eq_iff.
Qed.

(** SQLSTATEs the adapter reacts to ([postgres/store.go]), and the one a
    temporal key raises. *)
Definition pgerrcodeUndefinedTable : string := "42P01".
Definition pgerrcodeInvalidSchema : string := "3F000".
Definition pgerrcodeUniqueViolation : string := "23505".
Definition pgerrcodeCheckViolation : string := "23514".
Definition pgerrcodeForeignKeyViolat : string := "23503".

(** What the server answers to text it cannot store. *)
Definition pgerrcodeBadText : string := "22021".

(** [isCode]: the error carries one of the SQLSTATEs, however it is wrapped. *)
Definition isCode (e : Error) (codes : list string) : bool :=
  match e with
  | EPg c => bool_decide (c ∈ codes)
  | _ => false
  end.

(** The translation every statement shares: an absent table or schema means
    that [Migrate] has not run; another error is wrapped as it is. *)
Definition wrap_query (e : Error) : Error :=
  if isCode e [pgerrcodeUndefinedTable; pgerrcodeInvalidSchema] then EWrapPg ErrSchemaNotReady
  else e.
