(* ===== verification/Db.v ===== *)
(** * The schema ([postgres/migrations/*.sql])

    The six tables of the mempher schema as lists of rows, their CHECK
    constraints and keys as decidable predicates, and the statements the
    adapter composes: an INSERT, UPDATE or DELETE evaluates the constraints the
    schema declares and raises their SQLSTATE, leaving the table as it was.
    A nullable column is an [option]; instants are nanoseconds on the scale of
    [GoTime]. *)

From S2P Require Export Types Server.

#[local] Open Scope Z_scope.

(** ** Rows *)

Record ScopeRow : Type := MkScopeRow {
  sr_id : string;
  sr_last_seq : Z;
  sr_created : Z;
}.

Record EpisodeRow : Type := MkEpisodeRow {
  er_id : N;
  er_scope : string;
  er_seq : Z;
  er_content : string;
  er_role : string;
  er_actor : string;
  er_source : string;
  er_occurred : Z;
  er_ingested : Z;
  er_binding : gmap string string;
}.

Record EncodingRow : Type := MkEncodingRow {
  nr_episode : N;
  nr_model : string;
  nr_scope : string;
  nr_ingested : Z;
  nr_vec : Vector;
  nr_surprise : float32;
  nr_encoded : Z;
}.

Record JobRow : Type := MkJobRow {
  jr_id : N;
  jr_kind : string;
  jr_scope : string;
  jr_episodes : list N;
  jr_state : string;
  jr_attempts : Z;
  jr_max_attempts : Z;
  jr_run_after : Z;
  jr_leased_until : option Z;
  jr_leased_by : option string;
  jr_last_error : option string;
  jr_created : Z;
  jr_updated : Z;
}.

(** [valid] is a tstzrange, [from, to): an absent upper bound is unbounded. *)
Record FactRow : Type := MkFactRow {
  gr_id : N;
  gr_scope : string;
  gr_extractor : string;
  gr_subject : string;
  gr_predicate : string;
  gr_object : string;
  gr_statement : string;
  gr_from : Z;
  gr_to : option Z;
  gr_confidence : float32;
  gr_episodes : list N;
  gr_asserted : Z;
  gr_updated : Z;
}.

Record ExtractionRow : Type := MkExtractionRow {
  xt_episode : N;
  xt_extractor : string;
  xt_scope : string;
  xt_ingested : Z;
  xt_count : Z;
  xt_at : Z;
}.

#[export] Instance ScopeRow_eq_dec : EqDecision ScopeRow. Proof. solve_decision. Defined.
#[export] Instance EpisodeRow_eq_dec : EqDecision EpisodeRow. Proof. solve_decision. Defined.
#[export] Instance EncodingRow_eq_dec : EqDecision EncodingRow. Proof. solve_decision. Defined.
#[export] Instance JobRow_eq_dec : EqDecision JobRow. Proof. solve_decision. Defined.
#[export] Instance FactRow_eq_dec : EqDecision FactRow. Proof. solve_decision. Defined.
#[export] Instance ExtractionRow_eq_dec : EqDecision ExtractionRow. Proof. solve_decision. Defined.

(** The database: whether [Migrate] has run, the schema's vector width, the
    tables, and how many ids the server has minted. *)
Record Db : Type := MkDb {
  db_ready : bool;
  db_dims : Z;
  db_scopes : list ScopeRow;
  db_episodes : list EpisodeRow;
  db_encodings : list EncodingRow;
  db_jobs : list JobRow;
  db_facts : list FactRow;
  db_extractions : list ExtractionRow;
  db_minted : nat;
}.

Definition set_scopes (l : list ScopeRow) (d : Db) : Db :=
  MkDb (db_ready d) (db_dims d) l (db_episodes d) (db_encodings d) (db_jobs d) (db_facts d)
    (db_extractions d) (db_minted d).
Definition set_episodes (l : list EpisodeRow) (d : Db) : Db :=
  MkDb (db_ready d) (db_dims d) (db_scopes d) l (db_encodings d) (db_jobs d) (db_facts d)
    (db_extractions d) (db_minted d).
Definition set_encodings (l : list EncodingRow) (d : Db) : Db :=
  MkDb (db_ready d) (db_dims d) (db_scopes d) (db_episodes d) l (db_jobs d) (db_facts d)
    (db_extractions d) (db_minted d).
Definition set_jobs (l : list JobRow) (d : Db) : Db :=
  MkDb (db_ready d) (db_dims d) (db_scopes d) (db_episodes d) (db_encodings d) l (db_facts d)
    (db_extractions d) (db_minted d).
Definition set_facts (l : list FactRow) (d : Db) : Db :=
  MkDb (db_ready d) (db_dims d) (db_scopes d) (db_episodes d) (db_encodings d) (db_jobs d) l
    (db_extractions d) (db_minted d).
Definition set_extractions (l : list ExtractionRow) (d : Db) : Db :=
  MkDb (db_ready d) (db_dims d) (db_scopes d) (db_episodes d) (db_encodings d) (db_jobs d)
    (db_facts d) l (db_minted d).
Definition set_minted (n : nat) (d : Db) : Db :=
  MkDb (db_ready d) (db_dims d) (db_scopes d) (db_episodes d) (db_encodings d) (db_jobs d)
    (db_facts d) (db_extractions d) n.

(** What an operation of the adapter is: database in, database and outcome out. *)
Abbreviation dbop := (op Error Db).

(** A statement against a schema that is not there. *)
Definition on_schema {A} (m : dbop A) : dbop A :=
  fun d => if db_ready d then m d else (d, Err (EPg pgerrcodeUndefinedTable)).

(** A statement with text parameters. *)
Definition with_text {Sv : Server} {A} (texts : list string) (m : dbop A) : dbop A :=
  fun d => if forallb pg_text texts then m d else (d, Err (EPg pgerrcodeBadText)).

(** [LIMIT n]. *)
Definition sql_limit {A} (n : Z) (l : list A) : list A := take (Z.to_nat n) l.

Lemma keeps_on_schema {A} R `{!Reflexive R} (m : dbop A) : keeps R m -> keeps R (on_schema m).
Proof. intros Hm d. unfold on_schema. destruct (db_ready d); [apply Hm|done]. Qed.

Lemma keeps_with_text {Sv : Server} {A} R `{!Reflexive R} l (m : dbop A) :
  keeps R m -> keeps R (with_text l m).
Proof. intros Hm d. unfold with_text. destruct (forallb pg_text l); [apply Hm|done]. Qed.

Lemma reads_on_schema {A} (k : Db -> res A) : reads (on_schema (fun d => (d, k d))).
Proof. intros d. unfold on_schema. by destruct (db_ready d). Qed.

#[export] Hint Resolve reads_on_schema : mempher.

(** ** Constraints *)

Definition between (lo hi z : Z) : bool := (lo <=? z) && (z <=? hi).

Definition pg_length (s : string) : Z := rune_count s.

Definition scope_checks (r : ScopeRow) : bool :=
  between 1 200 (pg_length (sr_id r)) && (0 <=? sr_last_seq r).

Definition episode_checks (r : EpisodeRow) : bool :=
  (0 <? er_seq r) && between 1 1048576 (pg_length (er_content r)) &&
  one_of (er_role r) ["user"; "assistant"; "system"; "tool"; "observation"] &&
  between 1 100 (pg_length (er_source r)) && (pg_length (er_actor r) <=? 200) &&
  (Z.of_nat (size (er_binding r)) <=? 32).

(** [x >= 0 AND x <= 1] on a real: PostgreSQL orders NaN above every number. *)
Definition pg_in_unit (x : float32) : bool :=
  negb (is_nan x) && negb (f_ltb x f_zero) && negb (f_gtb x (f32_of_Z 1)).

Definition encoding_checks (dims : Z) (r : EncodingRow) : bool :=
  pg_in_unit (nr_surprise r) &&
  between 1 200 (pg_length (nr_model r)) && (Dimensions (nr_vec r) =? dims).

Definition job_checks (r : JobRow) : bool :=
  one_of (jr_kind r) ["encode"; "extract"] &&
  one_of (jr_state r) ["pending"; "running"; "done"; "dead"] &&
  (0 <? Z.of_nat (length (jr_episodes r))) &&
  ((0 <=? jr_attempts r) && (0 <? jr_max_attempts r) && (jr_attempts r <=? jr_max_attempts r)) &&
  Bool.eqb (String.eqb (jr_state r) "running")
    (bool_decide (is_Some (jr_leased_until r)) && bool_decide (is_Some (jr_leased_by r))).

(** [facts_valid_bounded]: a range with a finite lower bound is empty when its
    upper bound does not exceed it. *)
Definition range_ok (lo : Z) (hi : option Z) : bool :=
  match hi with Some h => lo <? h | None => true end.

(** [&&] on ranges. *)
Definition ranges_overlap (lo : Z) (hi : option Z) (lo' : Z) (hi' : option Z) : bool :=
  match hi with Some h => lo' <? h | None => true end &&
  match hi' with Some h' => lo <? h' | None => true end.

Definition fact_checks (r : FactRow) : bool :=
  between 1 200 (pg_length (gr_extractor r)) && between 1 200 (pg_length (gr_subject r)) &&
  between 1 100 (pg_length (gr_predicate r)) && between 1 1000 (pg_length (gr_object r)) &&
  between 1 4000 (pg_length (gr_statement r)) &&
  negb (contains_func IsSpace (gr_predicate r)) &&
  (0 <? Z.of_nat (length (gr_episodes r))) && range_ok (gr_from r) (gr_to r) &&
  pg_in_unit (gr_confidence r).

Definition extraction_checks (r : ExtractionRow) : bool :=
  (0 <=? xt_count r) && between 1 200 (pg_length (xt_extractor r)).

(** Keys. *)
Definition has_scope (d : Db) (s : string) : bool :=
  bool_decide (s ∈ map sr_id (db_scopes d)).
Definition has_episode (d : Db) (id : N) : bool :=
  bool_decide (id ∈ map er_id (db_episodes d)).

(** [jobs_inflight_key]: the rows it covers and their key. *)
Definition inflight (r : JobRow) : bool := one_of (jr_state r) ["pending"; "running"].
Definition job_key (r : JobRow) : string * string * list N :=
  (jr_kind r, jr_scope r, jr_episodes r).
Definition inflight_keys (l : list JobRow) : list (string * string * list N) :=
  map job_key (List.filter inflight l).

Definition fact_key (r : FactRow) : string * string * string * string * string :=
  (gr_scope r, gr_extractor r, gr_subject r, gr_predicate r, gr_object r).
(** Two rows the temporal primary key forbids together. *)
Definition facts_clash (r r' : FactRow) : bool :=
  bool_decide (fact_key r = fact_key r') &&
  ranges_overlap (gr_from r) (gr_to r) (gr_from r') (gr_to r').

Definition encoding_key (r : EncodingRow) : N * string := (nr_episode r, nr_model r).
Definition extraction_key (r : ExtractionRow) : N * string := (xt_episode r, xt_extractor r).

(** ** Well-formed databases

    What the constraints guarantee, table by table, and what minting adds. *)

Section WellFormed.
Context `{Sv : Server}.

Definition minted (d : Db) (id : N) : Prop := exists k, (k < db_minted d)%nat /\ id = uuidv7 k.

Record scopes_ok (d : Db) : Prop := {
  so_ids : NoDup (map sr_id (db_scopes d));
  so_rows : Forall (fun r => scope_checks r = true) (db_scopes d);
}.

Record episodes_ok (d : Db) : Prop := {
  eo_ids : NoDup (map er_id (db_episodes d));
  eo_seqs : NoDup (map (fun r => (er_scope r, er_seq r)) (db_episodes d));
  eo_rows : Forall (fun r => episode_checks r = true /\ minted d (er_id r) /\
              exists s, s ∈ db_scopes d /\ sr_id s = er_scope r /\ er_seq r <= sr_last_seq s)
              (db_episodes d);
}.

(** The scope and the ingestion time copied into a projection's row are those of
    the episode it names. *)
Definition copied_from (d : Db) (id : N) (scope : string) (ingested : Z) : Prop :=
  exists e, e ∈ db_episodes d /\ er_id e = id /\ er_scope e = scope /\ er_ingested e = ingested.

Record encodings_ok (d : Db) : Prop := {
  no_keys : NoDup (map encoding_key (db_encodings d));
  no_rows : Forall (fun r => encoding_checks (db_dims d) r = true /\
              copied_from d (nr_episode r) (nr_scope r) (nr_ingested r)) (db_encodings d);
}.

Record jobs_ok (d : Db) : Prop := {
  jo_ids : NoDup (map jr_id (db_jobs d));
  jo_inflight : NoDup (inflight_keys (db_jobs d));
  jo_rows : Forall (fun r => job_checks r = true /\ has_scope d (jr_scope r) = true /\
              minted d (jr_id r)) (db_jobs d);
}.

Record facts_ok (d : Db) : Prop := {
  fo_ids : NoDup (map gr_id (db_facts d));
  fo_key : ForallOrdPairs (fun r r' => facts_clash r r' = false) (db_facts d);
  fo_rows : Forall (fun r => fact_checks r = true /\ minted d (gr_id r) /\
              Forall (fun id => exists e, e ∈ db_episodes d /\ er_id e = id /\
                                  er_scope e = gr_scope r) (gr_episodes r)) (db_facts d);
}.

Record extractions_ok (d : Db) : Prop := {
  xo_keys : NoDup (map extraction_key (db_extractions d));
  xo_rows : Forall (fun r => extraction_checks r = true /\
              copied_from d (xt_episode r) (xt_scope r) (xt_ingested r)) (db_extractions d);
}.

Record db_ok (d : Db) : Prop := {
  ok_scopes : scopes_ok d;
  ok_episodes : episodes_ok d;
  ok_encodings : encodings_ok d;
  ok_jobs : jobs_ok d;
  ok_facts : facts_ok d;
  ok_extractions : extractions_ok d;
}.

Definition empty_db (dims : Z) : Db := MkDb true dims [] [] [] [] [] [] 0.

Lemma empty_db_ok dims : db_ok (empty_db dims).
Proof. split; split; simpl; constructor. Qed.

(** A table's invariant reads the table, the keys it refers to and the mint. *)
Lemma minted_mono d d' id :
  (db_minted d <= db_minted d')%nat -> minted d id -> minted d' id.
Proof. intros ? (k & ? & ->). exists k. split; [lia|done]. Qed.

Lemma minted_fresh `{!ServerLaws Sv} d : ~ minted d (uuidv7 (db_minted d)).
Proof. intros (k & ? & Hk%uuidv7_inj). lia. Qed.

Lemma has_scope_elem d s : has_scope d s = true <-> s ∈ map sr_id (db_scopes d).
Proof. apply bool_decide_eq_true. Qed.

Lemma scopes_ok_mono d d' : db_scopes d' = db_scopes d -> scopes_ok d -> scopes_ok d'.
Proof. intros Hs [? ?]. split; by rewrite Hs. Qed.

Lemma jobs_ok_mono d d' :
  db_jobs d' = db_jobs d -> (db_minted d <= db_minted d')%nat ->
  (forall s, has_scope d s = true -> has_scope d' s = true) ->
  jobs_ok d -> jobs_ok d'.
Proof.
  intros Hj Hm Hs [Hi Hk Hr]. split; rewrite Hj; [done|done|].
  eapply Forall_impl; [exact Hr|]. naive_solver eauto using minted_mono.
Qed.

Lemma copied_from_mono d d' id scope ing :
  (forall e, e ∈ db_episodes d -> e ∈ db_episodes d') ->
  copied_from d id scope ing -> copied_from d' id scope ing.
Proof. unfold copied_from. naive_solver. Qed.

Lemma encodings_ok_mono d d' :
  db_encodings d' = db_encodings d -> db_dims d' = db_dims d ->
  (forall e, e ∈ db_episodes d -> e ∈ db_episodes d') ->
  encodings_ok d -> encodings_ok d'.
Proof.
  intros Hn Hd He [Hk Hr]. split; rewrite Hn; [done|]. rewrite Hd.
  eapply Forall_impl; [exact Hr|]. intros r [? ?]. eauto using copied_from_mono.
Qed.

Lemma extractions_ok_mono d d' :
  db_extractions d' = db_extractions d ->
  (forall e, e ∈ db_episodes d -> e ∈ db_episodes d') ->
  extractions_ok d -> extractions_ok d'.
Proof.
  intros Hn He [Hk Hr]. split; rewrite Hn; [done|].
  eapply Forall_impl; [exact Hr|]. intros r [? ?]. eauto using copied_from_mono.
Qed.

Lemma facts_ok_mono d d' :
  db_facts d' = db_facts d -> (db_minted d <= db_minted d')%nat ->
  (forall e, e ∈ db_episodes d -> e ∈ db_episodes d') ->
  facts_ok d -> facts_ok d'.
Proof.
  intros Hf Hm He [Hi Hk Hr]. split; rewrite Hf; [done|done|].
  eapply Forall_impl; [exact Hr|]. intros r (? & ? & Hp). split; [done|].
  split; [by eapply minted_mono|]. eapply Forall_impl; [exact Hp|]. naive_solver.
Qed.

(** An operation that touches the jobs alone. *)
Lemma set_jobs_ok d l n :
  (db_minted d <= n)%nat -> db_ok d -> jobs_ok (set_jobs l (set_minted n d)) ->
  db_ok (set_jobs l (set_minted n d)).
Proof.
  intros Hn [[? ?] [? ? Hr] ? ? ? ?] Hj. split; [by split| | |done| |].
  - split; [done|done|]. eapply Forall_impl; [exact Hr|].
    intros r (? & ? & ?). split; [done|]. split; [|done]. by eapply minted_mono.
  - by apply (encodings_ok_mono d).
  - by apply (facts_ok_mono d).
  - by apply (extractions_ok_mono d).
Qed.

End WellFormed.

#[export] Hint Resolve minted_mono empty_db_ok : mempher.
