(* ===== verification/PgQueue.v ===== *)
(** * The job queue ([postgres/queue.go])

    Every method of the queue half of [postgres.Store], with its validation, its
    statement and the explanation it gives when no row was updated; then the
    invariant of the jobs table and the lifecycle every method keeps to. *)

From S2P Require Import Types Validate OpsTypes Server Db.

#[local] Open Scope Z_scope.

Definition maxLastErrorLen : Z := 2000.
Definition DefaultJobsLimit : Z := 100.
Definition DefaultPurgeLimit : Z := 1000.

(** [scanJob], after the driver has read the columns. *)
Definition scanJob (r : JobRow) : res Job :=
  reject (negb (JobKind_Valid (jr_kind r))) (EWrap ErrInvalidJobKind) ;;?
  reject (negb (JobState_Valid (jr_state r))) (EWrap ErrInvalidConfig) ;;?
  Ok (MkJob (jr_id r) (jr_kind r) (jr_scope r) (jr_episodes r) (jr_state r)
        (jr_attempts r) (jr_max_attempts r) (utc (jr_run_after r))
        (utc (default 0 (jr_leased_until r))) (default EmptyString (jr_leased_by r))
        (default EmptyString (jr_last_error r)) (utc (jr_created r)) (utc (jr_updated r))).

(** [truncateError] on the message of a cause; [None] is a nil cause. *)
Definition truncateError (cause : option string) : option string :=
  match cause with
  | None => None
  | Some message =>
      Some (if maxLastErrorLen <? len message
            then (slice_to message (Z.to_nat maxLastErrorLen) ++ "... (truncated)")%string
            else message)
  end.

(** [validateNewJob]. *)
Definition validateNewJob (job : NewJob) (now : Time) : res unit :=
  ScopeID_Validate (nj_scope job) ;;?
  reject (negb (JobKind_Valid (nj_kind job))) (EWrap ErrInvalidJobKind) ;;?
  reject (Z.of_nat (length (nj_episodes job)) =? 0) (EWrap ErrInvalidConfig) ;;?
  reject (nj_max_attempts job <? 0) (EWrap ErrInvalidConfig) ;;?
  reject (IsZero now) (EWrap ErrInvalidConfig) ;;?
  check_all (fun id => reject (IsZeroID id) (EWrap ErrInvalidConfig)) (nj_episodes job).

(** [validateLease]. *)
Definition validateLease (req : LeaseRequest) : res unit :=
  reject (is_empty (lr_worker req)) (EWrap ErrInvalidConfig) ;;?
  reject (IsZero (lr_now req)) (EWrap ErrInvalidConfig) ;;?
  reject (lr_limit req <? 0) (EWrap ErrInvalidConfig) ;;?
  reject (lr_duration req <? 0) (EWrap ErrInvalidConfig) ;;?
  check_all (fun k => reject (negb (JobKind_Valid k)) (EWrap ErrInvalidJobKind)) (lr_kinds req).

(** [validateJobUpdate]. *)
Definition validateJobUpdate (id : JobID) (worker : WorkerID) (at_ : Time) : res unit :=
  reject (IsZeroID id) (EWrap ErrInvalidConfig) ;;?
  reject (is_empty worker) (EWrap ErrInvalidConfig) ;;?
  reject (IsZero at_) (EWrap ErrInvalidConfig).

(** ** Statements *)

(** [UPDATE mempher.jobs SET f WHERE p RETURNING *]: the rows it touched. *)
Definition update_jobs (p : JobRow -> bool) (f : JobRow -> JobRow) : dbop (list JobRow) :=
  on_schema (fun d =>
    let jobs' := map (fun r => if p r then f r else r) (db_jobs d) in
    let touched := map f (List.filter p (db_jobs d)) in
    if negb (forallb job_checks touched) then (d, Err (EPg pgerrcodeCheckViolation))
    else if negb (bool_decide (NoDup (inflight_keys jobs')))
    then (d, Err (EPg pgerrcodeUniqueViolation))
    else (set_jobs jobs' d, Ok touched)).

(** The first row, as [QueryRow] reads it. *)
Definition query_row {A} (rows : list A) : res A :=
  match rows with
  | [] => Err ENoRows
  | r :: _ => Ok r
  end.

Section Queue.
Context `{Sv : Server}.

(** The outstanding row a new job would duplicate. *)
Definition outstanding (kind scope : string) (episodes : list N) (d : Db) : option JobRow :=
  List.find (fun r => inflight r && bool_decide (job_key r = (kind, scope, episodes))) (db_jobs d).

(** [enqueueSQL]: insert, or find the outstanding row it would duplicate. *)
Definition enqueue_stmt (kind scope : string) (episodes : list N) (run_after max_attempts now : Z)
    : dbop JobRow :=
  on_schema (fun d =>
    let row := MkJobRow (uuidv7 (db_minted d)) kind scope episodes "pending" 0 max_attempts
                 run_after None None None now now in
    let minted := set_minted (S (db_minted d)) d in
    if negb (job_checks row) then (d, Err (EPg pgerrcodeCheckViolation))
    else
      match outstanding kind scope episodes d with
      | Some existing => (minted, Ok existing)
      | None =>
          if has_scope d scope then (set_jobs (db_jobs d ++ [row]) minted, Ok row)
          else (d, Err (EPg pgerrcodeForeignKeyViolat))
      end).

(** The [switch] over the error of [Enqueue]. *)
Definition enqueue_error (e : Error) : Error :=
  if isCode e [pgerrcodeForeignKeyViolat] then EWrap ErrNotFound else wrap_query e.

(** [Store.Enqueue]. *)
Definition Enqueue (job : NewJob) (now : Time) : dbop Job :=
  olift (validateNewJob job now) ;;;
  let runAfter := if IsZero (nj_run_after job) then now else nj_run_after job in
  let maxAttempts := if nj_max_attempts job =? 0 then DefaultMaxAttempts else nj_max_attempts job in
  omap_err enqueue_error
    (let! r := enqueue_stmt (nj_kind job) (nj_scope job) (nj_episodes job)
                 (pg_ts (t_ns runAfter)) (int32 maxAttempts) (pg_ts (t_ns now)) in
     olift (scanJob r)).

(** The rows a lease may claim. *)
Definition leasable (kinds : list JobKind) (now : Z) (r : JobRow) : bool :=
  String.eqb (jr_state r) "pending" && (jr_run_after r <=? now) &&
  (jr_attempts r <? jr_max_attempts r) &&
  match kinds with [] => true | _ => one_of (jr_kind r) kinds end.

(** [ORDER BY run_after, id]. *)
Definition lease_order : JobRow -> JobRow -> comparison :=
  cmp_lex (cmp_on jr_run_after Z.compare) (cmp_on jr_id N.compare).

(** The ids the inner SELECT claims: [locked] are the rows other transactions
    hold, which SKIP LOCKED passes over before LIMIT counts. *)
Definition lease_ids (locked : list JobID) (kinds : list JobKind) (now limit : Z)
    (jobs : list JobRow) : list N :=
  map jr_id (sql_limit limit (sort_func lease_order
    (List.filter (fun r => leasable kinds now r && negb (bool_decide (jr_id r ∈ locked))) jobs))).

Definition lease_row (worker : string) (now until : Z) (r : JobRow) : JobRow :=
  MkJobRow (jr_id r) (jr_kind r) (jr_scope r) (jr_episodes r) "running" (jr_attempts r + 1)
    (jr_max_attempts r) (jr_run_after r) (Some until) (Some worker) (jr_last_error r)
    (jr_created r) now.

(** [Store.Lease]. *)
Definition Lease (locked : list JobID) (req : LeaseRequest) : dbop (list Job) :=
  olift (validateLease req) ;;;
  let limit := if lr_limit req =? 0 then 1 else lr_limit req in
  let duration := if lr_duration req =? 0 then DefaultLeaseDuration else lr_duration req in
  let now := pg_ts (t_ns (lr_now req)) in
  let until := pg_ts (t_ns (Add (lr_now req) duration)) in
  omap_err wrap_query
    (with_text [lr_worker req] (fun d =>
       let ids := lease_ids locked (lr_kinds req) now limit (db_jobs d) in
       (let! rows := update_jobs (fun r => bool_decide (jr_id r ∈ ids))
                       (lease_row (lr_worker req) now until) in
        olift (map_res scanJob rows)) d)).

(** [Store.Job]. *)
Definition Job_get (id : JobID) : dbop Job :=
  if IsZeroID id then ofail (EWrap ErrNotFound) else
  omap_err (fun e => match e with ENoRows => EWrap ErrNotFound | _ => wrap_query e end)
    (on_schema (fun d =>
       (d, let? r := query_row (List.filter (fun r => N.eqb (jr_id r) id) (db_jobs d)) in
           scanJob r))).

(** [explainLostLease]. *)
Definition explainLostLease (id : JobID) : dbop unit :=
  Job_get id ;;; ofail (EWrap ErrJobNotLeased).

(** [WHERE id = $1 AND state = 'running' AND leased_by = $2]. *)
Definition held_by (id : JobID) (worker : WorkerID) (r : JobRow) : bool :=
  N.eqb (jr_id r) id && String.eqb (jr_state r) "running" &&
  bool_decide (jr_leased_by r = Some worker).

Definition finish_row (at_ : Z) (r : JobRow) : JobRow :=
  MkJobRow (jr_id r) (jr_kind r) (jr_scope r) (jr_episodes r) "done" (jr_attempts r)
    (jr_max_attempts r) (jr_run_after r) None None (jr_last_error r) (jr_created r) at_.

(** [Store.Succeed]. *)
Definition Succeed (id : JobID) (worker : WorkerID) (at_ : Time) : dbop unit :=
  olift (validateJobUpdate id worker at_) ;;;
  let! rows := with_text [worker]
                 (update_jobs (held_by id worker) (finish_row (pg_ts (t_ns at_)))) in
  match rows with
  | [] => explainLostLease id
  | _ => oret tt
  end.

Definition exhausted (r : JobRow) : bool := jr_max_attempts r <=? jr_attempts r.

(** The SET clause of [Fail]. *)
Definition fail_row (at_ retry_at : Z) (err : option string) (r : JobRow) : JobRow :=
  MkJobRow (jr_id r) (jr_kind r) (jr_scope r) (jr_episodes r)
    (if exhausted r then "dead" else "pending") (jr_attempts r) (jr_max_attempts r)
    (if exhausted r then jr_run_after r else retry_at) None None err (jr_created r) at_.

(** [Store.Fail]; the cause is its message. *)
Definition Fail (id : JobID) (worker : WorkerID) (cause : option string) (at_ retryAt : Time)
    : dbop unit :=
  olift (validateJobUpdate id worker at_) ;;;
  olift (reject (IsZero retryAt) (EWrap ErrInvalidConfig)) ;;;
  let message := truncateError cause in
  let! rows := with_text (worker :: option_list message)
                 (update_jobs (held_by id worker)
                    (fail_row (pg_ts (t_ns at_)) (pg_ts (t_ns retryAt)) message)) in
  match rows with
  | [] => explainLostLease id
  | _ => oret tt
  end.

Definition expired_message : string := "lease expired; the worker holding it is presumed dead".

Definition expired (now : Z) (r : JobRow) : bool :=
  String.eqb (jr_state r) "running" &&
  match jr_leased_until r with Some u => u <? now | None => false end.

(** The SET clause of [Reclaim]. *)
Definition reclaim_row (now : Z) (r : JobRow) : JobRow :=
  MkJobRow (jr_id r) (jr_kind r) (jr_scope r) (jr_episodes r)
    (if exhausted r then "dead" else "pending") (jr_attempts r) (jr_max_attempts r)
    (jr_run_after r) None None (Some expired_message) (jr_created r) now.

(** [Store.Reclaim]. *)
Definition Reclaim (now : Time) : dbop Z :=
  olift (reject (IsZero now) (EWrap ErrInvalidConfig)) ;;;
  let! rows := omap_err wrap_query
                 (update_jobs (expired (pg_ts (t_ns now))) (reclaim_row (pg_ts (t_ns now)))) in
  oret (Z.of_nat (length rows)).

(** [= ANY($n)] of a filter that is absent when its list is empty. *)
Definition any_or_all (s : string) (l : list string) : bool :=
  match l with [] => true | _ => one_of s l end.

(** The WHERE clause of [Jobs]. *)
Definition jobs_filter (q : JobQuery) (r : JobRow) : bool :=
  (is_empty (jq_scope q) || String.eqb (jr_scope r) (jq_scope q)) &&
  any_or_all (jr_kind r) (jq_kinds q) && any_or_all (jr_state r) (jq_states q) &&
  (IsZeroID (jq_after q) || N.ltb (jq_after q) (jr_id r)).

(** [Store.Jobs]. *)
Definition Jobs (q : JobQuery) : dbop (list Job) :=
  olift (JobQuery_Validate q) ;;;
  let limit := if jq_limit q =? 0 then DefaultJobsLimit else jq_limit q in
  omap_err wrap_query
    (on_schema (fun d =>
       (d, map_res scanJob (sql_limit limit (sort_func (cmp_on jr_id N.compare)
             (List.filter (jobs_filter q) (db_jobs d))))))).

(** One bucket of [Stats]. *)
Definition bucket (r : JobRow) : string * string := (jr_kind r, jr_state r).
Definition min_created (rows : list JobRow) : option Z :=
  match map jr_created rows with
  | [] => None
  | x :: xs => Some (foldl Z.min x xs)
  end.
Definition count_bucket (rows : list JobRow) (b : string * string) : JobCount :=
  let rows' := List.filter (fun r => bool_decide (bucket r = b)) rows in
  MkJobCount b.1 b.2 (Z.of_nat (length rows'))
    (match min_created rows' with Some t => utc t | None => zeroTime end).

(** [Store.Stats]. *)
Definition Stats (scope : ScopeID) : dbop (list JobCount) :=
  olift (opt_scope_Validate scope) ;;;
  omap_err wrap_query
    (on_schema (fun d =>
       let rows := List.filter (fun r => is_empty scope || String.eqb (jr_scope r) scope) (db_jobs d) in
       let buckets := sort_func (cmp_lex (cmp_on fst pg_collate) (cmp_on snd pg_collate))
                        (remove_dups (map bucket rows)) in
       (d, Ok (map (count_bucket rows) buckets)))).

(** The SET clause of [Retry]. *)
Definition retry_row (now : Z) (r : JobRow) : JobRow :=
  MkJobRow (jr_id r) (jr_kind r) (jr_scope r) (jr_episodes r) "pending" 0 (jr_max_attempts r)
    now None None (jr_last_error r) (jr_created r) now.

(** [explainNotRevived]. *)
Definition explainNotRevived (id : JobID) : dbop Job :=
  Job_get id ;;; ofail (EWrap ErrJobNotDead).

(** The [switch] over the error of [Retry], but for the absent row. *)
Definition retry_error (e : Error) : Error :=
  if isCode e [pgerrcodeUniqueViolation] then EWrap ErrJobOutstanding else wrap_query e.

(** [Store.Retry]. *)
Definition Retry (id : JobID) (now : Time) : dbop Job :=
  olift (reject (IsZeroID id) (EWrap ErrNotFound)) ;;;
  olift (reject (IsZero now) (EWrap ErrInvalidConfig)) ;;;
  fun d =>
    let t := pg_ts (t_ns now) in
    match (let! rows := update_jobs (fun r => N.eqb (jr_id r) id && String.eqb (jr_state r) "dead")
                          (retry_row t) in
           olift (let? r := query_row rows in scanJob r)) d with
    | (d', Err ENoRows) => explainNotRevived id d'
    | (d', Err e) => (d', Err (retry_error e))
    | (d', Ok job) => (d', Ok job)
    end.

(** The ids the inner SELECT of [Purge] takes. *)
Definition purge_ids (states : list JobState) (before limit : Z) (jobs : list JobRow) : list N :=
  sql_limit limit (map jr_id (sort_func (cmp_on jr_id N.compare)
    (List.filter (fun r => one_of (jr_state r) states && (jr_updated r <? before)) jobs))).

(** [Store.Purge]. *)
Definition Purge (req : PurgeRequest) : dbop Z :=
  olift (PurgeRequest_Validate req) ;;;
  let limit := if pr_limit req =? 0 then DefaultPurgeLimit else pr_limit req in
  let states := match pr_states req with
                | [] => [JobStateDone; JobStateDead]
                | l => l
                end in
  omap_err wrap_query
    (on_schema (fun d =>
       let ids := purge_ids states (pg_ts (t_ns (pr_before req))) limit (db_jobs d) in
       let kept := List.filter (fun r => negb (bool_decide (jr_id r ∈ ids))) (db_jobs d) in
       (set_jobs kept d, Ok (Z.of_nat (length (db_jobs d)) - Z.of_nat (length kept))))).

End Queue.

(** ** The lifecycle of a job

    The abstract machine the queue implements: what may happen to one row. *)

Inductive job_step : JobRow -> JobRow -> Prop :=
  | js_lease r worker now until :
      jr_state r = JobStatePending -> jr_attempts r < jr_max_attempts r ->
      job_step r (lease_row worker now until r)
  | js_finish r at_ :
      jr_state r = JobStateRunning -> job_step r (finish_row at_ r)
  | js_fail r at_ retry_at err :
      jr_state r = JobStateRunning -> job_step r (fail_row at_ retry_at err r)
  | js_reclaim r now :
      jr_state r = JobStateRunning -> job_step r (reclaim_row now r).

(** Reviving a dead job is an operator's step, not the queue's. *)
Inductive job_revive : JobRow -> JobRow -> Prop :=
  | js_retry r now : jr_state r = JobStateDead -> job_revive r (retry_row now r).

(** What a job is never changes. *)
Definition same_job (r r' : JobRow) : Prop :=
  jr_id r' = jr_id r /\ job_key r' = job_key r /\ jr_max_attempts r' = jr_max_attempts r /\
  jr_created r' = jr_created r.

Lemma job_step_same r r' : job_step r r' -> same_job r r'.
Proof. by destruct 1. Qed.

Lemma job_revive_same r r' : job_revive r r' -> same_job r r'.
Proof. by destruct 1. Qed.

(** How far a job is from its last possible lease. *)
Definition job_measure (r : JobRow) : Z :=
  if String.eqb (jr_state r) "pending" then 2 * (jr_max_attempts r - jr_attempts r) + 1
  else if String.eqb (jr_state r) "running" then 2 * (jr_max_attempts r - jr_attempts r) + 2
  else 0.

Definition job_row_ok (r : JobRow) : Prop :=
  JobKind_Valid (jr_kind r) = true /\ JobState_Valid (jr_state r) = true /\
  jr_episodes r <> [] /\ 0 <= jr_attempts r <= jr_max_attempts r /\ 0 < jr_max_attempts r /\
  (jr_state r = JobStateRunning <-> is_Some (jr_leased_until r) /\ is_Some (jr_leased_by r)).

Lemma job_checks_spec r : job_checks r = true <-> job_row_ok r.
Proof.
  unfold job_checks, job_row_ok, JobKind_Valid, JobState_Valid.
  rewrite !andb_true_iff, eqb_true_iff.
  assert (0 <? Z.of_nat (length (jr_episodes r)) = true <-> jr_episodes r <> []) as ->.
  { by destruct (jr_episodes r). }
  assert (String.eqb (jr_state r) "running" =
            bool_decide (is_Some (jr_leased_until r)) && bool_decide (is_Some (jr_leased_by r)) <->
          (jr_state r = JobStateRunning <-> is_Some (jr_leased_until r) /\ is_Some (jr_leased_by r))) as ->.
  { rewrite <- String.eqb_eq. unfold JobStateRunning.
    destruct (String.eqb _ _); repeat case_bool_decide; simpl; naive_solver. }
  rewrite !Z.leb_le, Z.ltb_lt. tauto.
Qed.

Lemma scanJob_ok r : job_row_ok r -> exists j, scanJob r = Ok j.
Proof. intros (Hk & Hs & _). unfold scanJob. rewrite Hk, Hs. simpl. eauto. Qed.

Definition job_of (r : JobRow) : Job :=
  MkJob (jr_id r) (jr_kind r) (jr_scope r) (jr_episodes r) (jr_state r)
    (jr_attempts r) (jr_max_attempts r) (utc (jr_run_after r))
    (utc (default 0 (jr_leased_until r))) (default EmptyString (jr_leased_by r))
    (default EmptyString (jr_last_error r)) (utc (jr_created r)) (utc (jr_updated r)).

Lemma scanJob_job_of r : job_row_ok r -> scanJob r = Ok (job_of r).
Proof. intros (Hk & Hs & _). unfold scanJob. by rewrite Hk, Hs. Qed.

Lemma scan_jobs l : Forall job_row_ok l -> map_res scanJob l = Ok (map job_of l).
Proof. intros H. apply map_res_total. eapply Forall_impl; [exact H|]. apply scanJob_job_of. Qed.

Lemma job_step_ok r r' : job_step r r' -> job_row_ok r -> job_row_ok r'.
Proof.
  intros Hst (Hk & Hs & He & Ha & Hm & Hl).
  destruct Hst as [r w n u Hp Ha'|r a Hr|r a ra e Hr|r n Hr]; unfold job_row_ok; simpl;
    (split; [done|]); (split; [done || by destruct (exhausted r)|]);
    (split; [done|]); (split; [lia|]); (split; [done|]).
  - split; eauto.
  - split; [done|]. by intros [[] _].
  - split; [by destruct (exhausted r)|]. by intros [[] _].
  - split; [by destruct (exhausted r)|]. by intros [[] _].
Qed.

Lemma job_revive_ok r r' : job_revive r r' -> job_row_ok r -> job_row_ok r'.
Proof.
  intros [r0 n Hd] (Hk & Hs & He & Ha & Hm & Hl). unfold job_row_ok. simpl.
  do 3 (split; [done|]). split; [lia|]. split; [done|].
  split; [done|]. by intros [[] _].
Qed.

Lemma job_step_inflight r r' : job_step r r' -> inflight r = true.
Proof. unfold inflight. by destruct 1 as [???? ->|?? ->|???? ->|?? ->]. Qed.

Lemma job_measure_state r :
  (jr_state r = JobStatePending -> job_measure r = 2 * (jr_max_attempts r - jr_attempts r) + 1) /\
  (jr_state r = JobStateRunning -> job_measure r = 2 * (jr_max_attempts r - jr_attempts r) + 2) /\
  (jr_state r = JobStateDone \/ jr_state r = JobStateDead -> job_measure r = 0).
Proof.
  unfold job_measure. split; [by intros ->|]. split; [by intros ->|]. by intros [-> | ->].
Qed.

Lemma job_step_measure r r' :
  job_step r r' -> job_row_ok r -> 0 <= job_measure r' < job_measure r.
Proof.
  intros Hst (_ & _ & _ & Ha & _).
  pose proof (job_measure_state r) as (Mp & Mr & _).
  pose proof (job_measure_state r') as (Mp' & Mr' & Mf').
  destruct Hst as [r w n u Hp Ha'|r a Hr|r a ra e Hr|r n Hr].
  - rewrite Mp, Mr' by done. unfold lease_row; cbn [jr_attempts jr_max_attempts]. lia.
  - rewrite Mr, Mf' by auto. lia.
  - unfold fail_row in *; cbn [jr_state jr_attempts jr_max_attempts] in *. rewrite Mr by done.
    unfold exhausted in *. case_match; [rewrite Mf' by auto; lia|rewrite Mp' by done; lia].
  - unfold reclaim_row in *; cbn [jr_state jr_attempts jr_max_attempts] in *. rewrite Mr by done.
    unfold exhausted in *. case_match; [rewrite Mf' by auto; lia|rewrite Mp' by done; lia].
Qed.

(** ** Updates of the table *)

Definition apply_update (p : JobRow -> bool) (f : JobRow -> JobRow) (l : list JobRow) : list JobRow :=
  map (fun r => if p r then f r else r) l.

Lemma apply_update_map {B} (g : JobRow -> B) p f l :
  (forall r, r ∈ l -> p r = true -> g (f r) = g r) -> map g (apply_update p f l) = map g l.
Proof.
  induction l as [|r l IH]; intros Hg; [done|]. simpl. rewrite IH by set_solver.
  destruct (p r) eqn:E; [|done]. by rewrite Hg by set_solver.
Qed.

Lemma apply_update_ext p q f l :
  (forall r, r ∈ l -> p r = q r) -> apply_update p f l = apply_update q f l.
Proof. intros H. apply map_ext_in. intros r Hr%list_elem_of_In. by rewrite H. Qed.

Lemma inflight_keys_update p f l :
  (forall r, r ∈ l -> p r = true -> job_key (f r) = job_key r /\ inflight r = true) ->
  sublist (inflight_keys (apply_update p f l)) (inflight_keys l).
Proof.
  unfold inflight_keys. induction l as [|r l IH]; intros Hf; [done|]. simpl.
  specialize (IH ltac:(set_solver)). destruct (p r) eqn:E.
  - destruct (Hf r ltac:(set_solver) E) as [Hk Hi]. rewrite Hi. simpl.
    destruct (inflight (f r)); simpl; [rewrite Hk; by constructor|by constructor].
  - destruct (inflight r); simpl; [by constructor|done].
Qed.

Lemma elem_of_apply_update p f l r' :
  r' ∈ apply_update p f l <->
  exists r, r ∈ l /\ r' = (if p r then f r else r).
Proof. unfold apply_update. rewrite list_elem_of_fmap. naive_solver. Qed.

Section Invariant.
Context `{Sv : Server}.

Lemma jobs_ok_row d r : jobs_ok d -> r ∈ db_jobs d -> job_row_ok r.
Proof.
  intros [_ _ Hr] Hin. rewrite Forall_forall in Hr. apply job_checks_spec. by apply Hr.
Qed.

Lemma jobs_ok_unique d r r' :
  jobs_ok d -> r ∈ db_jobs d -> r' ∈ db_jobs d -> jr_id r = jr_id r' -> r = r'.
Proof.
  intros [Hid _ _] Hr Hr' Heq. revert Hid Hr Hr'.
  induction (db_jobs d) as [|x l IH]; simpl; [by intros _ ?%not_elem_of_nil|].
  rewrite NoDup_cons, !elem_of_cons. intros [Hx Hl] [-> | Hr] [-> | Hr']; [done| | |by apply IH].
  - destruct Hx. rewrite Heq. by apply list_elem_of_fmap_2.
  - destruct Hx. rewrite <- Heq. by apply list_elem_of_fmap_2.
Qed.

(** An update that keeps every row a legal row of the same job, and leaves the
    in-flight key a key, goes through. *)
Lemma update_jobs_ok d p f :
  db_ready d = true -> jobs_ok d ->
  (forall r, r ∈ db_jobs d -> p r = true -> job_row_ok (f r) /\ same_job r (f r)) ->
  NoDup (inflight_keys (apply_update p f (db_jobs d))) ->
  update_jobs p f d =
    (set_jobs (apply_update p f (db_jobs d)) d, Ok (map f (List.filter p (db_jobs d)))) /\
  jobs_ok (set_jobs (apply_update p f (db_jobs d)) d).
Proof.
  intros Hready Hok Hf Hnd. pose proof Hok as [Hid Hin Hr]. split.
  - unfold update_jobs, on_schema. rewrite Hready.
    replace (forallb job_checks (map f (List.filter p (db_jobs d)))) with true.
    + by rewrite bool_decide_true.
    + symmetry. apply forallb_forall. intros r' (r & <- & Hrin)%in_map_iff.
      apply filter_In in Hrin as [Hrin Hp]. apply job_checks_spec, Hf; [|done].
      by apply list_elem_of_In.
  - split; simpl; [|done|].
    + rewrite apply_update_map; [done|]. intros r Hrin Hp. by apply Hf.
    + apply Forall_forall. intros r' (r & Hrin & ->)%elem_of_apply_update.
      rewrite Forall_forall in Hr. destruct (Hr r Hrin) as (Hc & Hs & Hm).
      destruct (p r) eqn:Hp; [|done]. destruct (Hf r Hrin Hp) as [Hrow (Hi & Hk & _)].
      rewrite Hi. injection Hk as _ -> _. split; [by apply job_checks_spec|done].
Qed.

(** In particular one that takes each row it touches one step further. *)
Lemma update_jobs_step d p f :
  db_ready d = true -> jobs_ok d ->
  (forall r, r ∈ db_jobs d -> p r = true -> job_step r (f r)) ->
  update_jobs p f d =
    (set_jobs (apply_update p f (db_jobs d)) d, Ok (map f (List.filter p (db_jobs d)))) /\
  jobs_ok (set_jobs (apply_update p f (db_jobs d)) d) /\
  Forall job_row_ok (map f (List.filter p (db_jobs d))).
Proof.
  intros Hready Hok Hf.
  assert (forall r, r ∈ db_jobs d -> p r = true -> job_row_ok (f r) /\ same_job r (f r)) as Hf'.
  { intros r Hr Hp. specialize (Hf r Hr Hp). split; [|by apply job_step_same].
    eapply job_step_ok; [done|]. by eapply jobs_ok_row. }
  edestruct (update_jobs_ok d p f) as [He Hok']; [done|done|exact Hf'| |].
  - eapply sublist_NoDup; [apply Hok|]. apply inflight_keys_update. intros r Hr Hp.
    specialize (Hf r Hr Hp). split; [|by eapply job_step_inflight]. by apply job_step_same in Hf as (_ & ? & _).
  - split; [done|]. split; [done|]. apply Forall_forall.
    intros r' (r & -> & [Hr Hp]%elem_of_filter_b)%list_elem_of_fmap. by apply Hf'.
Qed.

End Invariant.

(** ** Every operation follows the lifecycle *)

Definition finished (r : JobRow) : bool := one_of (jr_state r) [JobStateDone; JobStateDead].

(** How the table may change: a row stays, or takes a step, or is gone though
    it was finished; a row that is new is pending and untried; nothing but the
    jobs is touched. *)
Record evolves (step : JobRow -> JobRow -> Prop) (d d' : Db) : Prop := {
  ev_kept : forall r, r ∈ db_jobs d ->
    (exists r', r' ∈ db_jobs d' /\ (r' = r \/ step r r')) \/
    (finished r = true /\ jr_id r ∉ map jr_id (db_jobs d'));
  ev_new : forall r', r' ∈ db_jobs d' ->
    (exists r, r ∈ db_jobs d /\ (r' = r \/ step r r')) \/
    (jr_id r' ∉ map jr_id (db_jobs d) /\ jr_state r' = JobStatePending /\ jr_attempts r' = 0);
  ev_rest : set_jobs (db_jobs d) (set_minted (db_minted d) d') = d /\
    (db_minted d <= db_minted d')%nat;
}.

Lemma evolves_refl step d : evolves step d d.
Proof. split; [eauto|eauto|]. split; [by destruct d|done]. Qed.

Lemma evolves_update (step : JobRow -> JobRow -> Prop) d p f :
  (forall r, r ∈ db_jobs d -> p r = true -> step r (f r)) ->
  evolves step d (set_jobs (apply_update p f (db_jobs d)) d).
Proof.
  intros Hf. split; simpl.
  - intros r Hr. left. exists (if p r then f r else r). split.
    + apply elem_of_apply_update. eauto.
    + destruct (p r) eqn:E; auto.
  - intros r' (r & Hr & ->)%elem_of_apply_update. left. exists r. split; [done|].
    destruct (p r) eqn:E; auto.
  - split; [by destruct d|done].
Qed.

Section Lifecycle.
Context `{Sv : Server} `{!ServerLaws Sv}.

Inductive QueueOp : Type :=
  | QEnqueue (job : NewJob) (now : Time)
  | QLease (locked : list JobID) (req : LeaseRequest)
  | QSucceed (id : JobID) (worker : WorkerID) (at_ : Time)
  | QFail (id : JobID) (worker : WorkerID) (cause : option string) (at_ retryAt : Time)
  | QReclaim (now : Time)
  | QRetry (id : JobID) (now : Time)
  | QPurge (req : PurgeRequest)
  | QJob (id : JobID)
  | QJobs (q : JobQuery)
  | QStats (scope : ScopeID).

Definition run_queue (o : QueueOp) (d : Db) : Db :=
  match o with
  | QEnqueue job now => (Enqueue job now d).1
  | QLease locked req => (Lease locked req d).1
  | QSucceed id worker at_ => (Succeed id worker at_ d).1
  | QFail id worker cause at_ retryAt => (Fail id worker cause at_ retryAt d).1
  | QReclaim now => (Reclaim now d).1
  | QRetry id now => (Retry id now d).1
  | QPurge req => (Purge req d).1
  | QJob id => (Job_get id d).1
  | QJobs q => (Jobs q d).1
  | QStats scope => (Stats scope d).1
  end.

Definition step_of (o : QueueOp) : JobRow -> JobRow -> Prop :=
  match o with QRetry _ _ => job_revive | _ => job_step end.

(** What is shown of each operation: it keeps the table's invariant and follows
    the lifecycle. *)
Definition follows (step : JobRow -> JobRow -> Prop) (d d' : Db) : Prop :=
  jobs_ok d -> jobs_ok d' /\ evolves step d d'.

#[local] Instance follows_refl step : Reflexive (follows step).
Proof. intros d Hd. split; [done|]. apply evolves_refl. Qed.

Lemma update_follows d p f :
  (jobs_ok d -> forall r, r ∈ db_jobs d -> p r = true -> job_step r (f r)) ->
  follows job_step d (update_jobs p f d).1.
Proof.
  intros Hf Hok. specialize (Hf Hok). destruct (db_ready d) eqn:Hready.
  - destruct (update_jobs_step d p f) as (-> & Hok' & _); [done|done|done|].
    split; [done|]. by apply evolves_update.
  - unfold update_jobs, on_schema. rewrite Hready. by apply follows_refl.
Qed.

Lemma keeps_update p f :
  (forall r, p r = true -> job_step r (f r)) -> keeps (follows job_step) (update_jobs p f).
Proof. intros Hf d. apply update_follows. auto. Qed.

Lemma reads_Job_get id : reads (Job_get id).
Proof. unfold Job_get. destruct (IsZeroID id); auto with mempher. Qed.

Lemma reads_explainLostLease id : reads (explainLostLease id).
Proof. apply reads_bind; [apply reads_Job_get|done]. Qed.

Lemma reads_explainNotRevived id : reads (explainNotRevived id).
Proof. apply reads_bind; [apply reads_Job_get|done]. Qed.

Lemma held_by_running id worker r : held_by id worker r = true -> jr_state r = JobStateRunning.
Proof. unfold held_by. rewrite !andb_true_iff, String.eqb_eq. naive_solver. Qed.

Lemma keeps_Succeed id worker at_ : keeps (follows job_step) (Succeed id worker at_).
Proof.
  unfold Succeed. apply keeps_guard; [apply _|done|intros _].
  apply keeps_then_reads.
  - apply keeps_with_text; [apply _|]. apply keeps_update.
    intros r Hp%held_by_running. by constructor.
  - intros []; [apply reads_explainLostLease|done].
Qed.

Lemma keeps_Fail id worker cause at_ retryAt :
  keeps (follows job_step) (Fail id worker cause at_ retryAt).
Proof.
  unfold Fail. do 2 (apply keeps_guard; [apply _|done|intros _]).
  apply keeps_then_reads.
  - apply keeps_with_text; [apply _|]. apply keeps_update.
    intros r Hp%held_by_running. by constructor.
  - intros []; [apply reads_explainLostLease|done].
Qed.

Lemma expired_running now r : expired now r = true -> jr_state r = JobStateRunning.
Proof. unfold expired. rewrite andb_true_iff, String.eqb_eq. by intros [? _]. Qed.

Lemma keeps_Reclaim now : keeps (follows job_step) (Reclaim now).
Proof.
  unfold Reclaim. apply keeps_guard; [apply _|done|intros _].
  apply keeps_then_reads; [|done]. apply keeps_map_err. apply keeps_update.
  intros r Hp%expired_running. by constructor.
Qed.

Lemma elem_of_sql_limit {A} n (l : list A) x : x ∈ sql_limit n l -> x ∈ l.
Proof. unfold sql_limit. intros (i & Hi & _)%elem_of_take. by eapply list_elem_of_lookup_2. Qed.

Lemma elem_of_lease_ids locked kinds now limit jobs id :
  id ∈ lease_ids locked kinds now limit jobs ->
  exists r, r ∈ jobs /\ jr_id r = id /\ leasable kinds now r = true /\ id ∉ locked.
Proof.
  unfold lease_ids. intros (r & -> & Hr%elem_of_sql_limit)%list_elem_of_fmap.
  unfold sort_func in Hr. apply elem_of_sort_by, elem_of_filter_b in Hr as [Hr Hl].
  apply andb_true_iff in Hl as [Hl Hk]. exists r. rewrite negb_true_iff, bool_decide_eq_false in Hk.
  done.
Qed.

Lemma leasable_spec kinds now r :
  leasable kinds now r = true ->
  jr_state r = JobStatePending /\ jr_run_after r <= now /\ jr_attempts r < jr_max_attempts r /\
  (kinds = [] \/ jr_kind r ∈ kinds).
Proof.
  unfold leasable. rewrite !andb_true_iff, String.eqb_eq, Z.leb_le, Z.ltb_lt.
  intros [[[? ?] ?] Hk]. do 3 (split; [done|]). destruct kinds; [auto|]. right. by apply one_of_spec.
Qed.

Lemma lease_row_step d locked kinds now0 limit worker now until r :
  jobs_ok d -> r ∈ db_jobs d -> jr_id r ∈ lease_ids locked kinds now0 limit (db_jobs d) ->
  job_step r (lease_row worker now until r).
Proof.
  intros Hok Hr (r' & Hr' & Hid & Hl & _)%elem_of_lease_ids.
  apply (jobs_ok_unique d) in Hid as ->; [|done..]. apply leasable_spec in Hl as (? & _ & ? & _).
  by constructor.
Qed.

Lemma keeps_Lease locked req : keeps (follows job_step) (Lease locked req).
Proof.
  unfold Lease. apply keeps_guard; [apply _|done|intros _].
  apply keeps_map_err, keeps_with_text; [apply _|].
  intros d. set (ids := lease_ids _ _ _ _ _).
  assert (follows job_step d (update_jobs (fun r => bool_decide (jr_id r ∈ ids))
    (lease_row (lr_worker req) (pg_ts (t_ns (lr_now req)))
       (pg_ts (t_ns (Add (lr_now req)
          (if lr_duration req =? 0 then DefaultLeaseDuration else lr_duration req))))) d).1) as Hf.
  { apply update_follows. intros Hok r Hr Hp%bool_decide_eq_true. by eapply lease_row_step. }
  unfold obind. destruct (update_jobs _ _ d) as [d' []]; exact Hf.
Qed.

Lemma set_jobs_self d n : set_jobs (db_jobs d) (set_minted (db_minted d) (set_minted n d)) = d.
Proof. by destruct d. Qed.

(** A fresh row whose work is not outstanding goes in. *)
Lemma insert_job_ok d row :
  jobs_ok d -> job_checks row = true -> jr_id row = uuidv7 (db_minted d) ->
  has_scope d (jr_scope row) = true ->
  outstanding (jr_kind row) (jr_scope row) (jr_episodes row) d = None ->
  jr_id row ∉ map jr_id (db_jobs d) /\
  jobs_ok (set_jobs (db_jobs d ++ [row]) (set_minted (S (db_minted d)) d)).
Proof using ServerLaws0.
  intros [Hid Hin Hr] Hc Hrow Hs Hfind.
  assert (jr_id row ∉ map jr_id (db_jobs d)) as Hfresh.
  { intros (r & Heq & Hrin)%list_elem_of_fmap. rewrite Forall_forall in Hr.
    destruct (Hr r Hrin) as (_ & _ & Hm). rewrite <- Heq, Hrow in Hm. by apply minted_fresh in Hm. }
  split; [done|]. split; simpl.
  - rewrite map_app. apply NoDup_app_fresh; [done|apply NoDup_singleton|].
    intros x Hx ->%list_elem_of_singleton. done.
  - unfold inflight_keys. rewrite List.filter_app, map_app. apply NoDup_app_fresh; [done| |].
    { simpl. destruct (inflight row); [apply NoDup_singleton|constructor]. }
    simpl. destruct (inflight row); [|by intros k _ ?%not_elem_of_nil].
    intros k (r & -> & [Hrin Hi]%elem_of_filter_b)%list_elem_of_fmap Hk%list_elem_of_singleton.
    eapply find_absent in Hfind; [|done]. rewrite Hi in Hfind. simpl in Hfind.
    by apply bool_decide_eq_false in Hfind.
  - apply Forall_app. split.
    + eapply Forall_impl; [exact Hr|]. intros r (? & ? & ?). split; [done|]. split; [done|].
      eapply minted_mono; [|done]. simpl. lia.
    + constructor; [|done]. split; [done|]. split; [done|]. exists (db_minted d). split; [simpl; lia|done].
Qed.

Lemma enqueue_follows kind scope eps ra ma now :
  keeps (follows job_step) (enqueue_stmt kind scope eps ra ma now).
Proof using ServerLaws0.
  apply keeps_on_schema; [apply _|]. intros d. cbv beta zeta.
  set (row := MkJobRow _ _ _ _ _ _ _ _ _ _ _ _ _).
  destruct (job_checks row) eqn:Hc; simpl; [|reflexivity].
  destruct (outstanding _ _ _ _) as [existing|] eqn:Hfind.
  - intros Hok. split; [apply (jobs_ok_mono d); simpl; [done|lia|done|done]|].
    split; simpl; [eauto|eauto|]. split; [apply set_jobs_self|lia].
  - destruct (has_scope d scope) eqn:Hs; [|reflexivity]. intros Hok.
    destruct (insert_job_ok d row) as [Hfresh Hok']; [done..|]. split; [done|]. split; simpl.
    + intros r Hrin. left. exists r. split; [|auto]. apply elem_of_app. auto.
    + intros r' [Hrin|Hrin%list_elem_of_singleton]%elem_of_app; [eauto|].
      right. by rewrite Hrin.
    + split; [by destruct d|]. lia.
Qed.

Lemma keeps_Enqueue job now : keeps (follows job_step) (Enqueue job now).
Proof using ServerLaws0.
  unfold Enqueue. apply keeps_guard; [apply _|done|intros _].
  apply keeps_map_err, keeps_then_reads; [apply enqueue_follows|done].
Qed.

Lemma revive_follows d p now :
  (forall r, p r = true -> jr_state r = JobStateDead) ->
  follows job_revive d (update_jobs p (retry_row now) d).1.
Proof.
  intros Hp Hok. destruct (db_ready d) eqn:Hready;
    [|unfold update_jobs, on_schema; rewrite Hready; by apply follows_refl].
  destruct (decide (NoDup (inflight_keys (apply_update p (retry_row now) (db_jobs d))))) as [Hnd|Hnd].
  - destruct (update_jobs_ok d p (retry_row now)) as [-> Hok']; [done|done| |done|].
    + intros r Hr Hpr. assert (job_revive r (retry_row now r)) as Hrev by (constructor; auto).
      split; [|by apply job_revive_same]. eapply job_revive_ok; [done|]. by eapply jobs_ok_row.
    + split; [done|]. apply evolves_update. intros r Hr Hpr. constructor. auto.
  - unfold update_jobs, on_schema. rewrite Hready.
    rewrite (bool_decide_false _ Hnd). destruct (negb _); by apply follows_refl.
Qed.

Lemma dead_only id r :
  N.eqb (jr_id r) id && String.eqb (jr_state r) "dead" = true -> jr_state r = JobStateDead.
Proof. by intros [_ ?%String.eqb_eq]%andb_true_iff. Qed.

Lemma keeps_Retry id now : keeps (follows job_revive) (Retry id now).
Proof.
  unfold Retry. do 2 (apply keeps_guard; [apply _|done|intros _]). intros d. cbv beta zeta.
  pose proof (revive_follows d _ (pg_ts (t_ns now)) (dead_only id)) as Hf.
  unfold obind. destruct (update_jobs _ _ d) as [d' [rows|e]]; simpl in Hf.
  - unfold olift. destruct (let? r := query_row rows in scanJob r) as [j|[]]; simpl; try exact Hf.
    by rewrite reads_explainNotRevived.
  - destruct e; simpl; try exact Hf. by rewrite reads_explainNotRevived.
Qed.

Lemma purge_states_finished req :
  PurgeRequest_Validate req = Ok tt ->
  forall s, s ∈ (match pr_states req with [] => [JobStateDone; JobStateDead] | l => l end) ->
  s = JobStateDone \/ s = JobStateDead.
Proof.
  unfold PurgeRequest_Validate. intros H. inv_result. intros s.
  destruct (pr_states req) as [|s0 l] eqn:E.
  - rewrite !elem_of_cons, elem_of_nil. naive_solver.
  - rewrite Forall_forall in *. intros Hs. apply purge_state_check_Ok. auto.
Qed.

Lemma elem_of_purge_ids states before limit jobs id :
  id ∈ purge_ids states before limit jobs ->
  exists r, r ∈ jobs /\ jr_id r = id /\ jr_state r ∈ states /\ jr_updated r < before.
Proof.
  unfold purge_ids, sort_func. intros Hid%elem_of_sql_limit.
  apply list_elem_of_fmap in Hid as (r & -> & Hr). apply elem_of_sort_by, elem_of_filter_b in Hr as [Hr Hp].
  rewrite andb_true_iff, one_of_spec, Z.ltb_lt in Hp. naive_solver.
Qed.

Lemma delete_jobs_ok d (p : JobRow -> bool) :
  jobs_ok d -> jobs_ok (set_jobs (List.filter p (db_jobs d)) d).
Proof.
  intros [Hid Hin Hr]. split; simpl.
  - by apply NoDup_map_filter.
  - unfold inflight_keys. rewrite filter_comm. by apply NoDup_map_filter.
  - by apply Forall_filter_keep.
Qed.

Lemma keeps_Purge req : keeps (follows job_step) (Purge req).
Proof.
  intros d. unfold Purge. rewrite obind_olift.
  destruct (PurgeRequest_Validate req) as [[]|e] eqn:Hv; [|by apply follows_refl].
  apply keeps_map_err, keeps_on_schema; [apply _|]. clear d. intros d Hok.
  set (states := match pr_states req with [] => _ | l => l end).
  set (ids := purge_ids _ _ _ _). split; [by apply delete_jobs_ok|]. split; simpl.
  - intros r Hr. destruct (decide (jr_id r ∈ ids)) as [Hin|Hin].
    + right. split.
      * apply elem_of_purge_ids in Hin as (r' & Hr' & Hid & Hst & _).
        apply (jobs_ok_unique d) in Hid as ->; [|done..].
        apply one_of_spec. eapply purge_states_finished in Hst; [|done].
        rewrite !elem_of_cons. naive_solver.
      * intros (r' & Heq & [_ Hr']%elem_of_filter_b)%list_elem_of_fmap.
        rewrite negb_true_iff, bool_decide_eq_false in Hr'. congruence.
    + left. exists r. split; [|auto]. apply elem_of_filter_b. split; [done|].
      by rewrite negb_true_iff, bool_decide_eq_false.
  - intros r' [Hr' _]%elem_of_filter_b. eauto.
  - split; [by destruct d|done].
Qed.

Lemma reads_Jobs q : reads (Jobs q).
Proof. apply reads_bind; auto with mempher. Qed.
Lemma reads_Stats scope : reads (Stats scope).
Proof. apply reads_bind; auto with mempher. Qed.

Lemma run_queue_follows (o : QueueOp) (d : Db) : follows (step_of o) d (run_queue o d).
Proof.
  destruct o; simpl; revert d.
  - apply keeps_Enqueue.
  - apply keeps_Lease.
  - apply keeps_Succeed.
  - apply keeps_Fail.
  - apply keeps_Reclaim.
  - apply keeps_Retry.
  - apply keeps_Purge.
  - apply (keeps_reads (follows job_step)), reads_Job_get.
  - apply (keeps_reads (follows job_step)), reads_Jobs.
  - apply (keeps_reads (follows job_step)), reads_Stats.
Qed.

(** C24: whatever operation runs, the jobs table keeps its keys and constraints
    (ids and in-flight work unique, attempts within bounds, a lease exactly while
    running), every row stays the job it was and moves only along the lifecycle
    (pending to running with an attempt counted; running to done, pending or
    dead; dead to pending only through [Retry]), a row disappears only when
    finished, one that appears is pending and untried, and no other table is
    touched. *)
Theorem queue_lifecycle (o : QueueOp) (d : Db) :
  jobs_ok d -> jobs_ok (run_queue o d) /\ evolves (step_of o) d (run_queue o d).
Proof. apply run_queue_follows. Qed.

(** So does the whole database. *)
Lemma follows_ok step d d' : follows step d d' -> db_ok d -> db_ok d'.
Proof.
  intros Hf Hok. destruct (Hf (ok_jobs d Hok)) as [Hj [_ _ [Hrest Hm]]].
  replace d' with (set_jobs (db_jobs d') (set_minted (db_minted d') d)) in Hj |- *
    by (rewrite <- Hrest; by destruct d').
  by apply set_jobs_ok.
Qed.
End Lifecycle.
