(* ===== verification/Queueing.v ===== *)
(** * What each operation of the queue does ([PgQueue])

    Branch by branch: leases are exclusive, a claim takes the right rows in order, a
    report needs the lease, a reclaim and a revival move what they should; error
    messages are bounded and so is the work spent on a job. *)

From S2P Require Import Types Validate OpsTypes Server Db PgQueue.

#[local] Open Scope Z_scope.

(** ** What each operation does, branch by branch *)

Section Behaviour.
Context `{Sv : Server} `{!ServerLaws Sv}.

(** A job running under a lease stays as it is under any operation but those
    that end the lease: its holder's own report, or a reclaim after expiry. *)
Definition ends_lease (o : QueueOp) (id : JobID) (worker : WorkerID) (until : Z) : Prop :=
  match o with
  | QSucceed id' worker' _ | QFail id' worker' _ _ _ => id' = id /\ worker' = worker
  | QReclaim now => until < pg_ts (t_ns now)
  | _ => False
  end.

Lemma update_keeps_row d p f r :
  r ∈ db_jobs d -> p r = false -> r ∈ db_jobs (update_jobs p f d).1.
Proof.
  intros Hr Hp. unfold update_jobs, on_schema. destruct (db_ready d); [|done].
  destruct (negb _); [done|]. destruct (negb _); [done|]. simpl.
  apply elem_of_apply_update. exists r. by rewrite Hp.
Qed.

Definition keeps_row (r : JobRow) (d d' : Db) : Prop := r ∈ db_jobs d -> r ∈ db_jobs d'.

#[local] Instance keeps_row_refl r : Reflexive (keeps_row r).
Proof. by intros d Hr. Qed.

Lemma keeps_row_update r p f : p r = false -> keeps (keeps_row r) (update_jobs p f).
Proof. intros Hp d Hr. by apply update_keeps_row. Qed.

Lemma Enqueue_keeps_row job now r : keeps (keeps_row r) (Enqueue job now).
Proof.
  apply keeps_guard; [apply _|done|intros _].
  apply keeps_map_err, keeps_then_reads; [|done].
  apply keeps_on_schema; [apply _|]. intros d Hr. cbv beta zeta.
  destruct (negb _); [done|]. destruct (outstanding _ _ _ _); [done|].
  destruct (has_scope _ _); [|done]. apply elem_of_app. auto.
Qed.

Lemma Lease_keeps_row locked req d r :
  jobs_ok d -> jr_state r = JobStateRunning -> keeps_row r d (Lease locked req d).1.
Proof.
  intros Hok Hst Hr. unfold Lease. rewrite obind_olift. destruct (validateLease req) as [[]|]; [|done].
  unfold omap_err, with_text. destruct (forallb pg_text _); [|done].
  cbv beta zeta. set (ids := lease_ids _ _ _ _ _). unfold obind.
  match goal with |- context [update_jobs ?p ?f d] =>
    pose proof (update_keeps_row d p f r Hr) as Hk;
    destruct (update_jobs p f d) as [d' [rows|e]] end; simpl in *.
  1: unfold olift; destruct (map_res scanJob rows); simpl.
  all: apply Hk; apply bool_decide_eq_false; intros Hin;
    apply elem_of_lease_ids in Hin as (r' & Hr' & Hid & Hl & _);
    apply (jobs_ok_unique d) in Hid as ->; [|done..];
    apply leasable_spec in Hl as [Hl _]; rewrite Hst in Hl; discriminate Hl.
Qed.

Lemma not_held id worker w r :
  jr_leased_by r = Some w -> ~ (id = jr_id r /\ worker = w) -> held_by id worker r = false.
Proof.
  intros Hby Hno. unfold held_by. rewrite Hby.
  destruct (N.eqb_spec (jr_id r) id) as [Heq|]; [|done].
  rewrite (bool_decide_false (Some w = Some worker)) by naive_solver. apply andb_false_r.
Qed.

Lemma Succeed_keeps_row id worker at_ r :
  held_by id worker r = false -> keeps (keeps_row r) (Succeed id worker at_).
Proof.
  intros Hh. apply keeps_guard; [apply _|done|intros _].
  apply keeps_then_reads; [|intros []; [apply reads_explainLostLease|done]].
  apply keeps_with_text; [apply _|]. by apply keeps_row_update.
Qed.

Lemma Fail_keeps_row id worker cause at_ retryAt r :
  held_by id worker r = false -> keeps (keeps_row r) (Fail id worker cause at_ retryAt).
Proof.
  intros Hh. do 2 (apply keeps_guard; [apply _|done|intros _]).
  apply keeps_then_reads; [|intros []; [apply reads_explainLostLease|done]].
  apply keeps_with_text; [apply _|]. by apply keeps_row_update.
Qed.

Lemma Reclaim_keeps_row now r :
  expired (pg_ts (t_ns now)) r = false -> keeps (keeps_row r) (Reclaim now).
Proof.
  intros He. apply keeps_guard; [apply _|done|intros _].
  apply keeps_then_reads; [|done]. by apply keeps_map_err, keeps_row_update.
Qed.

Lemma Retry_keeps_row id now r :
  jr_state r = JobStateRunning -> keeps (keeps_row r) (Retry id now).
Proof.
  intros Hst. do 2 (apply keeps_guard; [apply _|done|intros _]).
  intros d Hr. cbv beta zeta. unfold obind.
  pose proof (update_keeps_row d (fun r => N.eqb (jr_id r) id && String.eqb (jr_state r) "dead")
    (retry_row (pg_ts (t_ns now))) r Hr) as Hk.
  cbv beta in Hk. rewrite Hst, andb_false_r in Hk. specialize (Hk eq_refl).
  destruct (update_jobs _ _ d) as [d' [rows|e]]; simpl in Hk.
  - unfold olift. destruct (let? r := query_row rows in scanJob r) as [j|[]]; simpl; try exact Hk.
    by rewrite reads_explainNotRevived.
  - destruct e; simpl; try exact Hk. by rewrite reads_explainNotRevived.
Qed.

Lemma Purge_keeps_row req d r :
  jobs_ok d -> finished r = false -> keeps_row r d (Purge req d).1.
Proof.
  intros Hok Hf Hr. unfold Purge. rewrite obind_olift.
  destruct (PurgeRequest_Validate req) as [[]|] eqn:Hv; [|done].
  unfold omap_err, on_schema. destruct (db_ready d); [|done]. simpl.
  apply elem_of_filter_b. split; [done|]. rewrite negb_true_iff, bool_decide_eq_false.
  intros (r' & Hr' & Hid & Hs & _)%elem_of_purge_ids.
  apply (jobs_ok_unique d) in Hid as ->; [|done..].
  eapply purge_states_finished in Hs; [|done]. unfold finished, one_of in Hf.
  rewrite bool_decide_eq_false, !elem_of_cons in Hf. naive_solver.
Qed.

(** C25: a lease is exclusive. A running job, its holder and its expiry are
    untouched by every queue operation, another worker's lease, success, failure
    report, revival, purge or enqueue included, except a report by the very
    worker that holds it or a reclaim after the lease has expired. *)
Theorem lease_exclusive o d r worker until :
  jobs_ok d -> r ∈ db_jobs d -> jr_state r = JobStateRunning ->
  jr_leased_by r = Some worker -> jr_leased_until r = Some until ->
  ~ ends_lease o (jr_id r) worker until ->
  r ∈ db_jobs (run_queue o d).
Proof.
  intros Hok Hr Hst Hby Huntil Hno. revert Hr. destruct o; simpl in *.
  - apply Enqueue_keeps_row.
  - by apply Lease_keeps_row.
  - apply Succeed_keeps_row. by eapply not_held.
  - apply Fail_keeps_row. by eapply not_held.
  - apply Reclaim_keeps_row. unfold expired. rewrite Huntil, Hst. simpl. lia.
  - by apply Retry_keeps_row.
  - apply Purge_keeps_row; [done|]. unfold finished. by rewrite Hst.
  - by rewrite reads_Job_get.
  - by rewrite reads_Jobs.
  - by rewrite reads_Stats.
Qed.

(** *** Claiming *)

#[local] Instance lease_order_total : TotalCmp lease_order.
Proof. apply cmp_lex_total; apply cmp_on_total; [apply Zcompare_total|apply Ncompare_total]. Qed.

Definition eligible (locked : list JobID) (kinds : list JobKind) (now : Z) (jobs : list JobRow)
    : list JobRow :=
  List.filter (fun r => leasable kinds now r && negb (bool_decide (jr_id r ∈ locked))) jobs.

Definition chosen (locked : list JobID) (kinds : list JobKind) (now limit : Z) (jobs : list JobRow)
    : list JobRow :=
  sql_limit limit (sort_func lease_order (eligible locked kinds now jobs)).

Lemma jobs_ok_NoDup d : jobs_ok d -> NoDup (db_jobs d).
Proof. intros [Hid _ _]. by eapply NoDup_fmap_1. Qed.

Lemma elem_of_chosen locked kinds now limit jobs r :
  r ∈ chosen locked kinds now limit jobs -> r ∈ eligible locked kinds now jobs.
Proof. unfold chosen, sort_func. by intros ?%elem_of_sql_limit%elem_of_sort_by. Qed.

Lemma chosen_NoDup d locked kinds now limit :
  jobs_ok d -> NoDup (chosen locked kinds now limit (db_jobs d)).
Proof.
  intros Hok. unfold chosen, sql_limit. eapply sublist_NoDup; [|apply sublist_take].
  unfold sort_func. rewrite sort_by_Permutation. by apply NoDup_filter_b, jobs_ok_NoDup.
Qed.

(** The rows a statement reaches through an inner SELECT of ids are those the
    SELECT chose. *)
Lemma touched_selected d sel :
  jobs_ok d -> NoDup sel -> (forall r, r ∈ sel -> r ∈ db_jobs d) ->
  List.filter (fun r => bool_decide (jr_id r ∈ map jr_id sel)) (db_jobs d) ≡ₚ sel.
Proof.
  intros Hok Hnd Hsub. apply NoDup_Permutation; [by apply NoDup_filter_b, jobs_ok_NoDup|done|].
  intros r. rewrite elem_of_filter_b, bool_decide_eq_true. split.
  - intros [Hr (r' & Hid & Hr')%list_elem_of_fmap].
    enough (r = r') as -> by done. eapply jobs_ok_unique; eauto.
  - intros Hr. split; [auto|by apply list_elem_of_fmap_2].
Qed.

Lemma touched_chosen d locked kinds now limit :
  jobs_ok d ->
  List.filter (fun r => bool_decide (jr_id r ∈ lease_ids locked kinds now limit (db_jobs d)))
    (db_jobs d) ≡ₚ chosen locked kinds now limit (db_jobs d).
Proof.
  intros Hok. apply touched_selected; [done|by apply chosen_NoDup|].
  by intros r [? _]%elem_of_chosen%elem_of_filter_b.
Qed.

(** The rows a lease claims. *)
Definition claimed_rows (locked : list JobID) (req : LeaseRequest) (d : Db) : list JobRow :=
  let ids := lease_ids locked (lr_kinds req) (pg_ts (t_ns (lr_now req)))
               (if lr_limit req =? 0 then 1 else lr_limit req) (db_jobs d) in
  List.filter (fun r => bool_decide (jr_id r ∈ ids)) (db_jobs d).

(** What it does to a row it claims. *)
Definition claim_row (req : LeaseRequest) : JobRow -> JobRow :=
  let duration := if lr_duration req =? 0 then DefaultLeaseDuration else lr_duration req in
  lease_row (lr_worker req) (pg_ts (t_ns (lr_now req))) (pg_ts (t_ns (Add (lr_now req) duration))).

Lemma claimed_chosen locked req d :
  jobs_ok d ->
  claimed_rows locked req d ≡ₚ chosen locked (lr_kinds req) (pg_ts (t_ns (lr_now req)))
    (if lr_limit req =? 0 then 1 else lr_limit req) (db_jobs d).
Proof. intros Hok. by apply touched_chosen. Qed.

Lemma claimed_length locked req d :
  jobs_ok d ->
  length (claimed_rows locked req d) =
    Nat.min (Z.to_nat (if lr_limit req =? 0 then 1 else lr_limit req))
      (length (eligible locked (lr_kinds req) (pg_ts (t_ns (lr_now req))) (db_jobs d))).
Proof.
  intros Hok. rewrite claimed_chosen by done. unfold chosen, sql_limit, sort_func.
  by rewrite length_take, length_sort_by.
Qed.

Lemma Lease_run locked req d :
  jobs_ok d -> db_ready d = true -> validateLease req = Ok tt -> pg_text (lr_worker req) = true ->
  Lease locked req d =
    (set_jobs (apply_update (fun r => bool_decide (r ∈ claimed_rows locked req d)) (claim_row req) (db_jobs d)) d,
     Ok (map (fun r => job_of (claim_row req r)) (claimed_rows locked req d))) /\
  forall r, r ∈ claimed_rows locked req d ->
    r ∈ db_jobs d /\ jr_state r = JobStatePending /\ jr_run_after r <= pg_ts (t_ns (lr_now req)) /\
    jr_attempts r < jr_max_attempts r /\ jr_id r ∉ locked /\
    (lr_kinds req = [] \/ jr_kind r ∈ lr_kinds req).
Proof.
  intros Hok Hready Hv Ht. split.
  - set (claim := claim_row req). unfold claimed_rows.
    set (ids := lease_ids locked (lr_kinds req) (pg_ts (t_ns (lr_now req))) _ (db_jobs d)).
    destruct (update_jobs_step d (fun r => bool_decide (jr_id r ∈ ids)) claim) as (Hu & _ & Hrows);
      [done|done|intros r Hr Hin%bool_decide_eq_true; by eapply lease_row_step|].
    unfold Lease. rewrite obind_olift, Hv. unfold omap_err, with_text. cbn [forallb]. rewrite Ht.
    cbn [andb]. cbv zeta. fold ids. unfold obind.
    change (lease_row _ _ _) with claim. rewrite Hu. unfold olift.
    rewrite scan_jobs by done. rewrite map_map.
    erewrite apply_update_ext; [reflexivity|]. intros r Hr.
    apply bool_decide_ext. rewrite elem_of_filter_b, bool_decide_eq_true. naive_solver.
  - intros r Hr. rewrite claimed_chosen in Hr by done. apply elem_of_chosen, elem_of_filter_b in Hr as [Hr Hl].
    apply andb_true_iff in Hl as [Hl Hk]. rewrite negb_true_iff, bool_decide_eq_false in Hk.
    apply leasable_spec in Hl as (? & ? & ? & ?). done.
Qed.

(** [Store.Lease] with a valid request succeeds. It claims rows that are
    pending, due, have an attempt left, are of a kind asked for and held by no
    other transaction; as many as there are, up to the limit; those due longest
    first. It marks exactly those running until the expiry, held by the worker,
    with one attempt counted, and returns exactly those. *)
Theorem Lease_spec locked req d :
  jobs_ok d -> db_ready d = true -> validateLease req = Ok tt -> pg_text (lr_worker req) = true ->
  let now := pg_ts (t_ns (lr_now req)) in
  let duration := if lr_duration req =? 0 then DefaultLeaseDuration else lr_duration req in
  let limit := if lr_limit req =? 0 then 1 else lr_limit req in
  let claim := lease_row (lr_worker req) now (pg_ts (t_ns (Add (lr_now req) duration))) in
  let free := eligible locked (lr_kinds req) now (db_jobs d) in
  exists claimed,
    Lease locked req d =
      (set_jobs (apply_update (fun r => bool_decide (r ∈ claimed)) claim (db_jobs d)) d,
       Ok (map (fun r => job_of (claim r)) claimed)) /\
    (forall r, r ∈ claimed ->
       r ∈ db_jobs d /\ jr_state r = JobStatePending /\ jr_run_after r <= now /\
       jr_attempts r < jr_max_attempts r /\ jr_id r ∉ locked /\
       (lr_kinds req = [] \/ jr_kind r ∈ lr_kinds req)) /\
    length claimed = Nat.min (Z.to_nat limit) (length free) /\
    (forall r r', r ∈ claimed -> r' ∈ free -> r' ∉ claimed -> lease_order r r' <> Gt).
Proof.
  intros Hok Hready Hv Ht now duration limit claim free.
  destruct (Lease_run locked req d Hok Hready Hv Ht) as [Hrun Hin].
  pose proof (claimed_chosen locked req d Hok) as Hp. fold now limit in Hp.
  exists (claimed_rows locked req d). split; [exact Hrun|]. split; [exact Hin|]. split.
  - by apply claimed_length.
  - intros r r' Hr Hr' Hn. rewrite Hp in Hr, Hn. unfold chosen, sql_limit in Hr, Hn.
    pose proof (sort_func_Sorted lease_order free) as Hs. fold free in Hr, Hn.
    rewrite <- (take_drop (Z.to_nat limit)) in Hs.
    refine (StronglySorted_app_1_elem_of (fun x y => lease_order x y <> Gt) _ _ _ _ Hs Hr _).
    assert (r' ∈ sort_func lease_order free) as Hin' by (unfold sort_func; by apply elem_of_sort_by).
    rewrite <- (take_drop (Z.to_nat limit)) in Hin'. apply elem_of_app in Hin' as [|]; done.
Qed.

(** *** Reading one job *)

Lemma query_row_find {A} (p : A -> bool) l :
  query_row (List.filter p l) = match List.find p l with Some r => Ok r | None => Err ENoRows end.
Proof. induction l as [|x l IH]; [done|]. simpl. by destruct (p x). Qed.

Definition job_by_id (id : JobID) (d : Db) : option JobRow :=
  List.find (fun r => N.eqb (jr_id r) id) (db_jobs d).

Lemma Job_get_spec id d :
  jobs_ok d -> db_ready d = true -> id <> 0%N ->
  Job_get id d = (d, match job_by_id id d with
                     | Some r => Ok (job_of r)
                     | None => Err (EWrap ErrNotFound)
                     end).
Proof.
  intros Hok Hready Hid. unfold Job_get. apply IsZeroID_false in Hid as ->.
  unfold omap_err, on_schema. rewrite Hready, query_row_find. unfold job_by_id.
  destruct (List.find _ _) as [r|] eqn:Hf; simpl; [|done].
  apply find_some in Hf as [Hin _]. rewrite scanJob_job_of; [done|].
  eapply jobs_ok_row; [done|]. by apply list_elem_of_In.
Qed.

(** *** Reporting *)

Lemma apply_update_none p f l : List.filter p l = [] -> apply_update p f l = l.
Proof.
  rewrite filter_none. intros H. unfold apply_update. rewrite <- map_id. apply map_ext_in.
  intros r Hr%list_elem_of_In. by rewrite H.
Qed.

Lemma set_jobs_same d : set_jobs (db_jobs d) d = d.
Proof. by destruct d. Qed.

Lemma held_by_unique d id worker r r' :
  jobs_ok d -> r ∈ db_jobs d -> r' ∈ db_jobs d ->
  held_by id worker r = true -> held_by id worker r' = true -> r = r'.
Proof.
  intros Hok Hr Hr' H H'. unfold held_by in H, H'. rewrite !andb_true_iff, N.eqb_eq in H, H'.
  apply (jobs_ok_unique d); [done|done|done|]. destruct H as [[-> _] _], H' as [[-> _] _]. done.
Qed.

(** What a worker's report on a job comes to: [f] on the row it holds, or why it
    holds none. *)
Definition report (id : JobID) (worker : WorkerID) (f : JobRow -> JobRow) (d : Db)
    : Db * res unit :=
  if existsb (held_by id worker) (db_jobs d)
  then (set_jobs (apply_update (held_by id worker) f (db_jobs d)) d, Ok tt)
  else (d, Err (EWrap (match job_by_id id d with
                       | Some _ => ErrJobNotLeased
                       | None => ErrNotFound
                       end))).

Lemma report_spec id worker f texts d :
  jobs_ok d -> db_ready d = true -> id <> 0%N -> forallb pg_text texts = true ->
  (forall r, jr_state r = JobStateRunning -> job_step r (f r)) ->
  (let! rows := with_text texts (update_jobs (held_by id worker) f) in
   match rows with [] => explainLostLease id | _ => oret tt end) d = report id worker f d.
Proof.
  intros Hok Hready Hid Ht Hf.
  destruct (update_jobs_step d (held_by id worker) f) as (Hu & _ & _); [done|done| |].
  { intros r _ Hh. by apply Hf, (held_by_running id worker). }
  unfold obind, with_text. rewrite Ht, Hu. unfold report.
  destruct (existsb (held_by id worker) (db_jobs d)) eqn:He.
  - apply existsb_exists in He as (r & Hin & Hh).
    assert (r ∈ List.filter (held_by id worker) (db_jobs d)) as Hr
      by (apply elem_of_filter_b; by rewrite list_elem_of_In).
    destruct (List.filter _ _); [by apply not_elem_of_nil in Hr|done].
  - assert (List.filter (held_by id worker) (db_jobs d) = []) as Hnil.
    { apply filter_none. intros r Hr. apply not_true_iff_false. intros Hh.
      rewrite <- not_true_iff_false, existsb_exists in He. apply He. exists r.
      by rewrite <- list_elem_of_In. }
    rewrite Hnil. simpl. rewrite apply_update_none, set_jobs_same by done.
    unfold explainLostLease, obind. rewrite Job_get_spec by done. by destruct (job_by_id id d).
Qed.

(** A report by the holder touches the one row it holds. *)
Lemma report_held id worker f d r :
  jobs_ok d -> r ∈ db_jobs d -> held_by id worker r = true ->
  exists d', report id worker f d = (d', Ok tt) /\ d' = set_jobs (db_jobs d') d /\
    forall x, x ∈ db_jobs d' <-> x = f r \/ x ∈ db_jobs d /\ x <> r.
Proof.
  intros Hok Hin Hh. unfold report.
  assert (existsb (held_by id worker) (db_jobs d) = true) as ->.
  { apply existsb_exists. exists r. by rewrite <- list_elem_of_In. }
  eexists. split; [done|]. split; [done|]. intros x. cbn [db_jobs set_jobs].
  rewrite elem_of_apply_update. split.
  - intros (r0 & Hr0 & ->). destruct (held_by id worker r0) eqn:H0.
    + left. f_equal. by apply (held_by_unique d id worker).
    + right. split; [done|]. intros ->. congruence.
  - intros [->|[Hx Hne]]; [exists r; by rewrite Hh|]. exists x. split; [done|].
    destruct (held_by id worker x) eqn:H'; [|done].
    by destruct (Hne (held_by_unique d id worker x r Hok Hx Hin H' Hh)).
Qed.

Lemma Succeed_report id worker at_ d :
  jobs_ok d -> db_ready d = true -> validateJobUpdate id worker at_ = Ok tt ->
  pg_text worker = true ->
  Succeed id worker at_ d = report id worker (finish_row (pg_ts (t_ns at_))) d.
Proof.
  intros Hok Hready Hv Ht. unfold Succeed. rewrite obind_olift, Hv.
  apply report_spec; [done|done| | |by constructor].
  - unfold validateJobUpdate in Hv. inv_result. by apply IsZeroID_false.
  - simpl. by rewrite Ht.
Qed.

Lemma Fail_report id worker cause at_ retryAt d :
  jobs_ok d -> db_ready d = true -> validateJobUpdate id worker at_ = Ok tt ->
  IsZero retryAt = false -> forallb pg_text (worker :: option_list (truncateError cause)) = true ->
  Fail id worker cause at_ retryAt d =
    report id worker (fail_row (pg_ts (t_ns at_)) (pg_ts (t_ns retryAt)) (truncateError cause)) d.
Proof.
  intros Hok Hready Hv Hz Ht. unfold Fail. rewrite obind_olift, Hv. cbv beta iota.
  rewrite obind_olift, Hz. cbv beta iota zeta delta [reject].
  apply report_spec; [done|done| |done|by constructor].
  unfold validateJobUpdate in Hv. inv_result. by apply IsZeroID_false.
Qed.

(** [Store.Fail] with valid arguments. The worker that holds the job returns
    it to pending, to run no earlier than asked, unless that attempt was the last
    one: then it is dead and keeps its run_after. Either way the lease is cleared
    and the bounded message stored. A worker that does not hold it changes
    nothing and is told whether the job exists. *)
Theorem Fail_spec id worker cause at_ retryAt d :
  jobs_ok d -> db_ready d = true -> validateJobUpdate id worker at_ = Ok tt ->
  IsZero retryAt = false -> forallb pg_text (worker :: option_list (truncateError cause)) = true ->
  Fail id worker cause at_ retryAt d =
    report id worker (fail_row (pg_ts (t_ns at_)) (pg_ts (t_ns retryAt)) (truncateError cause)) d /\
  forall r, r ∈ db_jobs d -> held_by id worker r = true ->
    let r' := fail_row (pg_ts (t_ns at_)) (pg_ts (t_ns retryAt)) (truncateError cause) r in
    jr_leased_until r' = None /\ jr_leased_by r' = None /\ jr_last_error r' = truncateError cause /\
    (jr_attempts r = jr_max_attempts r ->
       jr_state r' = JobStateDead /\ jr_run_after r' = jr_run_after r) /\
    (jr_attempts r < jr_max_attempts r ->
       jr_state r' = JobStatePending /\ jr_run_after r' = pg_ts (t_ns retryAt)).
Proof.
  intros Hok Hready Hv Hz Ht. split; [by apply Fail_report|].
  intros r Hr _. simpl. do 3 (split; [done|]). unfold exhausted. split; intros Ha.
  - by rewrite (proj2 (Z.leb_le _ _)) by lia.
  - by rewrite (proj2 (Z.leb_gt _ _)) by lia.
Qed.

(** [Store.Succeed] with valid arguments marks the job its caller holds done,
    clears its lease, and touches no other row; for a caller that does not hold it nothing changes and
    the error says whether the job exists. *)
Theorem Succeed_spec id worker at_ d :
  jobs_ok d -> db_ready d = true -> validateJobUpdate id worker at_ = Ok tt ->
  pg_text worker = true ->
  (exists r, r ∈ db_jobs d /\ held_by id worker r = true /\
     exists d', Succeed id worker at_ d = (d', Ok tt) /\
       (forall r', r' ∈ db_jobs d' <->
          r' = finish_row (pg_ts (t_ns at_)) r \/ r' ∈ db_jobs d /\ r' <> r)) \/
  ((forall r, r ∈ db_jobs d -> held_by id worker r = false) /\
     Succeed id worker at_ d = (d, Err (EWrap (match job_by_id id d with
                                              | Some _ => ErrJobNotLeased
                                              | None => ErrNotFound
                                              end)))).
Proof.
  intros Hok Hready Hv Ht. rewrite Succeed_report by done.
  destruct (existsb (held_by id worker) (db_jobs d)) eqn:He.
  - apply existsb_exists in He as (r & Hin%list_elem_of_In & Hh). left. exists r. do 2 (split; [done|]).
    destruct (report_held id worker (finish_row (pg_ts (t_ns at_))) d r Hok Hin Hh) as (d' & H & _ & Hx).
    by exists d'.
  - right. split; [|unfold report; by rewrite He]. intros r Hr. apply not_true_iff_false. intros Hh.
    apply not_true_iff_false in He. apply He, existsb_exists. exists r. by rewrite <- list_elem_of_In.
Qed.

(** *** Enqueueing *)

Lemma validateNewJob_Ok job now :
  validateNewJob job now = Ok tt ->
  JobKind_Valid (nj_kind job) = true /\ nj_episodes job <> [] /\ 0 <= nj_max_attempts job.
Proof.
  unfold validateNewJob. intros H. inv_result. rewrite negb_false_iff in *.
  split; [done|]. split; [|lia]. by destruct (nj_episodes job).
Qed.

(** The row [Enqueue] inserts. *)
Definition new_row (job : NewJob) (now : Time) (d : Db) : JobRow :=
  MkJobRow (uuidv7 (db_minted d)) (nj_kind job) (nj_scope job) (nj_episodes job) "pending" 0
    (if nj_max_attempts job =? 0 then DefaultMaxAttempts else nj_max_attempts job)
    (pg_ts (t_ns (if IsZero (nj_run_after job) then now else nj_run_after job)))
    None None None (pg_ts (t_ns now)) (pg_ts (t_ns now)).

Lemma new_row_ok job now d :
  validateNewJob job now = Ok tt -> job_row_ok (new_row job now d).
Proof.
  intros (Hk & He & Hm)%validateNewJob_Ok. unfold job_row_ok, new_row. simpl.
  do 3 (split; [done|]). unfold DefaultMaxAttempts.
  destruct (Z.eqb_spec (nj_max_attempts job) 0); (split; [lia|]); (split; [lia|]);
    (split; [done|]); by intros [[] _].
Qed.

(** [Store.Enqueue] of a valid job returns the outstanding job of the same
    kind, scope and episodes when there is one, changing no row; otherwise it
    inserts a pending, untried job with the defaults filled in, or reports that
    the scope has no episodes yet. *)
Theorem Enqueue_spec job now d :
  jobs_ok d -> db_ready d = true -> validateNewJob job now = Ok tt -> nj_max_attempts job < 2 ^ 31 ->
  let minted := set_minted (S (db_minted d)) d in
  Enqueue job now d =
    match outstanding (nj_kind job) (nj_scope job) (nj_episodes job) d with
    | Some r => (minted, Ok (job_of r))
    | None =>
        if has_scope d (nj_scope job)
        then (set_jobs (db_jobs d ++ [new_row job now d]) minted, Ok (job_of (new_row job now d)))
        else (d, Err (EWrap ErrNotFound))
    end.
Proof.
  intros Hok Hready Hv Hmax minted. pose proof (new_row_ok job now d Hv) as Hrow.
  pose proof (validateNewJob_Ok _ _ Hv) as (_ & _ & Hm0).
  unfold Enqueue. rewrite obind_olift, Hv. cbv beta iota zeta.
  rewrite int32_id by (unfold DefaultMaxAttempts; case_match; lia).
  unfold omap_err, obind, enqueue_stmt, on_schema. rewrite Hready. cbv beta zeta.
  fold (new_row job now d). rewrite (proj2 (job_checks_spec _) Hrow). cbn [negb].
  destruct (outstanding _ _ _ d) as [r|] eqn:Hf.
  - apply find_some in Hf as [Hin _]. unfold olift. rewrite scanJob_job_of; [done|].
    eapply jobs_ok_row; [done|]. by apply list_elem_of_In.
  - destruct (has_scope d (nj_scope job)); [|done]. unfold olift. by rewrite scanJob_job_of.
Qed.

Lemma outstanding_found kind scope eps d r :
  jobs_ok d -> r ∈ db_jobs d -> inflight r = true -> job_key r = (kind, scope, eps) ->
  outstanding kind scope eps d = Some r.
Proof.
  intros [_ Hin _]. unfold outstanding. generalize (db_jobs d), Hin. clear.
  induction l as [|x l IH]; [by intros _ ?%not_elem_of_nil|].
  unfold inflight_keys in *. simpl. intros Hnd [-> | Hr]%elem_of_cons Hi Hk.
  - by rewrite Hi, (bool_decide_true _ Hk).
  - destruct (inflight x) eqn:Hx; simpl; [|by apply IH].
    simpl in Hnd. apply NoDup_cons in Hnd as [Hni Hnd].
    case_bool_decide as Hkx; [|by apply IH]. destruct Hni. rewrite Hkx, <- Hk.
    apply list_elem_of_fmap_2, elem_of_filter_b. done.
Qed.

(** work is queued once. After [Enqueue] has returned a job, enqueueing the
    same kind, scope and episodes again, with whatever times and attempt limit,
    adds no row and returns that same job. *)
Theorem Enqueue_once job job' now now' d d1 j :
  jobs_ok d -> db_ready d = true ->
  validateNewJob job now = Ok tt -> nj_max_attempts job < 2 ^ 31 ->
  validateNewJob job' now' = Ok tt -> nj_max_attempts job' < 2 ^ 31 ->
  nj_kind job' = nj_kind job -> nj_scope job' = nj_scope job -> nj_episodes job' = nj_episodes job ->
  Enqueue job now d = (d1, Ok j) ->
  exists d2, Enqueue job' now' d1 = (d2, Ok j) /\ db_jobs d2 = db_jobs d1.
Proof using ServerLaws0.
  intros Hok Hready Hv Hm Hv' Hm' Hk Hs He H.
  assert (jobs_ok d1) as Hok1.
  { pose proof (keeps_Enqueue job now d Hok) as [Hok1 _]. by rewrite H in Hok1. }
  assert (db_ready d1 = true /\ exists r, outstanding (nj_kind job) (nj_scope job) (nj_episodes job) d1
            = Some r /\ j = job_of r) as (Hready1 & r & Hout & ->).
  { rewrite Enqueue_spec in H by done. revert H.
    destruct (outstanding _ _ _ d) as [r|] eqn:Hf; [|destruct (has_scope d _)]; intros [= <- <-].
    - eauto.
    - split; [done|]. exists (new_row job now d). split; [|done].
      eapply outstanding_found; [done| |done|done]. simpl. apply elem_of_app. right.
      by apply list_elem_of_singleton. }
  rewrite Enqueue_spec by done. rewrite Hk, Hs, He, Hout. eauto.
Qed.

(** *** Reclaiming *)

(** [Store.Reclaim] releases every lease that expired before now and no
    other: afterwards no running job is past its expiry; a job with attempts left
    is pending again, an exhausted one dead; the count is the number released. *)
Theorem Reclaim_spec now d :
  jobs_ok d -> db_ready d = true -> IsZero now = false ->
  let t := pg_ts (t_ns now) in
  let due := List.filter (expired t) (db_jobs d) in
  exists d',
    Reclaim now d = (d', Ok (Z.of_nat (length due))) /\
    (forall r, r ∈ db_jobs d' -> expired t r = false) /\
    (forall r, r ∈ db_jobs d -> expired t r = false -> r ∈ db_jobs d') /\
    (forall r, r ∈ due -> reclaim_row t r ∈ db_jobs d' /\
       jr_state (reclaim_row t r) =
         (if jr_attempts r =? jr_max_attempts r then JobStateDead else JobStatePending)).
Proof.
  intros Hok Hready Hz t due.
  destruct (update_jobs_step d (expired t) (reclaim_row t)) as (Hu & _ & _); [done|done| |].
  { intros r _ He%expired_running. by constructor. }
  eexists. split; [|split; [|split]].
  - unfold Reclaim. rewrite obind_olift, Hz. cbv beta iota delta [reject].
    unfold omap_err, obind. fold t. rewrite Hu. unfold oret. by rewrite length_map.
  - simpl. intros r (r0 & _ & ->)%elem_of_apply_update. destruct (expired t r0) eqn:E; [|done].
    unfold expired, reclaim_row. simpl. by destruct (exhausted r0).
  - simpl. intros r Hr He. apply elem_of_apply_update. exists r. by rewrite He.
  - intros r [Hr He]%elem_of_filter_b. split.
    + simpl. apply elem_of_apply_update. exists r. by rewrite He.
    + simpl. unfold exhausted. destruct (jobs_ok_row d r Hok Hr) as (_ & _ & _ & Ha & _).
      destruct (Z.eqb_spec (jr_attempts r) (jr_max_attempts r)), (Z.leb_spec (jr_max_attempts r) (jr_attempts r));
        done || lia.
Qed.

(** *** Reviving *)

Lemma update_one d id p r :
  jobs_ok d -> r ∈ db_jobs d -> jr_id r = id -> p r = true ->
  (forall x, p x = true -> jr_id x = id) ->
  List.filter p (db_jobs d) = [r].
Proof.
  intros Hok Hr Hid Hp Honly.
  assert (List.filter p (db_jobs d) ≡ₚ [r]) as Hperm.
  { apply NoDup_Permutation; [by apply NoDup_filter_b, jobs_ok_NoDup|apply NoDup_singleton|].
    intros x. rewrite elem_of_filter_b, list_elem_of_singleton. split; [|by intros ->].
    intros [Hx Hpx]. eapply jobs_ok_unique; [done|done|done|]. by rewrite Hid, Honly. }
  symmetry in Hperm. by apply Permutation_singleton_l in Hperm.
Qed.

(** Whether the same work is outstanding already. *)
Definition work_outstanding (r : JobRow) (d : Db) : bool :=
  match outstanding (jr_kind r) (jr_scope r) (jr_episodes r) d with Some _ => true | None => false end.

Lemma split_row d r :
  jobs_ok d -> r ∈ db_jobs d ->
  exists l1 l2, db_jobs d = l1 ++ r :: l2 /\ forall x, x ∈ l1 ++ l2 -> jr_id x <> jr_id r.
Proof.
  intros [Hid _ _] (l1 & l2 & Heq)%list_elem_of_split. exists l1, l2. split; [done|].
  rewrite Heq, map_app in Hid. simpl in Hid. intros x Hx Hxr.
  apply NoDup_app in Hid as (_ & Hd & Hid). apply NoDup_cons in Hid as [Hn _].
  apply elem_of_app in Hx as [Hx|Hx].
  - apply (Hd (jr_id x)); [by apply list_elem_of_fmap_2|]. rewrite Hxr. by left.
  - apply Hn. rewrite <- Hxr. by apply list_elem_of_fmap_2.
Qed.

Lemma inflight_keys_app l1 l2 : inflight_keys (l1 ++ l2) = inflight_keys l1 ++ inflight_keys l2.
Proof. unfold inflight_keys. by rewrite List.filter_app, map_app. Qed.

Lemma revive_keys d p t r :
  jobs_ok d -> r ∈ db_jobs d -> p r = true -> (forall x, p x = true -> jr_id x = jr_id r) ->
  jr_state r = JobStateDead ->
  inflight_keys (apply_update p (retry_row t) (db_jobs d)) ≡ₚ job_key r :: inflight_keys (db_jobs d).
Proof.
  intros Hok Hr Hp Honly Hdead. destruct (split_row d r Hok Hr) as (l1 & l2 & -> & Hne).
  assert (forall l, (forall x, x ∈ l -> x ∈ l1 ++ l2) -> apply_update p (retry_row t) l = l) as Hsame.
  { intros l Hl. apply apply_update_none, filter_none. intros x Hx. apply not_true_iff_false.
    intros Hpx. by apply (Hne x); auto. }
  unfold apply_update in *. rewrite map_app. simpl. rewrite Hp, !Hsame by set_solver.
  rewrite !inflight_keys_app. unfold inflight_keys at 2 4. simpl.
  assert (inflight r = false) as -> by (unfold inflight; by rewrite Hdead).
  simpl. by rewrite Permutation_middle.
Qed.

Lemma outstanding_None kind scope eps d :
  outstanding kind scope eps d = None <-> (kind, scope, eps) ∉ inflight_keys (db_jobs d).
Proof.
  unfold outstanding, inflight_keys. split.
  - intros Hf (r & Hk & [Hr Hi]%elem_of_filter_b)%list_elem_of_fmap.
    eapply find_none in Hf; [|by apply list_elem_of_In]. rewrite Hi, Hk in Hf.
    by rewrite bool_decide_true in Hf.
  - intros Hn. destruct (List.find _ _) as [r|] eqn:Hf; [|done].
    apply find_some in Hf as [Hr [Hi Hk%bool_decide_eq_true]%andb_true_iff].
    destruct Hn. rewrite <- Hk. apply list_elem_of_fmap_2, elem_of_filter_b.
    by rewrite list_elem_of_In.
Qed.

Definition dead_job (id : JobID) (r : JobRow) : bool :=
  N.eqb (jr_id r) id && String.eqb (jr_state r) JobStateDead.

Lemma dead_job_spec id r : dead_job id r = true <-> jr_id r = id /\ jr_state r = JobStateDead.
Proof. unfold dead_job. by rewrite andb_true_iff, N.eqb_eq, String.eqb_eq. Qed.

Lemma job_by_id_Some d id r :
  jobs_ok d -> job_by_id id d = Some r <-> r ∈ db_jobs d /\ jr_id r = id.
Proof.
  intros Hok. unfold job_by_id. split.
  - intros [Hin Hid%N.eqb_eq]%find_some. by rewrite list_elem_of_In.
  - intros [Hin Hid]. destruct (List.find _ _) as [r'|] eqn:Hf.
    + apply find_some in Hf as [Hin' Hid'%N.eqb_eq]. f_equal.
      eapply jobs_ok_unique; [done| |done|congruence]. by rewrite list_elem_of_In.
    + eapply find_none in Hf; [|by apply list_elem_of_In]. by apply N.eqb_neq in Hf.
Qed.

(** The UPDATE of [Retry]: refused by the in-flight key, or done. *)
Lemma retry_update d id t :
  jobs_ok d -> db_ready d = true ->
  update_jobs (dead_job id) (retry_row t) d =
    if bool_decide (NoDup (inflight_keys (apply_update (dead_job id) (retry_row t) (db_jobs d))))
    then (set_jobs (apply_update (dead_job id) (retry_row t) (db_jobs d)) d,
          Ok (map (retry_row t) (List.filter (dead_job id) (db_jobs d))))
    else (d, Err (EPg pgerrcodeUniqueViolation)).
Proof.
  intros Hok Hready. case_bool_decide as Hnd.
  - apply (update_jobs_ok d (dead_job id) (retry_row t)); [done|done| |done].
    intros r Hr [_ Hd]%dead_job_spec. assert (job_revive r (retry_row t r)) as Hrev by (by constructor).
    split; [|by apply job_revive_same]. eapply job_revive_ok; [done|]. by eapply jobs_ok_row.
  - unfold update_jobs, on_schema. rewrite Hready.
    replace (forallb job_checks (map (retry_row t) (List.filter (dead_job id) (db_jobs d)))) with true.
    { by rewrite (bool_decide_false _ Hnd). }
    symmetry. apply forallb_forall. intros r' (r & <- & Hrin)%in_map_iff.
    apply filter_In in Hrin as [Hrin [_ Hd]%dead_job_spec]. apply job_checks_spec.
    eapply job_revive_ok; [by constructor|]. eapply jobs_ok_row; [done|]. by apply list_elem_of_In.
Qed.

Lemma retry_missing d id t :
  jobs_ok d -> db_ready d = true -> List.filter (dead_job id) (db_jobs d) = [] ->
  update_jobs (dead_job id) (retry_row t) d = (d, Ok []).
Proof.
  intros Hok Hready Hnil. rewrite retry_update by done. rewrite apply_update_none, Hnil by done.
  rewrite bool_decide_true by apply Hok. by rewrite set_jobs_same.
Qed.

Lemma not_dead_filter d id :
  jobs_ok d -> (forall r, job_by_id id d = Some r -> jr_state r <> JobStateDead) ->
  List.filter (dead_job id) (db_jobs d) = [].
Proof.
  intros Hok Hnd. apply filter_none. intros r Hr. apply not_true_iff_false.
  intros [Hid Hd]%dead_job_spec. apply (Hnd r); [|done]. by apply job_by_id_Some.
Qed.

Lemma revived_once d id t r :
  jobs_ok d -> r ∈ db_jobs d -> jr_id r = id -> jr_state r = JobStateDead ->
  bool_decide (NoDup (inflight_keys (apply_update (dead_job id) (retry_row t) (db_jobs d)))) =
  negb (work_outstanding r d).
Proof.
  intros Hok Hr Hid Hd.
  assert (NoDup (inflight_keys (apply_update (dead_job id) (retry_row t) (db_jobs d))) <->
          outstanding (jr_kind r) (jr_scope r) (jr_episodes r) d = None) as Hiff.
  { rewrite (revive_keys d (dead_job id) t r); [|done|done|by apply dead_job_spec| |done].
    - rewrite NoDup_cons, outstanding_None. pose proof (jo_inflight d Hok). unfold job_key. tauto.
    - intros x [Hx _]%dead_job_spec. congruence. }
  unfold work_outstanding. destruct (outstanding _ _ _ d).
  - apply bool_decide_eq_false. by rewrite Hiff.
  - apply bool_decide_eq_true. by rewrite Hiff.
Qed.

(** [Store.Retry] revives a dead job, pending at once with its attempts
    reset and its last error kept; it refuses, changing nothing, a job that does
    not exist, one that is not dead, and one whose work is already outstanding. *)
Theorem Retry_spec id now d :
  jobs_ok d -> db_ready d = true -> id <> 0%N -> IsZero now = false ->
  let t := pg_ts (t_ns now) in
  Retry id now d =
    match job_by_id id d with
    | None => (d, Err (EWrap ErrNotFound))
    | Some r =>
        if String.eqb (jr_state r) JobStateDead then
          if work_outstanding r d then (d, Err (EWrap ErrJobOutstanding))
          else (set_jobs (apply_update (dead_job id) (retry_row t) (db_jobs d)) d,
                Ok (job_of (retry_row t r)))
        else (d, Err (EWrap ErrJobNotDead))
    end.
Proof.
  intros Hok Hready Hid Hz t. unfold Retry. apply IsZeroID_false in Hid as Hid'.
  rewrite obind_olift, Hid'. cbv beta iota delta [reject]. rewrite obind_olift, Hz.
  cbv beta iota zeta. fold t JobStateDead. change (fun r => _ && _) with (dead_job id).
  destruct (job_by_id id d) as [r|] eqn:Hf; [destruct (String.eqb_spec (jr_state r) JobStateDead) as [Hd|Hd]|].
  - apply job_by_id_Some in Hf as [Hr Hrid]; [|done].
    unfold obind. rewrite retry_update, (revived_once d id t r) by done.
    destruct (work_outstanding r d); [done|]. simpl. unfold olift.
    rewrite (update_one d id (dead_job id) r);
      [|done|done|done|by apply dead_job_spec|by intros x [? _]%dead_job_spec]. simpl.
    rewrite scanJob_job_of; [done|]. eapply job_revive_ok; [by constructor|]. by eapply jobs_ok_row.
  - unfold obind. rewrite retry_missing; [|done|done|apply not_dead_filter; naive_solver]. simpl.
    unfold explainNotRevived, obind. by rewrite Job_get_spec, Hf by done.
  - unfold obind. rewrite retry_missing; [|done|done|apply not_dead_filter; naive_solver]. simpl.
    unfold explainNotRevived, obind. by rewrite Job_get_spec, Hf by done.
Qed.

(** *** Purging *)

(** The rows a purge may delete, and those it does. *)
Definition purgeable (states : list JobState) (before : Z) (jobs : list JobRow) : list JobRow :=
  List.filter (fun r => one_of (jr_state r) states && (jr_updated r <? before)) jobs.
Definition purged (states : list JobState) (before limit : Z) (jobs : list JobRow) : list JobRow :=
  sql_limit limit (sort_func (cmp_on jr_id N.compare) (purgeable states before jobs)).

Lemma purge_ids_purged states before limit jobs :
  purge_ids states before limit jobs = map jr_id (purged states before limit jobs).
Proof. unfold purge_ids, purged, sql_limit. symmetry. apply fmap_take. Qed.

Lemma purged_facts d states before limit :
  jobs_ok d ->
  NoDup (purged states before limit (db_jobs d)) /\
  (forall r, r ∈ purged states before limit (db_jobs d) ->
     r ∈ db_jobs d /\ jr_state r ∈ states /\ jr_updated r < before).
Proof.
  intros Hok. split.
  - unfold purged, sql_limit. eapply sublist_NoDup; [|apply sublist_take].
    unfold sort_func. rewrite sort_by_Permutation. by apply NoDup_filter_b, jobs_ok_NoDup.
  - unfold purged, sort_func. intros r Hr%elem_of_sql_limit%elem_of_sort_by.
    apply elem_of_filter_b in Hr as [Hr [Hs Hb]%andb_true_iff].
    by rewrite one_of_spec in Hs; rewrite Z.ltb_lt in Hb.
Qed.

(** [Store.Purge] with a valid request deletes finished jobs only, last
    touched before the horizon, of the states asked for, oldest first and no more
    than the limit; every other job stays as it is, and the count returned is the
    number deleted: all that qualify, when they fit the limit. *)
Theorem Purge_spec req d :
  jobs_ok d -> db_ready d = true -> PurgeRequest_Validate req = Ok tt ->
  let states := match pr_states req with [] => [JobStateDone; JobStateDead] | l => l end in
  let limit := if pr_limit req =? 0 then DefaultPurgeLimit else pr_limit req in
  let before := pg_ts (t_ns (pr_before req)) in
  let gone := purged states before limit (db_jobs d) in
  exists d',
    Purge req d = (d', Ok (Z.of_nat (length gone))) /\
    (forall r, r ∈ db_jobs d' <-> r ∈ db_jobs d /\ r ∉ gone) /\
    (forall r, r ∈ gone -> finished r = true /\ jr_state r ∈ states /\ jr_updated r < before) /\
    length gone = Nat.min (Z.to_nat limit) (length (purgeable states before (db_jobs d))).
Proof.
  intros Hok Hready Hv states limit before gone.
  destruct (purged_facts d states before limit Hok) as [Hnd Hg]. fold gone in Hnd, Hg.
  pose proof (touched_selected d gone Hok Hnd (fun r Hr => proj1 (Hg r Hr))) as Hp.
  eexists. split; [|split; [|split]].
  - unfold Purge. rewrite obind_olift, Hv. cbv beta iota zeta.
    unfold omap_err, on_schema. rewrite Hready, purge_ids_purged. fold states limit before gone.
    do 2 f_equal. f_equal. pose proof (filter_length (fun r => bool_decide (jr_id r ∈ map jr_id gone)) (db_jobs d)) as Hl.
    rewrite Hp in Hl. lia.
  - intros r. simpl. rewrite elem_of_filter_b, negb_true_iff, bool_decide_eq_false.
    split; intros [Hr Hn]; (split; [done|]); intros Hin; apply Hn; [by apply list_elem_of_fmap_2|].
    assert (r ∈ List.filter (fun r => bool_decide (jr_id r ∈ map jr_id gone)) (db_jobs d)) as Hf
      by (by apply elem_of_filter_b; rewrite bool_decide_eq_true).
    by rewrite Hp in Hf.
  - intros r (_ & Hs & Hb)%Hg. split; [|done]. eapply purge_states_finished in Hs; [|exact Hv].
    apply one_of_spec. rewrite !elem_of_cons. naive_solver.
  - unfold gone, purged, sql_limit, sort_func. by rewrite length_take, length_sort_by.
Qed.
End Behaviour.

(** ** Bounded error messages *)

(** the stored message of a failure is at most the bound and the marker
    long, and a message within the bound is stored whole. *)
Theorem truncateError_bound cause message :
  truncateError (Some cause) = Some message ->
  len message <= maxLastErrorLen + len "... (truncated)" /\
  (len cause <= maxLastErrorLen -> message = cause).
Proof.
  unfold truncateError. intros [= <-].
  destruct (Z.ltb_spec maxLastErrorLen (len cause)); [|split; [|done]].
  - split; [|lia]. rewrite len_app, len_slice_to. unfold maxLastErrorLen. lia.
  - unfold maxLastErrorLen in *. pose proof (len_nonneg "... (truncated)"). lia.
Qed.

Section Unstorable.
Context `{Sv : Server} `{!ServerLaws Sv}.

(** the bound counts bytes and may cut a character in two. A failure whose
    truncated message is not valid UTF-8 cannot be recorded: the server refuses
    the text, [Fail] returns its error and the job stays running under its lease,
    to be found only by [Reclaim]. *)
Theorem Fail_unstorable_message id worker cause at_ retryAt message d :
  validateJobUpdate id worker at_ = Ok tt -> IsZero retryAt = false ->
  truncateError (Some cause) = Some message -> ValidString message = false ->
  Fail id worker (Some cause) at_ retryAt d = (d, Err (EPg pgerrcodeBadText)).
Proof.
  intros Hv Hz Hm Hbad. unfold Fail. rewrite obind_olift, Hv. cbv beta iota.
  rewrite obind_olift, Hz. cbv beta iota zeta delta [reject]. rewrite Hm.
  unfold obind, with_text. change (option_list (Some message)) with [message]. cbn [forallb].
  replace (@pg_text Sv message) with false; [by destruct (pg_text worker)|].
  symmetry. apply not_true_iff_false. rewrite pg_text_spec. intros [? _]. congruence.
Qed.
End Unstorable.

(** ** Work is bounded *)

(** C26: a job is worked on finitely often. Whatever happens to it short of an
    operator's revival, it takes at most two steps per attempt it has left, plus
    two, and is never leased more often than it has attempts. *)
Theorem job_work_bounded n r r' :
  job_row_ok r -> nsteps job_step n r r' ->
  Z.of_nat n <= 2 * (jr_max_attempts r - jr_attempts r) + 2 /\
  jr_attempts r' <= jr_max_attempts r /\ job_row_ok r'.
Proof.
  intros Hok Hn.
  assert (forall m x y, nsteps job_step m x y -> job_row_ok x ->
            Z.of_nat m <= job_measure x - job_measure y /\ job_row_ok y /\
            jr_max_attempts y = jr_max_attempts x) as Hm.
  { clear. induction 1 as [x|m x y z Hxy _ IH]; intros Hx; [split; [lia|done]|].
    pose proof (job_step_measure x y Hxy Hx). destruct (IH (job_step_ok _ _ Hxy Hx)) as (? & ? & ->).
    split; [lia|]. split; [done|]. by apply job_step_same in Hxy as (_ & _ & -> & _). }
  destruct (Hm n r r' Hn Hok) as (Hle & Hok' & Hmax).
  destruct Hok' as (Hk' & Hs' & He' & Ha' & Hm' & Hl'). split; [|split; [lia|done]].
  assert (0 <= job_measure r') by (unfold job_measure; repeat case_match; lia).
  assert (job_measure r <= 2 * (jr_max_attempts r - jr_attempts r) + 2); [|lia].
  destruct Hok as (_ & _ & _ & Ha & _). unfold job_measure. repeat case_match; lia.
Qed.

(** ** A concrete queue *)

Definition demo_row (id : N) (episode : N) (state : string) (attempts : Z) (held : bool) : JobRow :=
  MkJobRow id "encode" "s" [episode] state attempts 2 5000
    (if held then Some 9000 else None) (if held then Some "w"%string else None) None 1000 1000.

(** Three jobs of one scope: ready, running on its last attempt, and dead. *)
Definition demo_queue : Db :=
  MkDb true 2 [MkScopeRow "s" 3 1000] [] []
    [demo_row 1%N 11%N "pending" 0 false; demo_row 2%N 12%N "running" 2 true; demo_row 3%N 13%N "dead" 2 false]
    [] [] 3.

Lemma demo_queue_ok : jobs_ok demo_queue.
Proof.
  split.
  - refine (bool_decide_unpack _ _). vm_compute. exact I.
  - refine (bool_decide_unpack _ _). vm_compute. exact I.
  - repeat constructor; [exists 0%nat|exists 1%nat|exists 2%nat]; (split; [simpl; lia|reflexivity]).
Qed.

Definition demo_lease : LeaseRequest := MkLeaseRequest [] "w2" 4 0 (utc 6000).
Definition demo_job : NewJob := MkNewJob JobKindExtract "s" [11%N] zeroTime 0.

Lemma queue_lifecycle_witness :
  jobs_ok (run_queue (QLease [] demo_lease) demo_queue) /\
  evolves job_step demo_queue (run_queue (QLease [] demo_lease) demo_queue).
Proof. exact (queue_lifecycle (QLease [] demo_lease) demo_queue demo_queue_ok). Defined.

Lemma lease_exclusive_witness :
  demo_row 2%N 12%N "running" 2 true ∈ db_jobs (run_queue (QLease [] demo_lease) demo_queue).
Proof.
  apply (lease_exclusive (QLease [] demo_lease) demo_queue (demo_row 2%N 12%N "running" 2 true) "w" 9000);
    [exact demo_queue_ok|refine (bool_decide_unpack _ _); vm_compute; exact I|reflexivity..|intros []].
Defined.

Lemma Lease_spec_witness :
  exists claimed, (Lease [] demo_lease demo_queue).2 = Ok claimed /\ length claimed = 1%nat.
Proof.
  destruct (Lease_spec [] demo_lease demo_queue demo_queue_ok eq_refl eq_refl eq_refl)
    as (claimed & -> & _ & Hlen & _).
  eexists. split; [reflexivity|]. rewrite length_map, Hlen. vm_compute. reflexivity.
Defined.

Lemma Fail_spec_witness :
  (Fail 2%N "w" (Some "boom"%string) (utc 7000) (utc 8000) demo_queue).2 = Ok tt.
Proof.
  destruct (Fail_spec 2%N "w" (Some "boom"%string) (utc 7000) (utc 8000) demo_queue demo_queue_ok
    eq_refl eq_refl eq_refl eq_refl) as [-> _].
  vm_compute. reflexivity.
Defined.

Lemma Succeed_spec_witness :
  exists r d', r ∈ db_jobs demo_queue /\ held_by 2%N "w" r = true /\
    Succeed 2%N "w" (utc 7000) demo_queue = (d', Ok tt) /\ finish_row 7000 r ∈ db_jobs d'.
Proof.
  destruct (Succeed_spec 2%N "w" (utc 7000) demo_queue demo_queue_ok eq_refl eq_refl eq_refl)
    as [(r & Hr & Hh & d' & H & Hd)|[Hn _]].
  - exists r, d'. split; [exact Hr|]. split; [exact Hh|]. split; [exact H|]. apply Hd. left. reflexivity.
  - assert (demo_row 2%N 12%N "running" 2 true ∈ db_jobs demo_queue) as Hin
      by (refine (bool_decide_unpack _ _); vm_compute; exact I).
    specialize (Hn _ Hin). vm_compute in Hn. discriminate Hn.
Defined.

Lemma Enqueue_spec_witness :
  (Enqueue demo_job (utc 7000) demo_queue).2 = Ok (job_of (new_row demo_job (utc 7000) demo_queue)).
Proof.
  rewrite (Enqueue_spec demo_job (utc 7000) demo_queue demo_queue_ok eq_refl eq_refl eq_refl).
  vm_compute. reflexivity.
Defined.

Lemma Enqueue_once_witness :
  exists d1 d2 j, Enqueue demo_job (utc 7000) demo_queue = (d1, Ok j) /\
    Enqueue demo_job (utc 9000) d1 = (d2, Ok j) /\ db_jobs d2 = db_jobs d1.
Proof.
  destruct (Enqueue demo_job (utc 7000) demo_queue) as [d1 [j|e]] eqn:H; [|vm_compute in H; discriminate H].
  destruct (Enqueue_once demo_job demo_job (utc 7000) (utc 9000) demo_queue d1 j demo_queue_ok
    eq_refl eq_refl eq_refl eq_refl eq_refl eq_refl eq_refl eq_refl H) as (d2 & H2 & Hj).
  exists d1, d2, j. done.
Defined.

Lemma Reclaim_spec_witness : (Reclaim (utc 20000) demo_queue).2 = Ok 1.
Proof.
  destruct (Reclaim_spec (utc 20000) demo_queue demo_queue_ok eq_refl eq_refl) as (d' & -> & _).
  vm_compute. reflexivity.
Defined.

Lemma Retry_spec_witness :
  (Retry 3%N (utc 7000) demo_queue).2 = Ok (job_of (retry_row 7000 (demo_row 3%N 13%N "dead" 2 false))).
Proof.
  rewrite (Retry_spec 3%N (utc 7000) demo_queue demo_queue_ok eq_refl ltac:(discriminate) eq_refl).
  vm_compute. reflexivity.
Defined.

Lemma Purge_spec_witness : (Purge (MkPurgeRequest (utc 5000) [] 0) demo_queue).2 = Ok 1.
Proof.
  destruct (Purge_spec (MkPurgeRequest (utc 5000) [] 0) demo_queue demo_queue_ok eq_refl eq_refl)
    as (d' & -> & _).
  vm_compute. reflexivity.
Defined.

Fixpoint replicate_string (n : nat) (s : string) : string :=
  match n with O => EmptyString | S n => (s ++ replicate_string n s)%string end.

(** 1999 ASCII characters, then one of two bytes: valid, one byte too long. *)
Definition long_message : string := (replicate_string 1999 "a" ++ "é")%string.

Lemma Fail_unstorable_message_witness :
  ValidString long_message = true /\
  Fail 2%N "w" (Some long_message) (utc 7000) (utc 8000) demo_queue =
    (demo_queue, Err (EPg pgerrcodeBadText)).
Proof.
  split; [vm_compute; reflexivity|].
  apply (Fail_unstorable_message 2%N "w" long_message (utc 7000) (utc 8000)
    (default EmptyString (truncateError (Some long_message)))); vm_compute; reflexivity.
Defined.

Lemma truncateError_bound_witness :
  len (default EmptyString (truncateError (Some long_message))) <= 2015.
Proof.
  exact (proj1 (truncateError_bound long_message (default EmptyString (truncateError (Some long_message)))
    ltac:(vm_compute; reflexivity))).
Defined.

Lemma job_work_bounded_witness :
  exists r', nsteps job_step 1 (demo_row 1%N 11%N "pending" 0 false) r' /\ jr_attempts r' <= 2.
Proof.
  set (r := demo_row 1%N 11%N "pending" 0 false).
  assert (nsteps job_step 1 r (lease_row "w" 6000 9000 r)) as Hn.
  { econstructor; [|constructor]. constructor; [reflexivity|simpl; lia]. }
  exists (lease_row "w" 6000 9000 r). split; [exact Hn|].
  refine (proj1 (proj2 (job_work_bounded 1 r _ _ Hn))).
  apply job_checks_spec. reflexivity.
Defined.
