(* ===== verification/PgEpisode.v ===== *)
(** * L0: appending, reading and replaying episodes ([postgres/episode.go])

    The operations, and what the parts of the append statement do to the tables:
    the rows of a batch, the scope's counter, the jobs. [Appending] and [Replaying]
    have what the operations promise. *)

From S2P Require Import Types Validate Server Db PgQueue Queueing.

#[local] Open Scope Z_scope.

(** ** Validation of a command *)

(** One episode of [validateAppend]'s first loop. *)
Definition validate_episode (scope : ScopeID) (ep : NewEpisode) : res unit :=
  let probe := MkAppendRequest (ne_scope ep) (ne_content ep) (ne_role ep) (ne_actor ep)
                 (ne_source ep) zeroTime (ne_binding ep) in
  AppendRequest_Validate probe ;;?
  reject (IsZero (ne_occurred ep) || IsZero (ne_ingested ep)) (EWrap ErrInvalidConfig) ;;?
  reject (negb (String.eqb (ne_scope ep) scope)) (EWrap ErrInvalidConfig).

(** The second loop, with the kinds seen so far. *)
Fixpoint validate_jobs (kinds : list JobKind) (jobs : list NewJob) : res unit :=
  match jobs with
  | [] => Ok tt
  | job :: rest =>
      reject (negb (JobKind_Valid (nj_kind job))) (EWrap ErrInvalidJobKind) ;;?
      reject (0 <? Z.of_nat (length (nj_episodes job))) (EWrap ErrInvalidConfig) ;;?
      reject (nj_max_attempts job <? 0) (EWrap ErrInvalidConfig) ;;?
      reject (one_of (nj_kind job) kinds) (EWrap ErrInvalidConfig) ;;?
      validate_jobs (nj_kind job :: kinds) rest
  end.

(** [validateAppend]. *)
Definition validateAppend (cmd : AppendCommand) : res unit :=
  match ac_episodes cmd with
  | [] => Err (EWrap ErrInvalidConfig)
  | first :: _ =>
      check_all (validate_episode (ne_scope first)) (ac_episodes cmd) ;;?
      validate_jobs [] (ac_jobs cmd)
  end.

(** [scanEpisode], after the driver has read the columns: an empty binding comes
    back as none. *)
Definition scanEpisode (r : EpisodeRow) : res Episode :=
  reject (negb (Role_Valid (er_role r))) (EWrap ErrInvalidRole) ;;?
  Ok (MkEpisode (er_id r) (er_scope r) (er_seq r) (er_content r) (er_role r) (er_actor r)
        (er_source r) (utc (er_occurred r)) (utc (er_ingested r))
        (if bool_decide (er_binding r = ∅) then None else Some (er_binding r))).

(** ** Statements *)

Section Episodes.
Context `{Sv : Server}.

Definition same_scope (scope : string) (r : ScopeRow) : bool := String.eqb (sr_id r) scope.

(** The scope upsert: allocates [n] sequence numbers after [base]. *)
Definition upsert_scope (scope : string) (n at_ : Z) (d : Db) : Db * Z :=
  match List.find (same_scope scope) (db_scopes d) with
  | Some r =>
      (set_scopes (map (fun x => if same_scope scope x
                                 then MkScopeRow (sr_id x) (sr_last_seq x + n) (sr_created x)
                                 else x) (db_scopes d)) d, sr_last_seq r)
  | None => (set_scopes (db_scopes d ++ [MkScopeRow scope n at_]) d, 0)
  end.

(** The [episode] arm: input row [ord] takes seq [base + ord]. *)
Fixpoint episode_rows (scope : string) (base : Z) (mint : nat) (eps : list NewEpisode)
    : list EpisodeRow :=
  match eps with
  | [] => []
  | e :: es =>
      MkEpisodeRow (uuidv7 mint) scope (base + 1) (ne_content e) (ne_role e) (ne_actor e)
        (ne_source e) (pg_ts (t_ns (ne_occurred e))) (pg_ts (t_ns (ne_ingested e)))
        (Binding_entries (ne_binding e))
      :: episode_rows scope (base + 1) (S mint) es
  end.

Definition insert_episodes (rows : list EpisodeRow) : dbop (list (N * Z)) := fun d =>
  let episodes' := db_episodes d ++ rows in
  if negb (forallb episode_checks rows) then (d, Err (EPg pgerrcodeCheckViolation))
  else if negb (bool_decide (NoDup (map er_id episodes')) &&
                bool_decide (NoDup (map (fun r => (er_scope r, er_seq r)) episodes')))
  then (d, Err (EPg pgerrcodeUniqueViolation))
  else (set_minted (db_minted d + length rows) (set_episodes episodes' d),
        Ok (map (fun r => (er_id r, er_seq r)) rows)).

(** One row of the [job] arm: an outstanding duplicate makes it do nothing. *)
Definition job_row (scope : string) (ids : list N) (at_ : Z) (spec : string * Z * Z) (d : Db)
    : JobRow :=
  MkJobRow (uuidv7 (db_minted d)) spec.1.1 scope ids "pending" 0 spec.2 spec.1.2 None None None at_ at_.

Fixpoint insert_jobs (scope : string) (ids : list N) (at_ : Z) (specs : list (string * Z * Z))
    : dbop (list JobRow) :=
  match specs with
  | [] => oret []
  | spec :: rest => fun d =>
      let row := job_row scope ids at_ spec d in
      let d' := set_minted (S (db_minted d)) d in
      if negb (job_checks row) then (d, Err (EPg pgerrcodeCheckViolation))
      else
        match outstanding spec.1.1 scope ids d with
        | Some _ => insert_jobs scope ids at_ rest d'
        | None =>
            (let! rows := insert_jobs scope ids at_ rest in oret (row :: rows))
              (set_jobs (db_jobs d ++ [row]) d')
        end
  end.

(** [appendSQL]: the ids and seqs in [ORDER BY 2], then the jobs. *)
Definition append_stmt (scope : string) (n at_ : Z) (eps : list NewEpisode)
    (specs : list (string * Z * Z)) : dbop (list (N * Z) * list JobRow) :=
  on_schema (atomically (fun d =>
    let '(d1, base) := upsert_scope scope n at_ d in
    if negb (forallb scope_checks (List.filter (same_scope scope) (db_scopes d1)))
    then (d, Err (EPg pgerrcodeCheckViolation))
    else
      (let! rows := insert_episodes (episode_rows scope base (db_minted d1) eps) in
       let! jobs := insert_jobs scope (map fst (sort_func (cmp_on snd Z.compare) rows)) at_ specs in
       oret (sort_func (cmp_on snd Z.compare) rows, jobs)) d1)).

(** The text parameters of an episode: three columns, and a document whose
    strings the server unescapes. *)
Definition episode_texts (e : NewEpisode) : list string :=
  [ne_content e; ne_actor e; ne_source e].
Definition pgerrcodeBadJSON : string := "22P05".
Definition binding_text (e : NewEpisode) : bool :=
  forallb (fun kv => pg_text kv.1 && pg_text kv.2) (map_to_list (Binding_entries (ne_binding e))).

(** [job.RunAfter] and [job.MaxAttempts] with their defaults. *)
Definition job_spec (at_ : Time) (j : NewJob) : string * Z * Z :=
  (nj_kind j,
   pg_ts (t_ns (if IsZero (nj_run_after j) then at_ else nj_run_after j)),
   if int32 (nj_max_attempts j) =? 0 then DefaultMaxAttempts else int32 (nj_max_attempts j)).

(** The episode of the result: the command's, with what was minted for it. *)
Definition appended (ep : NewEpisode) (row : N * Z) : Episode :=
  MkEpisode row.1 (ne_scope ep) row.2 (ne_content ep) (ne_role ep) (ne_actor ep) (ne_source ep)
    (UTC (ne_occurred ep)) (UTC (ne_ingested ep)) (Binding_Clone (ne_binding ep)).

Definition appended_job (scope : ScopeID) (ids : list N) (r : JobRow) : Job :=
  MkJob (jr_id r) (jr_kind r) scope ids (jr_state r) (jr_attempts r) (jr_max_attempts r)
    (utc (jr_run_after r)) zeroTime EmptyString EmptyString (utc (jr_created r)) (utc (jr_updated r)).

(** [wrapAppendError]: a row the schema rejects keeps its error, as any other does. *)
Definition wrapAppendError (e : Error) : Error := wrap_query e.

(** [Store.Append]. *)
Definition Append (cmd : AppendCommand) : dbop AppendResult :=
  olift (validateAppend cmd) ;;;
  match ac_episodes cmd with
  | [] => ofail (EWrap ErrInvalidConfig)
  | first :: _ =>
      let n := Z.of_nat (length (ac_episodes cmd)) in
      let at_ := ne_ingested first in
      let! (rows, jobs) := omap_err wrapAppendError
        (with_text (ne_scope first :: concat (map episode_texts (ac_episodes cmd)))
          (if forallb binding_text (ac_episodes cmd)
           then append_stmt (ne_scope first) (int32 n) (pg_ts (t_ns at_)) (ac_episodes cmd)
                  (map (job_spec at_) (ac_jobs cmd))
           else ofail (EPg pgerrcodeBadJSON))) in
      let episodes := zip_with appended (ac_episodes cmd) rows in
      if negb (Z.of_nat (length episodes) =? n) then ofail (EOther "rows")
      else oret (MkAppendResult episodes (map (appended_job (ne_scope first) (map fst rows)) jobs))
  end.

(** [Store.Episode]. *)
Definition Episode_get (scope : ScopeID) (id : EpisodeID) : dbop Episode :=
  olift (ScopeID_Validate scope) ;;;
  olift (reject (IsZeroID id) (EWrap ErrNotFound)) ;;;
  omap_err (fun e => match e with ENoRows => EWrap ErrNotFound | _ => e end)
    (on_schema (fun d =>
       (d, let? r := query_row (List.filter
                       (fun r => String.eqb (er_scope r) scope && N.eqb (er_id r) id) (db_episodes d)) in
           scanEpisode r))).

(** The rows [Replay] reads, in order. *)
Definition replay_rows (scope : string) (after limit : Z) (d : Db) : list EpisodeRow :=
  sql_limit limit (sort_func (cmp_on er_seq Z.compare)
    (List.filter (fun r => String.eqb (er_scope r) scope && (after <? er_seq r)) (db_episodes d))).

(** [Store.Replay]. *)
Definition Replay (scope : ScopeID) (afterSeq limit : Z) : dbop (list Episode) :=
  olift (ScopeID_Validate scope) ;;;
  olift (reject (afterSeq <? 0) (EWrap ErrInvalidConfig)) ;;;
  olift (reject (limit <=? 0) (EWrap ErrInvalidConfig)) ;;;
  on_schema (fun d => (d, map_res scanEpisode (replay_rows scope afterSeq limit d))).

End Episodes.

(** ** The rows of a batch *)

Section Batch.
Context `{Sv : Server}.

Lemma length_episode_rows scope base mint eps :
  length (episode_rows scope base mint eps) = length eps.
Proof. revert base mint. induction eps; intros; simpl; auto. Qed.

(** Each takes the next sequence number and the next id. *)
Lemma episode_rows_lookup scope base mint eps i e :
  eps !! i = Some e ->
  episode_rows scope base mint eps !! i =
    Some (MkEpisodeRow (uuidv7 (mint + i)) scope (base + 1 + Z.of_nat i) (ne_content e) (ne_role e)
            (ne_actor e) (ne_source e) (pg_ts (t_ns (ne_occurred e))) (pg_ts (t_ns (ne_ingested e)))
            (Binding_entries (ne_binding e))).
Proof.
  revert base mint eps. induction i as [|i IH]; intros base mint [|e0 eps]; try done.
  - intros [= ->]. by rewrite Nat.add_0_r, Z.add_0_r.
  - intros He. replace (mint + S i)%nat with (S mint + i)%nat by lia.
    replace (base + 1 + Z.of_nat (S i)) with (base + 1 + 1 + Z.of_nat i) by lia.
    exact (IH _ _ _ He).
Qed.

Lemma elem_of_episode_rows scope base mint eps r :
  r ∈ episode_rows scope base mint eps ->
  er_scope r = scope /\ base < er_seq r <= base + Z.of_nat (length eps) /\
  exists k e, (mint <= k < mint + length eps)%nat /\ er_id r = uuidv7 k /\
    e ∈ eps /\ er_content r = ne_content e /\ er_role r = ne_role e /\ er_actor r = ne_actor e /\
    er_source r = ne_source e /\ er_binding r = Binding_entries (ne_binding e).
Proof.
  intros [i Hi]%list_elem_of_lookup.
  assert (i < length eps)%nat as Hlt by (rewrite <- (length_episode_rows scope base mint); by eapply lookup_lt_Some).
  destruct (lookup_lt_is_Some_2 eps i Hlt) as [e He].
  rewrite (episode_rows_lookup _ _ _ _ _ _ He) in Hi. injection Hi as <-. simpl.
  split; [done|]. split; [lia|]. exists (mint + i)%nat, e. split; [lia|]. split; [done|].
  split; [by eapply list_elem_of_lookup_2|done].
Qed.

Lemma episode_rows_ids `{!ServerLaws Sv} scope base mint eps :
  NoDup (map er_id (episode_rows scope base mint eps)).
Proof.
  revert base mint. induction eps as [|e eps IH]; intros base mint; simpl; [constructor|].
  constructor; [|apply IH]. intros (r & Hid & Hr)%list_elem_of_fmap.
  apply elem_of_episode_rows in Hr as (_ & _ & k & _ & Hk & Hrid & _).
  rewrite Hrid in Hid. apply uuidv7_inj in Hid. lia.
Qed.

Lemma episode_rows_sorted scope base mint eps :
  StronglySorted (fun x y => er_seq x < er_seq y) (episode_rows scope base mint eps).
Proof.
  revert base mint. induction eps as [|e eps IH]; intros base mint; simpl; [constructor|].
  constructor; [apply IH|]. apply Forall_forall. intros r (_ & Hr & _)%elem_of_episode_rows. simpl. lia.
Qed.

Lemma episode_rows_keys scope base mint eps :
  NoDup (map (fun r => (er_scope r, er_seq r)) (episode_rows scope base mint eps)).
Proof.
  induction (episode_rows_sorted scope base mint eps) as [|r l Hl IH Hr]; [constructor|].
  simpl. constructor; [|done]. intros (r' & [= _ Heq] & Hr')%list_elem_of_fmap.
  rewrite Forall_forall in Hr. specialize (Hr r' Hr'). lia.
Qed.

(** The answer of the statement, sorted already. *)
Lemma minted_sorted scope base mint eps :
  let rows := map (fun r => (er_id r, er_seq r)) (episode_rows scope base mint eps) in
  sort_func (cmp_on snd Z.compare) rows = rows.
Proof.
  intros rows. apply sort_func_sorted_id. subst rows.
  induction (episode_rows_sorted scope base mint eps) as [|r l Hl IH Hr]; [constructor|].
  simpl. constructor; [done|]. apply Forall_map. eapply Forall_impl; [exact Hr|].
  intros r' Hlt. unfold cmp_on. simpl in *. rewrite Z.compare_gt_iff. lia.
Qed.

(** ** Keeping the invariant *)

Record block_free (scope : string) (base n : Z) (d : Db) : Prop := {
  bf_scope : exists s, s ∈ db_scopes d /\ sr_id s = scope /\ base + n <= sr_last_seq s;
  bf_below : forall r, r ∈ db_episodes d -> er_scope r = scope -> er_seq r <= base;
}.

Lemma insert_episodes_ok `{!ServerLaws Sv} scope base eps d :
  db_ok d -> block_free scope base (Z.of_nat (length eps)) d ->
  let rows := episode_rows scope base (db_minted d) eps in
  let d' := set_minted (db_minted d + length rows) (set_episodes (db_episodes d ++ rows) d) in
  forallb episode_checks rows = true ->
  insert_episodes rows d = (d', Ok (map (fun r => (er_id r, er_seq r)) rows)) /\ db_ok d'.
Proof.
  intros Hok [(s & Hs & Hsid & Hle) Hbelow] rows d' Hchecks.
  destruct Hok as [Hsc [Hid Hseq Hr] Hn Hj Hf Hx].
  assert (NoDup (map er_id (db_episodes d ++ rows))) as Hid'.
  { rewrite map_app. apply NoDup_app_fresh; [done|apply episode_rows_ids|].
    intros x (r & -> & Hrin)%list_elem_of_fmap (r' & Hx' & Hr')%list_elem_of_fmap.
    apply elem_of_episode_rows in Hr' as (_ & _ & k & _ & Hk & Hrid & _).
    rewrite Forall_forall in Hr. destruct (Hr r Hrin) as (_ & (k' & Hk' & Hid2) & _).
    rewrite Hx', Hrid in Hid2. apply uuidv7_inj in Hid2. lia. }
  assert (NoDup (map (fun r => (er_scope r, er_seq r)) (db_episodes d ++ rows))) as Hseq'.
  { rewrite map_app. apply NoDup_app_fresh; [done|apply episode_rows_keys|].
    intros x (r & -> & Hrin)%list_elem_of_fmap (r' & [= Hx1 Hx2] & Hr')%list_elem_of_fmap.
    apply elem_of_episode_rows in Hr' as (Hsc' & Hlt & _).
    specialize (Hbelow r Hrin). rewrite Hx1, Hsc' in Hbelow. specialize (Hbelow eq_refl). lia. }
  split.
  { unfold insert_episodes. rewrite Hchecks. by rewrite !bool_decide_true. }
  assert (forall e, e ∈ db_episodes d -> e ∈ db_episodes d') as Hsub.
  { intros e He. simpl. apply elem_of_app. auto. }
  split; [by apply (scopes_ok_mono d)| |by apply (encodings_ok_mono d)| | |by apply (extractions_ok_mono d)].
  - split; [done|done|]. simpl. apply Forall_app. split.
    + eapply Forall_impl; [exact Hr|]. intros r (? & ? & ?). split; [done|].
      split; [eapply minted_mono; [|done]; simpl; lia|done].
    + apply Forall_forall. intros r Hrin. split.
      { rewrite forallb_forall in Hchecks. apply Hchecks. by apply list_elem_of_In. }
      apply elem_of_episode_rows in Hrin as (Hrs & Hlt & k & _ & Hk & Hrid & _). split.
      * exists k. split; [simpl; unfold rows; rewrite length_episode_rows; lia|done].
      * exists s. split; [done|]. split; [congruence|lia].
  - apply (jobs_ok_mono d); [done|simpl; lia|done|done].
  - apply (facts_ok_mono d); [done|simpl; lia|done|done].
Qed.
End Batch.

(** ** The scope's sequence *)

Section Upsert.
Context `{Sv : Server}.

Definition last_seq_of (scope : string) (d : Db) : Z :=
  match List.find (same_scope scope) (db_scopes d) with Some r => sr_last_seq r | None => 0 end.

Lemma same_scope_spec scope r : same_scope scope r = true <-> sr_id r = scope.
Proof. apply String.eqb_eq. Qed.

Lemma last_seq_row d scope r :
  scopes_ok d -> r ∈ db_scopes d -> sr_id r = scope -> last_seq_of scope d = sr_last_seq r.
Proof.
  intros [Hid _] Hr Hrs. unfold last_seq_of. destruct (List.find _ _) as [r'|] eqn:Hf.
  - apply find_elem in Hf as [Hr' Hrs'%same_scope_spec]. f_equal.
    eapply NoDup_key; [exact Hid|done|done|congruence].
  - eapply find_absent in Hf; [|done]. apply same_scope_spec in Hrs. congruence.
Qed.

(** No episode is numbered past its scope's counter. *)
Lemma seq_below d r :
  db_ok d -> r ∈ db_episodes d -> 0 < er_seq r <= last_seq_of (er_scope r) d.
Proof.
  intros [Hsc [_ _ Hr] _ _ _ _] Hin. rewrite Forall_forall in Hr.
  destruct (Hr r Hin) as (Hc & _ & s & Hs & Hid & Hle).
  rewrite (last_seq_row d _ s Hsc Hs Hid). unfold episode_checks in Hc.
  rewrite !andb_true_iff in Hc. lia.
Qed.

Lemma has_scope_find d scope :
  has_scope d scope = true <-> exists r, List.find (same_scope scope) (db_scopes d) = Some r.
Proof.
  rewrite has_scope_elem, list_elem_of_fmap. split.
  - intros (r & -> & Hr). destruct (List.find _ _) eqn:Hf; [eauto|].
    eapply find_absent in Hf; [|done]. rewrite (proj2 (same_scope_spec _ _) eq_refl) in Hf. done.
  - intros [r [Hr Hs%same_scope_spec]%find_elem]. eauto.
Qed.

Definition bump (scope : string) (n : Z) (x : ScopeRow) : ScopeRow :=
  if same_scope scope x then MkScopeRow (sr_id x) (sr_last_seq x + n) (sr_created x) else x.

Lemma bump_id scope n x : sr_id (bump scope n x) = sr_id x.
Proof. unfold bump. by destruct (same_scope scope x). Qed.

Lemma bump_grows scope n x : 0 <= n -> sr_last_seq x <= sr_last_seq (bump scope n x).
Proof. intros. unfold bump. destruct (same_scope scope x); simpl; lia. Qed.

(** What the upsert does: the counter moves by [n], nothing else changes. *)
(** What an upsert may leave of the catalogue. *)
Definition upserted (scope : string) (n at_ : Z) (d : Db) (l : list ScopeRow) : Prop :=
  l = map (bump scope n) (db_scopes d) /\ has_scope d scope = true \/
  l = db_scopes d ++ [MkScopeRow scope n at_] /\ has_scope d scope = false.

Lemma upsert_scope_spec scope n at_ d :
  scopes_ok d ->
  exists scopes',
    upsert_scope scope n at_ d = (set_scopes scopes' d, last_seq_of scope d) /\
    upserted scope n at_ d scopes'.
Proof.
  intros Hok. unfold upsert_scope, last_seq_of.
  destruct (List.find (same_scope scope) (db_scopes d)) as [r|] eqn:Hf.
  - eexists. split; [reflexivity|]. left. split; [done|]. apply has_scope_find. eauto.
  - eexists. split; [reflexivity|]. right. split; [done|].
    apply not_true_iff_false. rewrite has_scope_find, Hf. by intros [? ?].
Qed.

Lemma upsert_find scope n at_ d scopes' :
  upserted scope n at_ d scopes' ->
  (forall s, s ∈ db_scopes d -> bump scope n s ∈ scopes') /\
  (exists s, s ∈ scopes' /\ sr_id s = scope /\ sr_last_seq s = last_seq_of scope d + n) /\
  (forall s, s ∈ scopes' -> sr_id s <> scope -> s ∈ db_scopes d).
Proof.
  intros [[-> Hs]|[-> Hs]].
  - apply has_scope_find in Hs as [r Hf]. unfold last_seq_of. rewrite Hf.
    apply find_elem in Hf as [Hr Hrs]. split; [by intros; apply list_elem_of_fmap_2|]. split.
    + exists (bump scope n r). split; [by apply list_elem_of_fmap_2|].
      unfold bump. rewrite Hrs. split; [by apply same_scope_spec|done].
    + intros s (x & -> & Hx)%list_elem_of_fmap Hne. rewrite bump_id in Hne.
      unfold bump. destruct (same_scope scope x) eqn:E; [|done].
      by apply same_scope_spec in E.
  - assert (List.find (same_scope scope) (db_scopes d) = None) as Hf.
    { destruct (List.find _ _) eqn:Hf; [|done]. apply not_true_iff_false in Hs.
      destruct Hs. apply has_scope_find. eauto. }
    unfold last_seq_of. rewrite Hf. split; [|split].
    + intros s Hs'. eapply find_absent in Hf; [|done]. unfold bump. rewrite Hf.
      apply elem_of_app. auto.
    + eexists. split; [apply elem_of_app; right; by apply list_elem_of_singleton|done].
    + intros s [?| ->%list_elem_of_singleton]%elem_of_app; [done|]. by intros [].
Qed.

(** It stays a catalogue if the row written passes its checks. *)
Lemma upsert_scopes_ok scope n at_ d l :
  scopes_ok d -> upserted scope n at_ d l ->
  forallb scope_checks (List.filter (same_scope scope) l) = true -> scopes_ok (set_scopes l d).
Proof.
  intros [Hid Hrows] Hcase Hchecks. destruct (upsert_find scope n at_ d l Hcase) as (_ & _ & Hother). split; simpl.
  - destruct Hcase as [[-> _]|[-> Hs]].
    + rewrite map_map. erewrite map_ext; [exact Hid|apply bump_id].
    + rewrite map_app. apply NoDup_app_fresh; [done|apply NoDup_singleton|].
      intros x Hx ->%list_elem_of_singleton. apply has_scope_elem in Hx. simpl in Hx. congruence.
  - apply Forall_forall. intros r Hr. destruct (decide (sr_id r = scope)) as [Heq|Hne].
    + rewrite forallb_forall in Hchecks. apply Hchecks, list_elem_of_In, elem_of_filter_b.
      split; [done|]. by apply same_scope_spec.
    + rewrite Forall_forall in Hrows. apply Hrows. by apply Hother.
Qed.

(** The other scopes keep their counters. *)
Lemma upsert_other scope n at_ d l s :
  upserted scope n at_ d l -> scopes_ok (set_scopes l d) -> s <> scope ->
  last_seq_of s (set_scopes l d) = last_seq_of s d.
Proof.
  intros Hcase Hsc Hne. destruct (upsert_find scope n at_ d l Hcase) as (Hold & _ & Hother).
  unfold last_seq_of at 2. destruct (List.find _ (db_scopes d)) as [r|] eqn:Hf.
  - apply find_elem in Hf as [Hr Hrs%same_scope_spec].
    rewrite (last_seq_row (set_scopes l d) s (bump scope n r)); [|done|by apply Hold|by rewrite bump_id].
    unfold bump. destruct (same_scope scope r) eqn:E; [|done]. apply same_scope_spec in E. congruence.
  - unfold last_seq_of. simpl. destruct (List.find _ l) as [r|] eqn:Hf'; [|done].
    apply find_elem in Hf' as [Hr Hrs]. eapply find_absent in Hf; [by rewrite Hrs in Hf|].
    apply Hother; [done|]. apply same_scope_spec in Hrs. congruence.
Qed.

Lemma upsert_scope_ok scope n at_ d d1 base :
  db_ok d -> 0 <= n -> upsert_scope scope n at_ d = (d1, base) ->
  forallb scope_checks (List.filter (same_scope scope) (db_scopes d1)) = true ->
  db_ok d1 /\ block_free scope base n d1 /\ has_scope d1 scope = true /\
  base = last_seq_of scope d /\ d1 = set_scopes (db_scopes d1) d /\
  last_seq_of scope d1 = base + n /\
  (forall s, s <> scope -> last_seq_of s d1 = last_seq_of s d).
Proof.
  intros Hok Hn Hu Hchecks. pose proof Hok as [[Hid Hrows] [Heid Heseq Her] Hno Hjo Hfo Hxo].
  destruct (upsert_scope_spec scope n at_ d (ok_scopes d Hok)) as (l & Hl & Hcase).
  rewrite Hl in Hu. injection Hu as <- <-. simpl in Hchecks.
  destruct (upsert_find scope n at_ d l Hcase) as (Hold & (s0 & Hs0 & Hs0id & Hs0seq) & Hother).
  pose proof (upsert_scopes_ok scope n at_ d l (ok_scopes d Hok) Hcase Hchecks) as Hsc.
  assert (forall s, has_scope d s = true -> has_scope (set_scopes l d) s = true) as Hhas.
  { intros s (r & -> & Hr)%has_scope_elem%list_elem_of_fmap. apply has_scope_elem. simpl.
    rewrite <- (bump_id scope n). apply list_elem_of_fmap_2. by apply Hold. }
  split; [split; [done| | | | |]|].
  - split; [done|done|]. eapply Forall_impl; [exact Her|].
    intros r (? & ? & s & Hs & Hsid & Hle). split; [done|]. split; [done|].
    exists (bump scope n s). split; [by apply Hold|]. rewrite bump_id. split; [done|].
    pose proof (bump_grows scope n s Hn). lia.
  - by apply (encodings_ok_mono d).
  - by apply (jobs_ok_mono d).
  - by apply (facts_ok_mono d).
  - by apply (extractions_ok_mono d).
  - split; [split|split; [|split; [|split; [|split]]]].
    + exists s0. split; [done|]. split; [done|]. lia.
    + intros r Hr <-. by apply (seq_below d r Hok).
    + apply has_scope_elem. simpl. rewrite <- Hs0id. by apply list_elem_of_fmap_2.
    + done.
    + by destruct d.
    + by rewrite (last_seq_row (set_scopes l d) scope s0).
    + intros s Hne. by apply (upsert_other scope n at_).
Qed.
End Upsert.

(** ** The jobs of a batch *)

Section Jobs.
Context `{Sv : Server} `{!ServerLaws Sv}.

Definition spec_ok (spec : string * Z * Z) : Prop := JobKind_Valid spec.1.1 = true /\ 0 < spec.2.

Lemma job_row_checks scope ids at_ spec d :
  spec_ok spec -> ids <> [] -> job_row_ok (job_row scope ids at_ spec d).
Proof.
  intros [Hk Hm] Hi. unfold job_row_ok, job_row. simpl. do 3 (split; [done|]).
  split; [lia|]. split; [done|]. split; [done|]. by intros [[] _].
Qed.

(** A job covers the batch: of that kind, outstanding, naming these episodes. *)
Definition covered (kind scope : string) (ids : list N) (d : Db) : Prop :=
  exists r, r ∈ db_jobs d /\ inflight r = true /\ job_key r = (kind, scope, ids).

Definition fresh_job (scope : string) (ids : list N) (at_ : Z) (specs : list (string * Z * Z))
    (r : JobRow) : Prop :=
  jr_scope r = scope /\ jr_episodes r = ids /\ jr_state r = JobStatePending /\ jr_attempts r = 0 /\
  jr_created r = at_ /\ exists spec, spec ∈ specs /\ jr_kind r = spec.1.1 /\
    jr_run_after r = spec.1.2 /\ jr_max_attempts r = spec.2.

Lemma fresh_job_weaken scope ids at_ spec specs r :
  fresh_job scope ids at_ specs r -> fresh_job scope ids at_ (spec :: specs) r.
Proof.
  unfold fresh_job. intros (? & ? & ? & ? & ? & s & Hs & ?). do 5 (split; [done|]).
  exists s. split; [by right|done].
Qed.

Lemma insert_jobs_spec scope ids at_ specs d :
  jobs_ok d -> has_scope d scope = true -> ids <> [] ->
  match insert_jobs scope ids at_ specs d with
  | (d', Ok rows) =>
      jobs_ok d' /\ d' = set_jobs (db_jobs d ++ rows) (set_minted (db_minted d') d) /\
      (db_minted d <= db_minted d')%nat /\
      Forall (fresh_job scope ids at_ specs) rows /\
      Forall (fun spec => covered spec.1.1 scope ids d') specs
  | (_, Err _) => ~ Forall spec_ok specs
  end.
Proof.
  intros Hok Hs Hne. revert d Hok Hs. induction specs as [|spec specs IH]; intros d Hok Hs; simpl.
  { split; [done|]. split; [by rewrite app_nil_r; destruct d|]. split; [done|]. split; constructor. }
  set (row := job_row scope ids at_ spec d).
  destruct (job_checks row) eqn:Hc; simpl.
  2: { intros [Hsp _]%Forall_cons. pose proof (job_row_checks scope ids at_ spec d Hsp Hne) as Hrow.
       apply job_checks_spec in Hrow. fold row in Hrow. congruence. }
  destruct (outstanding spec.1.1 scope ids d) as [old|] eqn:Hout.
  - assert (jobs_ok (set_minted (S (db_minted d)) d)) as Hok'.
    { apply (jobs_ok_mono d); [done|simpl; lia|done|done]. }
    specialize (IH _ Hok' Hs). destruct (insert_jobs _ _ _ specs _) as [d' [rows|e]].
    + destruct IH as (? & Hd' & Hm & Hf & Hcov). split; [done|]. split; [by rewrite Hd' at 1|].
      split; [simpl in Hm; lia|]. split; [eapply Forall_impl; [exact Hf|]; intros; by apply fresh_job_weaken|].
      constructor; [|done]. apply find_elem in Hout as [Hin [Hi Hk%bool_decide_eq_true]%andb_true_iff].
      exists old. split; [|done]. rewrite Hd'. simpl. apply elem_of_app. auto.
    + by intros [_ ?]%Forall_cons.
  - destruct (insert_job_ok d row) as [_ Hok']; [done..|].
    specialize (IH _ Hok' Hs). unfold obind.
    destruct (insert_jobs _ _ _ specs _) as [d' [rows|e]]; simpl.
    + destruct IH as (? & Hd' & Hm & Hf & Hcov). split; [done|]. split.
      { rewrite Hd' at 1. simpl. by rewrite <- app_assoc. }
      split; [simpl in Hm; lia|]. split.
      * constructor; [|eapply Forall_impl; [exact Hf|]; intros; by apply fresh_job_weaken].
        unfold fresh_job. do 5 (split; [done|]). exists spec. split; [by left|done].
      * constructor; [|done]. exists row. split; [|done]. rewrite Hd'. simpl.
        apply elem_of_app. left. apply elem_of_app. right. by apply list_elem_of_singleton.
    + by intros [_ ?]%Forall_cons.
Qed.
End Jobs.
