(* ===== verification/Appending.v ===== *)
(** * What an append does ([postgres/episode.go])

    The statement of [PgEpisode.Append] run: the rows it writes, the numbers and
    the ids they take, the jobs it leaves behind, and that it succeeds or changes
    nothing. *)

From S2P Require Import Types Validate Server Db PgQueue Queueing PgEpisode.

#[local] Open Scope Z_scope.

(** ** Appending *)

Section Append.
Context `{Sv : Server} `{!ServerLaws Sv}.

(** What one append leaves behind. *)
Record append_post (scope : string) (eps : list NewEpisode) (at_ : Z) (specs : list (string * Z * Z))
    (d d' : Db) (rows : list EpisodeRow) (jobs : list JobRow) : Prop := {
  ap_ok : db_ok d';
  ap_rows : exists mint, (db_minted d <= mint)%nat /\ rows = episode_rows scope (last_seq_of scope d) mint eps;
  ap_episodes : db_episodes d' = db_episodes d ++ rows;
  ap_seq : last_seq_of scope d' = last_seq_of scope d + Z.of_nat (length eps);
  ap_others : forall s, s <> scope -> last_seq_of s d' = last_seq_of s d;
  ap_jobs : db_jobs d' = db_jobs d ++ jobs;
  ap_new : Forall (fresh_job scope (map er_id rows) at_ specs) jobs;
  ap_covered : Forall (fun spec => covered spec.1.1 scope (map er_id rows) d') specs;
  ap_rest : db_encodings d' = db_encodings d /\ db_facts d' = db_facts d /\
    db_extractions d' = db_extractions d /\ db_ready d' = true;
  ap_mint : (db_minted d <= db_minted d')%nat;
  ap_dims : db_dims d' = db_dims d;
}.

Lemma append_stmt_spec scope at_ eps specs d :
  db_ok d -> eps <> [] ->
  match append_stmt scope (Z.of_nat (length eps)) at_ eps specs d with
  | (d', Ok (ids, jobs)) =>
      exists rows, append_post scope eps at_ specs d d' rows jobs /\
        ids = map (fun r => (er_id r, er_seq r)) rows
  | (d', Err _) => d' = d
  end.
Proof.
  intros Hok Hne. unfold append_stmt, on_schema. destruct (db_ready d) eqn:Hready; [|done].
  unfold atomically.
  destruct (upsert_scope scope (Z.of_nat (length eps)) at_ d) as [d1 base] eqn:Hu.
  destruct (forallb scope_checks _) eqn:Hsc; simpl; [|done].
  destruct (upsert_scope_ok _ _ _ _ _ _ Hok (Nat2Z.is_nonneg _) Hu Hsc)
    as (Hok1 & Hfree & Hhas & Hbase & Hd1 & Hseq & Hothers).
  unfold obind. set (rows := episode_rows scope base (db_minted d1) eps).
  destruct (forallb episode_checks rows) eqn:Hec.
  2: { unfold insert_episodes. by rewrite Hec. }
  destruct (insert_episodes_ok scope base eps d1 Hok1 Hfree Hec) as [Hins Hok2]. fold rows in Hins, Hok2.
  pose proof (minted_sorted scope base (db_minted d1) eps) as Hsorted. fold rows in Hsorted.
  rewrite Hins. simpl in Hsorted |- *. rewrite Hsorted.
  set (d2 := set_minted _ _) in *.
  rewrite map_map. simpl.
  assert (map er_id rows <> []) as Hids.
  { destruct eps; [done|]. unfold rows. by simpl. }
  pose proof (insert_jobs_spec scope (map er_id rows) at_ specs d2 (ok_jobs d2 Hok2) Hhas Hids) as Hj.
  change (map (fun x => er_id x) rows) with (map er_id rows).
  destruct (insert_jobs scope (map er_id rows) at_ specs d2) as [d3 [jobs|e]]; [|done].
  destruct Hj as (Hjok & Hd3 & Hmint & Hnew & Hcov). unfold oret. simpl.
  exists rows. split; [|done]. split.
  - rewrite Hd3. apply set_jobs_ok; [exact Hmint|done|]. by rewrite <- Hd3.
  - exists (db_minted d1). split; [by rewrite Hd1|]. by rewrite <- Hbase.
  - rewrite Hd3. simpl. by rewrite Hd1.
  - rewrite <- Hbase, <- Hseq, Hd3. done.
  - intros s Hs. rewrite <- Hothers by done. by rewrite Hd3.
  - rewrite Hd3. simpl. by rewrite Hd1.
  - done.
  - done.
  - rewrite Hd3. simpl. rewrite Hd1. simpl. by rewrite Hready.
  - change (db_minted d <= db_minted d3)%nat. unfold d2 in Hmint. cbn in Hmint. rewrite Hd1 in Hmint. cbn in Hmint. lia.
  - rewrite Hd3. simpl. by rewrite Hd1.
Qed.

Definition probe_of (ep : NewEpisode) : AppendRequest :=
  MkAppendRequest (ne_scope ep) (ne_content ep) (ne_role ep) (ne_actor ep) (ne_source ep) zeroTime
    (ne_binding ep).

(** A command [validateAppend] accepts. *)
Record command_ok (cmd : AppendCommand) (scope : ScopeID) : Prop := {
  co_some : exists first rest, ac_episodes cmd = first :: rest /\ ne_scope first = scope;
  co_episodes : Forall (fun e => append_ok (probe_of e) /\ ne_scope e = scope /\
    t_ns (ne_occurred e) <> 0 /\ t_ns (ne_ingested e) <> 0) (ac_episodes cmd);
  co_jobs : Forall (fun j => JobKind_Valid (nj_kind j) = true /\ nj_episodes j = [] /\
    0 <= nj_max_attempts j) (ac_jobs cmd);
  co_kinds : NoDup (map nj_kind (ac_jobs cmd));
}.

Lemma validate_jobs_spec kinds jobs :
  validate_jobs kinds jobs = Ok tt <->
  Forall (fun j => JobKind_Valid (nj_kind j) = true /\ nj_episodes j = [] /\ 0 <= nj_max_attempts j) jobs /\
  NoDup (map nj_kind jobs) /\ (forall j, j ∈ jobs -> nj_kind j ∉ kinds).
Proof.
  revert kinds. induction jobs as [|j jobs IH]; intros kinds; simpl.
  { split; [|done]. intros _. split; [done|]. split; [constructor|]. by intros j ?%not_elem_of_nil. }
  val_norm. rewrite IH, Forall_cons, NoDup_cons.
  unfold one_of. rewrite bool_decide_eq_false.
  assert ((0 <? Z.of_nat (length (nj_episodes j))) = false <-> nj_episodes j = []) as ->.
  { by destruct (nj_episodes j). }
  rewrite Z.ltb_ge. setoid_rewrite elem_of_cons. split.
  - intros (? & ? & ? & Hk & Hf & Hnd & Hn). split; [done|]. split; [split; [|done]|].
    + intros (j' & Hj' & Hin)%list_elem_of_fmap. apply (Hn j' Hin). auto.
    + intros j' [-> | Hin]; [done|]. intros Hc. apply (Hn j' Hin). auto.
  - intros ((? & Hf) & (Hk & Hnd) & Hn). do 3 (split; [naive_solver|]). split; [auto|].
    split; [done|]. split; [done|]. intros j' Hin [Hc|Hc]; [|by apply (Hn j'); auto].
    apply Hk. rewrite <- Hc. by apply list_elem_of_fmap_2.
Qed.

Lemma validateAppend_Ok cmd :
  validateAppend cmd = Ok tt -> exists scope, command_ok cmd scope.
Proof.
  unfold validateAppend. destruct (ac_episodes cmd) as [|first rest] eqn:He; [done|].
  val_norm. intros [Heps Hjobs]. exists (ne_scope first).
  apply validate_jobs_spec in Hjobs as (Hj & Hnd & _). split; [eauto| |done|done].
  rewrite He. apply check_all_Ok in Heps. eapply Forall_impl; [exact Heps|].
  intros e. unfold validate_episode. val_norm. fold (probe_of e).
  rewrite AppendRequest_Validate_spec, String.eqb_eq, !IsZero_neq. naive_solver.
Qed.

(** What the validators accept fits the columns. *)
Lemma label_length lo hi s :
  0 <= lo <= 1 -> label_ok lo hi s -> lo <= pg_length s <= hi.
Proof.
  intros Hlo [Hlen Hv]. pose proof (rune_count_len s). unfold pg_length. split; [|lia].
  destruct (decide (s = ""%string)) as [-> |Hne]; [|pose proof (rune_count_pos s Hne); lia].
  replace (len "") with 0 in Hlen by done. lia.
Qed.

Lemma between_spec lo hi z : between lo hi z = true <-> lo <= z <= hi.
Proof. unfold between. rewrite andb_true_iff, !Z.leb_le. done. Qed.

Lemma episode_row_checks base scope mint eps :
  0 <= base -> Forall (fun e => append_ok (probe_of e)) eps ->
  forallb episode_checks (episode_rows scope base mint eps) = true.
Proof.
  intros Hb Hok. apply forallb_forall. intros r Hr%list_elem_of_In.
  apply elem_of_episode_rows in Hr as (_ & Hseq & k & e & _ & _ & He & Hc & Hro & Ha & Hs & Hbd).
  rewrite Forall_forall in Hok. destruct (Hok e He) as (_ & Hcont & Hrole & Hact & Hsrc & Hbind & _).
  simpl in *. unfold episode_checks. rewrite Hc, Hro, Ha, Hs, Hbd, !andb_true_iff, !between_spec.
  apply label_length in Hcont, Hact, Hsrc; [|lia..]. unfold MaxContentLen in Hcont.
  unfold MaxActorLen, MaxSourceLen, MaxBindingKeys in *. change (Z.shiftl 1 20) with 1048576 in Hcont.
  repeat split; try lia; try done.
Qed.

Lemma upsert_scope_checks scope n at_ d :
  db_ok d -> 0 <= n -> clean_label MaxScopeIDLen scope ->
  forallb scope_checks (List.filter (same_scope scope) (db_scopes (upsert_scope scope n at_ d).1)) = true.
Proof.
  intros Hok Hn [Hl _]. apply label_length in Hl; [|lia]. unfold MaxScopeIDLen in Hl.
  destruct (upsert_scope_spec scope n at_ d (ok_scopes d Hok)) as (l & -> & Hcase).
  apply forallb_forall. intros r [Hr Hs]%filter_In. apply same_scope_spec in Hs.
  apply list_elem_of_In in Hr. simpl in Hr. unfold scope_checks. rewrite Hs, andb_true_iff, between_spec.
  split; [done|]. destruct Hcase as [[-> _]|[-> _]].
  - apply list_elem_of_fmap in Hr as (x & -> & Hx). pose proof (so_rows d (ok_scopes d Hok)) as Hrows.
    rewrite Forall_forall in Hrows. specialize (Hrows x Hx). unfold scope_checks in Hrows.
    rewrite andb_true_iff in Hrows. pose proof (bump_grows scope n x Hn). lia.
  - apply elem_of_app in Hr as [Hr| ->%list_elem_of_singleton]; [|simpl; lia].
    pose proof (so_rows d (ok_scopes d Hok)) as Hrows. rewrite Forall_forall in Hrows.
    specialize (Hrows r Hr). unfold scope_checks in Hrows. rewrite andb_true_iff in Hrows. lia.
Qed.

Lemma last_seq_nonneg scope d : db_ok d -> 0 <= last_seq_of scope d.
Proof.
  intros Hok. unfold last_seq_of. destruct (List.find _ _) as [r|] eqn:Hf; [|done].
  apply find_elem in Hf as [Hr _]. pose proof (so_rows d (ok_scopes d Hok)) as Hrows.
  rewrite Forall_forall in Hrows. specialize (Hrows r Hr). unfold scope_checks in Hrows.
  rewrite andb_true_iff in Hrows. lia.
Qed.

(** With a validated batch no constraint of the schema can fail. *)
Lemma append_stmt_total scope at_ eps specs d :
  db_ok d -> db_ready d = true -> eps <> [] -> clean_label MaxScopeIDLen scope ->
  Forall (fun e => append_ok (probe_of e)) eps -> Forall spec_ok specs ->
  exists d' r, append_stmt scope (Z.of_nat (length eps)) at_ eps specs d = (d', Ok r).
Proof.
  intros Hok Hready Hne Hscope Heps Hspecs. unfold append_stmt, on_schema. rewrite Hready.
  unfold atomically. pose proof (upsert_scope_checks scope (Z.of_nat (length eps)) at_ d Hok
    (Nat2Z.is_nonneg _) Hscope) as Hsc.
  destruct (upsert_scope scope (Z.of_nat (length eps)) at_ d) as [d1 base] eqn:Hu. simpl in Hsc.
  rewrite Hsc. simpl.
  destruct (upsert_scope_ok _ _ _ _ _ _ Hok (Nat2Z.is_nonneg _) Hu Hsc)
    as (Hok1 & Hfree & Hhas & Hbase & _).
  assert (0 <= base) as Hb by (rewrite Hbase; by apply last_seq_nonneg).
  pose proof (episode_row_checks base scope (db_minted d1) eps Hb Heps) as Hec.
  destruct (insert_episodes_ok scope base eps d1 Hok1 Hfree Hec) as [Hins Hok2].
  pose proof (minted_sorted scope base (db_minted d1) eps) as Hsorted.
  unfold obind. rewrite Hins. simpl in Hsorted |- *. rewrite Hsorted, map_map. simpl.
  set (d2 := set_minted _ _) in *. set (ids := map _ _).
  assert (ids <> []) as Hids by (by destruct eps).
  pose proof (insert_jobs_spec scope ids at_ specs d2 (ok_jobs d2 Hok2) Hhas Hids) as Hj.
  destruct (insert_jobs scope ids at_ specs d2) as [d3 [jobs|e]]; [|done].
  unfold oret. simpl. eauto.
Qed.

Definition cmd_scope (cmd : AppendCommand) : ScopeID :=
  match ac_episodes cmd with first :: _ => ne_scope first | [] => EmptyString end.
Definition cmd_at (cmd : AppendCommand) : Time :=
  match ac_episodes cmd with first :: _ => ne_ingested first | [] => zeroTime end.
Definition cmd_specs (cmd : AppendCommand) : list (string * Z * Z) :=
  map (job_spec (cmd_at cmd)) (ac_jobs cmd).
(** The server accepts every text of the command. *)
Definition cmd_texts (cmd : AppendCommand) : bool :=
  forallb pg_text (cmd_scope cmd :: concat (map episode_texts (ac_episodes cmd))) &&
  forallb binding_text (ac_episodes cmd).

Lemma length_zip_appended eps (rows : list EpisodeRow) :
  length rows = length eps ->
  length (zip_with appended eps (map (fun r => (er_id r, er_seq r)) rows)) = length eps.
Proof. intros H. rewrite length_zip_with, length_map. lia. Qed.

(** A validated append, run: the statement's effect, or none. *)
Lemma Append_run cmd d :
  db_ok d -> validateAppend cmd = Ok tt -> Z.of_nat (length (ac_episodes cmd)) < 2 ^ 31 ->
  match Append cmd d with
  | (d', Ok r) =>
      exists rows jobs,
        append_post (cmd_scope cmd) (ac_episodes cmd) (pg_ts (t_ns (cmd_at cmd))) (cmd_specs cmd) d d'
          rows jobs /\
        res_episodes r = zip_with appended (ac_episodes cmd) (map (fun r => (er_id r, er_seq r)) rows) /\
        res_jobs r = map (appended_job (cmd_scope cmd) (map er_id rows)) jobs
  | (d', Err _) => d' = d
  end.
Proof.
  intros Hok Hv Hlen. unfold Append, cmd_scope, cmd_specs, cmd_at. rewrite obind_olift, Hv.
  destruct (ac_episodes cmd) as [|first rest] eqn:He; [done|]. rewrite <- He in *.
  cbv zeta. rewrite int32_id by lia. unfold obind, omap_err, with_text.
  destruct (forallb pg_text _); [|done]. destruct (forallb binding_text _); [|done].
  assert (ac_episodes cmd <> []) as Hne by (by rewrite He).
  pose proof (append_stmt_spec (ne_scope first) (pg_ts (t_ns (ne_ingested first))) (ac_episodes cmd)
    (map (job_spec (ne_ingested first)) (ac_jobs cmd)) d Hok Hne) as Hs.
  destruct (append_stmt _ _ _ _ _ d) as [d' [[ids jobs]|e]]; [|done].
  destruct Hs as (rows & Hpost & ->).
  assert (length rows = length (ac_episodes cmd)) as Hlr.
  { destruct (ap_rows _ _ _ _ _ _ _ _ Hpost) as (mint & _ & ->). apply length_episode_rows. }
  rewrite length_zip_appended, Z.eqb_refl by done. simpl. exists rows, jobs.
  rewrite map_map. done.
Qed.

(** What a written episode reads back as: its columns, with an empty binding as
    none... *)
Definition episode_of (r : EpisodeRow) : Episode :=
  MkEpisode (er_id r) (er_scope r) (er_seq r) (er_content r) (er_role r) (er_actor r)
    (er_source r) (utc (er_occurred r)) (utc (er_ingested r))
    (if bool_decide (er_binding r = ∅) then None else Some (er_binding r)).

(** ... which is what was returned for it, with its instants at the column's
    resolution. *)
Definition stored (e : Episode) : Episode :=
  MkEpisode (ep_id e) (ep_scope e) (ep_seq e) (ep_content e) (ep_role e) (ep_actor e) (ep_source e)
    (utc (pg_ts (t_ns (ep_occurred e)))) (utc (pg_ts (t_ns (ep_ingested e))))
    (if bool_decide (Binding_entries (ep_binding e) = ∅) then None
     else Some (Binding_entries (ep_binding e))).

(** An append that returned: the rows it wrote, and that they are its answer. *)
Lemma Append_written cmd d d' r :
  db_ok d -> Z.of_nat (length (ac_episodes cmd)) < 2 ^ 31 -> Append cmd d = (d', Ok r) ->
  exists scope rows jobs,
    command_ok cmd scope /\ scope = cmd_scope cmd /\
    append_post scope (ac_episodes cmd) (pg_ts (t_ns (cmd_at cmd))) (cmd_specs cmd) d d' rows jobs /\
    res_episodes r = zip_with appended (ac_episodes cmd) (map (fun r => (er_id r, er_seq r)) rows) /\
    map ep_id (res_episodes r) = map er_id rows /\
    Forall2 (fun e row => stored e = episode_of row) (res_episodes r) rows.
Proof.
  intros Hok Hlen Happ. assert (validateAppend cmd = Ok tt) as Hv.
  { unfold Append in Happ. rewrite obind_olift in Happ. by destruct (validateAppend cmd) as [[]|]. }
  pose proof (Append_run cmd d Hok Hv Hlen) as Hrun. rewrite Happ in Hrun.
  destruct Hrun as (rows & jobs & Hpost & Hres & _).
  destruct (validateAppend_Ok cmd Hv) as [scope Hcmd].
  assert (scope = cmd_scope cmd) as ->.
  { destruct Hcmd as [(first & rest & He & Hs) _ _ _]. unfold cmd_scope. by rewrite He. }
  exists (cmd_scope cmd), rows, jobs. do 4 (split; [done|]).
  destruct (ap_rows _ _ _ _ _ _ _ _ Hpost) as (mint & _ & Hrows).
  assert (Forall2 (fun e row => stored e = episode_of row /\ ep_id e = er_id row) (res_episodes r) rows) as HF.
  { apply Forall2_same_length_lookup_2.
    { rewrite Hres, length_zip_appended; [by rewrite Hrows, length_episode_rows|].
      by rewrite Hrows, length_episode_rows. }
    intros i e row He Hrow. rewrite Hres in He.
    apply lookup_zip_with_Some in He as (ep & x & -> & Hep & Hx).
    rewrite list_lookup_fmap, Hrow in Hx. injection Hx as <-.
    rewrite Hrows, (episode_rows_lookup _ _ _ _ _ _ Hep) in Hrow. injection Hrow as <-.
    pose proof (co_episodes _ _ Hcmd) as Hall. rewrite Forall_forall in Hall.
    destruct (Hall ep) as (_ & Hsc & _); [by eapply list_elem_of_lookup_2|].
    split; [|done]. unfold episode_of, stored, appended. cbn. by rewrite Hsc, Binding_Clone_id. }
  split; [|eapply Forall2_impl; [exact HF|]; by intros ? ? []].
  clear -HF. induction HF as [|e row l k [_ Hid] _ IH]; [done|]. cbn. by rewrite Hid, IH.
Qed.

(** an append takes a contiguous block. When [Store.Append] returns, the
    scope's counter has moved by the size of the batch and no other scope's has;
    the [i]th episode of the answer is the [i]th of the command with the sequence
    number that many after the old counter and an id no episode had; the table is
    the old one with exactly those rows added at the end; and every job asked for
    is outstanding for the whole batch, in order. *)
Theorem Append_allocates cmd d d' r :
  db_ok d -> Z.of_nat (length (ac_episodes cmd)) < 2 ^ 31 -> Append cmd d = (d', Ok r) ->
  let scope := cmd_scope cmd in
  let base := last_seq_of scope d in
  let ids := map ep_id (res_episodes r) in
  last_seq_of scope d' = base + Z.of_nat (length (ac_episodes cmd)) /\
  (forall s, s <> scope -> last_seq_of s d' = last_seq_of s d) /\
  length (res_episodes r) = length (ac_episodes cmd) /\
  (forall i e, ac_episodes cmd !! i = Some e ->
     exists id, res_episodes r !! i = Some (appended e (id, base + 1 + Z.of_nat i)) /\
       id ∉ map er_id (db_episodes d)) /\
  map er_id (db_episodes d') = map er_id (db_episodes d) ++ ids /\ NoDup ids /\
  (forall j, j ∈ ac_jobs cmd -> covered (nj_kind j) scope ids d').
Proof.
  intros Hok Hlen Happ scope base ids.
  destruct (Append_written cmd d d' r Hok Hlen Happ) as (? & rows & jobs & _ & -> & Hpost & Hres & Hids & _).
  fold scope in Hpost. fold ids in Hids.
  pose proof Hpost as [Hok' (mint & Hmint & Hrows) Heps Hseq Hothers _ _ Hcov _ _].
  assert (length rows = length (ac_episodes cmd)) as Hlr by (rewrite Hrows; apply length_episode_rows).
  assert (map er_id (db_episodes d') = map er_id (db_episodes d) ++ ids) as Hall.
  { by rewrite Heps, map_app, Hids. }
  pose proof (eo_ids d' (ok_episodes d' Hok')) as Hnd. rewrite Hall in Hnd.
  apply NoDup_app in Hnd as (_ & Hnew & Hnd).
  split; [done|]. split; [done|]. split; [rewrite Hres; by apply length_zip_appended|].
  split; [|split; [done|split; [done|]]].
  - intros i e He. exists (uuidv7 (mint + i)). rewrite Hres, lookup_zip_with, He. simpl.
    pose proof (episode_rows_lookup scope (last_seq_of scope d) mint _ i e He) as Hi. rewrite <- Hrows in Hi.
    rewrite list_lookup_fmap, Hi. simpl. split; [done|]. intros Hin. apply (Hnew _ Hin).
    rewrite Hids. apply list_elem_of_fmap. eexists. split; [|by eapply list_elem_of_lookup_2]. done.
  - intros j Hj. rewrite Hids. rewrite Forall_forall in Hcov.
    apply (Hcov (job_spec (cmd_at cmd) j)). unfold cmd_specs. by apply list_elem_of_fmap_2.
Qed.

(** an append is all or nothing, and keeps the database well formed: when
    it returns an error, whichever check or constraint raised it, nothing has
    changed; when it succeeds every key and constraint holds again. *)
Theorem Append_atomic cmd d :
  db_ok d -> Z.of_nat (length (ac_episodes cmd)) < 2 ^ 31 ->
  match Append cmd d with
  | (d', Ok _) => db_ok d'
  | (d', Err _) => d' = d
  end.
Proof.
  intros Hok Hlen. destruct (validateAppend cmd) as [[]|e] eqn:Hv.
  - pose proof (Append_run cmd d Hok Hv Hlen) as Hrun. destruct (Append cmd d) as [d' [r|e]]; [|done].
    by destruct Hrun as (rows & jobs & [] & _).
  - unfold Append. by rewrite obind_olift, Hv.
Qed.

Lemma Append_total cmd d :
  db_ok d -> db_ready d = true -> validateAppend cmd = Ok tt ->
  Z.of_nat (length (ac_episodes cmd)) < 2 ^ 31 ->
  Forall (fun j => nj_max_attempts j < 2 ^ 31) (ac_jobs cmd) -> cmd_texts cmd = true ->
  exists d' r, Append cmd d = (d', Ok r).
Proof.
  intros Hok Hready Hv Hlen Hmax Ht. destruct (validateAppend_Ok cmd Hv) as [scope Hcmd].
  destruct Hcmd as [(first & rest & He & Hscope) Heps Hjobs _].
  unfold cmd_texts, cmd_scope in Ht. unfold Append. rewrite obind_olift, Hv. rewrite He in Ht |- *.
  rewrite <- He in Ht |- *. apply andb_true_iff in Ht as [Ht Hb].
  cbv zeta. rewrite int32_id by lia. unfold obind, omap_err, with_text. rewrite Ht, Hb.
  assert (clean_label MaxScopeIDLen (ne_scope first)) as Hcl.
  { rewrite He in Heps. apply Forall_cons in Heps as [((Hcl & _) & _) _]. exact Hcl. }
  assert (Forall spec_ok (map (job_spec (ne_ingested first)) (ac_jobs cmd))) as Hspecs.
  { apply Forall_map. rewrite Forall_forall in Hjobs, Hmax |- *. intros j Hj.
    destruct (Hjobs j Hj) as (Hk & _ & Hm). specialize (Hmax j Hj). split; [done|]. simpl.
    rewrite int32_id by lia. unfold DefaultMaxAttempts. case_match; lia. }
  destruct (append_stmt_total (ne_scope first) (pg_ts (t_ns (ne_ingested first))) (ac_episodes cmd)
    (map (job_spec (ne_ingested first)) (ac_jobs cmd)) d) as (d' & [ids jobs] & Hs); [done|done|by rewrite He|done| |done|].
  { eapply Forall_impl; [exact Heps|]. naive_solver. }
  rewrite Hs. pose proof (append_stmt_spec (ne_scope first) (pg_ts (t_ns (ne_ingested first)))
    (ac_episodes cmd) (map (job_spec (ne_ingested first)) (ac_jobs cmd)) d Hok) as Hpost.
  rewrite Hs in Hpost. destruct Hpost as (rows & Hpost & ->); [by rewrite He|].
  destruct (ap_rows _ _ _ _ _ _ _ _ Hpost) as (mint & _ & Hrows).
  rewrite length_zip_appended, Z.eqb_refl; [unfold oret; simpl; eauto|].
  rewrite Hrows. apply length_episode_rows.
Qed.

(** what [validateAppend] accepts the schema accepts: against a migrated,
    well-formed database, with text the server can store and attempt limits that
    fit the column, a validated command never fails. *)
Theorem Append_succeeds cmd d :
  db_ok d -> db_ready d = true -> validateAppend cmd = Ok tt ->
  Z.of_nat (length (ac_episodes cmd)) < 2 ^ 31 ->
  Forall (fun j => nj_max_attempts j < 2 ^ 31) (ac_jobs cmd) -> cmd_texts cmd = true ->
  exists d' r, Append cmd d = (d', Ok r).
Proof. apply Append_total. Qed.
End Append.

(** ** A concrete append *)

Definition demo_new (content : string) (occurred : Z) : NewEpisode :=
  MkNewEpisode "s" content RoleUser "ada" "chat" (utc occurred) (utc 5000) None.

Definition demo_command : AppendCommand :=
  MkAppendCommand [demo_new "first" 3000; demo_new "second" 4500]
    [MkNewJob JobKindEncode "s" [] zeroTime 0; MkNewJob JobKindExtract "s" [] zeroTime 3].

Lemma demo_small : Z.of_nat (length (ac_episodes demo_command)) < 2 ^ 31.
Proof. vm_compute. reflexivity. Qed.

Definition demo_appended : Db := (Append demo_command (empty_db 2)).1.

Lemma demo_append :
  exists r, Append demo_command (empty_db 2) = (demo_appended, Ok r) /\ length (res_episodes r) = 2%nat.
Proof. eexists. split; [vm_compute; reflexivity|reflexivity]. Qed.

Lemma Append_allocates_witness :
  exists r, Append demo_command (empty_db 2) = (demo_appended, Ok r) /\
    last_seq_of (cmd_scope demo_command) demo_appended = 2 /\ NoDup (map ep_id (res_episodes r)).
Proof.
  destruct demo_append as (r & Hr & _). exists r. split; [exact Hr|].
  pose proof (Append_allocates demo_command (empty_db 2) demo_appended r (empty_db_ok 2) demo_small Hr) as H.
  cbv zeta in H. destruct H as (Hseq & _ & _ & _ & _ & Hnd & _).
  split; [|exact Hnd]. rewrite Hseq. vm_compute. reflexivity.
Defined.

Lemma Append_atomic_witness : db_ok demo_appended.
Proof.
  pose proof (Append_atomic demo_command (empty_db 2) (empty_db_ok 2) demo_small) as H.
  destruct demo_append as (r & Hr & _). rewrite Hr in H. exact H.
Defined.

Lemma Append_succeeds_witness :
  exists d' r, Append demo_command (empty_db 2) = (d', Ok r).
Proof.
  refine (Append_succeeds demo_command (empty_db 2) (empty_db_ok 2) eq_refl _ demo_small _ _).
  - vm_compute. reflexivity.
  - repeat constructor.
  - vm_compute. reflexivity.
Defined.
