(* ===== verification/Replaying.v ===== *)
(** * Reading the log back ([postgres/episode.go])

    [Store.Episode] and [Store.Replay]: what was appended is what is read, in its
    scope alone, and a replay page by page misses nothing. *)

From S2P Require Import Types Validate Server Db PgQueue Queueing PgEpisode Appending.

#[local] Open Scope Z_scope.

(** ** Reading *)

Section Reading.
Context `{Sv : Server}.

Lemma scanEpisode_ok d r :
  db_ok d -> r ∈ db_episodes d -> scanEpisode r = Ok (episode_of r).
Proof.
  intros [_ [_ _ Hr] _ _ _ _] Hin. rewrite Forall_forall in Hr. destruct (Hr r Hin) as (Hc & _).
  unfold episode_checks in Hc. rewrite !andb_true_iff in Hc. destruct Hc as ((((_ & Hrole) & _) & _) & _).
  unfold scanEpisode. by replace (Role_Valid (er_role r)) with true.
Qed.

Lemma Episode_get_spec scope id d :
  db_ok d -> db_ready d = true -> ScopeID_Validate scope = Ok tt -> id <> 0%N ->
  (forall r, r ∈ db_episodes d -> er_scope r = scope -> er_id r = id ->
     Episode_get scope id d = (d, Ok (episode_of r))) /\
  ((forall r, r ∈ db_episodes d -> er_scope r = scope -> er_id r <> id) ->
     Episode_get scope id d = (d, Err (EWrap ErrNotFound))).
Proof.
  intros Hok Hready Hv Hid. apply IsZeroID_false in Hid.
  assert (Episode_get scope id d =
    (d, match List.find (fun r => String.eqb (er_scope r) scope && N.eqb (er_id r) id) (db_episodes d) with
        | Some r => Ok (episode_of r) | None => Err (EWrap ErrNotFound) end)) as Hget.
  { unfold Episode_get. rewrite obind_olift, Hv. cbv beta iota. rewrite obind_olift, Hid.
    cbv beta iota delta [reject]. unfold omap_err, on_schema. rewrite Hready, query_row_find.
    destruct (List.find _ _) as [r|] eqn:Hf; [|done]. simpl.
    apply find_elem in Hf as [Hr _]. by rewrite (scanEpisode_ok d r). }
  rewrite Hget. split.
  - intros r Hr Hs Hrid. destruct (List.find _ _) as [r'|] eqn:Hf.
    + apply find_elem in Hf as [Hr' [_ Hid']%andb_true_iff]. apply N.eqb_eq in Hid'. do 3 f_equal.
      eapply NoDup_key; [apply (eo_ids d (ok_episodes d Hok))|done|done|congruence].
    + eapply find_absent in Hf; [|done]. by rewrite Hs, Hrid, String.eqb_refl, N.eqb_refl in Hf.
  - intros Hno. destruct (List.find _ _) as [r'|] eqn:Hf; [|done].
    apply find_elem in Hf as [Hr' [Hs' Hid']%andb_true_iff].
    apply String.eqb_eq in Hs'. apply N.eqb_eq in Hid'. by destruct (Hno r' Hr' Hs').
Qed.

(** C27: what was appended is what is read. Each episode [Append] returned is
    found by [Episode] under its scope and id with the same sequence number,
    content and attributes, and instants equal up to the resolution of the
    column; under any other valid scope it does not exist. *)
Theorem append_roundtrip `{!ServerLaws Sv} cmd d d' r e :
  db_ok d -> Z.of_nat (length (ac_episodes cmd)) < 2 ^ 31 -> Append cmd d = (d', Ok r) ->
  e ∈ res_episodes r ->
  Episode_get (cmd_scope cmd) (ep_id e) d' = (d', Ok (stored e)) /\
  forall scope, ScopeID_Validate scope = Ok tt -> scope <> cmd_scope cmd ->
    Episode_get scope (ep_id e) d' = (d', Err (EWrap ErrNotFound)).
Proof.
  intros Hok Hlen Happ Hin.
  destruct (Append_written cmd d d' r Hok Hlen Happ) as (? & rows & jobs & Hcmd & -> & Hpost & _ & _ & HF).
  pose proof Hpost as [Hok' (mint & _ & Hrows) Heps _ _ _ _ _ (_ & _ & _ & Hready') _].
  apply list_elem_of_lookup in Hin as [i Hi].
  destruct (Forall2_lookup_l _ _ _ _ _ HF Hi) as (row & Hrow & Hst). apply list_elem_of_lookup_2 in Hrow.
  assert (er_scope row = cmd_scope cmd /\ er_id row <> 0%N) as [Hsc Hnz].
  { rewrite Hrows in Hrow. apply elem_of_episode_rows in Hrow as (? & _ & k & _ & _ & -> & _).
    split; [done|apply uuidv7_nonzero]. }
  assert (ep_id e = er_id row) as Hid by exact (f_equal ep_id Hst).
  assert (row ∈ db_episodes d') as Hin' by (rewrite Heps; apply elem_of_app; by right).
  assert (ScopeID_Validate (cmd_scope cmd) = Ok tt) as Hsv.
  { apply ScopeID_Validate_spec. destruct Hcmd as [(f & rest & He & Hs) Hall _ _].
    rewrite He in Hall. apply Forall_cons in Hall as [((Hap & _) & _) _]. cbn in Hap. by rewrite <- Hs. }
  rewrite Hid. split.
  - rewrite Hst. by apply (proj1 (Episode_get_spec (cmd_scope cmd) (er_id row) d' Hok' Hready' Hsv Hnz)).
  - intros scope Hscv Hne. apply (Episode_get_spec scope (er_id row) d' Hok' Hready' Hscv Hnz).
    intros r0 Hr0 Hr0s Hr0id. apply Hne. rewrite <- Hr0s, <- Hsc. f_equal.
    by apply (NoDup_key er_id (db_episodes d')); [apply (eo_ids d' (ok_episodes d' Hok'))|..].
Qed.

(** ** Replaying *)

Definition history (scope : string) (after : Z) (d : Db) : list EpisodeRow :=
  sort_func (cmp_on er_seq Z.compare)
    (List.filter (fun r => String.eqb (er_scope r) scope && (after <? er_seq r)) (db_episodes d)).

Lemma elem_of_history scope after d r :
  r ∈ history scope after d <-> r ∈ db_episodes d /\ er_scope r = scope /\ after < er_seq r.
Proof.
  unfold history, sort_func.
  by rewrite elem_of_sort_by, elem_of_filter_b, andb_true_iff, String.eqb_eq, Z.ltb_lt.
Qed.

Lemma history_sorted scope after d :
  db_ok d -> StronglySorted (fun x y => er_seq x < er_seq y) (history scope after d).
Proof.
  intros Hok. pose proof (elem_of_history scope after d) as Hel.
  assert (NoDup (history scope after d)) as Hnd.
  { unfold history, sort_func. rewrite sort_by_Permutation. apply NoDup_filter_b.
    eapply NoDup_fmap_1, (eo_ids d (ok_episodes d Hok)). }
  pose proof (sort_func_Sorted (cmp_on er_seq Z.compare)
    (List.filter (fun r => String.eqb (er_scope r) scope && (after <? er_seq r)) (db_episodes d))) as Hs.
  fold (history scope after d) in Hs.
  assert (forall r, r ∈ history scope after d -> r ∈ db_episodes d /\ er_scope r = scope) as Hin
    by (intros r Hr; apply Hel in Hr; naive_solver).
  clear Hel. induction Hs as [|x l Hl IH Hx]; [constructor|].
  apply NoDup_cons in Hnd as [Hnx Hnd]. constructor; [apply IH; [done|set_solver]|].
  rewrite Forall_forall in Hx |- *. intros y Hy. specialize (Hx y Hy).
  unfold cmp_on in Hx. rewrite Z.compare_le_iff in Hx.
  destruct (Z.eq_dec (er_seq x) (er_seq y)) as [Heq|]; [|lia]. destruct Hnx.
  replace x with y; [done|]. eapply NoDup_key; [apply (eo_seqs d (ok_episodes d Hok))| | |].
  - by apply Hin; right.
  - by apply Hin; left.
  - simpl. destruct (Hin x) as [_ ->]; [by left|]. destruct (Hin y) as [_ ->]; [by right|]. congruence.
Qed.

Lemma Replay_history scope after limit d :
  db_ok d -> db_ready d = true -> ScopeID_Validate scope = Ok tt -> 0 <= after -> 0 < limit ->
  Replay scope after limit d = (d, Ok (map episode_of (take (Z.to_nat limit) (history scope after d)))).
Proof.
  intros Hok Hready Hv Ha Hl. unfold Replay. rewrite obind_olift, Hv. cbv beta iota.
  rewrite obind_olift. replace (after <? 0) with false by lia. cbv beta iota delta [reject].
  rewrite obind_olift. replace (limit <=? 0) with false by lia. cbv beta iota.
  unfold on_schema. rewrite Hready. f_equal. apply map_res_total, Forall_forall.
  intros r Hr%elem_of_sql_limit. eapply scanEpisode_ok; [done|].
  by apply (elem_of_history scope after d) in Hr as [Hr _].
Qed.

Lemma sorted_lt_unique (l k : list EpisodeRow) :
  StronglySorted (fun x y => er_seq x < er_seq y) l ->
  StronglySorted (fun x y => er_seq x < er_seq y) k ->
  (forall r, r ∈ l <-> r ∈ k) -> l = k.
Proof.
  assert (forall l, StronglySorted (fun x y => er_seq x < er_seq y) l -> NoDup l) as Hnd.
  { induction 1 as [|x l' Hl IH Hx]; constructor; [|done]. intros Hin.
    rewrite Forall_forall in Hx. specialize (Hx x Hin). lia. }
  intros Hl Hk Hin. apply (StronglySorted_unique_strong (fun x y => er_seq x < er_seq y)); [|done|done|].
  - intros x y _ _ H1 H2. lia.
  - apply NoDup_Permutation; auto.
Qed.

(** [Store.Replay] reads history in order and misses nothing: the episodes
    of the scope past the cursor, strictly by sequence number, the first [limit]
    of them; and a walk that resumes each page at the last sequence number it saw
    reads exactly what one unbounded page would. *)
Theorem Replay_spec scope after limit d :
  db_ok d -> db_ready d = true -> ScopeID_Validate scope = Ok tt -> 0 <= after -> 0 < limit ->
  exists rows,
    Replay scope after limit d = (d, Ok (map episode_of rows)) /\
    StronglySorted (fun x y => er_seq x < er_seq y) rows /\
    (length rows <= Z.to_nat limit)%nat /\
    (forall r, r ∈ rows -> r ∈ db_episodes d /\ er_scope r = scope /\ after < er_seq r) /\
    (forall r, r ∈ db_episodes d -> er_scope r = scope -> after < er_seq r -> r ∉ rows ->
       length rows = Z.to_nat limit /\ forall x, x ∈ rows -> er_seq x < er_seq r) /\
    (forall x, last rows = Some x ->
       history scope after d = rows ++ history scope (er_seq x) d).
Proof.
  intros Hok Hready Hv Ha Hl. pose proof (history_sorted scope after d Hok) as Hs.
  set (n := Z.to_nat limit). set (h := history scope after d) in *.
  pose proof (take_drop n h) as Htd. rewrite <- Htd in Hs.
  apply StronglySorted_app in Hs as (Hcross & Hst & Hsd).
  exists (take n h). split; [by apply Replay_history|]. split; [done|].
  split; [rewrite length_take; lia|]. split; [|split].
  - intros r Hr. apply elem_of_history. fold h. rewrite <- Htd. apply elem_of_app. by left.
  - intros r Hr Hrs Hra Hn. assert (r ∈ drop n h) as Hrd.
    { assert (r ∈ h) as Hrh by (by apply elem_of_history). rewrite <- Htd in Hrh.
      apply elem_of_app in Hrh as [|]; done. }
    split; [|intros x Hx; by apply Hcross]. rewrite length_take.
    assert (0 < length (drop n h))%nat by (destruct (drop n h); [by apply not_elem_of_nil in Hrd|simpl; lia]).
    rewrite length_drop in *. lia.
  - intros x Hx. rewrite <- Htd at 1. f_equal. apply last_Some in Hx as [l Hx].
    apply sorted_lt_unique; [done|by apply history_sorted|]. intros r.
    rewrite elem_of_history. split.
    + intros Hr. assert (r ∈ h) as Hrh by (rewrite <- Htd; apply elem_of_app; by right).
      apply elem_of_history in Hrh as (? & ? & ?). split; [done|]. split; [done|].
      apply Hcross; [|done]. rewrite Hx. apply elem_of_app. right. by apply list_elem_of_singleton.
    + intros (Hr & Hrs & Hrx). assert (er_seq x > after /\ r ∈ h) as [Hxa Hrh].
      { assert (x ∈ h) as Hxh.
        { rewrite <- Htd, Hx. apply elem_of_app. left. apply elem_of_app. right. by apply list_elem_of_singleton. }
        apply elem_of_history in Hxh as (_ & _ & Hxa). split; [lia|].
        apply elem_of_history. split; [done|]. split; [done|lia]. }
      rewrite <- Htd in Hrh. apply elem_of_app in Hrh as [Hrt|]; [|done]. exfalso.
      rewrite Hx in Hrt, Hst. apply StronglySorted_app in Hst as (Hlast & _ & _).
      apply elem_of_app in Hrt as [Hrl|Hrl%list_elem_of_singleton]; [|subst; lia].
      specialize (Hlast r x Hrl ltac:(by apply list_elem_of_singleton)). lia.
Qed.
End Reading.

(** ** A concrete log *)

Lemma append_roundtrip_witness :
  exists id e, Episode_get (cmd_scope demo_command) id demo_appended = (demo_appended, Ok e).
Proof.
  destruct demo_append as (r & Hr & Hlen). destruct (res_episodes r) as [|e l] eqn:He; [discriminate Hlen|].
  exists (ep_id e), (stored e).
  refine (proj1 (append_roundtrip demo_command (empty_db 2) demo_appended r e (empty_db_ok 2)
    demo_small Hr _)).
  rewrite He. left.
Defined.

Lemma Replay_spec_witness :
  exists rows, Replay "s" 0 1 demo_appended = (demo_appended, Ok (map episode_of rows)) /\
    (length rows <= 1)%nat.
Proof.
  assert (db_ok demo_appended) as Hok.
  { destruct demo_append as (r & Hr & _).
    pose proof (Append_run demo_command (empty_db 2) (empty_db_ok 2) ltac:(vm_compute; reflexivity)
      demo_small) as H. rewrite Hr in H. destruct H as (? & ? & H & _). apply H. }
  destruct (Replay_spec "s" 0 1 demo_appended Hok eq_refl eq_refl ltac:(lia) ltac:(lia))
    as (rows & Hr & _ & Hlen & _).
  exists rows. split; [exact Hr|exact Hlen].
Defined.
