(* ===== verification/PgFact.v ===== *)
(** * L1: facts ([postgres/fact.go])

    Applying an extraction in one transaction, reading facts back, and finding
    the episodes no extractor has read: the operations, what deduplication keeps,
    what the transaction leaves alone, and that it is applied once. [FactWriting]
    and [FactReading] have the rest. *)

From S2P Require Import Types Windows Validate OpsTypes Server Db PgQueue Queueing PgEpisode Appending Replaying.

#[local] Open Scope Z_scope.

Definition DefaultFactsLimit : Z := 200.
Definition DefaultPendingExtractionsLimit : Z := 100.
Definition pgerrcodeExclusionViolation : string := "23P01".

(** [wrapFactError]. *)
Definition wrapFactError (e : Error) : Error :=
  if isCode e [pgerrcodeUndefinedTable; pgerrcodeInvalidSchema] then EWrapPg ErrSchemaNotReady
  else if isCode e [pgerrcodeExclusionViolation] then EWrap ErrFactConflict
  else if isCode e [pgerrcodeCheckViolation] then EJoin (EWrap ErrInvalidFact) e
  else if isCode e [pgerrcodeForeignKeyViolat] then EWrap ErrNotFound
  else e.

(** [toValidity]: the columns' CHECKs leave only half-open ranges with a lower
    bound, which is what [FactRow] can hold; an unbounded end is a zero [To]. *)
Definition toValidity (lo : Z) (hi : option Z) : Validity :=
  MkValidity (utc lo) (match hi with Some h => utc h | None => zeroTime end).

(** [scanFact]. *)
Definition scanFact (r : FactRow) : Fact :=
  MkFact (gr_id r) (gr_scope r) (gr_extractor r) (gr_subject r) (gr_predicate r) (gr_object r)
    (gr_statement r) (toValidity (gr_from r) (gr_to r)) (gr_confidence r) (gr_episodes r)
    (utc (gr_asserted r)) (utc (gr_updated r)).

(** ** Deduplication *)

Definition same_claim (a b : Assertion) : bool :=
  String.eqb (a_subject a) (a_subject b) && String.eqb (a_predicate a) (a_predicate b) &&
  String.eqb (a_object a) (a_object b).

(** [windows[key]]: the windows accepted so far for this claim. *)
Definition windows_of (a : Assertion) (out : list Assertion) : list Validity :=
  map a_valid (List.filter (same_claim a) out).

(** One turn of [dedupeAssertions]'s loop; [==] on [Validity] compares the times
    as structs, location included. *)
Definition dedupe_one (out : list Assertion) (a : Assertion) : res (list Assertion) :=
  if existsb (fun v => bool_decide (v = a_valid a)) (windows_of a out) then Ok out
  else if existsb (fun seen => Overlaps seen (a_valid a)) (windows_of a out)
  then Err (EWrap ErrFactConflict)
  else Ok (out ++ [a]).

Fixpoint dedupe_loop (out ins : list Assertion) : res (list Assertion) :=
  match ins with
  | [] => Ok out
  | a :: rest => let? out' := dedupe_one out a in dedupe_loop out' rest
  end.

(** [dedupeAssertions]. *)
Definition dedupeAssertions (ins : list Assertion) : res (list Assertion) := dedupe_loop [] ins.

(** ** Statements *)

(** The temporal primary key over a table. *)
Fixpoint no_clash (l : list FactRow) : bool :=
  match l with
  | [] => true
  | r :: l' => forallb (fun r' => negb (facts_clash r r')) l' && no_clash l'
  end.

(** Leave [facts'] in the table, if the rows written satisfy its constraints. *)
Definition write_facts (touched facts' : list FactRow) (mint : nat) : dbop unit := fun d =>
  if negb (forallb fact_checks touched) then (d, Err (EPg pgerrcodeCheckViolation))
  else if negb (no_clash facts') then (d, Err (EPg pgerrcodeExclusionViolation))
  else (set_minted mint (set_facts facts' d), Ok tt).

Definition has_extraction (d : Db) (id : N) (extractor : string) : bool :=
  bool_decide ((id, extractor) ∈ map extraction_key (db_extractions d)).

Section Facts.
Context `{Sv : Server}.

Definition found_rows (episodes : list N) (scope : string) (d : Db) : list EpisodeRow :=
  List.filter (fun r => bool_decide (er_id r ∈ episodes) && String.eqb (er_scope r) scope)
    (db_episodes d).

Definition marker (extractor : string) (count at_ : Z) (r : EpisodeRow) : ExtractionRow :=
  MkExtractionRow (er_id r) extractor (er_scope r) (er_ingested r) count at_.

(** [markExtractionSQL]: how many of the episodes the scope has, and how many
    markers are new. *)
Definition mark_stmt (episodes : list N) (scope extractor : string) (count at_ : Z)
    : dbop (Z * Z) :=
  on_schema (fun d =>
    let found := found_rows episodes scope d in
    let rows := map (marker extractor count at_) found in
    let fresh := List.filter (fun x => negb (has_extraction d (xt_episode x) extractor)) rows in
    if negb (forallb extraction_checks rows) then (d, Err (EPg pgerrcodeCheckViolation))
    else (set_extractions (db_extractions d ++ fresh) d,
          Ok (Z.of_nat (length found), Z.of_nat (length fresh)))).

(** The rows [retractSQL] closes. *)
Definition retractable (id : N) (scope : string) (at_ : Z) (r : FactRow) : bool :=
  N.eqb (gr_id r) id && String.eqb (gr_scope r) scope && (gr_from r <? at_) &&
  match gr_to r with None => true | Some h => at_ <? h end.

Definition close_row (at_ now : Z) (r : FactRow) : FactRow :=
  MkFactRow (gr_id r) (gr_scope r) (gr_extractor r) (gr_subject r) (gr_predicate r) (gr_object r)
    (gr_statement r) (gr_from r) (Some at_) (gr_confidence r) (gr_episodes r) (gr_asserted r) now.

(** [retractSQL]: the number of rows it closed. *)
Definition retract_stmt (id : N) (scope : string) (at_ now : Z) : dbop Z :=
  on_schema (fun d =>
    let p := retractable id scope at_ in
    let touched := map (close_row at_ now) (List.filter p (db_facts d)) in
    (write_facts touched (map (fun r => if p r then close_row at_ now r else r) (db_facts d))
       (db_minted d) ;;;
     oret (Z.of_nat (length touched))) d).

(** [explainRetraction]. *)
Definition explainRetraction (scope : ScopeID) (r : Retraction) : dbop unit :=
  on_schema (fun d =>
    (d, match query_row (List.filter
                (fun g => N.eqb (gr_id g) (r_fact r) && String.eqb (gr_scope g) scope) (db_facts d)) with
        | Err ENoRows => Err (EWrap ErrNotFound)
        | Err e => Err e
        | Ok g => reject (negb (After (r_at r) (utc (gr_from g)))) (EWrap ErrInvalidValidity)
        end)).

(** [applyRetractions]. *)
Fixpoint applyRetractions (scope : ScopeID) (at_ : Time) (retract : list Retraction) : dbop unit :=
  match retract with
  | [] => oret tt
  | r :: rest =>
      let! affected := retract_stmt (r_fact r) scope (pg_ts (t_ns (r_at r))) (pg_ts (t_ns at_)) in
      (if 0 <? affected then oret tt else explainRetraction scope r) ;;;
      applyRetractions scope at_ rest
  end.

(** The stored window of an assertion. *)
Definition lower_of (a : Assertion) : Z := pg_ts (t_ns (v_from (a_valid a))).
Definition upper_of (a : Assertion) : option Z :=
  if IsOpen (a_valid a) then None else Some (pg_ts (t_ns (v_to (a_valid a)))).

(** [f] and [i] agree on the full identity and the exact window. *)
Definition matches (scope extractor : string) (r : FactRow) (a : Assertion) : bool :=
  String.eqb (gr_scope r) scope && String.eqb (gr_extractor r) extractor &&
  String.eqb (gr_subject r) (a_subject a) && String.eqb (gr_predicate r) (a_predicate a) &&
  String.eqb (gr_object r) (a_object a) &&
  bool_decide (gr_from r = lower_of a) && bool_decide (gr_to r = upper_of a).

(** [array_agg(DISTINCT e ORDER BY e)]. *)
Definition merge_episodes (old new : list N) : list N :=
  sort_func N.compare (remove_dups (old ++ new)).

Definition refresh_row (episodes : list N) (at_ : Z) (r : FactRow) (a : Assertion) : FactRow :=
  MkFactRow (gr_id r) (gr_scope r) (gr_extractor r) (gr_subject r) (gr_predicate r) (gr_object r)
    (a_statement a) (gr_from r) (gr_to r) (a_confidence a) (merge_episodes (gr_episodes r) episodes)
    (gr_asserted r) at_.

(** The [updated] arm on one row. *)
Definition refreshed (scope extractor : string) (input : list Assertion) (episodes : list N)
    (at_ : Z) (r : FactRow) : option FactRow :=
  match List.find (matches scope extractor r) input with
  | Some a => Some (refresh_row episodes at_ r a)
  | None => None
  end.

Definition new_fact (scope extractor : string) (episodes : list N) (at_ : Z) (id : N) (a : Assertion)
    : FactRow :=
  MkFactRow id scope extractor (a_subject a) (a_predicate a) (a_object a) (a_statement a)
    (lower_of a) (upper_of a) (a_confidence a) episodes at_ at_.

(** A claim of which some row was refreshed, whatever the window. *)
Definition claim_updated (updated : list FactRow) (a : Assertion) : bool :=
  existsb (fun r => String.eqb (gr_subject r) (a_subject a) &&
                    String.eqb (gr_predicate r) (a_predicate a) &&
                    String.eqb (gr_object r) (a_object a)) updated.

Fixpoint new_facts (scope extractor : string) (episodes : list N) (at_ : Z) (mint : nat)
    (l : list Assertion) : list FactRow :=
  match l with
  | [] => []
  | a :: l' => new_fact scope extractor episodes at_ (uuidv7 mint) a
               :: new_facts scope extractor episodes at_ (S mint) l'
  end.

(** [applyAssertionsSQL]: refresh the rows that match, insert the others' claims. *)
Definition assert_stmt (scope extractor : string) (input : list Assertion) (episodes : list N)
    (at_ : Z) : dbop unit :=
  on_schema (fun d =>
    let updated := omap (refreshed scope extractor input episodes at_) (db_facts d) in
    let facts1 := map (fun r => default r (refreshed scope extractor input episodes at_ r))
                    (db_facts d) in
    let inserts := List.filter (fun a => negb (claim_updated updated a)) input in
    let rows := new_facts scope extractor episodes at_ (db_minted d) inserts in
    write_facts (updated ++ rows) (facts1 ++ rows) (db_minted d + length rows) d).

Definition assertion_texts (a : Assertion) : list string :=
  [a_subject a; a_predicate a; a_object a; a_statement a].

(** [Store.applyAssertions]. *)
Definition applyAssertions (cmd : ExtractCommand) (assertions : list Assertion) : dbop unit :=
  match assertions with
  | [] => oret tt
  | _ =>
      omap_err wrapFactError
        (with_text (concat (map assertion_texts assertions))
           (assert_stmt (xc_scope cmd) (xc_extractor cmd) assertions (xc_episodes cmd)
              (pg_ts (t_ns (xc_at cmd)))))
  end.

(** [factsOfExtractionSQL]. *)
Definition fact_order : FactRow -> FactRow -> comparison :=
  cmp_lex (cmp_on gr_subject pg_collate)
    (cmp_lex (cmp_on gr_predicate pg_collate) (cmp_on gr_object pg_collate)).
Definition supports (episodes : list N) (r : FactRow) : bool :=
  existsb (fun id => bool_decide (id ∈ episodes)) (gr_episodes r).
Definition facts_of_extraction (scope extractor : string) (episodes : list N) (d : Db) : list Fact :=
  map scanFact (sort_func (cmp_lex fact_order (cmp_on gr_from Z.compare))
    (List.filter (fun r => String.eqb (gr_scope r) scope && String.eqb (gr_extractor r) extractor &&
                           supports episodes r) (db_facts d))).

(** The body of the transaction of [ApplyExtraction]. *)
Definition apply_tx (cmd : ExtractCommand) (assertions : list Assertion) : dbop (list Fact) :=
  let! (found, marked) := omap_err wrapFactError
    (with_text [xc_extractor cmd]
      (mark_stmt (xc_episodes cmd) (xc_scope cmd) (xc_extractor cmd)
         (Z.of_nat (length assertions)) (pg_ts (t_ns (xc_at cmd))))) in
  if found <? Z.of_nat (length (xc_episodes cmd)) then ofail (EWrap ErrNotFound) else
  (if 0 <? marked
   then applyRetractions (xc_scope cmd) (xc_at cmd) (xc_retract cmd) ;;;
        applyAssertions cmd assertions
   else oret tt) ;;;
  omap_err wrapFactError
    (on_schema (fun d => (d, Ok (facts_of_extraction (xc_scope cmd) (xc_extractor cmd)
                                   (xc_episodes cmd) d)))).

(** [Store.ApplyExtraction]: rolled back unless committed. *)
Definition ApplyExtraction (cmd : ExtractCommand) : dbop (list Fact) :=
  olift (ExtractCommand_Validate cmd) ;;;
  let! assertions := olift (dedupeAssertions (xc_assert cmd)) in
  atomically (apply_tx cmd assertions).

(** ** Reading *)

(** [valid @> t]. *)
Definition range_contains (r : FactRow) (t : Z) : bool :=
  (gr_from r <=? t) && match gr_to r with None => true | Some h => t <? h end.

(** The WHERE clause of [Facts]. *)
Definition facts_filter (q : FactQuery) (r : FactRow) : bool :=
  String.eqb (gr_scope r) (fq_scope q) && String.eqb (gr_extractor r) (fq_extractor q) &&
  (gr_asserted r <=? pg_ts (t_ns (fq_as_of q))) &&
  (if fq_include_closed q then gr_from r <=? pg_ts (t_ns (fq_at q))
   else range_contains r (pg_ts (t_ns (fq_at q)))) &&
  any_or_all (gr_subject r) (fq_subjects q) && any_or_all (gr_predicate r) (fq_predicates q) &&
  (negb (f_gtb (fq_min_confidence q) f_zero) || negb (f_ltb (gr_confidence r) (fq_min_confidence q))).

(** Its ORDER BY. *)
Definition facts_order (q : FactQuery) : FactRow -> FactRow -> comparison :=
  if String.eqb (TrimSpace (fq_text q)) "" then fact_order
  else cmp_lex (cmp_rev (cmp_on (fun r => pg_rank (fq_text q) (gr_statement r)) fcompare)) fact_order.

(** [Store.Facts]. *)
Definition Facts (q : FactQuery) : dbop (list Fact) :=
  olift (FactQuery_Validate q) ;;;
  olift (reject (IsZero (fq_as_of q)) (EWrap ErrInvalidConfig)) ;;;
  olift (reject (IsZero (fq_at q)) (EWrap ErrInvalidConfig)) ;;;
  let limit := if fq_limit q =? 0 then DefaultFactsLimit else fq_limit q in
  omap_err wrapFactError
    (with_text (if String.eqb (TrimSpace (fq_text q)) "" then [fq_extractor q]
                else [fq_extractor q; fq_text q])
      (on_schema (fun d =>
        (d, Ok (map scanFact (sql_limit limit (sort_func (facts_order q)
                  (List.filter (facts_filter q) (db_facts d)))))))) ).

(** [Store.Fact]. *)
Definition Fact_get (scope : ScopeID) (id : FactID) : dbop Fact :=
  olift (ScopeID_Validate scope) ;;;
  olift (reject (IsZeroID id) (EWrap ErrInvalidConfig)) ;;;
  let! facts := omap_err wrapFactError
    (on_schema (fun d =>
       (d, Ok (map scanFact (List.filter
                 (fun r => N.eqb (gr_id r) id && String.eqb (gr_scope r) scope) (db_facts d)))))) in
  match facts with
  | [] => ofail (EWrap ErrNotFound)
  | f :: _ => oret f
  end.

(** The checks [PendingExtractions] and [PendingEncodings] share. *)
Definition validate_pending (name scope : string) (after_seq limit : Z) : res unit :=
  reject (is_empty name) (EWrap ErrInvalidConfig) ;;?
  opt_scope_Validate scope ;;?
  reject (after_seq <? 0) (EWrap ErrInvalidConfig) ;;?
  reject ((0 <? after_seq) && is_empty scope) (EWrap ErrInvalidConfig) ;;?
  reject (limit <? 0) (EWrap ErrInvalidConfig).

(** The anti-join, over every scope or within one. *)
Definition pending_rows (scope : string) (after_seq limit : Z) (done : EpisodeRow -> bool) (d : Db)
    : list EpisodeRow :=
  if is_empty scope then
    sql_limit limit (sort_func (cmp_lex (cmp_on er_scope pg_collate) (cmp_on er_seq Z.compare))
      (List.filter (fun e => negb (done e)) (db_episodes d)))
  else
    sql_limit limit (sort_func (cmp_on er_seq Z.compare)
      (List.filter (fun e => String.eqb (er_scope e) scope && (after_seq <? er_seq e) && negb (done e))
         (db_episodes d))).

(** [Store.PendingExtractions]. *)
Definition PendingExtractions_get (q : PendingExtractions) : dbop (list EpisodeID) :=
  olift (validate_pending (px_extractor q) (px_scope q) (px_after_seq q) (px_limit q)) ;;;
  let limit := if px_limit q =? 0 then DefaultPendingExtractionsLimit else px_limit q in
  omap_err wrapFactError
    (with_text [px_extractor q]
      (on_schema (fun d =>
        (d, Ok (map er_id (pending_rows (px_scope q) (px_after_seq q) limit
                  (fun e => has_extraction d (er_id e) (px_extractor q)) d)))))).
End Facts.

(** ** Deduplication: what survives *)

Lemma same_claim_spec a b :
  same_claim a b = true <->
  a_subject a = a_subject b /\ a_predicate a = a_predicate b /\ a_object a = a_object b.
Proof. unfold same_claim. rewrite !andb_true_iff, !String.eqb_eq. tauto. Qed.

Lemma same_claim_refl a : same_claim a a = true.
Proof. by apply same_claim_spec. Qed.

Definition claims_disjoint (l : list Assertion) : Prop :=
  ForallOrdPairs (fun a b => same_claim b a = true -> Overlaps (a_valid a) (a_valid b) = false) l.

Lemma elem_of_windows a out v :
  v ∈ windows_of a out <-> exists b, b ∈ out /\ same_claim a b = true /\ a_valid b = v.
Proof. unfold windows_of. rewrite list_elem_of_fmap. setoid_rewrite elem_of_filter_b. naive_solver. Qed.

Lemma existsb_spec {A} (f : A -> bool) (l : list A) :
  existsb f l = true <-> exists x, x ∈ l /\ f x = true.
Proof. rewrite existsb_exists. by setoid_rewrite list_elem_of_In. Qed.

Lemma existsb_false {A} (f : A -> bool) (l : list A) :
  existsb f l = false <-> forall x, x ∈ l -> f x = false.
Proof.
  rewrite <- not_true_iff_false, existsb_spec. split.
  - intros H x Hx. apply not_true_iff_false. naive_solver.
  - intros H (x & Hx & Hf). rewrite H in Hf; done.
Qed.

Lemma ForallOrdPairs_snoc {A} (R : A -> A -> Prop) (l : list A) x :
  ForallOrdPairs R l -> (forall y, y ∈ l -> R y x) -> ForallOrdPairs R (l ++ [x]).
Proof.
  induction 1 as [|y l Hy Hl IH]; intros Hx; simpl; [repeat constructor|].
  constructor; [|apply IH; set_solver]. apply List.Forall_app. split; [done|].
  constructor; [|constructor]. apply Hx. by left.
Qed.

Lemma dedupe_loop_spec ins out res :
  claims_disjoint out -> dedupe_loop out ins = Ok res ->
  claims_disjoint res /\
  (exists kept, res = out ++ kept /\ sublist kept ins) /\
  (forall a, a ∈ ins -> exists b, b ∈ res /\ same_claim a b = true /\ a_valid b = a_valid a).
Proof.
  revert out. induction ins as [|a ins IH]; intros out Hout; simpl.
  { intros [= <-]. split; [done|]. split; [exists []; by rewrite app_nil_r|].
    by intros a ?%not_elem_of_nil. }
  unfold dedupe_one. destruct (existsb _ (windows_of a out)) eqn:Hdup; simpl.
  - intros H. destruct (IH out Hout H) as (? & (kept & -> & ?) & Hin). split; [done|].
    split; [exists kept; split; [done|by apply sublist_cons]|].
    intros b [-> | Hb]%elem_of_cons; [|by apply Hin].
    apply existsb_spec in Hdup as (v & Hv%elem_of_windows & Heq%bool_decide_eq_true).
    destruct Hv as (c & Hc & Hs & <-). exists c. split; [apply elem_of_app; by left|done].
  - destruct (existsb _ (windows_of a out)) eqn:Hov in |- *; simpl; [done|].
    intros H. assert (claims_disjoint (out ++ [a])) as Hout'.
    { apply ForallOrdPairs_snoc; [done|]. intros b Hb Hs. rewrite existsb_false in Hov.
      apply Hov. apply elem_of_windows. eauto. }
    destruct (IH _ Hout' H) as (? & (kept & -> & ?) & Hin). split; [done|].
    split; [exists (a :: kept); split; [by rewrite <- app_assoc|by apply sublist_skip]|].
    intros b [-> | Hb]%elem_of_cons; [|by apply Hin]. exists a.
    split; [|split; [apply same_claim_refl|done]]. apply elem_of_app. left. apply elem_of_app. right. by left.
Qed.

(** what [dedupeAssertions] returns is part of its input in the input's
    order, never the same claim over two overlapping windows, and leaves out
    nothing but repeats: every assertion of the input is there, or one with the
    same claim and window is. *)
Theorem dedupeAssertions_spec ins out :
  dedupeAssertions ins = Ok out ->
  sublist out ins /\
  ForallOrdPairs (fun a b => same_claim b a = true -> Overlaps (a_valid a) (a_valid b) = false) out /\
  (forall a, a ∈ ins -> exists b, b ∈ out /\ same_claim a b = true /\ a_valid b = a_valid a).
Proof.
  intros H. destruct (dedupe_loop_spec ins [] out) as (? & (kept & -> & ?) & ?);
    [constructor|exact H|done].
Qed.

(** ** Frames *)

Section Frame.
Context `{Sv : Server}.

(** The transaction's later statements leave L0 and the markers alone. *)
Definition same_log (d d' : Db) : Prop :=
  db_episodes d' = db_episodes d /\ db_extractions d' = db_extractions d /\
  db_ready d' = db_ready d.

#[export] Instance same_log_refl : Reflexive same_log.
Proof. by intros d. Qed.
#[export] Instance same_log_trans : Transitive same_log.
Proof. intros x y z (? & ? & ?) (? & ? & ?). split; [congruence|]. split; congruence. Qed.

(** A relation every write to the facts table keeps, the statements keep. *)
Section Writes.
Context (R : Db -> Db -> Prop) `{!Reflexive R} `{!Transitive R}.
Context (write_R : forall touched facts' mint d,
  (db_minted d <= mint)%nat -> R d (write_facts touched facts' mint d).1).

Lemma retract_stmt_keeps id scope at_ now : keeps R (retract_stmt id scope at_ now).
Proof using All.
  apply keeps_on_schema; [apply _|]. intros d. cbv zeta. unfold obind.
  match goal with |- context [write_facts ?t ?f ?m d] =>
    pose proof (write_R t f m d (le_n _)) as H; destruct (write_facts t f m d) as [d' [|]] end; exact H.
Qed.

Lemma reads_explainRetraction scope r : reads (explainRetraction scope r).
Proof using Type. apply reads_on_schema. Qed.

Lemma applyRetractions_keeps scope at_ l : keeps R (applyRetractions scope at_ l).
Proof using All.
  induction l as [|r l IH]; [by intros d|]. simpl. apply keeps_bind; [apply _..|apply retract_stmt_keeps|].
  intros n. apply keeps_bind; [apply _..| |done].
  destruct (0 <? n); apply (keeps_reads R); [done|apply reads_explainRetraction].
Qed.

Lemma assert_stmt_keeps scope extractor input eps at_ :
  keeps R (assert_stmt scope extractor input eps at_).
Proof using All. apply keeps_on_schema; [apply _|]. intros d. apply write_R. lia. Qed.

Lemma applyAssertions_keeps cmd l : keeps R (applyAssertions cmd l).
Proof using All.
  unfold applyAssertions. destruct l; [by intros d|].
  apply keeps_map_err, keeps_with_text; [apply _|apply assert_stmt_keeps].
Qed.
End Writes.

Definition write_part (cmd : ExtractCommand) (l : list Assertion) (marked : Z) : dbop unit :=
  if 0 <? marked
  then applyRetractions (xc_scope cmd) (xc_at cmd) (xc_retract cmd) ;;; applyAssertions cmd l
  else oret tt.

Lemma write_part_keeps (R : Db -> Db -> Prop) `{!Reflexive R} `{!Transitive R} cmd l marked :
  (forall touched facts' mint d, (db_minted d <= mint)%nat -> R d (write_facts touched facts' mint d).1) ->
  keeps R (write_part cmd l marked).
Proof.
  intros Hw. unfold write_part. destruct (0 <? marked); [|by intros d].
  apply keeps_bind; [apply _..|by apply applyRetractions_keeps|]. intros _. by apply applyAssertions_keeps.
Qed.

Lemma write_facts_log touched facts' mint d : same_log d (write_facts touched facts' mint d).1.
Proof. unfold write_facts. destruct (negb _); [done|]. by destruct (negb _). Qed.

Lemma applyRetractions_log scope at_ l : keeps same_log (applyRetractions scope at_ l).
Proof. apply applyRetractions_keeps; [apply _..|]. intros. apply write_facts_log. Qed.

Lemma write_part_log cmd l marked : keeps same_log (write_part cmd l marked).
Proof. apply write_part_keeps; [apply _..|]. intros. apply write_facts_log. Qed.

(** L0, its catalogue and the jobs: what an extraction leaves alone. *)
Definition same_base (d d' : Db) : Prop :=
  db_episodes d' = db_episodes d /\ db_scopes d' = db_scopes d /\ db_jobs d' = db_jobs d /\
  db_dims d' = db_dims d /\ db_ready d' = db_ready d /\ (db_minted d <= db_minted d')%nat.

#[export] Instance same_base_refl : Reflexive same_base.
Proof. by intros d. Qed.
#[export] Instance same_base_trans : Transitive same_base.
Proof.
  intros x y z (? & ? & ? & ? & ? & ?) (? & ? & ? & ? & ? & ?).
  split_and!; [congruence..|lia].
Qed.

Lemma mark_stmt_base eps scope extractor count at_ :
  keeps same_base (mark_stmt eps scope extractor count at_).
Proof. apply keeps_on_schema; [apply _|]. intros d. cbv zeta. by destruct (negb _). Qed.

Lemma write_facts_base touched facts' mint d :
  (db_minted d <= mint)%nat -> same_base d (write_facts touched facts' mint d).1.
Proof. intros Hm. unfold write_facts. destruct (negb _); [done|]. by destruct (negb _). Qed.

Lemma ApplyExtraction_base cmd : keeps same_base (ApplyExtraction cmd).
Proof.
  unfold ApplyExtraction. apply keeps_guard; [apply _|done|]. intros _.
  apply keeps_guard; [apply _|done|]. intros l. apply keeps_atomically; [apply _|]. unfold apply_tx.
  apply keeps_bind; [apply _..|apply keeps_map_err, keeps_with_text, mark_stmt_base; apply _|].
  intros [found marked]. destruct (_ <? _); [by intros d|].
  apply keeps_bind; [apply _..|apply (write_part_keeps same_base cmd l marked write_facts_base)|].
  intros _. apply keeps_reads; [apply _|]. apply reads_map_err, reads_on_schema.
Qed.

(** The markers and the encodings: none is lost. *)
Definition marks_grow (d d' : Db) : Prop :=
  db_encodings d' = db_encodings d /\
  map extraction_key (db_extractions d) ⊆ map extraction_key (db_extractions d').

#[export] Instance marks_grow_refl : Reflexive marks_grow.
Proof. by intros d. Qed.
#[export] Instance marks_grow_trans : Transitive marks_grow.
Proof. intros x y z (? & ?) (? & ?). split; [congruence|set_solver]. Qed.

Lemma mark_stmt_grows eps scope extractor count at_ :
  keeps marks_grow (mark_stmt eps scope extractor count at_).
Proof.
  apply keeps_on_schema; [apply _|]. intros d. cbv zeta. destruct (negb _); [done|]. split; [done|].
  cbn. rewrite map_app. set_solver.
Qed.

Lemma write_facts_grows touched facts' mint d : marks_grow d (write_facts touched facts' mint d).1.
Proof. unfold write_facts. destruct (negb _); [done|]. by destruct (negb _). Qed.

Lemma ApplyExtraction_grows cmd : keeps marks_grow (ApplyExtraction cmd).
Proof.
  unfold ApplyExtraction. apply keeps_guard; [apply _|done|]. intros _.
  apply keeps_guard; [apply _|done|]. intros l. apply keeps_atomically; [apply _|]. unfold apply_tx.
  apply keeps_bind; [apply _..|apply keeps_map_err, keeps_with_text, mark_stmt_grows; apply _|].
  intros [found marked]. destruct (_ <? _); [by intros d|].
  apply keeps_bind; [apply _..|apply (write_part_keeps marks_grow cmd l marked)|].
  - intros ? ? ? ? _. apply write_facts_grows.
  - intros _. apply keeps_reads; [apply _|]. apply reads_map_err, reads_on_schema.
Qed.

(** ** Replays *)

Lemma mark_twice eps scope extractor count at_ d d1 found marked :
  mark_stmt eps scope extractor count at_ d = (d1, Ok (found, marked)) ->
  forall d2, db_ready d2 = true -> db_episodes d2 = db_episodes d1 -> db_extractions d2 = db_extractions d1 ->
  mark_stmt eps scope extractor count at_ d2 = (d2, Ok (found, 0)).
Proof.
  unfold mark_stmt, on_schema. destruct (db_ready d) eqn:Hr; [|done].
  destruct (negb (forallb extraction_checks _)) eqn:Hc; [done|]. intros [= <- <- <-] d2 Hr2 He Hx.
  simpl in He, Hx. rewrite Hr2. unfold found_rows in *. rewrite He, Hc.
  set (found := List.filter _ (db_episodes d)).
  assert (List.filter (fun x => negb (has_extraction d2 (xt_episode x) extractor))
            (map (marker extractor count at_) found) = []) as ->.
  { apply filter_none. intros x (r & -> & Hrin)%list_elem_of_fmap. simpl.
    apply negb_false_iff, bool_decide_eq_true. rewrite Hx, map_app. apply elem_of_app.
    destruct (has_extraction d (er_id r) extractor) eqn:Hh.
    - left. by apply bool_decide_eq_true in Hh.
    - right. apply list_elem_of_fmap. exists (marker extractor count at_ r). split; [done|].
      apply elem_of_filter_b. split; [by apply list_elem_of_fmap_2|]. simpl. by rewrite Hh. }
  rewrite app_nil_r. by destruct d2.
Qed.

Lemma mark_episodes eps scope extractor count at_ d d1 r :
  mark_stmt eps scope extractor count at_ d = (d1, Ok r) ->
  db_ready d1 = true /\ db_episodes d1 = db_episodes d /\ db_facts d1 = db_facts d.
Proof.
  unfold mark_stmt, on_schema. destruct (db_ready d) eqn:Hr; [|done].
  destruct (negb _); [done|]. intros [= <- _]. done.
Qed.

(** C28: an extraction is applied once. After [ApplyExtraction] has succeeded,
    the same command applied again, as a reclaimed job would, changes nothing in
    the database and returns the same facts. *)
Theorem ApplyExtraction_idempotent cmd d d1 facts :
  ApplyExtraction cmd d = (d1, Ok facts) -> ApplyExtraction cmd d1 = (d1, Ok facts).
Proof.
  unfold ApplyExtraction. rewrite !obind_olift.
  destruct (ExtractCommand_Validate cmd) as [[]|]; [|done]. cbv beta iota. rewrite ?obind_olift.
  destruct (dedupeAssertions (xc_assert cmd)) as [l|]; [|done].
  rewrite !atomically_Ok. unfold apply_tx. fold (write_part cmd l). rewrite obind_Ok.
  intros (d0 & [found marked] & Hmark & H).
  assert (exists d2, mark_stmt (xc_episodes cmd) (xc_scope cmd) (xc_extractor cmd)
    (Z.of_nat (length l)) (pg_ts (t_ns (xc_at cmd))) d = (d2, Ok (found, marked)) /\ d2 = d0 /\
    forallb pg_text [xc_extractor cmd] = true) as (? & Hmark' & -> & Ht).
  { unfold omap_err, with_text in Hmark. destruct (forallb pg_text _); [|done].
    destruct (mark_stmt _ _ _ _ _ d) as [d2 [r|]]; [|done]. injection Hmark as <- ->. eauto. }
  destruct (found <? _) eqn:Hfound; [done|]. rewrite obind_Ok in H.
  destruct H as (d3 & [] & Hw & Hread). fold (write_part cmd l marked) in Hw.
  destruct (mark_episodes _ _ _ _ _ _ _ _ Hmark') as (Hr0 & _ & _).
  pose proof (write_part_log cmd l marked d0) as (He & Hx & Hr). rewrite Hw in He, Hx, Hr. simpl in He, Hx, Hr.
  assert (d3 = d1 /\ facts = facts_of_extraction (xc_scope cmd) (xc_extractor cmd) (xc_episodes cmd) d1)
    as [-> ->].
  { unfold omap_err, on_schema in Hread. rewrite Hr, Hr0 in Hread. injection Hread as -> <-. done. }
  unfold obind, omap_err, with_text. rewrite Ht.
  rewrite (mark_twice _ _ _ _ _ _ _ _ _ Hmark' d1); [|congruence|done|done].
  rewrite Hfound. change (0 <? 0) with false. unfold oret, on_schema. cbv beta iota.
  by rewrite Hr, Hr0.
Qed.
End Frame.
