(* ===== verification/FactWriting.v ===== *)
(** * What an extraction writes ([postgres/fact.go])

    [PgFact.ApplyExtraction] against the invariant of the schema: what its
    statements write, what a retraction closes, and that it is applied whole or
    not at all. *)

From S2P Require Import Types Windows Validate OpsTypes Server Db PgQueue Queueing PgEpisode Appending Replaying PgFact.

#[local] Open Scope Z_scope.

(** ** The invariant *)

Section FactsOk.
Context `{Sv : Server} `{!ServerLaws Sv}.

Lemma no_clash_spec l :
  no_clash l = true <-> ForallOrdPairs (fun r r' => facts_clash r r' = false) l.
Proof.
  induction l as [|r l IH]; simpl; [split; [constructor|done]|].
  rewrite andb_true_iff, IH, forallb_forall. setoid_rewrite negb_true_iff. split.
  - intros [Hr Hl]. constructor; [|done]. by apply List.Forall_forall.
  - intros H. inversion H; subst. split; [|done]. by apply List.Forall_forall.
Qed.

(** Every named episode is in the log, in that scope. *)
Definition in_log (eps : list N) (scope : string) (d : Db) : Prop :=
  Forall (fun id => exists e, e ∈ db_episodes d /\ er_id e = id /\ er_scope e = scope) eps.

(** The facts a statement may leave: known rows changed in place, new ones
    minted, supported by the log. *)
Definition fact_row_ok (d : Db) (mint : nat) (r : FactRow) : Prop :=
  (exists k, (k < mint)%nat /\ gr_id r = uuidv7 k) /\ in_log (gr_episodes r) (gr_scope r) d.

Lemma write_facts_ok d d' touched facts' mint :
  db_ok d -> (db_minted d <= mint)%nat -> NoDup (map gr_id facts') ->
  (forall r, r ∈ facts' -> (r ∈ touched \/ r ∈ db_facts d) /\ fact_row_ok d mint r) ->
  write_facts touched facts' mint d = (d', Ok tt) -> db_ok d'.
Proof.
  intros [Hsc [Hi Hs Hr] Hn Hj [Hid Hkey Hrows] Hx] Hm Hnd Hall. unfold write_facts.
  destruct (forallb fact_checks touched) eqn:Hc; [|done].
  destruct (no_clash facts') eqn:Hcl; [|done]. intros [= <-].
  split; [by apply (scopes_ok_mono d)| |by apply (encodings_ok_mono d)| | |by apply (extractions_ok_mono d)].
  - split; [done|done|]. eapply Forall_impl; [exact Hr|]. intros r (? & ? & ?). split; [done|].
    split; [|done]. by eapply minted_mono.
  - by apply (jobs_ok_mono d).
  - split; simpl; [done|by apply no_clash_spec|]. apply Forall_forall. intros r Hrin.
    destruct (Hall r Hrin) as [Hwhere [Hmint Hlog]]. split; [|split; [exact Hmint|exact Hlog]].
    destruct Hwhere as [Ht|Ho].
    + rewrite forallb_forall in Hc. apply Hc. by apply list_elem_of_In.
    + rewrite Forall_forall in Hrows. by apply Hrows.
Qed.

Lemma db_fact_row d r : db_ok d -> r ∈ db_facts d -> fact_row_ok d (db_minted d) r.
Proof.
  intros [_ _ _ _ [_ _ Hrows] _] Hr. rewrite Forall_forall in Hrows.
  destruct (Hrows r Hr) as (_ & Hm & Hl). done.
Qed.

Lemma retract_stmt_ok id scope at_ now d d' n :
  db_ok d -> retract_stmt id scope at_ now d = (d', Ok n) -> db_ok d'.
Proof.
  intros Hok. unfold retract_stmt, on_schema. destruct (db_ready d); [|done]. cbv zeta.
  rewrite obind_Ok. intros (d1 & [] & Hw & [= <- _]). eapply write_facts_ok; [exact Hok|done| | |exact Hw].
  - rewrite map_map. erewrite map_ext; [apply (fo_ids d (ok_facts d Hok))|].
    intros r. by destruct (retractable _ _ _ r).
  - intros r (r0 & -> & Hr0)%list_elem_of_fmap. pose proof (db_fact_row d r0 Hok Hr0) as [Hm Hl].
    destruct (retractable id scope at_ r0) eqn:Hp; [|split; [by right|done]].
    split; [|done]. left. apply list_elem_of_fmap_2, elem_of_filter_b. done.
Qed.

Lemma applyRetractions_ok scope at_ l d d' u :
  db_ok d -> applyRetractions scope at_ l d = (d', Ok u) -> db_ok d'.
Proof.
  revert d. induction l as [|r l IH]; intros d Hok; simpl; [by intros [= <-]|].
  rewrite obind_Ok. intros (d1 & n & Hret & H). rewrite obind_Ok in H. destruct H as (d2 & [] & He & H).
  pose proof (retract_stmt_ok _ _ _ _ _ _ _ Hok Hret) as Hok1.
  assert (d2 = d1) as ->.
  { destruct (0 <? n); [by injection He as <-|].
    pose proof (reads_explainRetraction scope r d1) as Hread. by rewrite He in Hread. }
  by apply (IH d1).
Qed.

Lemma elem_of_merge old new id : id ∈ merge_episodes old new <-> id ∈ old \/ id ∈ new.
Proof. unfold merge_episodes, sort_func. by rewrite elem_of_sort_by, elem_of_remove_dups, elem_of_app. Qed.

Lemma length_new_facts scope extractor eps at_ mint l :
  length (new_facts scope extractor eps at_ mint l) = length l.
Proof. revert mint. induction l; intros; simpl; auto. Qed.

Lemma elem_of_new_facts scope extractor eps at_ mint l r :
  r ∈ new_facts scope extractor eps at_ mint l <->
  exists i a, l !! i = Some a /\ r = new_fact scope extractor eps at_ (uuidv7 (mint + i)) a.
Proof.
  revert mint. induction l as [|a l IH]; intros mint; simpl.
  { split; [by intros ?%not_elem_of_nil|]. by intros (i & a & ? & _). }
  rewrite elem_of_cons, IH. split.
  - intros [-> |(i & b & Hb & ->)].
    + exists 0%nat, a. by rewrite Nat.add_0_r.
    + exists (S i), b. split; [done|]. by rewrite Nat.add_succ_r.
  - intros ([|i] & b & Hb & ->); [left; injection Hb as ->; by rewrite Nat.add_0_r|].
    right. exists i, b. split; [done|]. by rewrite Nat.add_succ_r.
Qed.

Lemma new_facts_ids scope extractor eps at_ mint l :
  NoDup (map gr_id (new_facts scope extractor eps at_ mint l)).
Proof.
  revert mint. induction l as [|a l IH]; intros mint; simpl; [constructor|]. constructor; [|apply IH].
  intros (r & Hid & (i & b & _ & ->)%elem_of_new_facts)%list_elem_of_fmap.
  simpl in Hid. apply uuidv7_inj in Hid. lia.
Qed.

Lemma assert_stmt_ok scope extractor input eps at_ d d' u :
  db_ok d -> in_log eps scope d ->
  assert_stmt scope extractor input eps at_ d = (d', Ok u) -> db_ok d'.
Proof.
  intros Hok Hlog. unfold assert_stmt, on_schema. destruct (db_ready d); [|done]. cbv zeta.
  set (refresh := refreshed scope extractor input eps at_).
  set (inserts := List.filter _ input). set (rows := new_facts _ _ _ _ _ inserts).
  assert (forall r, gr_id (default r (refresh r)) = gr_id r) as Hrid.
  { intros r. unfold refresh, refreshed. by destruct (List.find _ input). }
  destruct u. intros Hw. eapply write_facts_ok; [exact Hok| | | |exact Hw]; [lia| |].
  - rewrite map_app, map_map. erewrite map_ext; [|exact Hrid].
    apply NoDup_app_fresh; [apply (fo_ids d (ok_facts d Hok))|apply new_facts_ids|].
    intros x (r & -> & Hr)%list_elem_of_fmap (r' & Hx & (i & a & _ & ->)%elem_of_new_facts)%list_elem_of_fmap.
    destruct (db_fact_row d r Hok Hr) as [(k & Hk & Hid) _]. simpl in Hx.
    rewrite Hid in Hx. apply uuidv7_inj in Hx. lia.
  - intros r [(r0 & -> & Hr0)%list_elem_of_fmap|Hr]%elem_of_app.
    + destruct (db_fact_row d r0 Hok Hr0) as [(k & Hk & Hid) Hl].
      assert (exists k', (k' < db_minted d + length rows)%nat /\ gr_id (default r0 (refresh r0)) = uuidv7 k')
        as Hm by (exists k; split; [lia|by rewrite Hrid]).
      destruct (refresh r0) as [r1|] eqn:Href;
        [change (default r0 (Some r1)) with r1 in *|change (default r0 None) with r0 in *].
      * split; [left; apply elem_of_app; left; apply list_elem_of_omap; by exists r0|]. split; [done|].
        unfold refresh, refreshed in Href. destruct (List.find _ input) as [a|] eqn:Hf; [|done].
        injection Href as <-. apply find_elem in Hf as [_ Hm']. unfold matches in Hm'.
        rewrite !andb_true_iff, !String.eqb_eq in Hm'. destruct Hm' as ((((((Hsc & _) & _) & _) & _) & _) & _).
        unfold in_log in *. simpl. rewrite Forall_forall in Hl, Hlog |- *.
        intros id [Hi|Hi]%elem_of_merge; [by apply Hl|]. rewrite Hsc. by apply Hlog.
      * split; [by right|]. split; [exact Hm|exact Hl].
    + split; [left; apply elem_of_app; by right|].
      apply elem_of_new_facts in Hr as (i & a & Hi & ->). split; [|exact Hlog].
      exists (db_minted d + i)%nat. split; [|done].
      unfold rows. rewrite length_new_facts. apply lookup_lt_Some in Hi. lia.
Qed.

(** *** Markers *)

Lemma elem_of_found eps scope d r :
  r ∈ found_rows eps scope d <-> r ∈ db_episodes d /\ er_id r ∈ eps /\ er_scope r = scope.
Proof.
  unfold found_rows. by rewrite elem_of_filter_b, andb_true_iff, bool_decide_eq_true, String.eqb_eq.
Qed.

(** As many rows as names: every name has its row. *)
Lemma found_all eps scope d :
  db_ok d -> (length eps <= length (found_rows eps scope d))%nat -> in_log eps scope d.
Proof.
  intros Hok Hlen. set (found := found_rows eps scope d) in *.
  assert (NoDup (map er_id found)) as Hnd by (apply NoDup_map_filter, (eo_ids d (ok_episodes d Hok))).
  assert (map er_id found ⊆+ eps) as Hsub.
  { apply NoDup_submseteq; [done|]. intros id (r & -> & Hr)%list_elem_of_fmap.
    by apply elem_of_found in Hr as (_ & ? & _). }
  apply submseteq_length_Permutation in Hsub; [|by rewrite length_map].
  unfold in_log. rewrite Forall_forall. intros id Hid. rewrite <- Hsub in Hid.
  apply list_elem_of_fmap in Hid as (r & -> & Hr). apply elem_of_found in Hr as (? & _ & ?). eauto.
Qed.

Lemma mark_stmt_ok eps scope extractor count at_ d d' found marked :
  db_ok d -> mark_stmt eps scope extractor count at_ d = (d', Ok (found, marked)) ->
  db_ok d' /\ found = Z.of_nat (length (found_rows eps scope d)) /\
  (Z.of_nat (length eps) <= found -> in_log eps scope d' /\
     forall id, id ∈ eps -> has_extraction d' id extractor = true).
Proof.
  intros Hok. unfold mark_stmt, on_schema. destruct (db_ready d); [|done]. cbv zeta.
  set (rows := map _ (found_rows eps scope d)).
  set (fresh := List.filter (fun x => negb (has_extraction d (xt_episode x) extractor)) rows).
  destruct (forallb extraction_checks rows) eqn:Hc; [|done]. intros [= <- <- _].
  assert (NoDup (map xt_episode rows)) as Hnd.
  { unfold rows. rewrite map_map. apply (NoDup_map_filter er_id), (eo_ids d (ok_episodes d Hok)). }
  split; [|split; [done|]].
  - pose proof Hok as [? [? ? Hr] ? ? ? [Hk Hx]].
    split; [by apply (scopes_ok_mono d)| |by apply (encodings_ok_mono d)|by apply (jobs_ok_mono d)|
            by apply (facts_ok_mono d)|].
    { split; [done|done|]. eapply Forall_impl; [exact Hr|]. done. }
    split; simpl.
    + rewrite map_app. apply NoDup_app_fresh; [done| |].
      * apply NoDup_map_filter. apply (NoDup_fmap_1 fst). 
        erewrite <- list_fmap_compose. exact Hnd.
      * intros k Hin (x & -> & [Hxin Hneg]%elem_of_filter_b)%list_elem_of_fmap.
        apply negb_true_iff, bool_decide_eq_false in Hneg. apply Hneg.
        replace extractor with (xt_extractor x); [done|].
        apply list_elem_of_fmap in Hxin as (r & -> & _). done.
    + apply Forall_app. split; [eapply Forall_impl; [exact Hx|]; done|].
      apply Forall_forall. intros x [Hxin _]%elem_of_filter_b. split.
      * rewrite forallb_forall in Hc. apply Hc. by apply list_elem_of_In.
      * apply list_elem_of_fmap in Hxin as (r & -> & Hrin).
        apply elem_of_found in Hrin as (Hrin & _ & _). exists r. done.
  - intros Hle. assert (in_log eps scope d) as Hlog by (apply found_all; [done|lia]).
    split; [exact Hlog|]. intros id Hid. unfold in_log in Hlog. rewrite Forall_forall in Hlog.
    destruct (Hlog id Hid) as (e & He & <- & Hes). apply bool_decide_eq_true. simpl.
    rewrite map_app. apply elem_of_app. destruct (has_extraction d (er_id e) extractor) eqn:Hh.
    + left. by apply bool_decide_eq_true in Hh.
    + right. apply list_elem_of_fmap. exists (marker extractor count at_ e). split; [done|].
      apply elem_of_filter_b. split; [|simpl; by rewrite Hh]. apply list_elem_of_fmap_2.
      by apply elem_of_found.
Qed.

Lemma applyAssertions_ok cmd l d d' u :
  db_ok d -> in_log (xc_episodes cmd) (xc_scope cmd) d ->
  applyAssertions cmd l d = (d', Ok u) -> db_ok d'.
Proof.
  intros Hok Hlog. unfold applyAssertions. destruct l as [|a l]; [by intros [= <-]|].
  unfold omap_err, with_text. destruct (forallb pg_text _); [|done].
  destruct (assert_stmt _ _ _ _ _ d) as [d1 [u1|]] eqn:Ha; [|done]. intros [= <- _].
  by eapply assert_stmt_ok.
Qed.

(** The transaction, when it commits: what its parts did. *)
Lemma apply_tx_run cmd l d d' facts :
  db_ok d -> apply_tx cmd l d = (d', Ok facts) ->
  exists d0 marked,
    mark_stmt (xc_episodes cmd) (xc_scope cmd) (xc_extractor cmd) (Z.of_nat (length l))
      (pg_ts (t_ns (xc_at cmd))) d = (d0, Ok (Z.of_nat (length (found_rows (xc_episodes cmd) (xc_scope cmd) d)), marked)) /\
    db_ok d0 /\ in_log (xc_episodes cmd) (xc_scope cmd) d0 /\
    (forall id, id ∈ xc_episodes cmd -> has_extraction d0 id (xc_extractor cmd) = true) /\
    write_part cmd l marked d0 = (d', Ok tt) /\ db_ok d' /\
    facts = facts_of_extraction (xc_scope cmd) (xc_extractor cmd) (xc_episodes cmd) d'.
Proof.
  intros Hok. unfold apply_tx. rewrite obind_Ok. intros (d0 & [found marked] & Hmark & H).
  unfold omap_err, with_text in Hmark. destruct (forallb pg_text _); [|done].
  destruct (mark_stmt _ _ _ _ _ d) as [d0' [r|]] eqn:Hm; [|done]. injection Hmark as -> ->.
  destruct (mark_stmt_ok _ _ _ _ _ _ _ _ _ Hok Hm) as (Hok0 & -> & Hlog).
  destruct (_ <? _) eqn:Hf in H; [done|]. apply Z.ltb_ge in Hf. destruct (Hlog Hf) as [Hl Hmk].
  rewrite obind_Ok in H. destruct H as (d1 & [] & Hw & Hread). fold (write_part cmd l marked) in Hw.
  exists d0, marked. split; [done|]. split; [done|]. split; [done|]. split; [done|].
  assert (d1 = d' /\ facts = facts_of_extraction (xc_scope cmd) (xc_extractor cmd) (xc_episodes cmd) d')
    as [-> ->].
  { unfold omap_err, on_schema in Hread. destruct (db_ready d1); [|done]. injection Hread as -> <-. done. }
  split; [done|]. split; [|done]. unfold write_part in Hw.
  destruct (0 <? marked); [|by injection Hw as <-]. rewrite obind_Ok in Hw.
  destruct Hw as (d2 & [] & Hr & Ha). pose proof (applyRetractions_ok _ _ _ _ _ _ Hok0 Hr) as Hok2.
  eapply applyAssertions_ok; [exact Hok2| |exact Ha].
  pose proof (applyRetractions_log (xc_scope cmd) (xc_at cmd) (xc_retract cmd) d0) as (He & _ & _).
  rewrite Hr in He. simpl in He. unfold in_log in *. by rewrite He.
Qed.

Lemma ApplyExtraction_outcome cmd d :
  db_ok d ->
  match ApplyExtraction cmd d with
  | (d', Ok _) =>
      db_ok d' /\ db_episodes d' = db_episodes d /\
      forall id, id ∈ xc_episodes cmd -> has_extraction d' id (xc_extractor cmd) = true
  | (d', Err _) => d' = d
  end.
Proof.
  intros Hok. unfold ApplyExtraction. rewrite obind_olift.
  destruct (ExtractCommand_Validate cmd) as [[]|]; [|done]. cbv beta iota. rewrite obind_olift.
  destruct (dedupeAssertions (xc_assert cmd)) as [l|]; [|done].
  destruct (atomically (apply_tx cmd l) d) as [d' [facts|e]] eqn:H; [|by apply atomically_Err in H].
  rewrite atomically_Ok in H.
  destruct (apply_tx_run cmd l d d' facts Hok H) as (d0 & marked & Hm & _ & _ & Hmk & Hw & Hok' & _).
  pose proof (write_part_log cmd l marked d0) as (He & Hx & _). rewrite Hw in He, Hx. simpl in He, Hx.
  destruct (mark_episodes _ _ _ _ _ _ _ _ Hm) as (_ & He0 & _).
  split; [done|]. split; [congruence|]. intros id Hid. specialize (Hmk id Hid).
  unfold has_extraction in *. by rewrite Hx.
Qed.

Lemma ApplyExtraction_marked cmd d d' facts :
  db_ok d -> ApplyExtraction cmd d = (d', Ok facts) ->
  forall id, id ∈ xc_episodes cmd -> has_extraction d' id (xc_extractor cmd) = true.
Proof.
  intros Hok H. pose proof (ApplyExtraction_outcome cmd d Hok) as Hout. rewrite H in Hout.
  by destruct Hout as (_ & _ & Hmk).
Qed.

(** an extraction is recorded whole or not at all. On any error, a missing
    episode, a failed retraction, a conflict with what is believed already, the
    database is as it was. On success every invariant of the schema holds again,
    in particular no claim is believed over two overlapping windows and every
    fact rests on episodes of its own scope, and every episode of the command is
    marked as read by its extractor. *)
Theorem ApplyExtraction_atomic cmd d :
  db_ok d ->
  match ApplyExtraction cmd d with
  | (d', Ok _) =>
      db_ok d' /\ db_episodes d' = db_episodes d /\
      forall id, id ∈ xc_episodes cmd -> has_extraction d' id (xc_extractor cmd) = true
  | (d', Err _) => d' = d
  end.
Proof. apply ApplyExtraction_outcome. Qed.
End FactsOk.

(** ** What is written *)

Section Written.
Context `{Sv : Server} `{!ServerLaws Sv}.

Lemma matches_spec scope extractor r a :
  matches scope extractor r a = true <->
  gr_scope r = scope /\ gr_extractor r = extractor /\ gr_subject r = a_subject a /\
  gr_predicate r = a_predicate a /\ gr_object r = a_object a /\
  gr_from r = lower_of a /\ gr_to r = upper_of a.
Proof. unfold matches. rewrite !andb_true_iff, !String.eqb_eq, !bool_decide_eq_true. tauto. Qed.

(** The row an assertion asks for. *)
Definition records (scope extractor : string) (episodes : list N) (at_ : Z) (a : Assertion)
    (r : FactRow) : Prop :=
  matches scope extractor r a = true /\ gr_statement r = a_statement a /\
  gr_confidence r = a_confidence a /\ (forall id, id ∈ episodes -> id ∈ gr_episodes r) /\
  gr_updated r = at_.

Lemma assert_stmt_records scope extractor input eps at_ d d' u a :
  assert_stmt scope extractor input eps at_ d = (d', Ok u) -> a ∈ input ->
  (forall b, b ∈ input -> same_claim a b = true -> b = a) ->
  exists r, r ∈ db_facts d' /\ records scope extractor eps at_ a r.
Proof.
  unfold assert_stmt, on_schema. destruct (db_ready d); [|done]. cbv zeta.
  unfold write_facts. destruct (negb _); [done|]. destruct (negb _); [done|].
  intros [= <- _] Ha Hone. simpl.
  destruct (existsb (fun r => matches scope extractor r a) (db_facts d)) eqn:Hex.
  - apply existsb_spec in Hex as (r & Hr & Hm).
    assert (refreshed scope extractor input eps at_ r = Some (refresh_row eps at_ r a)) as Href.
    { unfold refreshed. destruct (List.find _ input) as [b|] eqn:Hf.
      - apply find_elem in Hf as [Hb Hmb]. do 2 f_equal. apply Hone; [done|].
        apply matches_spec in Hm as (_ & _ & Hs & Hp & Ho & _).
        apply matches_spec in Hmb as (_ & _ & Hs' & Hp' & Ho' & _).
        apply same_claim_spec. split; [congruence|split; congruence].
      - eapply find_absent in Hf; [|exact Ha]. congruence. }
    exists (refresh_row eps at_ r a). split.
    + apply elem_of_app. left. apply list_elem_of_fmap. exists r. by rewrite Href.
    + split; [exact Hm|]. do 2 (split; [done|]). split; [|done]. intros id Hid.
      apply elem_of_merge. by right.
  - rewrite existsb_false in Hex.
    assert (claim_updated (omap (refreshed scope extractor input eps at_) (db_facts d)) a = false) as Hnu.
    { apply existsb_false. intros r' (r & Hr & Href)%list_elem_of_omap.
      unfold refreshed in Href. destruct (List.find _ input) as [b|] eqn:Hf; [|done].
      injection Href as <-. apply find_elem in Hf as [Hb Hmb]. simpl.
      apply not_true_iff_false. rewrite !andb_true_iff, !String.eqb_eq. intros [[Hs Hp] Ho].
      apply matches_spec in Hmb as (H1 & H2 & Hs' & Hp' & Ho' & Hl & Hu).
      assert (b = a) as ->.
      { apply Hone; [done|]. apply same_claim_spec. split; [congruence|split; congruence]. }
      specialize (Hex r Hr). apply not_true_iff_false in Hex. apply Hex. by apply matches_spec. }
    assert (a ∈ List.filter (fun a => negb (claim_updated
      (omap (refreshed scope extractor input eps at_) (db_facts d)) a)) input) as Hin.
    { apply elem_of_filter_b. by rewrite Hnu. }
    apply list_elem_of_lookup in Hin as [i Hi].
    exists (new_fact scope extractor eps at_ (uuidv7 (db_minted d + i)) a). split.
    + apply elem_of_app. right. apply elem_of_new_facts. eauto.
    + split; [by apply matches_spec|done].
Qed.

Lemma mark_marked eps scope extractor count at_ d d' found marked id :
  mark_stmt eps scope extractor count at_ d = (d', Ok (found, marked)) ->
  in_log eps scope d -> id ∈ eps -> has_extraction d id extractor = false -> 0 < marked.
Proof.
  unfold mark_stmt, on_schema. destruct (db_ready d); [|done]. destruct (negb _); [done|].
  intros [= _ _ <-] Hlog Hid Hh. unfold in_log in Hlog. rewrite Forall_forall in Hlog.
  destruct (Hlog id Hid) as (e & He & <- & Hes).
  assert (marker extractor count at_ e ∈ List.filter
    (fun x => negb (has_extraction d (xt_episode x) extractor))
    (map (marker extractor count at_) (found_rows eps scope d))) as Hin.
  { apply elem_of_filter_b. split; [|simpl; by rewrite Hh]. apply list_elem_of_fmap_2.
    by apply elem_of_found. }
  destruct (List.filter _ _); [by apply not_elem_of_nil in Hin|simpl; lia].
Qed.

(** an extraction some of whose episodes were unread records its claims.
    Every deduplicated assertion that is the only one of its claim in the command
    is afterwards a row with exactly its identity, window, statement and
    confidence, supported by every episode of the command, and is among the facts
    returned. *)
Theorem ApplyExtraction_records cmd l a id d d' facts :
  db_ok d -> ApplyExtraction cmd d = (d', Ok facts) ->
  id ∈ xc_episodes cmd -> has_extraction d id (xc_extractor cmd) = false ->
  dedupeAssertions (xc_assert cmd) = Ok l -> a ∈ l ->
  (forall b, b ∈ l -> same_claim a b = true -> b = a) ->
  exists r, r ∈ db_facts d' /\
    records (xc_scope cmd) (xc_extractor cmd) (xc_episodes cmd) (pg_ts (t_ns (xc_at cmd))) a r /\
    scanFact r ∈ facts.
Proof.
  intros Hok Happ Hid Hunread Hd Ha Hone. unfold ApplyExtraction in Happ. rewrite obind_olift in Happ.
  destruct (ExtractCommand_Validate cmd) as [[]|]; [|done]. rewrite obind_olift, Hd in Happ.
  rewrite atomically_Ok in Happ.
  destruct (apply_tx_run cmd l d d' facts Hok Happ) as (d0 & marked & Hm & _ & Hlog0 & _ & Hw & _ & ->).
  destruct (mark_episodes _ _ _ _ _ _ _ _ Hm) as (_ & He0 & _).
  assert (in_log (xc_episodes cmd) (xc_scope cmd) d) as Hlog by (unfold in_log in *; by rewrite He0 in Hlog0).
  pose proof (mark_marked _ _ _ _ _ _ _ _ _ _ Hm Hlog Hid Hunread) as Hpos.
  unfold write_part in Hw. rewrite (proj2 (Z.ltb_lt 0 marked) Hpos) in Hw. rewrite obind_Ok in Hw.
  destruct Hw as (d2 & [] & _ & Hw). unfold applyAssertions in Hw.
  destruct l as [|a0 l]; [by apply not_elem_of_nil in Ha|].
  unfold omap_err, with_text in Hw. destruct (forallb pg_text _); [|done].
  destruct (assert_stmt _ _ _ _ _ d2) as [d3 [u|]] eqn:Hs; [|done]. injection Hw as ->.
  destruct (assert_stmt_records _ _ _ _ _ _ _ _ _ Hs Ha Hone) as (r & Hr & Hrec).
  exists r. split; [done|]. split; [done|]. destruct Hrec as (Hmt & _ & _ & Hep & _).
  apply matches_spec in Hmt as (Hsc & Hex & _).
  unfold facts_of_extraction, sort_func. apply list_elem_of_fmap_2, elem_of_sort_by, elem_of_filter_b.
  split; [done|]. rewrite Hsc, Hex, !String.eqb_refl. simpl. apply existsb_spec.
  exists id. split; [by apply Hep|]. by apply bool_decide_eq_true.
Qed.

(** ** Retracting *)

Definition fact_by_id (scope : string) (id : N) (d : Db) : option FactRow :=
  List.find (fun g => N.eqb (gr_id g) id && String.eqb (gr_scope g) scope) (db_facts d).

(** What a retraction comes to, by the state of the fact it names. *)
Definition retraction (scope : string) (r : Retraction) (at_ : Time) (d : Db) : Db * res unit :=
  let t := pg_ts (t_ns (r_at r)) in
  match fact_by_id scope (r_fact r) d with
  | None => (d, Err (EWrap ErrNotFound))
  | Some g =>
      if retractable (r_fact r) scope t g
      then (set_facts (map (fun x => if retractable (r_fact r) scope t x
                                     then close_row t (pg_ts (t_ns at_)) x else x) (db_facts d)) d, Ok tt)
      else if t_ns (r_at r) <=? gr_from g then (d, Err (EWrap ErrInvalidValidity))
      else (d, Ok tt)
  end.

Lemma clash_shrink r r' at_ now :
  (match gr_to r with None => true | Some h => at_ <? h end) = true ->
  facts_clash r r' = false -> facts_clash (close_row at_ now r) r' = false.
Proof.
  unfold facts_clash, ranges_overlap. intros Ht Hc. simpl.
  change (fact_key (close_row at_ now r)) with (fact_key r). revert Hc.
  rewrite !andb_false_iff. intros [Hc|[Hc|Hc]]; [by left| |by right; right].
  right. left. destruct (gr_to r) as [h|]; lia || done.
Qed.

Lemma clash_sym r r' : facts_clash r r' = facts_clash r' r.
Proof.
  unfold facts_clash. f_equal; [apply bool_decide_ext; split; congruence|].
  unfold ranges_overlap. apply andb_comm.
Qed.

Lemma close_no_clash p at_ now l :
  ForallOrdPairs (fun r r' => facts_clash r r' = false) l ->
  (forall r, r ∈ l -> p r = true -> match gr_to r with None => true | Some h => at_ <? h end = true) ->
  ForallOrdPairs (fun r r' => facts_clash r r' = false)
    (map (fun r => if p r then close_row at_ now r else r) l).
Proof.
  intros Hl Hp. induction Hl as [|r l Hr Hl IH]; simpl; [constructor|].
  constructor; [|apply IH; intros; apply Hp; [by right|done]].
  apply List.Forall_forall. intros r' (r0 & <- & Hr0)%in_map_iff.
  rewrite List.Forall_forall in Hr. specialize (Hr r0 Hr0).
  assert (facts_clash (if p r then close_row at_ now r else r) r0 = false) as H1.
  { destruct (p r) eqn:E; [|done]. apply clash_shrink; [|done]. apply Hp; [by left|done]. }
  destruct (p r0) eqn:E; [|done]. rewrite clash_sym. apply clash_shrink; [|by rewrite clash_sym].
  apply Hp; [right; by apply list_elem_of_In|done].
Qed.

Lemma retract_stmt_run id scope at_ now d :
  db_ok d -> db_ready d = true ->
  retract_stmt id scope at_ now d =
    (set_facts (map (fun r => if retractable id scope at_ r then close_row at_ now r else r) (db_facts d)) d,
     Ok (Z.of_nat (length (List.filter (retractable id scope at_) (db_facts d))))).
Proof.
  intros Hok Hready. destruct (ok_facts d Hok) as [_ Hkey Hrows].
  unfold retract_stmt, on_schema. rewrite Hready. cbv zeta. unfold obind, write_facts.
  assert (forall r, retractable id scope at_ r = true ->
    gr_from r < at_ /\ match gr_to r with None => true | Some h => at_ <? h end = true) as Hp.
  { intros r. unfold retractable. rewrite !andb_true_iff, Z.ltb_lt. tauto. }
  replace (forallb fact_checks _) with true.
  2: { symmetry. apply forallb_forall. intros x (r & <- & Hr)%in_map_iff.
       apply filter_In in Hr as [Hr Hpr]. apply Hp in Hpr as [Hlt _].
       rewrite Forall_forall in Hrows. destruct (Hrows r) as (Hc & _); [by apply list_elem_of_In|].
       unfold fact_checks in *. simpl. rewrite !andb_true_iff in *. intuition. unfold range_ok. lia. }
  replace (no_clash _) with true.
  2: { symmetry. apply no_clash_spec, close_no_clash; [done|]. intros r _ Hpr. by apply Hp. }
  unfold oret. simpl. rewrite length_map. by destruct d.
Qed.

(** a retraction closes the window of the fact it names, in its scope, at
    its instant, when that instant lies inside the window; when the fact ended by
    then it changes nothing and succeeds, so that a replay is free; when the fact
    had not begun, or begins at that very instant, it fails; when there is no
    such fact in the scope it fails with not-found. No other fact changes. *)
Theorem retraction_spec scope r at_ d :
  db_ok d -> db_ready d = true ->
  applyRetractions scope at_ [r] d = retraction scope r at_ d.
Proof.
  intros Hok Hready. set (t := pg_ts (t_ns (r_at r))). simpl. unfold obind.
  rewrite retract_stmt_run by done. fold t. unfold retraction. fold t.
  set (d1 := set_facts _ d).
  destruct (fact_by_id scope (r_fact r) d) as [g|] eqn:Hf.
  - apply find_elem in Hf as Hg. destruct Hg as [Hg [Hgid Hgs]%andb_true_iff].
    apply N.eqb_eq in Hgid. apply String.eqb_eq in Hgs.
    destruct (retractable (r_fact r) scope t g) eqn:Hp.
    + assert (g ∈ List.filter (retractable (r_fact r) scope t) (db_facts d)) as Hin
        by (by apply elem_of_filter_b).
      destruct (List.filter _ _) as [|g' l'] eqn:Hfl; [by apply not_elem_of_nil in Hin|].
      replace (0 <? _) with true; [done|]. symmetry. apply Z.ltb_lt. simpl. lia.
    + assert (List.filter (retractable (r_fact r) scope t) (db_facts d) = []) as Hnil.
      { apply filter_none. intros x Hx. apply not_true_iff_false. intros Hpx.
        assert (x = g) as ->; [|congruence].
        unfold retractable in Hpx. rewrite !andb_true_iff, N.eqb_eq in Hpx.
        eapply NoDup_key; [apply (fo_ids d (ok_facts d Hok))|done|done|]. naive_solver congruence. }
      assert (d1 = d) as ->.
      { unfold d1. replace (map _ (db_facts d)) with (db_facts d); [by destruct d|].
        rewrite <- (map_id (db_facts d)) at 1. apply map_ext_in. intros x Hx%list_elem_of_In.
        rewrite filter_none in Hnil. by rewrite Hnil. }
      rewrite Hnil. simpl. unfold explainRetraction, on_schema. rewrite Hready, query_row_find.
      fold (fact_by_id scope (r_fact r) d). rewrite Hf. unfold After, reject. simpl.
      destruct (Z.leb_spec (t_ns (r_at r)) (gr_from g)), (Z.ltb_spec (gr_from g) (t_ns (r_at r)));
        simpl; done || lia.
  - assert (List.filter (retractable (r_fact r) scope t) (db_facts d) = []) as Hnil.
    { apply filter_none. intros x Hx. eapply find_absent in Hf; [|exact Hx].
      unfold retractable. by rewrite Hf. }
    assert (d1 = d) as ->.
    { unfold d1. replace (map _ (db_facts d)) with (db_facts d); [by destruct d|].
      rewrite <- (map_id (db_facts d)) at 1. apply map_ext_in. intros x Hx%list_elem_of_In.
      rewrite filter_none in Hnil. by rewrite Hnil. }
    rewrite Hnil. simpl. unfold explainRetraction, on_schema. rewrite Hready, query_row_find.
    fold (fact_by_id scope (r_fact r) d). by rewrite Hf.
Qed.
Lemma ApplyExtraction_ok cmd d d' facts :
  db_ok d -> ApplyExtraction cmd d = (d', Ok facts) -> db_ok d'.
Proof.
  intros Hok. unfold ApplyExtraction. rewrite obind_olift.
  destruct (ExtractCommand_Validate cmd) as [[]|]; [|done]. cbv beta iota. rewrite obind_olift.
  destruct (dedupeAssertions (xc_assert cmd)) as [l|]; [|done].
  rewrite atomically_Ok. intros H.
  by destruct (apply_tx_run cmd l d d' facts Hok H) as (? & ? & _ & _ & _ & _ & _ & ? & _).
Qed.

End Written.

(** ** A concrete extraction *)

Definition demo_claim (object : string) (from to : Z) : Assertion :=
  MkAssertion "ada" "likes" object "Ada likes it."
    (MkValidity (utc from) (utc to)) (f32_of_Z 1).

Definition demo_extract (episodes : list N) (claims : list Assertion) : ExtractCommand :=
  MkExtractCommand "s" "x" episodes claims [] (utc 9000).

Definition demo_claims : list Assertion :=
  [demo_claim "tea" 2000 0; demo_claim "tea" 2000 0; demo_claim "milk" 1000 4000].
Definition demo_kept : list Assertion := [demo_claim "tea" 2000 0; demo_claim "milk" 1000 4000].

(** What the demonstration database is after the extraction [demo_extract]. *)
Definition demo_extracted : Db :=
  (ApplyExtraction (demo_extract [1%N; 2%N] demo_claims) demo_appended).1.

Lemma demo_appended_ok : db_ok demo_appended.
Proof.
  destruct demo_append as (r & Hr & _).
  pose proof (Append_run demo_command (empty_db 2) (empty_db_ok 2) ltac:(vm_compute; reflexivity)
    demo_small) as H. rewrite Hr in H. destruct H as (? & ? & H & _). apply H.
Qed.

Lemma demo_extraction :
  exists facts, ApplyExtraction (demo_extract [1%N; 2%N] demo_claims) demo_appended = (demo_extracted, Ok facts)
    /\ length facts = 2%nat.
Proof. eexists. split; [vm_compute; reflexivity|reflexivity]. Qed.

Lemma demo_extracted_ok : db_ok demo_extracted.
Proof.
  destruct demo_extraction as (facts & H & _). exact (ApplyExtraction_ok _ _ _ _ demo_appended_ok H).
Qed.

Lemma dedupeAssertions_spec_witness :
  dedupeAssertions demo_claims = Ok demo_kept /\ sublist demo_kept demo_claims.
Proof.
  assert (dedupeAssertions demo_claims = Ok demo_kept) as H by (vm_compute; reflexivity).
  split; [exact H|]. exact (proj1 (dedupeAssertions_spec demo_claims demo_kept H)).
Defined.

Lemma ApplyExtraction_idempotent_witness :
  exists facts, ApplyExtraction (demo_extract [1%N; 2%N] demo_claims) demo_extracted = (demo_extracted, Ok facts).
Proof.
  destruct demo_extraction as (facts & H & _). exists facts.
  exact (ApplyExtraction_idempotent _ _ _ _ H).
Defined.

Lemma ApplyExtraction_atomic_witness :
  db_ok demo_extracted /\ has_extraction demo_extracted 2 "x" = true.
Proof.
  pose proof (ApplyExtraction_atomic (demo_extract [1%N; 2%N] demo_claims) demo_appended demo_appended_ok) as Ha.
  destruct demo_extraction as (facts & H & _). rewrite H in Ha. destruct Ha as (Hok & _ & Hx).
  split; [exact Hok|]. apply Hx. right. left.
Defined.

Lemma ApplyExtraction_records_witness :
  exists facts r, ApplyExtraction (demo_extract [1%N; 2%N] demo_claims) demo_appended = (demo_extracted, Ok facts) /\
    gr_to r = Some 4000 /\ scanFact r ∈ facts.
Proof.
  destruct demo_extraction as (facts & H & _). exists facts.
  destruct (ApplyExtraction_records (demo_extract [1%N; 2%N] demo_claims) demo_kept (demo_claim "milk" 1000 4000)
    1%N demo_appended demo_extracted facts demo_appended_ok H) as (r & _ & (Hm & _) & Hin).
  - left.
  - vm_compute. reflexivity.
  - vm_compute. reflexivity.
  - right. left.
  - intros b Hb Hs. unfold demo_kept in Hb. rewrite !elem_of_cons in Hb.
    destruct Hb as [->|[->|Hb]]; [vm_compute in Hs; discriminate Hs|reflexivity|].
    destruct (not_elem_of_nil _ Hb).
  - exists r. split; [exact H|]. split; [|exact Hin]. apply matches_spec in Hm.
    destruct Hm as (_ & _ & _ & _ & _ & _ & Ht). exact Ht.
Defined.

Definition demo_retraction (at_ : Z) : Retraction := MkRetraction 5%N (utc at_).

Lemma retraction_spec_witness :
  (applyRetractions "s" (utc 9000) [demo_retraction 2000] demo_extracted).2 = Err (EWrap ErrInvalidValidity) /\
  (applyRetractions "s" (utc 9000) [demo_retraction 3000] demo_extracted).2 = Ok tt.
Proof.
  split; rewrite (retraction_spec _ _ _ _ demo_extracted_ok eq_refl); vm_compute; reflexivity.
Defined.

(** ** What the statements lose *)

(** A claim over two windows of which one is already stored: the transaction
    succeeds, and the window that is not stored is nowhere, since the INSERT
    leaves out every assertion whose claim was refreshed over any window. *)
Definition demo_first : Db :=
  (ApplyExtraction (demo_extract [1%N] [demo_claim "tea" 2000 4000]) demo_appended).1.
Definition demo_again : ExtractCommand :=
  demo_extract [2%N] [demo_claim "tea" 2000 4000; demo_claim "tea" 5000 0].

Example assertion_dropped :
  dedupeAssertions (xc_assert demo_again) = Ok (xc_assert demo_again) /\
  (match (ApplyExtraction demo_again demo_first).2 with
   | Ok facts => map f_valid facts
   | Err _ => []
   end) = [MkValidity (utc 2000) (utc 4000)].
Proof. split; vm_compute; reflexivity. Qed.
