(* ===== verification/FactReading.v ===== *)
(** * What a scope believes ([postgres/fact.go])

    [Store.Facts] as a bitemporal query, and the episodes an extractor has not
    read. *)

From S2P Require Import Types Windows Validate OpsTypes Server Db PgQueue Queueing PgEpisode Appending Replaying PgFact FactWriting.

#[local] Open Scope Z_scope.

(** ** Querying *)

Section Querying.
Context `{Sv : Server} `{!ServerLaws Sv}.

#[export] Instance fact_order_total : TotalCmp fact_order.
Proof. repeat (apply cmp_lex_total || apply cmp_on_total || apply pg_collate_total). Qed.

#[export] Instance facts_order_total q : TotalCmp (facts_order q).
Proof.
  unfold facts_order. destruct (String.eqb _ _); [apply _|].
  apply cmp_lex_total; [apply cmp_rev_total, cmp_on_total, fcompare_total|apply _].
Qed.

(** What a query asks of a fact, in instants. *)
Definition believed (q : FactQuery) (r : FactRow) : Prop :=
  gr_scope r = fq_scope q /\ gr_extractor r = fq_extractor q /\
  gr_asserted r <= pg_ts (t_ns (fq_as_of q)) /\
  gr_from r <= pg_ts (t_ns (fq_at q)) /\
  (fq_include_closed q = false ->
     match gr_to r with None => True | Some h => pg_ts (t_ns (fq_at q)) < h end) /\
  (fq_subjects q = [] \/ gr_subject r ∈ fq_subjects q) /\
  (fq_predicates q = [] \/ gr_predicate r ∈ fq_predicates q) /\
  (f_gtb (fq_min_confidence q) f_zero = true -> f_ltb (gr_confidence r) (fq_min_confidence q) = false).

Lemma any_or_all_spec s l : any_or_all s l = true <-> l = [] \/ s ∈ l.
Proof.
  unfold any_or_all. destruct l as [|x l]; [naive_solver|]. rewrite one_of_spec. split; [auto|].
  by intros [|].
Qed.

Lemma facts_filter_spec q r : facts_filter q r = true <-> believed q r.
Proof.
  unfold facts_filter, believed, range_contains.
  rewrite !andb_true_iff, !any_or_all_spec, !String.eqb_eq, Z.leb_le, orb_true_iff, !negb_true_iff.
  assert ((if fq_include_closed q then gr_from r <=? pg_ts (t_ns (fq_at q))
           else (gr_from r <=? pg_ts (t_ns (fq_at q))) &&
                match gr_to r with None => true | Some h => pg_ts (t_ns (fq_at q)) <? h end) = true <->
          gr_from r <= pg_ts (t_ns (fq_at q)) /\
          (fq_include_closed q = false ->
             match gr_to r with None => True | Some h => pg_ts (t_ns (fq_at q)) < h end)) as ->.
  { destruct (fq_include_closed q), (gr_to r); rewrite ?andb_true_iff, Z.leb_le, ?Z.ltb_lt; naive_solver. }
  destruct (f_gtb (fq_min_confidence q) f_zero); naive_solver.
Qed.

(** How an answered query runs. *)
Lemma Facts_run q d :
  db_ready d = true -> FactQuery_Validate q = Ok tt ->
  t_ns (fq_as_of q) <> 0 -> t_ns (fq_at q) <> 0 ->
  forallb pg_text (if String.eqb (TrimSpace (fq_text q)) "" then [fq_extractor q]
                   else [fq_extractor q; fq_text q]) = true ->
  Facts q d = (d, Ok (map scanFact (page (facts_order q) (facts_filter q)
    (Z.to_nat (if fq_limit q =? 0 then DefaultFactsLimit else fq_limit q)) (db_facts d)))).
Proof.
  intros Hready Hv Hao Hat Ht. unfold Facts. rewrite obind_olift, Hv. cbv beta iota. rewrite obind_olift.
  apply IsZero_neq in Hao, Hat. rewrite Hao. cbv beta iota delta [reject].
  rewrite obind_olift, Hat. cbv beta iota zeta. unfold omap_err, with_text, on_schema.
  by rewrite Ht, Hready.
Qed.

(** C32: [Store.Facts] returns what the scope believed, by one extractor, at an
    instant, as known at another: facts asserted by [AsOf], begun by [At] and, but
    for a query that includes closed windows, not over at [At], restricted to the
    subjects, predicates and confidence asked for; never one outside, all of them
    when they fit the limit, and otherwise those that rank first, with a text
    query deciding only the order. *)
Theorem Facts_spec q d :
  db_ready d = true -> FactQuery_Validate q = Ok tt ->
  t_ns (fq_as_of q) <> 0 -> t_ns (fq_at q) <> 0 ->
  forallb pg_text (if String.eqb (TrimSpace (fq_text q)) "" then [fq_extractor q]
                   else [fq_extractor q; fq_text q]) = true ->
  let limit := if fq_limit q =? 0 then DefaultFactsLimit else fq_limit q in
  exists rows,
    Facts q d = (d, Ok (map scanFact rows)) /\
    is_page (facts_order q) (believed q) (Z.to_nat limit) (db_facts d) rows.
Proof.
  intros Hready Hv Hao Hat Ht limit.
  exists (page (facts_order q) (facts_filter q) (Z.to_nat limit) (db_facts d)).
  split; [by apply Facts_run|apply page_spec; [apply _|apply facts_filter_spec]].
Qed.

(** *** Pending work *)

Definition pending (scope : string) (after : Z) (done_ : EpisodeRow -> bool) (e : EpisodeRow) : Prop :=
  (scope = ""%string \/ er_scope e = scope /\ after < er_seq e) /\ done_ e = false.

Definition pending_order (scope : string) : EpisodeRow -> EpisodeRow -> comparison :=
  if is_empty scope then cmp_lex (cmp_on er_scope pg_collate) (cmp_on er_seq Z.compare)
  else cmp_on er_seq Z.compare.

#[export] Instance pending_order_total scope : TotalCmp (pending_order scope).
Proof.
  unfold pending_order. destruct (is_empty scope).
  - apply cmp_lex_total; apply cmp_on_total; [apply pg_collate_total|apply Zcompare_total].
  - apply cmp_on_total, Zcompare_total.
Qed.

(** The anti-join: only pending episodes, in order, and all of them up to the
    limit. *)
Lemma pending_rows_spec scope after limit done_ d :
  is_page (pending_order scope) (pending scope after done_) (Z.to_nat limit) (db_episodes d)
    (pending_rows scope after limit done_ d).
Proof.
  assert (pending_rows scope after limit done_ d =
    page (pending_order scope)
      (fun e => if is_empty scope then negb (done_ e)
                else String.eqb (er_scope e) scope && (after <? er_seq e) && negb (done_ e))
      (Z.to_nat limit) (db_episodes d)) as ->.
  { unfold pending_rows, pending_order, page, sql_limit. by destruct (is_empty scope). }
  apply page_spec; [apply _|]. intros e. unfold pending. destruct (is_empty scope) eqn:Hz.
  - apply is_empty_spec in Hz. rewrite negb_true_iff. naive_solver.
  - assert (scope <> ""%string) by (intros ->; done).
    rewrite !andb_true_iff, String.eqb_eq, Z.ltb_lt, negb_true_iff. naive_solver.
Qed.

(** [Store.PendingExtractions] reports exactly the episodes the extractor has
    no marker for, in sequence order within the scope asked for, up to the limit;
    nothing already read is reported, and nothing unread is passed over. *)
Theorem PendingExtractions_spec q d :
  db_ready d = true ->
  validate_pending (px_extractor q) (px_scope q) (px_after_seq q) (px_limit q) = Ok tt ->
  pg_text (px_extractor q) = true ->
  let limit := if px_limit q =? 0 then DefaultPendingExtractionsLimit else px_limit q in
  let unread := pending (px_scope q) (px_after_seq q)
                  (fun e => has_extraction d (er_id e) (px_extractor q)) in
  exists rows,
    PendingExtractions_get q d = (d, Ok (map er_id rows)) /\
    is_page (pending_order (px_scope q)) unread (Z.to_nat limit) (db_episodes d) rows.
Proof.
  intros Hready Hv Ht limit unread.
  exists (pending_rows (px_scope q) (px_after_seq q) limit
            (fun e => has_extraction d (er_id e) (px_extractor q)) d).
  split; [|apply pending_rows_spec].
  unfold PendingExtractions_get. rewrite obind_olift, Hv. cbv beta iota zeta.
  unfold omap_err, with_text, on_schema. cbn [forallb]. by rewrite Ht, Hready.
Qed.
End Querying.

(** ** A concrete query *)

Definition demo_query (closed : bool) (limit : Z) : FactQuery :=
  MkFactQuery "s" "x" (utc 9000) (utc 9000) closed [] [] f_zero "" limit.

Lemma Facts_spec_witness :
  exists rows, Facts (demo_query true 1) demo_extracted = (demo_extracted, Ok (map scanFact rows)) /\
    (length rows <= 1)%nat.
Proof.
  destruct (Facts_spec (demo_query true 1) demo_extracted eq_refl) as (rows & H & _ & Hlen & _);
    [vm_compute; reflexivity|discriminate|discriminate|vm_compute; reflexivity|].
  exists rows. split; [exact H|exact Hlen].
Defined.

Lemma PendingExtractions_spec_witness :
  exists rows, PendingExtractions_get (MkPendingExtractions "y" "s" 1 10) demo_extracted =
    (demo_extracted, Ok (map er_id rows)) /\ (length rows <= 10)%nat.
Proof.
  destruct (PendingExtractions_spec (MkPendingExtractions "y" "s" 1 10) demo_extracted eq_refl)
    as (rows & H & _ & Hlen & _); [vm_compute; reflexivity|vm_compute; reflexivity|].
  exists rows. split; [exact H|exact Hlen].
Defined.

(** Two rows of one claim tie in the order of a query that includes closed
    windows: which of them comes first is not determined by the query. *)
Example closed_windows_tie :
  exists r r', r <> r' /\ facts_order (demo_query true 10) r r' = Eq /\
    believed (demo_query true 10) r /\ believed (demo_query true 10) r' /\
    facts_clash r r' = false.
Proof.
  exists (new_fact "s" "x" [1%N] 9000 7 (demo_claim "tea" 1000 2000)),
         (new_fact "s" "x" [1%N] 9000 8 (demo_claim "tea" 3000 4000)).
  split; [discriminate|]. split; [vm_compute; reflexivity|].
  split; [apply facts_filter_spec; vm_compute; reflexivity|].
  split; [apply facts_filter_spec; vm_compute; reflexivity|vm_compute; reflexivity].
Qed.
