(* ===== verification/Supersession.v ===== *)
(** * A change of mind ([ApplyExtraction] and [Facts] together)

    What the temporal design exists for: an extraction that retracts an old claim and
    asserts a new one from the same instant leaves both answerable, each in its time. *)

From S2P Require Import Prelude Utf8 GoNum Types Windows OpsTypes Validate Server Db PgQueue Queueing PgEpisode Appending Replaying PgFact FactWriting FactReading.

#[local] Open Scope Z_scope.

Section Supersession.
Context `{Sv : Server} `{!ServerLaws Sv}.

(** ** Retracting, one after another *)

Lemma retract_one scope at_ x rest d d' :
  db_ok d -> applyRetractions scope at_ (x :: rest) d = (d', Ok tt) ->
  exists d1, applyRetractions scope at_ rest d1 = (d', Ok tt) /\ db_ok d1 /\
    db_facts d1 = map (fun r => if retractable (r_fact x) scope (pg_ts (t_ns (r_at x))) r
                                then close_row (pg_ts (t_ns (r_at x))) (pg_ts (t_ns at_)) r else r) (db_facts d).
Proof.
  intros Hok. cbn [applyRetractions]. rewrite obind_Ok. intros (d1 & n & Hret & H).
  rewrite obind_Ok in H. destruct H as (d2 & [] & He & H).
  assert (d2 = d1) as ->.
  { destruct (0 <? n); [by injection He as <-|].
    pose proof (reads_explainRetraction scope x d1) as Hread. by rewrite He in Hread. }
  exists d1. split; [done|]. split; [by eapply retract_stmt_ok|].
  assert (db_ready d = true) as Hready by (unfold retract_stmt, on_schema in Hret; by destruct (db_ready d)).
  rewrite retract_stmt_run in Hret by done. by injection Hret as <- _.
Qed.

Lemma retracted_other scope at_ rs d d' r :
  db_ok d -> applyRetractions scope at_ rs d = (d', Ok tt) -> r ∈ db_facts d ->
  (forall x, x ∈ rs -> r_fact x <> gr_id r) -> r ∈ db_facts d'.
Proof.
  revert d. induction rs as [|x rs IH]; intros d Hok H Hr Hne; [by injection H as <-|].
  apply retract_one in H as (d1 & H & Hok1 & Hd1); [|done]. apply (IH d1); [done|done| |intros y Hy; apply Hne; by right].
  rewrite Hd1. apply list_elem_of_fmap. exists r. split; [|done].
  assert (retractable (r_fact x) scope (pg_ts (t_ns (r_at x))) r = false) as ->; [|done].
  unfold retractable. assert (gr_id r =? r_fact x = false)%N as ->; [|done]. apply N.eqb_neq. intros Heq.
  apply (Hne x); [by left|done].
Qed.

(** A row whose window holds the instant of its only retraction is closed there. *)
Lemma retracted_closed scope at_ rs d d' r x :
  db_ok d -> applyRetractions scope at_ rs d = (d', Ok tt) -> r ∈ db_facts d ->
  x ∈ rs -> NoDup (map r_fact rs) -> retractable (r_fact x) scope (pg_ts (t_ns (r_at x))) r = true ->
  close_row (pg_ts (t_ns (r_at x))) (pg_ts (t_ns at_)) r ∈ db_facts d'.
Proof.
  revert d r. induction rs as [|y rs IH]; intros d r Hok H Hr Hx Hnd Hp; [by apply not_elem_of_nil in Hx|].
  apply retract_one in H as (d1 & H & Hok1 & Hd1); [|done]. cbn [map] in Hnd. apply NoDup_cons in Hnd as [Hy Hnd].
  assert (gr_id r = r_fact x) as Hid by (unfold retractable in Hp; rewrite !andb_true_iff, N.eqb_eq in Hp; tauto).
  apply elem_of_cons in Hx as [->|Hx].
  - apply (retracted_other scope at_ rs d1); [done|done| |].
    + rewrite Hd1. apply list_elem_of_fmap. exists r. by rewrite Hp.
    + intros z Hz Heq. cbn in Heq. apply Hy, list_elem_of_fmap. exists z. split; [congruence|done].
  - apply (IH d1); try done. rewrite Hd1. apply list_elem_of_fmap. exists r. split; [|done].
    assert (retractable (r_fact y) scope (pg_ts (t_ns (r_at y))) r = false) as ->; [|done].
    unfold retractable. assert (gr_id r =? r_fact y = false)%N as ->; [|done]. apply N.eqb_neq. intros Heq.
    apply Hy, list_elem_of_fmap. exists x. split; [congruence|done].
Qed.

(** ** Asserting leaves windows alone *)

Definition same_window (r r' : FactRow) : Prop :=
  gr_id r' = gr_id r /\ fact_key r' = fact_key r /\ gr_from r' = gr_from r /\ gr_to r' = gr_to r.

Lemma asserted_keeps cmd l d d' r :
  applyAssertions cmd l d = (d', Ok tt) -> r ∈ db_facts d ->
  exists r', r' ∈ db_facts d' /\ same_window r r'.
Proof.
  unfold applyAssertions. destruct l as [|a l]; [intros [= <-]; by exists r|].
  unfold omap_err, with_text. destruct (forallb pg_text _); [|done].
  destruct (assert_stmt _ _ _ _ _ d) as [d3 [u|]] eqn:Hs; [|done]. intros [= -> _] Hr.
  revert Hs. unfold assert_stmt, on_schema. destruct (db_ready d); [|done]. cbv zeta.
  unfold write_facts. destruct (negb _); [done|]. destruct (negb _); [done|]. intros [= <- _]. cbn.
  eexists. split; [apply elem_of_app; left; by apply list_elem_of_fmap_2|].
  unfold refreshed. by destruct (List.find _ _).
Qed.

(** ** The change *)

(** [cmd] retracts [r], which is believed still, at the instant it asserts [a] from. *)
Record change_of_mind (cmd : ExtractCommand) (r : FactRow) (a : Assertion) (d : Db) : Prop := {
  cm_row : r ∈ db_facts d /\ gr_scope r = xc_scope cmd /\ gr_extractor r = xc_extractor cmd;
  cm_window : gr_from r < lower_of a /\ match gr_to r with None => True | Some h => lower_of a < h end;
  cm_retract : MkRetraction (gr_id r) (v_from (a_valid a)) ∈ xc_retract cmd /\ NoDup (map r_fact (xc_retract cmd));
  cm_assert : exists l, dedupeAssertions (xc_assert cmd) = Ok l /\ a ∈ l /\ forall b, b ∈ l -> same_claim a b = true -> b = a;
  cm_open : IsOpen (a_valid a) = true;
  cm_unread : exists id, id ∈ xc_episodes cmd /\ has_extraction d id (xc_extractor cmd) = false;
}.

(** [q] asks for all that is believed now of the claims of [r] and [a] at some instant. *)
Record asks (q : FactQuery) (cmd : ExtractCommand) (r : FactRow) (a : Assertion) (d : Db) : Prop := {
  as_valid : FactQuery_Validate q = Ok tt /\ t_ns (fq_as_of q) <> 0 /\ t_ns (fq_at q) <> 0;
  as_scope : fq_scope q = xc_scope cmd /\ fq_extractor q = xc_extractor cmd;
  as_now : forall x, x ∈ db_facts d -> gr_asserted x <= pg_ts (t_ns (fq_as_of q));
  as_about : any_or_all (gr_subject r) (fq_subjects q) = true /\ any_or_all (gr_predicate r) (fq_predicates q) = true /\
    any_or_all (a_subject a) (fq_subjects q) = true /\ any_or_all (a_predicate a) (fq_predicates q) = true;
  as_all : f_gtb (fq_min_confidence q) f_zero = false /\ fq_include_closed q = false /\
    Z.of_nat (length (db_facts d)) <= (if fq_limit q =? 0 then DefaultFactsLimit else fq_limit q);
  as_text : forallb pg_text (if String.eqb (TrimSpace (fq_text q)) "" then [fq_extractor q] else [fq_extractor q; fq_text q]) = true;
}.

(** The answer of a query with room: every row that is believed. *)
Lemma Facts_all q d :
  db_ready d = true -> FactQuery_Validate q = Ok tt -> t_ns (fq_as_of q) <> 0 -> t_ns (fq_at q) <> 0 ->
  forallb pg_text (if String.eqb (TrimSpace (fq_text q)) "" then [fq_extractor q] else [fq_extractor q; fq_text q]) = true ->
  Z.of_nat (length (db_facts d)) <= (if fq_limit q =? 0 then DefaultFactsLimit else fq_limit q) ->
  exists rows, Facts q d = (d, Ok (map scanFact rows)) /\ forall x, x ∈ rows <-> x ∈ db_facts d /\ facts_filter q x = true.
Proof.
  intros Hready Hv Hao Hat Ht Hlim.
  eexists. split; [by apply Facts_run|]. intros x. unfold page. rewrite firstn_all2.
  - unfold sort_func. by rewrite elem_of_sort_by, elem_of_filter_b.
  - unfold sort_func. rewrite length_sort_by. pose proof (filter_length_le (facts_filter q) (db_facts d)). lia.
Qed.

Lemma facts_filter_now q cmd r a d x :
  asks q cmd r a d -> x ∈ db_facts d -> gr_scope x = xc_scope cmd -> gr_extractor x = xc_extractor cmd ->
  any_or_all (gr_subject x) (fq_subjects q) = true -> any_or_all (gr_predicate x) (fq_predicates q) = true ->
  facts_filter q x = range_contains x (pg_ts (t_ns (fq_at q))).
Proof.
  intros [_ [Hs Hx] Hnow _ (Hc & Hi & _) _] Hin Hxs Hxx Hsub Hpre. unfold facts_filter.
  rewrite Hs, Hx, Hxs, Hxx, !String.eqb_refl, Hi, Hsub, Hpre, Hc, (proj2 (Z.leb_le _ _) (Hnow x Hin)).
  cbn. by rewrite !andb_true_r.
Qed.

(** The answer to a question with room: the rows it lets through, and no other. *)
Lemma asked_rows q cmd r a d :
  db_ok d -> db_ready d = true -> asks q cmd r a d ->
  exists rows, Facts q d = (d, Ok (map scanFact rows)) /\ (forall x, x ∈ rows <-> x ∈ db_facts d /\ facts_filter q x = true) /\
    forall x f, x ∈ db_facts d -> facts_filter q x = false -> f ∈ map scanFact rows -> f_id f <> gr_id x.
Proof.
  intros Hok Hready Hq. destruct (as_valid _ _ _ _ _ Hq) as (Hv & Hao & Hat). destruct (as_all _ _ _ _ _ Hq) as (_ & _ & Hroom).
  destruct (Facts_all q d Hready Hv Hao Hat (as_text _ _ _ _ _ Hq) Hroom) as (rows & HF & Hrows).
  exists rows. split; [done|]. split; [done|]. intros x f Hx Hfx (y & -> & [Hy Hfy]%Hrows)%list_elem_of_fmap Heq. cbn in Heq.
  assert (y = x) as ->; [|congruence]. by eapply NoDup_key; [apply (fo_ids d (ok_facts d Hok))|..].
Qed.

(** The rows it leaves: the old claim closed at the instant, the new one open from it. *)
Lemma change_rows cmd r a d d' facts :
  db_ok d -> ApplyExtraction cmd d = (d', Ok facts) -> change_of_mind cmd r a d ->
  db_ready d' = true /\ exists old new, old ∈ db_facts d' /\ gr_id old = gr_id r /\ fact_key old = fact_key r /\
      gr_from old = gr_from r /\ gr_to old = Some (lower_of a) /\
    new ∈ db_facts d' /\ scanFact new ∈ facts /\ gr_scope new = xc_scope cmd /\ gr_extractor new = xc_extractor cmd /\
      gr_subject new = a_subject a /\ gr_predicate new = a_predicate a /\ gr_object new = a_object a /\
      gr_statement new = a_statement a /\ gr_from new = lower_of a /\ gr_to new = None.
Proof.
  intros Hok Happ [(Hr & Hrs & Hrx) [Hlow Hup] [Hx Hnd] (l & Hl & Ha & Hone) Hopen (id & Hid & Hun)].
  destruct (ApplyExtraction_records cmd l a id d d' facts Hok Happ Hid Hun Hl Ha Hone) as (new & Hnew & (Hm & Hst & _) & Hans).
  apply matches_spec in Hm as (Hns & Hnx & Hnsub & Hnp & Hno & Hnf & Hnt).
  destruct (ApplyExtraction_base cmd d) as (_ & _ & _ & _ & Hready & _). rewrite Happ in Hready. cbn [fst] in Hready.
  unfold ApplyExtraction in Happ. rewrite obind_olift in Happ.
  destruct (ExtractCommand_Validate cmd) as [[]|]; [|done]. rewrite obind_olift, Hl, atomically_Ok in Happ.
  destruct (apply_tx_run cmd l d d' facts Hok Happ) as (d0 & marked & Hmk & Hok0 & Hlog0 & _ & Hw & _ & _).
  destruct (mark_episodes _ _ _ _ _ _ _ _ Hmk) as (_ & He0 & _).
  assert (in_log (xc_episodes cmd) (xc_scope cmd) d) as Hlog by (unfold in_log in *; by rewrite He0 in Hlog0).
  assert (db_facts d0 = db_facts d) as Hf0.
  { revert Hmk. unfold mark_stmt, on_schema. destruct (db_ready d); [|done]. destruct (negb _); [done|]. by intros [= <- _]. }
  unfold write_part in Hw. rewrite (proj2 (Z.ltb_lt 0 marked) (mark_marked _ _ _ _ _ _ _ _ _ _ Hmk Hlog Hid Hun)), obind_Ok in Hw.
  destruct Hw as (d2 & [] & Hret & Has).
  assert (retractable (gr_id r) (xc_scope cmd) (lower_of a) r = true) as Hp.
  { unfold retractable. rewrite N.eqb_refl, Hrs, String.eqb_refl, (proj2 (Z.ltb_lt _ _) Hlow). cbn.
    destruct (gr_to r); [by apply Z.ltb_lt|done]. }
  rewrite <- Hf0 in Hr.
  pose proof (retracted_closed _ _ _ _ _ r _ Hok0 Hret Hr Hx Hnd Hp) as Hcl.
  destruct (asserted_keeps cmd l d2 d' _ Has Hcl) as (old & Hold & Hoid & Hok1 & Hof & Hot).
  split.
  { rewrite Hready. revert Hmk. unfold mark_stmt, on_schema. by destruct (db_ready d). }
  exists old, new. split_and!; try done. rewrite Hnt. unfold upper_of. by rewrite Hopen.
Qed.

Lemma facts_apart d x y :
  db_ok d -> x ∈ db_facts d -> y ∈ db_facts d -> x = y \/ facts_clash x y = false.
Proof.
  intros Hok Hx%list_elem_of_In Hy%list_elem_of_In.
  destruct (ForallOrdPairs_In (fo_key d (ok_facts d Hok)) x y Hx Hy) as [?|[?|?]]; [by left|by right|right].
  by rewrite clash_sym.
Qed.

(** Windows of one claim do not overlap: what was believed of it before an instant it
    is believed from was over by then. *)
Lemma earlier_over d x y t :
  db_ok d -> x ∈ db_facts d -> y ∈ db_facts d -> fact_key x = fact_key y ->
  range_contains x t = true -> t < gr_from y -> gr_to y = None -> exists h, gr_to x = Some h /\ h <= gr_from y.
Proof.
  intros Hok Hx Hy Hkey Hin Ht Hopen. unfold range_contains in Hin. apply andb_true_iff in Hin as [Hlow Hup].
  destruct (facts_apart d x y Hok Hx Hy) as [->|Hcl]; [lia|].
  unfold facts_clash, ranges_overlap in Hcl. rewrite bool_decide_true in Hcl by done. rewrite Hopen in Hcl. cbn in Hcl.
  destruct (gr_to x) as [h|]; [|cbn in Hcl; lia]. exists h. split; [done|]. lia.
Qed.

(** C29: a change of mind leaves both claims answerable, each in its time. When an
    extraction retracts what was believed at the instant it asserts something new
    from, the old row is closed at that instant, and among the facts the extraction
    answers with is a row of the new claim, open from that instant and no earlier.
    Every query that asks about both then finds, at an earlier instant of the old
    window, the old claim and not the new row, nor anything of the new claim that was
    not over by the change; and at that instant or a later one, the new row and not
    the old claim. *)
Theorem supersedes cmd r a d d' facts :
  db_ok d -> ApplyExtraction cmd d = (d', Ok facts) -> change_of_mind cmd r a d ->
  exists old new, old ∈ db_facts d' /\ gr_id old = gr_id r /\ fact_key old = fact_key r /\
    gr_from old = gr_from r /\ gr_to old = Some (lower_of a) /\
    new ∈ db_facts d' /\ scanFact new ∈ facts /\ gr_scope new = xc_scope cmd /\ gr_extractor new = xc_extractor cmd /\
    gr_subject new = a_subject a /\ gr_predicate new = a_predicate a /\ gr_object new = a_object a /\
    gr_statement new = a_statement a /\ gr_from new = lower_of a /\ gr_to new = None /\
    forall q, asks q cmd r a d' -> exists fs, Facts q d' = (d', Ok fs) /\
      (gr_from r <= pg_ts (t_ns (fq_at q)) < lower_of a ->
         scanFact old ∈ fs /\ (forall f, f ∈ fs -> f_id f <> gr_id new) /\
         forall x, scanFact x ∈ fs -> x ∈ db_facts d' -> fact_key x = fact_key new ->
           exists h, gr_to x = Some h /\ h <= lower_of a) /\
      (lower_of a <= pg_ts (t_ns (fq_at q)) ->
         scanFact new ∈ fs /\ forall f, f ∈ fs -> f_id f <> gr_id r).
Proof.
  intros Hok Happ Hc. pose proof (ApplyExtraction_ok cmd d d' facts Hok Happ) as Hok'.
  destruct (change_rows cmd r a d d' facts Hok Happ Hc)
    as (Hready & old & new & Hold & Hid & Hkey & Hof & Hot & Hnew & Hans & Hns & Hnx & Hsub & Hpre & Hobj & Hst & Hnf & Hnt).
  exists old, new. do 15 (split; [done|]). intros q Hq.
  destruct (cm_row _ _ _ _ Hc) as (_ & Hrs & Hrx). unfold fact_key in Hkey. injection Hkey as Ks Kx Ksub Kp Ko.
  destruct (as_about _ _ _ _ _ Hq) as (A1 & A2 & A3 & A4).
  destruct (asked_rows q cmd r a d' Hok' Hready Hq) as (rows & HF & Hrows & Habs).
  exists (map scanFact rows). split; [exact HF|].
  assert (facts_filter q old = range_contains old (pg_ts (t_ns (fq_at q)))) as Fold
    by (apply (facts_filter_now q cmd r a d'); congruence).
  assert (facts_filter q new = range_contains new (pg_ts (t_ns (fq_at q)))) as Fnew
    by (apply (facts_filter_now q cmd r a d'); congruence).
  unfold range_contains in Fold, Fnew. rewrite Hof, Hot in Fold. rewrite Hnf, Hnt in Fnew. split; intros Ht.
  - split; [apply list_elem_of_fmap_2, Hrows; split; [done|rewrite Fold; lia]|].
    split; [intros f Hf; apply (Habs new); [done|rewrite Fnew; lia|done]|].
    intros x Hx Hin Hk. rewrite <- Hnf. apply (earlier_over d' x new (pg_ts (t_ns (fq_at q)))); try done; [|lia].
    assert (facts_filter q x = true) as <-; [apply not_false_is_true; intros Hfx; by apply (Habs x (scanFact x))|].
    unfold fact_key in Hk. injection Hk as Ksx Kxx Ksubx Kpx _.
    symmetry. apply (facts_filter_now q cmd r a d'); congruence.
  - split; [apply list_elem_of_fmap_2, Hrows; split; [done|rewrite Fnew; lia]|].
    intros f Hf. rewrite <- Hid. apply (Habs old); [done|rewrite Fold; lia|done].
Qed.
End Supersession.

(** ** A concrete change *)

(** Ada liked tea, from 2000; from 3000 it is milk. *)
Definition demo_before : Db := (ApplyExtraction (demo_extract [1%N] [demo_claim "tea" 2000 0]) demo_appended).1.
Definition demo_change : ExtractCommand :=
  MkExtractCommand "s" "x" [2%N] [demo_claim "milk" 3000 0] [MkRetraction 5%N (utc 3000)] (utc 9000).
Definition demo_after : Db := (ApplyExtraction demo_change demo_before).1.
Definition demo_tea : FactRow :=
  MkFactRow 5 "s" "x" "ada" "likes" "tea" "Ada likes it." 2000 None (f32_of_Z 1) [1%N] 9000 9000.
Definition demo_ask (at_ : Z) : FactQuery := MkFactQuery "s" "x" (utc 9000) (utc at_) false ["ada"%string] [] f_zero "" 0.

Example demo_answers :
  map (fun at_ => match (Facts (demo_ask at_) demo_after).2 with Ok fs => map f_object fs | Err _ => [] end)
    [1000; 2000; 2999; 3000; 9000] = [[]; ["tea"]; ["tea"]; ["milk"]; ["milk"]]%string.
Proof. vm_compute. reflexivity. Qed.

Lemma demo_before_ok : db_ok demo_before.
Proof.
  destruct (ApplyExtraction (demo_extract [1%N] [demo_claim "tea" 2000 0]) demo_appended) as [d [facts|e]] eqn:H.
  - unfold demo_before. rewrite H. exact (ApplyExtraction_ok _ _ _ _ demo_appended_ok H).
  - exfalso. vm_compute in H. discriminate H.
Qed.

Lemma demo_change_of_mind : change_of_mind demo_change demo_tea (demo_claim "milk" 3000 0) demo_before.
Proof.
  split.
  - split; [|by split]. replace (db_facts demo_before) with [demo_tea] by (vm_compute; reflexivity). left.
  - split; [vm_compute; reflexivity|exact I].
  - split; [left|]. refine (bool_decide_unpack _ _). vm_compute. exact I.
  - exists [demo_claim "milk" 3000 0]. split; [vm_compute; reflexivity|]. split; [left|].
    intros b Hb%list_elem_of_singleton _. exact Hb.
  - vm_compute. reflexivity.
  - exists 2%N. split; [left|]. vm_compute. reflexivity.
Qed.

Lemma demo_asks : asks (demo_ask 3000) demo_change demo_tea (demo_claim "milk" 3000 0) demo_after.
Proof.
  split.
  - split; [vm_compute; reflexivity|]. split; discriminate.
  - by split.
  - assert (forallb (fun x => gr_asserted x <=? 9000) (db_facts demo_after) = true) as H by (vm_compute; reflexivity).
    intros x Hx%list_elem_of_In. rewrite forallb_forall in H. exact (proj1 (Z.leb_le _ _) (H x Hx)).
  - split_and!; vm_compute; reflexivity.
  - split_and!; vm_compute; [reflexivity..|discriminate].
  - vm_compute. reflexivity.
Qed.

Lemma supersedes_witness :
  exists fs, Facts (demo_ask 3000) demo_after = (demo_after, Ok fs) /\
    (exists f, f ∈ fs /\ f_object f = "milk"%string) /\ forall f, f ∈ fs -> f_id f <> 5%N.
Proof.
  destruct (ApplyExtraction demo_change demo_before) as [d [facts|e]] eqn:H; [|exfalso; vm_compute in H; discriminate H].
  assert (d = demo_after) as Hd by (unfold demo_after; by rewrite H). rewrite Hd in H.
  destruct (supersedes demo_change demo_tea (demo_claim "milk" 3000 0) demo_before demo_after facts
    demo_before_ok H demo_change_of_mind)
    as (old & new & _ & _ & _ & _ & _ & _ & _ & _ & _ & _ & _ & Hobj & _ & _ & _ & Hall).
  destruct (Hall (demo_ask 3000) demo_asks) as (fs & HF & _ & Hlate).
  destruct Hlate as [Hf Hold]; [vm_compute; discriminate|].
  exists fs. split; [exact HF|]. split; [exists (scanFact new); split; [exact Hf|exact Hobj]|exact Hold].
Defined.

(** The instant a fact began is not inside its window: a command that closes one
    there, as the checks of a model's answer and the rule extractor of the tests both
    let it, is refused whole, and the new claim with it. *)
Example closing_at_start_fails :
  ApplyExtraction (MkExtractCommand "s" "x" [2%N] [demo_claim "milk" 2000 0] [MkRetraction 5%N (utc 2000)] (utc 9000)) demo_before =
    (demo_before, Err (EWrap ErrInvalidValidity)).
Proof. vm_compute. reflexivity. Qed.
