(* ===== verification/Failures.v ===== *)
(** * What can go wrong with an extraction

    A valid command over episodes of the log fails only because of what it says:
    claims that conflict, a closing of a fact that is not there or had not begun, a
    window the column's resolution leaves empty, a text the server does not store. An
    extract job of a worker adds what its model answered, and nothing else. *)

From S2P Require Import Prelude Utf8 GoNum Types Windows OpsTypes Validate Server Db PgQueue Queueing PgEpisode Appending Replaying PgFact FactWriting FactReading Supersession.

#[local] Open Scope Z_scope.

Section Failures.
Context `{Sv : Server} `{!ServerLaws Sv}.

(** The ways a valid command fails, and what of it is to blame. *)
Inductive fault (cmd : ExtractCommand) (d : Db) : Error -> Prop :=
  | fault_conflict : fault cmd d (EWrap ErrFactConflict)
  | fault_unknown x :
      x ∈ xc_retract cmd -> (forall g, g ∈ db_facts d -> gr_scope g = xc_scope cmd -> gr_id g <> r_fact x) ->
      fault cmd d (EWrap ErrNotFound)
  | fault_closing x g :
      x ∈ xc_retract cmd -> g ∈ db_facts d -> gr_id g = r_fact x -> t_ns (r_at x) <= gr_from g ->
      fault cmd d (EWrap ErrInvalidValidity)
  | fault_claim a :
      a ∈ xc_assert cmd -> range_ok (lower_of a) (upper_of a) && pg_in_unit (a_confidence a) = false ->
      fault cmd d (EJoin (EWrap ErrInvalidFact) (EPg pgerrcodeCheckViolation))
  | fault_text a :
      a ∈ xc_assert cmd -> forallb pg_text (assertion_texts a) = false -> fault cmd d (EPg pgerrcodeBadText).

(** What the schema asks of an extractor's name. *)
Definition nameable (extractor : string) : Prop := pg_text extractor = true /\ 1 <= pg_length extractor <= 200.

(** ** Retracting *)

(** What closing keeps of a row. *)
Definition same_start (g g' : FactRow) : Prop := gr_id g' = gr_id g /\ gr_from g' = gr_from g /\ gr_scope g' = gr_scope g.

Lemma retraction_step scope at_ x d :
  db_ok d -> db_ready d = true ->
  (exists d1, applyRetractions scope at_ [x] d = (d1, Ok tt) /\ db_ok d1 /\ db_ready d1 = true /\
     Forall2 same_start (db_facts d) (db_facts d1)) \/
  (exists e, applyRetractions scope at_ [x] d = (d, Err e) /\
    (e = EWrap ErrNotFound /\ (forall g, g ∈ db_facts d -> gr_scope g = scope -> gr_id g <> r_fact x) \/
     e = EWrap ErrInvalidValidity /\ exists g, g ∈ db_facts d /\ gr_id g = r_fact x /\ t_ns (r_at x) <= gr_from g)).
Proof.
  intros Hok Hready. pose proof (retraction_spec scope x at_ d Hok Hready) as Hrun. rewrite Hrun. unfold retraction in Hrun |- *.
  destruct (fact_by_id scope (r_fact x) d) as [g|] eqn:Hg.
  - apply find_elem in Hg as [Hg [Hid _]%andb_true_iff]. apply N.eqb_eq in Hid.
    destruct (retractable (r_fact x) scope (pg_ts (t_ns (r_at x))) g).
    + left. eexists. split; [done|]. split; [by eapply applyRetractions_ok|]. split; [done|]. cbn.
      apply Forall2_fmap_r, Forall_Forall2_diag, Forall_forall. intros r _. unfold same_start. unfold compose. by destruct (retractable _ scope _ r).
    + destruct (Z.leb_spec (t_ns (r_at x)) (gr_from g)).
      * right. eexists. split; [done|]. right. split; [done|]. by exists g.
      * left. exists d. split; [done|]. split; [done|]. split; [done|]. apply Forall_Forall2_diag, Forall_forall. done.
  - right. eexists. split; [done|]. left. split; [done|]. intros g' Hg' Hs Hid.
    eapply find_absent in Hg; [|exact Hg']. by rewrite Hid, Hs, N.eqb_refl, String.eqb_refl in Hg.
Qed.

Lemma applyRetractions_cons scope at_ x rs d :
  applyRetractions scope at_ (x :: rs) d = obind (applyRetractions scope at_ [x]) (fun _ => applyRetractions scope at_ rs) d.
Proof.
  cbn [applyRetractions]. unfold obind, oret. destruct (retract_stmt _ _ _ _ d) as [d1 [n|]]; [|done].
  destruct (0 <? n); [done|]. by destruct (explainRetraction scope x d1) as [d2 [[]|]].
Qed.

(** Closing windows fails for want of the fact, or of its beginning. *)
Lemma applyRetractions_fails scope at_ rs d d' e :
  db_ok d -> db_ready d = true -> applyRetractions scope at_ rs d = (d', Err e) ->
  exists x, x ∈ rs /\
    (e = EWrap ErrNotFound /\ (forall g, g ∈ db_facts d -> gr_scope g = scope -> gr_id g <> r_fact x) \/
     e = EWrap ErrInvalidValidity /\ exists g, g ∈ db_facts d /\ gr_id g = r_fact x /\ t_ns (r_at x) <= gr_from g).
Proof.
  revert d. induction rs as [|x rs IH]; intros d Hok Hready H; [done|].
  rewrite applyRetractions_cons in H. unfold obind in H.
  destruct (retraction_step scope at_ x d Hok Hready) as [(d1 & Hrun & Hok1 & Hr1 & HF)|(e' & Hrun & Hwhy)]; rewrite Hrun in H.
  - destruct (IH d1 Hok1 Hr1 H) as (y & Hy & Hwhy). exists y. split; [by right|].
    destruct Hwhy as [[-> Hn]|[-> (g' & Hg' & Hid & Hle)]]; [left|right]; (split; [done|]).
    + intros g [i Hi]%list_elem_of_lookup Hs Hid. destruct (Forall2_lookup_l _ _ _ _ _ HF Hi) as (g' & Hi' & Ha & _ & Hb).
      apply (Hn g'); [by eapply list_elem_of_lookup_2|congruence|congruence].
    + apply list_elem_of_lookup in Hg' as [i Hi]. destruct (Forall2_lookup_r _ _ _ _ _ HF Hi) as (g & Hi' & Ha & Hb & _).
      exists g. split; [by eapply list_elem_of_lookup_2|]. split; [congruence|]. by rewrite <- Hb.
  - injection H as _ <-. exists x. split; [by left|done].
Qed.

(** ** Asserting *)

(** A claim that passed validation fits the columns but, perhaps, for its window. *)
Lemma claim_fits a extractor scope eps at_ id :
  Assertion_Validate a = Ok tt -> nameable extractor -> eps <> [] ->
  fact_checks (new_fact scope extractor eps at_ id a) = range_ok (lower_of a) (upper_of a) && pg_in_unit (a_confidence a).
Proof.
  intros ([Hs _] & [Hp _] & Hsp & Ho & [Hl Hv] & Ht & _)%Assertion_Validate_spec [_ Hx] Hne.
  assert (1 <= pg_length (a_statement a)) as Hst.
  { apply rune_count_pos. intros He. apply Ht. rewrite He. reflexivity. }
  pose proof (label_length 0 4000 (a_statement a) ltac:(lia) (conj Hl Hv)) as Hst'.
  pose proof (label_length 1 200 (a_subject a) ltac:(lia) Hs). pose proof (label_length 1 100 (a_predicate a) ltac:(lia) Hp).
  pose proof (label_length 1 1000 (a_object a) ltac:(lia) Ho).
  unfold fact_checks, new_fact. cbn [gr_extractor gr_subject gr_predicate gr_object gr_statement gr_episodes gr_from gr_to gr_confidence].
  rewrite !(proj2 (between_spec _ _ _)) by lia. rewrite Hsp, (proj2 (Z.ltb_lt _ _)); [done|]. destruct eps; [done|cbn; lia].
Qed.

(** It is stored as it is, unless its window or its confidence is none to the column,
    or a text of it holds a zero byte. *)
Lemma claim_storable a extractor scope eps at_ id :
  Assertion_Validate a = Ok tt -> nameable extractor -> eps <> [] ->
  range_ok (lower_of a) (upper_of a) = true -> is_nan (a_confidence a) = false ->
  forallb no_nul (assertion_texts a) = true ->
  fact_checks (new_fact scope extractor eps at_ id a) = true /\ forallb pg_text (assertion_texts a) = true.
Proof.
  intros Hv Hx Hne Hr Hn Hz. rewrite claim_fits by done. rewrite Hr. cbn [andb].
  apply Assertion_Validate_spec in Hv as ([[_ Hs] _] & [[_ Hp] _] & _ & [_ Ho] & [_ Ht] & _ & Hc & _). split.
  - unfold pg_in_unit. rewrite Hn. unfold outside_unit in Hc. by apply orb_false_iff in Hc as [-> ->].
  - unfold assertion_texts in *. cbn [forallb] in *. rewrite !andb_true_iff in *. rewrite !pg_text_spec. tauto.
Qed.

Lemma refreshed_fits a r extractor scope eps at_ :
  matches scope extractor r a = true -> Assertion_Validate a = Ok tt -> nameable extractor -> eps <> [] ->
  fact_checks (refresh_row eps at_ r a) = range_ok (lower_of a) (upper_of a) && pg_in_unit (a_confidence a).
Proof.
  intros (Hsc & Hex & Hs & Hp & Ho & Hf & Ht)%matches_spec Hv Hx Hne.
  rewrite <- (claim_fits a extractor scope (merge_episodes (gr_episodes r) eps) 0 0%N Hv Hx).
  - unfold fact_checks, refresh_row, new_fact. cbn. by rewrite Hex, Hs, Hp, Ho, Hf, Ht.
  - intros Hnil. destruct eps as [|id eps]; [done|]. assert (id ∈ merge_episodes (gr_episodes r) (id :: eps)) as Hin
      by (apply elem_of_merge; right; by left). rewrite Hnil in Hin. by apply not_elem_of_nil in Hin.
Qed.

Lemma forallb_false {A} (f : A -> bool) l : forallb f l = false -> exists x, x ∈ l /\ f x = false.
Proof.
  induction l as [|y l IH]; cbn; [done|]. destruct (f y) eqn:Hy; [|intros _; exists y; split; [by left|done]].
  intros (x & Hx & Hf)%IH. exists x. split; [by right|done].
Qed.

(** The statement fails for a claim that does not fit, or one that conflicts. *)
Lemma assert_stmt_fails scope extractor input eps at_ d d' e :
  db_ready d = true -> Forall (fun a => Assertion_Validate a = Ok tt) input -> nameable extractor -> eps <> [] ->
  assert_stmt scope extractor input eps at_ d = (d', Err e) ->
  e = EPg pgerrcodeExclusionViolation \/
  e = EPg pgerrcodeCheckViolation /\ exists a, a ∈ input /\ range_ok (lower_of a) (upper_of a) && pg_in_unit (a_confidence a) = false.
Proof.
  intros Hready Hall Hx Hne. unfold assert_stmt, on_schema. rewrite Hready. cbv zeta.
  set (updated := omap (refreshed scope extractor input eps at_) (db_facts d)).
  set (rows := new_facts _ _ _ _ _ _). unfold write_facts.
  destruct (forallb fact_checks (updated ++ rows)) eqn:Hc; cbn [negb].
  { destruct (no_clash _); cbn [negb]; [done|]. intros [= _ <-]. by left. }
  intros [= _ <-]. right. split; [done|]. rewrite Forall_forall in Hall.
  apply forallb_false in Hc as (x & [Hx'|Hx']%elem_of_app & Hf).
  - apply list_elem_of_omap in Hx' as (r & _ & Hr). unfold refreshed in Hr. destruct (List.find _ input) as [a|] eqn:Hfind; [|done].
    injection Hr as <-. apply find_elem in Hfind as [Ha Hm]. exists a. split; [done|].
    rewrite <- (refreshed_fits a r extractor scope eps at_); auto.
  - apply elem_of_new_facts in Hx' as (i & a & Ha & ->). apply list_elem_of_lookup_2, elem_of_filter_b in Ha as [Ha _].
    exists a. split; [done|]. rewrite <- Hf. symmetry. apply claim_fits; auto.
Qed.

(** ** The whole *)

Lemma dedupe_fails ins e : dedupeAssertions ins = Err e -> e = EWrap ErrFactConflict.
Proof.
  unfold dedupeAssertions. generalize (@nil Assertion). induction ins as [|a ins IH]; intros out; cbn; [done|].
  unfold dedupe_one. destruct (existsb _ _); [apply IH|]. destruct (existsb _ _); [by intros [= <-]|apply IH].
Qed.

Lemma dedupe_keeps ins l a : dedupeAssertions ins = Ok l -> a ∈ l -> a ∈ ins.
Proof.
  intros H Ha. destruct (dedupe_loop_spec ins [] l) as (_ & (kept & -> & Hs) & _); [constructor|exact H|].
  by eapply elem_of_sublist.
Qed.

(** Every name has its row. *)
Lemma found_enough eps scope d : NoDup eps -> in_log eps scope d -> (length eps <= length (found_rows eps scope d))%nat.
Proof.
  intros Hnd Hlog. rewrite <- (length_map er_id (found_rows eps scope d)). apply submseteq_length, NoDup_submseteq; [done|].
  intros id Hid. unfold in_log in Hlog. rewrite Forall_forall in Hlog. destruct (Hlog id Hid) as (r & Hr & <- & Hs).
  apply list_elem_of_fmap_2. by apply elem_of_found.
Qed.

Lemma mark_succeeds eps scope extractor count at_ d :
  db_ok d -> db_ready d = true -> 0 <= count -> nameable extractor -> NoDup eps -> in_log eps scope d ->
  exists d0 found marked, mark_stmt eps scope extractor count at_ d = (d0, Ok (found, marked)) /\
    Z.of_nat (length eps) <= found /\ db_ok d0 /\ db_ready d0 = true /\ db_facts d0 = db_facts d.
Proof.
  intros Hok Hready Hc [_ Hx] Hnd Hlog.
  destruct (mark_stmt eps scope extractor count at_ d) as [d0 [[found marked]|e]] eqn:Hm.
  - exists d0, found, marked. destruct (mark_stmt_ok _ _ _ _ _ _ _ _ _ Hok Hm) as (Hok0 & -> & _).
    split; [done|]. split; [pose proof (found_enough eps scope d Hnd Hlog); lia|]. split; [done|].
    revert Hm. unfold mark_stmt, on_schema. rewrite Hready. destruct (negb _); [done|]. by intros [= <- _].
  - exfalso. revert Hm. unfold mark_stmt, on_schema. rewrite Hready. cbv zeta.
    destruct (forallb extraction_checks _) eqn:Hall; cbn [negb]; [done|]. intros _.
    apply forallb_false in Hall as (x & (r & -> & _)%list_elem_of_fmap & Hf). unfold extraction_checks, marker in Hf. cbn in Hf.
    rewrite (proj2 (between_spec _ _ _)), andb_true_r in Hf by done. lia.
Qed.

Lemma write_part_fails cmd l marked d d' e :
  db_ok d -> db_ready d = true -> Forall (fun a => Assertion_Validate a = Ok tt) l -> (forall a, a ∈ l -> a ∈ xc_assert cmd) ->
  nameable (xc_extractor cmd) -> xc_episodes cmd <> [] ->
  write_part cmd l marked d = (d', Err e) -> fault cmd d e.
Proof.
  intros Hok Hready Hall Hsub Hx Hne. unfold write_part. destruct (0 <? marked); [|done]. unfold obind.
  pose proof (applyRetractions_log (xc_scope cmd) (xc_at cmd) (xc_retract cmd) d) as (_ & _ & Hr).
  destruct (applyRetractions _ _ _ d) as [d1 [[]|e1]] eqn:Hret; cbn [fst] in Hr.
  - unfold applyAssertions. destruct l as [|a0 l0] eqn:Hl; [done|]. rewrite <- Hl in *. unfold omap_err, with_text.
    destruct (forallb pg_text (concat (map assertion_texts l))) eqn:Ht.
    + destruct (assert_stmt _ _ _ _ _ d1) as [d2 [u|e2]] eqn:Hs; [done|]. intros [= _ <-].
      apply assert_stmt_fails in Hs as [->|[-> (a & Ha & Hbad)]]; [apply fault_conflict| |congruence|done|done|done].
      apply (fault_claim cmd d a); [by apply Hsub|done].
    + intros [= _ <-]. apply forallb_false in Ht as (s & Hs & Hbad). apply list_elem_of_In, in_concat in Hs as (ts & Hts & Hin).
      apply list_elem_of_In, list_elem_of_fmap in Hts as (a & -> & Ha). apply (fault_text cmd d a); [by apply Hsub|].
      apply not_true_is_false. intros Hgood. rewrite forallb_forall in Hgood. rewrite Hgood in Hbad by done. discriminate.
  - intros [= _ <-]. destruct (applyRetractions_fails _ _ _ _ _ _ Hok Hready Hret) as (x & Hxin & [[-> Hno]|[-> (g & Hg & Hid & Hle)]]).
    + by apply (fault_unknown cmd d x).
    + by apply (fault_closing cmd d x g).
Qed.

(** a valid command of a nameable extractor, over distinct episodes of the log,
    either succeeds or has a fault, and then it has changed nothing. *)
Theorem ApplyExtraction_faults cmd d d' e :
  db_ok d -> db_ready d = true -> ExtractCommand_Validate cmd = Ok tt -> nameable (xc_extractor cmd) ->
  NoDup (xc_episodes cmd) -> in_log (xc_episodes cmd) (xc_scope cmd) d ->
  ApplyExtraction cmd d = (d', Err e) -> d' = d /\ fault cmd d e.
Proof.
  intros Hok Hready Hv Hx Hnd Hlog. unfold ApplyExtraction. rewrite obind_olift, Hv, obind_olift.
  destruct (dedupeAssertions (xc_assert cmd)) as [l|e1] eqn:Hd; [|intros [= <- <-]; apply dedupe_fails in Hd as ->; split; [done|apply fault_conflict]].
  intros H. split; [by eapply atomically_Err|]. unfold atomically in H.
  destruct (apply_tx cmd l d) as [d1 [fs|e1]] eqn:Htx; [done|]. injection H as _ <-.
  unfold ExtractCommand_Validate in Hv. rewrite !seq_Ok, !reject_Ok_tt, !check_all_Ok in Hv.
  destruct Hv as (_ & _ & Hne & _ & _ & _ & _ & Has & _). apply bool_decide_eq_false in Hne.
  assert (Forall (fun a => Assertion_Validate a = Ok tt) l) as Hall.
  { apply Forall_forall. intros a Ha. rewrite Forall_forall in Has. apply Has. by eapply dedupe_keeps. }
  destruct (mark_succeeds (xc_episodes cmd) (xc_scope cmd) (xc_extractor cmd) (Z.of_nat (length l)) (pg_ts (t_ns (xc_at cmd))) d)
    as (d0 & found & marked & Hm & Hf & Hok0 & Hr0 & Hfacts); [done|done|lia|done|done|done|].
  unfold apply_tx in Htx. unfold obind at 1, omap_err at 1, with_text at 1 in Htx. cbn [forallb] in Htx.
  rewrite (proj1 Hx) in Htx. cbn [andb] in Htx. rewrite Hm in Htx. cbv beta iota in Htx.
  destruct (_ <? _) eqn:Hlt in Htx; [apply Z.ltb_lt in Hlt; unfold EpisodeID in Hlt; lia|clear Hlt].
  fold (write_part cmd l marked) in Htx. unfold obind at 1 in Htx.
  pose proof (write_part_log cmd l marked d0) as (_ & _ & Hr1).
  destruct (write_part cmd l marked d0) as [d2 [[]|e2]] eqn:Hw; cbn [fst] in Hr1.
  - unfold omap_err, on_schema in Htx. rewrite Hr1, Hr0 in Htx. discriminate.
  - injection Htx as _ <-. apply write_part_fails in Hw; [|done|done|done| |done|destruct (xc_episodes cmd); [by destruct Hne|done]].
    + destruct Hw as [|x Hin Hno|x g Hin Hg Hid Hle|a|a]; rewrite ?Hfacts in *; [apply fault_conflict|by apply (fault_unknown cmd d x)|
        by apply (fault_closing cmd d x g)|by apply (fault_claim cmd d a)|by apply (fault_text cmd d a)].
    + intros a Ha. by eapply dedupe_keeps.
Qed.
End Failures.
