(* ===== verification/PgForget.v ===== *)
(** * Erasure ([postgres/forget.go])

    The one operation that takes rows out of L0. The transaction carries the
    session variable [mempher.erasing], which the append-only trigger of
    migration 0004 reads and which does not outlive it; every DELETE checks the
    foreign keys that point at the rows it removes. *)

From S2P Require Import Types Validate Server Db PgQueue Queueing PgEpisode Appending Replaying PgFact FactWriting FactReading.

#[local] Open Scope Z_scope.

(** What the trigger raises. *)
Definition pgerrcodeRaise : string := "P0001".

(** A transaction: the database it sees and its own [mempher.erasing]. *)
Record Tx : Type := MkTx { tx_db : Db; tx_erasing : bool }.
Abbreviation txop := (op Error Tx).

(** [Begin], the body, and [Commit] or the deferred [Rollback]. The variable is
    LOCAL: it starts unset and dies with the transaction. *)
Definition in_tx {A} (m : txop A) : dbop A := fun d =>
  match m (MkTx d false) with
  | (t, Ok a) => (tx_db t, Ok a)
  | (_, Err e) => (d, Err e)
  end.

(** [erasureDeclaration]. *)
Definition erasureDeclaration : txop unit := fun t => (MkTx (tx_db t) true, Ok tt).

(** A statement of the transaction that does not read the variable. *)
Definition exec (m : dbop Z) : txop Z := fun t =>
  let (d, r) := m (tx_db t) in (MkTx d (tx_erasing t), r).

(** ** DELETE, table by table: the number of rows affected *)

Definition keep_unless {A} (p : A -> bool) (l : list A) : list A :=
  List.filter (fun r => negb (p r)) l.
Definition matching {A} (p : A -> bool) (l : list A) : Z := Z.of_nat (length (List.filter p l)).

Arguments keep_unless {A} p l : simpl never.
Arguments matching {A} p l : simpl never.

Definition delete_facts (p : FactRow -> bool) : txop Z :=
  exec (on_schema (fun d => (set_facts (keep_unless p (db_facts d)) d, Ok (matching p (db_facts d))))).
Definition delete_extractions (p : ExtractionRow -> bool) : txop Z :=
  exec (on_schema (fun d =>
    (set_extractions (keep_unless p (db_extractions d)) d, Ok (matching p (db_extractions d))))).
Definition delete_encodings (p : EncodingRow -> bool) : txop Z :=
  exec (on_schema (fun d =>
    (set_encodings (keep_unless p (db_encodings d)) d, Ok (matching p (db_encodings d))))).
Definition delete_jobs (p : JobRow -> bool) : txop Z :=
  exec (on_schema (fun d => (set_jobs (keep_unless p (db_jobs d)) d, Ok (matching p (db_jobs d))))).

(** Rows that point at an episode hold it in place. *)
Definition episode_referenced (d : Db) (id : N) : bool :=
  existsb (fun x => N.eqb (nr_episode x) id) (db_encodings d) ||
  existsb (fun x => N.eqb (xt_episode x) id) (db_extractions d).

(** [reject_l0_mutation] fires once per statement, before it. *)
Definition delete_episodes (p : EpisodeRow -> bool) : txop Z := fun t =>
  if db_ready (tx_db t) && negb (tx_erasing t) then (t, Err (EPg pgerrcodeRaise)) else
  exec (on_schema (fun d =>
    if existsb (fun e => episode_referenced d (er_id e)) (List.filter p (db_episodes d))
    then (d, Err (EPg pgerrcodeForeignKeyViolat))
    else (set_episodes (keep_unless p (db_episodes d)) d, Ok (matching p (db_episodes d))))) t.

(** The five tables that name a scope. *)
Definition scope_referenced (d : Db) (s : string) : bool :=
  existsb (fun r => String.eqb (er_scope r) s) (db_episodes d) ||
  existsb (fun r => String.eqb (nr_scope r) s) (db_encodings d) ||
  existsb (fun r => String.eqb (jr_scope r) s) (db_jobs d) ||
  existsb (fun r => String.eqb (gr_scope r) s) (db_facts d) ||
  existsb (fun r => String.eqb (xt_scope r) s) (db_extractions d).

Definition delete_scope (s : string) : txop Z :=
  exec (on_schema (fun d =>
    let p := fun r => String.eqb (sr_id r) s in
    if existsb p (db_scopes d) && scope_referenced d s
    then (d, Err (EPg pgerrcodeForeignKeyViolat))
    else (set_scopes (keep_unless p (db_scopes d)) d, Ok (matching p (db_scopes d))))).

(** ** The steps *)

(** [erasureStep]: where the tally lands, and the two statements. *)
Record erasureStep : Type := MkErasureStep {
  es_what : string;
  es_count : Z -> ForgetResult -> ForgetResult;
  es_whole : string -> txop Z;
  es_some : string -> list N -> txop Z;
}.

Definition count_facts (n : Z) (r : ForgetResult) : ForgetResult :=
  MkForgetResult (fg_scope r) (fg_episodes r) (fg_encodings r) n (fg_extractions r) (fg_jobs r)
    (fg_scope_removed r).
Definition count_extractions (n : Z) (r : ForgetResult) : ForgetResult :=
  MkForgetResult (fg_scope r) (fg_episodes r) (fg_encodings r) (fg_facts r) n (fg_jobs r)
    (fg_scope_removed r).
Definition count_encodings (n : Z) (r : ForgetResult) : ForgetResult :=
  MkForgetResult (fg_scope r) (fg_episodes r) n (fg_facts r) (fg_extractions r) (fg_jobs r)
    (fg_scope_removed r).
Definition count_jobs (n : Z) (r : ForgetResult) : ForgetResult :=
  MkForgetResult (fg_scope r) (fg_episodes r) (fg_encodings r) (fg_facts r) (fg_extractions r) n
    (fg_scope_removed r).
Definition count_episodes (n : Z) (r : ForgetResult) : ForgetResult :=
  MkForgetResult (fg_scope r) n (fg_encodings r) (fg_facts r) (fg_extractions r) (fg_jobs r)
    (fg_scope_removed r).
Definition scope_removed (b : bool) (r : ForgetResult) : ForgetResult :=
  MkForgetResult (fg_scope r) (fg_episodes r) (fg_encodings r) (fg_facts r) (fg_extractions r)
    (fg_jobs r) b.

(** [a && b] on uuid arrays. *)
Definition arrays_meet (a b : list N) : bool := existsb (fun id => bool_decide (id ∈ b)) a.

(** [erasureSteps], in their order. *)
Definition erasureSteps : list erasureStep :=
  [ MkErasureStep "facts" count_facts
      (fun s => delete_facts (fun r => String.eqb (gr_scope r) s))
      (fun s eps => delete_facts (fun r => String.eqb (gr_scope r) s && arrays_meet (gr_episodes r) eps));
    MkErasureStep "extraction markers" count_extractions
      (fun s => delete_extractions (fun r => String.eqb (xt_scope r) s))
      (fun s eps => delete_extractions
        (fun r => String.eqb (xt_scope r) s && bool_decide (xt_episode r ∈ eps)));
    MkErasureStep "encodings" count_encodings
      (fun s => delete_encodings (fun r => String.eqb (nr_scope r) s))
      (fun s eps => delete_encodings
        (fun r => String.eqb (nr_scope r) s && bool_decide (nr_episode r ∈ eps)));
    MkErasureStep "jobs" count_jobs
      (fun s => delete_jobs (fun r => String.eqb (jr_scope r) s))
      (fun s eps => delete_jobs (fun r => String.eqb (jr_scope r) s && arrays_meet (jr_episodes r) eps));
    MkErasureStep "episodes" count_episodes
      (fun s => delete_episodes (fun r => String.eqb (er_scope r) s))
      (fun s eps => delete_episodes
        (fun r => String.eqb (er_scope r) s && bool_decide (er_id r ∈ eps))) ].

(** [wrapForgetError]. *)
Definition wrapForgetError (e : Error) : Error := wrap_query e.

Definition whole_scope (req : ForgetRequest) : bool := Nat.eqb (length (fr_episodes req)) 0.

(** The loop over the steps. *)
Fixpoint run_steps (req : ForgetRequest) (steps : list erasureStep) (out : ForgetResult)
    : txop ForgetResult :=
  match steps with
  | [] => oret out
  | step :: rest =>
      let! n := omap_err wrapForgetError
        (if negb (whole_scope req) then es_some step (fr_scope req) (fr_episodes req)
         else es_whole step (fr_scope req)) in
      run_steps req rest (es_count step n out)
  end.

Definition forget_tx (req : ForgetRequest) : txop ForgetResult :=
  omap_err wrapForgetError erasureDeclaration ;;;
  let! out := run_steps req erasureSteps (MkForgetResult (fr_scope req) 0 0 0 0 0 false) in
  if whole_scope req
  then let! n := omap_err wrapForgetError (delete_scope (fr_scope req)) in
       oret (scope_removed (0 <? n) out)
  else oret out.

(** [Store.Forget]. *)
Definition Forget (req : ForgetRequest) : dbop ForgetResult :=
  olift (ForgetRequest_Validate req) ;;; in_tx (forget_tx req).

(** ** What an erasure comes to *)

(** The rows of each table that go. *)
Definition named (req : ForgetRequest) (eps : list N) : bool :=
  whole_scope req || arrays_meet eps (fr_episodes req).

Definition gone_fact (req : ForgetRequest) (r : FactRow) : bool :=
  String.eqb (gr_scope r) (fr_scope req) && named req (gr_episodes r).
Definition gone_extraction (req : ForgetRequest) (r : ExtractionRow) : bool :=
  String.eqb (xt_scope r) (fr_scope req) && named req [xt_episode r].
Definition gone_encoding (req : ForgetRequest) (r : EncodingRow) : bool :=
  String.eqb (nr_scope r) (fr_scope req) && named req [nr_episode r].
Definition gone_job (req : ForgetRequest) (r : JobRow) : bool :=
  String.eqb (jr_scope r) (fr_scope req) && named req (jr_episodes r).
Definition gone_episode (req : ForgetRequest) (r : EpisodeRow) : bool :=
  String.eqb (er_scope r) (fr_scope req) && named req [er_id r].
Definition gone_scope (req : ForgetRequest) (r : ScopeRow) : bool :=
  whole_scope req && String.eqb (sr_id r) (fr_scope req).

(** The database without them. *)
Definition erased (req : ForgetRequest) (d : Db) : Db :=
  MkDb (db_ready d) (db_dims d) (keep_unless (gone_scope req) (db_scopes d))
    (keep_unless (gone_episode req) (db_episodes d)) (keep_unless (gone_encoding req) (db_encodings d))
    (keep_unless (gone_job req) (db_jobs d)) (keep_unless (gone_fact req) (db_facts d))
    (keep_unless (gone_extraction req) (db_extractions d)) (db_minted d).

(** How many of them there were. *)
Definition tally (req : ForgetRequest) (d : Db) : ForgetResult :=
  MkForgetResult (fr_scope req) (matching (gone_episode req) (db_episodes d))
    (matching (gone_encoding req) (db_encodings d)) (matching (gone_fact req) (db_facts d))
    (matching (gone_extraction req) (db_extractions d)) (matching (gone_job req) (db_jobs d))
    (0 <? matching (gone_scope req) (db_scopes d)).

Lemma arrays_meet_spec a b : arrays_meet a b = true <-> exists id, id ∈ a /\ id ∈ b.
Proof. unfold arrays_meet. rewrite existsb_spec. by setoid_rewrite bool_decide_eq_true. Qed.

Lemma named_spec req eps :
  named req eps = true <-> fr_episodes req = [] \/ exists id, id ∈ eps /\ id ∈ fr_episodes req.
Proof.
  unfold named, whole_scope. rewrite orb_true_iff, arrays_meet_spec, Nat.eqb_eq.
  by rewrite length_zero_iff_nil.
Qed.

Lemma elem_of_keep {A} (p : A -> bool) (l : list A) x :
  x ∈ keep_unless p l <-> x ∈ l /\ p x = false.
Proof. unfold keep_unless. by rewrite elem_of_filter_b, negb_true_iff. Qed.

Lemma keep_unless_ext {A} (p q : A -> bool) (l : list A) :
  (forall x, p x = q x) -> keep_unless p l = keep_unless q l.
Proof. intros H. apply List.filter_ext. intros x. by rewrite H. Qed.

Lemma matching_ext {A} (p q : A -> bool) (l : list A) :
  (forall x, p x = q x) -> matching p l = matching q l.
Proof. intros H. unfold matching. by erewrite List.filter_ext. Qed.

Lemma keep_all {A} (p : A -> bool) (l : list A) :
  (forall x, x ∈ l -> p x = false) -> keep_unless p l = l.
Proof.
  unfold keep_unless. induction l as [|x l IH]; intros H; [done|]. cbn. rewrite H by (by left). cbn.
  f_equal. apply IH. intros y Hy. apply H. by right.
Qed.

Lemma keep_unless_twice {A} (p : A -> bool) (l : list A) :
  keep_unless p (keep_unless p l) = keep_unless p l.
Proof. apply keep_all. intros x [_ Hx]%elem_of_keep. done. Qed.

Lemma matching_kept {A} (p : A -> bool) (l : list A) : matching p (keep_unless p l) = 0.
Proof.
  unfold matching. rewrite (proj2 (filter_none p (keep_unless p l))); [done|].
  by intros x [_ Hx]%elem_of_keep.
Qed.

Lemma keep_length {A} (p : A -> bool) (l : list A) :
  Z.of_nat (length (keep_unless p l)) + matching p l = Z.of_nat (length l).
Proof.
  unfold matching. induction l as [|x l IH]; [done|].
  unfold keep_unless in *. cbn. destruct (p x); cbn in *; lia.
Qed.

Lemma omap_err_Ok {A} (f : Error -> Error) (m : txop A) t t' a :
  m t = (t', Ok a) -> omap_err f m t = (t', Ok a).
Proof. unfold omap_err. by intros ->. Qed.

Lemma step_Ok {A B} (f : Error -> Error) (m : txop A) (k : A -> txop B) t t' a :
  m t = (t', Ok a) -> obind (omap_err f m) k t = k a t'.
Proof. intros H. unfold obind. by rewrite (omap_err_Ok f m t t' a H). Qed.

(** The statement of a step, whichever of the two the request runs. *)
Definition step_stmt (req : ForgetRequest) (s : erasureStep) : txop Z :=
  if negb (whole_scope req) then es_some s (fr_scope req) (fr_episodes req)
  else es_whole s (fr_scope req).

Lemma stmt_choice {A} (del : (A -> bool) -> txop Z) (scope : A -> string) (eps : A -> list N)
    (some : A -> bool) req :
  (forall p q, (forall x, p x = q x) -> forall t, del p t = del q t) ->
  (forall r, some r = String.eqb (scope r) (fr_scope req) && arrays_meet (eps r) (fr_episodes req)) ->
  forall t,
  (if negb (whole_scope req) then del some else del (fun r => String.eqb (scope r) (fr_scope req))) t
  = del (fun r => String.eqb (scope r) (fr_scope req) && named req (eps r)) t.
Proof.
  intros Hext Hsome t. unfold named. destruct (whole_scope req); cbn; apply Hext; intros x.
  - by rewrite andb_true_r.
  - apply Hsome.
Qed.

Lemma meet_one id eps : arrays_meet [id] eps = bool_decide (id ∈ eps).
Proof. unfold arrays_meet. cbn. apply orb_false_r. Qed.

Section Erase.
Context `{Sv : Server} `{!ServerLaws Sv}.

(** *** The statements, in a ready schema *)

Lemma delete_facts_run p d b :
  db_ready d = true ->
  delete_facts p (MkTx d b) =
    (MkTx (set_facts (keep_unless p (db_facts d)) d) b, Ok (matching p (db_facts d))).
Proof. intros Hr. unfold delete_facts, exec, on_schema. cbn. by rewrite Hr. Qed.

Lemma delete_extractions_run p d b :
  db_ready d = true ->
  delete_extractions p (MkTx d b) =
    (MkTx (set_extractions (keep_unless p (db_extractions d)) d) b, Ok (matching p (db_extractions d))).
Proof. intros Hr. unfold delete_extractions, exec, on_schema. cbn. by rewrite Hr. Qed.

Lemma delete_encodings_run p d b :
  db_ready d = true ->
  delete_encodings p (MkTx d b) =
    (MkTx (set_encodings (keep_unless p (db_encodings d)) d) b, Ok (matching p (db_encodings d))).
Proof. intros Hr. unfold delete_encodings, exec, on_schema. cbn. by rewrite Hr. Qed.

Lemma delete_jobs_run p d b :
  db_ready d = true ->
  delete_jobs p (MkTx d b) =
    (MkTx (set_jobs (keep_unless p (db_jobs d)) d) b, Ok (matching p (db_jobs d))).
Proof. intros Hr. unfold delete_jobs, exec, on_schema. cbn. by rewrite Hr. Qed.

(** L0 gives up a row only to a declared erasure, and only when nothing points
    at it. *)
Lemma delete_episodes_run p d :
  db_ready d = true ->
  (forall e, e ∈ db_episodes d -> p e = true -> episode_referenced d (er_id e) = false) ->
  delete_episodes p (MkTx d true) =
    (MkTx (set_episodes (keep_unless p (db_episodes d)) d) true, Ok (matching p (db_episodes d))).
Proof.
  intros Hr Hfk. unfold delete_episodes, exec, on_schema. cbn. rewrite Hr. cbn.
  replace (existsb _ _) with false; [done|]. symmetry. apply existsb_false.
  intros e [He Hp]%elem_of_filter_b. by apply Hfk.
Qed.

Lemma delete_scope_run s d b :
  db_ready d = true -> scope_referenced d s = false ->
  delete_scope s (MkTx d b) =
    (MkTx (set_scopes (keep_unless (fun r => String.eqb (sr_id r) s) (db_scopes d)) d) b,
     Ok (matching (fun r => String.eqb (sr_id r) s) (db_scopes d))).
Proof.
  intros Hr Hfk. unfold delete_scope, exec, on_schema. cbn. rewrite Hr, Hfk. by rewrite andb_false_r.
Qed.

(** *** What still points where, once the projections are gone *)

Definition without_projections (req : ForgetRequest) (d : Db) : Db :=
  MkDb (db_ready d) (db_dims d) (db_scopes d) (db_episodes d)
    (keep_unless (gone_encoding req) (db_encodings d)) (keep_unless (gone_job req) (db_jobs d))
    (keep_unless (gone_fact req) (db_facts d)) (keep_unless (gone_extraction req) (db_extractions d))
    (db_minted d).

Lemma episode_scope d e e' :
  db_ok d -> e ∈ db_episodes d -> e' ∈ db_episodes d -> er_id e = er_id e' -> e = e'.
Proof. intros Hok. apply NoDup_key, (eo_ids d (ok_episodes d Hok)). Qed.

Lemma unreferenced req d e :
  db_ok d -> e ∈ db_episodes d -> gone_episode req e = true ->
  episode_referenced (without_projections req d) (er_id e) = false.
Proof.
  intros Hok He Hg. unfold gone_episode in Hg. apply andb_true_iff in Hg as [Hs Hn].
  unfold episode_referenced. cbn. apply orb_false_iff. split; apply existsb_false.
  - intros x [Hx Hgx]%elem_of_keep. apply N.eqb_neq. intros Heq.
    destruct (ok_encodings d Hok) as [_ Hrows]. rewrite Forall_forall in Hrows.
    destruct (Hrows x Hx) as (_ & e' & He' & Hid & Hsc & _).
    assert (e' = e) as -> by (apply (episode_scope d); congruence).
    unfold gone_encoding in Hgx. rewrite <- Hsc, Hs, Heq, Hn in Hgx. done.
  - intros x [Hx Hgx]%elem_of_keep. apply N.eqb_neq. intros Heq.
    destruct (ok_extractions d Hok) as [_ Hrows]. rewrite Forall_forall in Hrows.
    destruct (Hrows x Hx) as (_ & e' & He' & Hid & Hsc & _).
    assert (e' = e) as -> by (apply (episode_scope d); congruence).
    unfold gone_extraction in Hgx. rewrite <- Hsc, Hs, Heq, Hn in Hgx. done.
Qed.

Lemma kept_elsewhere {A} (scope : A -> string) (eps : A -> list N) req l :
  whole_scope req = true ->
  existsb (fun r => String.eqb (scope r) (fr_scope req))
    (keep_unless (fun r => String.eqb (scope r) (fr_scope req) && named req (eps r)) l) = false.
Proof.
  intros Hw. apply existsb_false. intros x [_ Hx]%elem_of_keep. unfold named in Hx.
  by rewrite Hw, andb_true_r in Hx.
Qed.

Ltac delete_ext := 
  let p := fresh "p" in let q := fresh "q" in let H := fresh "H" in
  intros p q H ?; unfold delete_facts, delete_extractions, delete_encodings, delete_jobs, delete_episodes,
    exec, on_schema; try rewrite (List.filter_ext p q H);
    by rewrite ?(keep_unless_ext p q _ H), ?(matching_ext p q _ H), ?(List.filter_ext p q H).

(** The five DELETEs, one after the other. *)
Lemma run_steps_erased req d :
  db_ok d -> db_ready d = true ->
  run_steps req erasureSteps (MkForgetResult (fr_scope req) 0 0 0 0 0 false) (MkTx d true) =
    (MkTx (set_episodes (keep_unless (gone_episode req) (db_episodes d)) (without_projections req d)) true,
     Ok (MkForgetResult (fr_scope req) (matching (gone_episode req) (db_episodes d))
       (matching (gone_encoding req) (db_encodings d)) (matching (gone_fact req) (db_facts d))
       (matching (gone_extraction req) (db_extractions d)) (matching (gone_job req) (db_jobs d)) false)).
Proof.
  intros Hok Hr. unfold erasureSteps. cbn [run_steps es_some es_whole es_count].
  erewrite step_Ok; last first.
  { rewrite (stmt_choice delete_facts gr_scope gr_episodes); [|delete_ext|done]. by apply delete_facts_run. }
  erewrite step_Ok; last first.
  { rewrite (stmt_choice delete_extractions xt_scope (fun r => [xt_episode r]));
      [|delete_ext|intros; by rewrite meet_one]. by apply delete_extractions_run. }
  erewrite step_Ok; last first.
  { rewrite (stmt_choice delete_encodings nr_scope (fun r => [nr_episode r]));
      [|delete_ext|intros; by rewrite meet_one]. by apply delete_encodings_run. }
  erewrite step_Ok; last first.
  { rewrite (stmt_choice delete_jobs jr_scope jr_episodes); [|delete_ext|done]. by apply delete_jobs_run. }
  erewrite step_Ok; last first.
  { rewrite (stmt_choice delete_episodes er_scope (fun r => [er_id r]));
      [|delete_ext|intros; by rewrite meet_one].
    apply delete_episodes_run; [done|]. intros e He Hg. by apply (unreferenced req d). }
  done.
Qed.

Lemma scope_free req d :
  db_ok d -> whole_scope req = true ->
  scope_referenced (set_episodes (keep_unless (gone_episode req) (db_episodes d))
    (without_projections req d)) (fr_scope req) = false.
Proof.
  intros Hok Hw. unfold scope_referenced. cbn. rewrite !orb_false_iff.
  repeat split; by apply kept_elsewhere.
Qed.

(** The whole transaction. *)
Lemma Forget_run req d :
  db_ok d -> db_ready d = true -> ForgetRequest_Validate req = Ok tt ->
  Forget req d = (erased req d, Ok (tally req d)).
Proof.
  intros Hok Hr Hv. unfold Forget. rewrite obind_olift, Hv. unfold in_tx, forget_tx.
  erewrite step_Ok; [|reflexivity]. cbn [tx_db]. unfold obind at 1.
  rewrite run_steps_erased by done. unfold erased, tally, gone_scope. destruct (whole_scope req) eqn:Hw.
  - erewrite step_Ok; [|apply delete_scope_run; [done|by apply scope_free]]. done.
  - cbn. unfold oret, matching. rewrite (keep_all _ (db_scopes d)) by done.
    by rewrite (proj2 (filter_none _ (db_scopes d))).
Qed.

(** Either the erasure, or nothing. *)
Lemma Forget_cases req d :
  db_ok d ->
  match Forget req d with
  | (d', Ok r) => d' = erased req d /\ r = tally req d
  | (d', Err _) => d' = d
  end.
Proof.
  intros Hok. destruct (ForgetRequest_Validate req) as [[]|] eqn:Hv.
  2: { unfold Forget. by rewrite obind_olift, Hv. }
  destruct (db_ready d) eqn:Hr; [by rewrite Forget_run|].
  unfold Forget. rewrite obind_olift, Hv. unfold in_tx, forget_tx, obind, omap_err.
  cbn [erasureDeclaration erasureSteps run_steps]. unfold obind, omap_err.
  destruct (whole_scope req); cbn [negb es_whole es_some];
    unfold delete_facts, exec, on_schema; cbn [tx_db]; by rewrite Hr.
Qed.

Lemma keep_NoDup {A B} (key : A -> B) p (l : list A) :
  NoDup (map key l) -> NoDup (map key (keep_unless p l)).
Proof. apply NoDup_map_filter. Qed.

Lemma keep_copied req d id scope ing :
  db_ok d -> copied_from d id scope ing ->
  String.eqb scope (fr_scope req) && named req [id] = false -> copied_from (erased req d) id scope ing.
Proof.
  intros Hok (e & He & Hid & Hs & Hi) Hn. exists e. split; [|done]. apply elem_of_keep.
  split; [done|]. unfold gone_episode. by rewrite Hid, Hs.
Qed.

Lemma keep_pairs {A} (R : A -> A -> Prop) p (l : list A) :
  ForallOrdPairs R l -> ForallOrdPairs R (keep_unless p l).
Proof.
  induction 1 as [|x l Hx Hl IH]; [constructor|]. unfold keep_unless in *. cbn.
  destruct (p x); cbn; [done|]. constructor; [|done]. rewrite List.Forall_forall in *. intros y Hy. apply Hx.
  apply list_elem_of_In in Hy. apply elem_of_filter_b in Hy as [Hy _]. by apply list_elem_of_In.
Qed.

(** An erasure leaves a well-formed database. *)
Lemma erased_ok req d : db_ok d -> db_ok (erased req d).
Proof.
  intros Hok. pose proof Hok as [[Hs1 Hs2] [He1 He2 He3] [Hn1 Hn2] [Hj1 Hj2 Hj3] [Hf1 Hf2 Hf3] [Hx1 Hx2]].
  rewrite Forall_forall in Hs2. rewrite Forall_forall in He3. rewrite Forall_forall in Hn2.
  rewrite Forall_forall in Hj3. rewrite Forall_forall in Hf3. rewrite Forall_forall in Hx2.
  split; split; cbn; rewrite ?Forall_forall.
  - by apply keep_NoDup.
  - intros r [Hr _]%elem_of_keep. by apply Hs2.
  - by apply keep_NoDup.
  - by apply keep_NoDup.
  - intros r [Hr Hg]%elem_of_keep. destruct (He3 r Hr) as (? & ? & s & Hs & Hsid & Hle).
    split; [done|]. split; [done|]. exists s. split; [|done]. apply elem_of_keep. split; [done|].
    unfold gone_episode, named, gone_scope in *. rewrite Hsid. destruct (whole_scope req); [|done].
    by rewrite andb_true_r in Hg.
  - by apply keep_NoDup.
  - intros r [Hr Hg]%elem_of_keep. destruct (Hn2 r Hr) as [? ?]. split; [done|]. by apply keep_copied.
  - by apply keep_NoDup.
  - unfold inflight_keys, keep_unless. rewrite filter_comm. by apply NoDup_map_filter.
  - intros r [Hr Hg]%elem_of_keep. destruct (Hj3 r Hr) as (? & Hsc & ?). split; [done|]. split; [|done].
    apply has_scope_elem in Hsc. apply has_scope_elem. apply list_elem_of_fmap in Hsc as (s & Hs & Hin).
    apply list_elem_of_fmap. exists s. split; [done|]. apply elem_of_keep. split; [done|].
    unfold gone_job, named, gone_scope in *. rewrite <- Hs. destruct (whole_scope req); [|done].
    by rewrite andb_true_r in Hg.
  - by apply keep_NoDup.
  - by apply keep_pairs.
  - intros r [Hr Hg]%elem_of_keep. destruct (Hf3 r Hr) as (? & ? & Hl). split; [done|]. split; [done|].
    rewrite Forall_forall in Hl |- *. intros id Hid. destruct (Hl id Hid) as (e & He & Heid & Hes).
    exists e. split; [|done]. apply elem_of_keep. split; [done|]. unfold gone_episode.
    rewrite Hes, Heid. apply not_true_iff_false. intros [Hsc Hn]%andb_true_iff.
    unfold gone_fact in Hg. rewrite Hsc in Hg. cbn in Hg. apply not_true_iff_false in Hg. apply Hg.
    apply named_spec. apply named_spec in Hn as [|(i & Hi%list_elem_of_singleton & Hin)]; [by left|].
    right. exists id. subst i. done.
  - by apply keep_NoDup.
  - intros r [Hr Hg]%elem_of_keep. destruct (Hx2 r Hr) as [? ?]. split; [done|]. by apply keep_copied.
Qed.

(** *** The contract *)

(** The log and the projections that speak of an episode, in any scope... *)
Definition recorded (d : Db) (id : N) : Prop :=
  (exists e, e ∈ db_episodes d /\ er_id e = id) \/
  (exists r, r ∈ db_encodings d /\ nr_episode r = id) \/
  (exists r, r ∈ db_extractions d /\ xt_episode r = id) \/
  (exists r, r ∈ db_facts d /\ id ∈ gr_episodes r).

(** ... and rows of any table that do. *)
Definition mentions (d : Db) (id : N) : Prop :=
  recorded d id \/ exists r, r ∈ db_jobs d /\ id ∈ jr_episodes r.

(** Rows of any table that belong to a scope. *)
Definition belongs (d : Db) (scope : string) : Prop :=
  scope ∈ map sr_id (db_scopes d) \/ scope ∈ map er_scope (db_episodes d) \/
  scope ∈ map nr_scope (db_encodings d) \/ scope ∈ map jr_scope (db_jobs d) \/
  scope ∈ map gr_scope (db_facts d) \/ scope ∈ map xt_scope (db_extractions d).

Lemma named_any req id eps : fr_episodes req = [] \/ id ∈ fr_episodes req -> id ∈ eps -> named req eps = true.
Proof. intros Hor Hin. apply named_spec. destruct Hor; [by left|right; eauto]. Qed.

Lemma erased_jobs req d id :
  fr_episodes req = [] \/ id ∈ fr_episodes req ->
  forall r, r ∈ db_jobs (erased req d) -> id ∈ jr_episodes r -> r ∈ db_jobs d /\ jr_scope r <> fr_scope req.
Proof.
  intros Hor r [Hin Hg]%elem_of_keep Hid. split; [done|]. intros Hsc.
  unfold gone_job in Hg. by rewrite Hsc, String.eqb_refl, (named_any req id) in Hg.
Qed.

Lemma erased_unrecorded req d e :
  db_ok d -> e ∈ db_episodes d -> er_scope e = fr_scope req ->
  fr_episodes req = [] \/ er_id e ∈ fr_episodes req -> ~ recorded (erased req d) (er_id e).
Proof.
  intros Hok He Hs Hor.
  assert (gone_episode req e = true) as Hg.
  { unfold gone_episode. rewrite Hs, String.eqb_refl. apply (named_any req (er_id e)); [done|by left]. }
  pose proof (unreferenced req d e Hok He Hg) as Hun. unfold episode_referenced in Hun.
  apply orb_false_iff in Hun as [Hun1 Hun2]. rewrite existsb_false in Hun1. rewrite existsb_false in Hun2.
  intros [(e' & [He' Hg']%elem_of_keep & Hid)|[(r & Hin & Hid)|[(r & Hin & Hid)|(r & Hin & Hid)]]].
  - assert (e' = e) by (by apply (episode_scope d)). congruence.
  - specialize (Hun1 r Hin). by rewrite Hid, N.eqb_refl in Hun1.
  - specialize (Hun2 r Hin). by rewrite Hid, N.eqb_refl in Hun2.
  - apply elem_of_keep in Hin as [Hin Hgf]. destruct (ok_facts d Hok) as [_ _ Hrows].
    rewrite Forall_forall in Hrows. destruct (Hrows r Hin) as (_ & _ & Hl).
    rewrite Forall_forall in Hl. destruct (Hl _ Hid) as (e' & He' & Hide & Hse).
    assert (e' = e) as -> by (by apply (episode_scope d)).
    unfold gone_fact in Hgf. by rewrite <- Hse, Hs, String.eqb_refl, (named_any req (er_id e)) in Hgf.
Qed.

(** C33: an erasure the request of which validates succeeds on any well-formed
    database: the append-only trigger lets it through, no foreign key stops it,
    and the counts it answers with are, table by table, how many rows the table
    has lost; what it leaves is well formed again. *)
Theorem Forget_succeeds req d :
  db_ok d -> db_ready d = true -> ForgetRequest_Validate req = Ok tt ->
  exists d' out, Forget req d = (d', Ok out) /\ db_ok d' /\
    Z.of_nat (length (db_episodes d')) + fg_episodes out = Z.of_nat (length (db_episodes d)) /\
    Z.of_nat (length (db_encodings d')) + fg_encodings out = Z.of_nat (length (db_encodings d)) /\
    Z.of_nat (length (db_facts d')) + fg_facts out = Z.of_nat (length (db_facts d)) /\
    Z.of_nat (length (db_extractions d')) + fg_extractions out = Z.of_nat (length (db_extractions d)) /\
    Z.of_nat (length (db_jobs d')) + fg_jobs out = Z.of_nat (length (db_jobs d)) /\
    (fg_scope_removed out = true <-> fr_episodes req = [] /\ has_scope d (fr_scope req) = true).
Proof.
  intros Hok Hr Hv. exists (erased req d), (tally req d).
  split; [by apply Forget_run|]. split; [by apply erased_ok|]. cbn.
  do 5 (split; [apply keep_length|]). unfold matching. rewrite Z.ltb_lt, has_scope_elem, list_elem_of_fmap.
  assert (fr_episodes req = [] <-> whole_scope req = true) as ->
    by (unfold whole_scope; by rewrite Nat.eqb_eq, length_zero_iff_nil).
  split.
  - intros Hlen. destruct (List.filter _ _) as [|s l] eqn:Hf; [cbn in Hlen; lia|].
    assert (s ∈ db_scopes d /\ gone_scope req s = true) as [Hin Hg]
      by (apply elem_of_filter_b; rewrite Hf; by left).
    unfold gone_scope in Hg. apply andb_true_iff in Hg as [Hw Heq%String.eqb_eq].
    split; [done|]. by exists s.
  - intros [Hw (s & Heq & Hin)].
    assert (s ∈ List.filter (gone_scope req) (db_scopes d)) as Hs.
    { apply elem_of_filter_b. split; [done|]. unfold gone_scope. by rewrite Hw, Heq, String.eqb_refl. }
    destruct (List.filter _ _); [by apply not_elem_of_nil in Hs|cbn; lia].
Qed.

(** C34: an erasure is complete. Afterwards no episode, encoding, marker or fact of any
    scope speaks of an episode it was to erase: the episodes named, or all the scope
    held. Of the queue, only a job that another scope already had for the episode can
    still name it, and it is untouched; where no other scope had one, no row of any
    table speaks of the episode. A whole-scope erasure leaves no row of the scope in
    any table, the catalogue included. *)
Theorem Forget_complete req d d' out :
  db_ok d -> db_ready d = true -> Forget req d = (d', Ok out) ->
  (forall e, e ∈ db_episodes d -> er_scope e = fr_scope req ->
     fr_episodes req = [] \/ er_id e ∈ fr_episodes req ->
     ~ recorded d' (er_id e) /\
     (forall r, r ∈ db_jobs d' -> er_id e ∈ jr_episodes r -> r ∈ db_jobs d /\ jr_scope r <> fr_scope req) /\
     ((forall r, r ∈ db_jobs d -> er_id e ∈ jr_episodes r -> jr_scope r = er_scope e) -> ~ mentions d' (er_id e))) /\
  (fr_episodes req = [] -> ~ belongs d' (fr_scope req)).
Proof.
  intros Hok Hr Hf. destruct (ForgetRequest_Validate req) as [[]|] eqn:Hv.
  2: { unfold Forget in Hf. rewrite obind_olift, Hv in Hf. done. }
  rewrite Forget_run in Hf by done. injection Hf as <- _. split.
  - intros e He Hs Hor. pose proof (erased_unrecorded req d e Hok He Hs Hor) as Hrec.
    pose proof (erased_jobs req d (er_id e) Hor) as Hjobs. split; [done|]. split; [exact Hjobs|].
    intros Hhome [?|(r & Hin & Hid)]; [done|]. destruct (Hjobs r Hin Hid) as [Hd Hne]. apply Hne. by rewrite (Hhome r).
  - intros Hnil Hb.
    assert (whole_scope req = true) as Hw by (unfold whole_scope; by rewrite Hnil).
    unfold belongs in Hb. cbn in Hb.
    destruct Hb as [Hb|[Hb|[Hb|[Hb|[Hb|Hb]]]]]; apply list_elem_of_fmap in Hb as (r & Hsc & [_ Hg]%elem_of_keep);
      unfold gone_scope, gone_episode, gone_encoding, gone_job, gone_fact, gone_extraction, named in Hg;
      by rewrite <- Hsc, Hw, String.eqb_refl in Hg.
Qed.


(** erasing again erases nothing and says so: the same request succeeds, the
    database stays as it is, and every count is zero. *)
Theorem Forget_idempotent req d d' out :
  db_ok d -> db_ready d = true -> Forget req d = (d', Ok out) ->
  Forget req d' = (d', Ok (MkForgetResult (fr_scope req) 0 0 0 0 0 false)).
Proof.
  intros Hok Hr Hf. destruct (ForgetRequest_Validate req) as [[]|] eqn:Hv.
  2: { unfold Forget in Hf. rewrite obind_olift, Hv in Hf. done. }
  rewrite Forget_run in Hf by done. injection Hf as <- _.
  rewrite Forget_run; [|by apply erased_ok|done|done]. unfold erased at 1, tally. cbn.
  by rewrite !keep_unless_twice, !matching_kept.
Qed.
End Erase.

(** ** A concrete erasure *)

Definition demo_forget (eps : list N) : ForgetRequest := MkForgetRequest "s" eps.

(** The second of two episodes goes, with the facts and the jobs that rest on it. *)
Definition demo_forgotten : Db := (Forget (demo_forget [2%N]) demo_extracted).1.

Lemma demo_erasure :
  Forget (demo_forget [2%N]) demo_extracted = (demo_forgotten, Ok (MkForgetResult "s" 1 0 2 1 2 false)).
Proof. vm_compute. reflexivity. Qed.

Lemma Forget_succeeds_witness :
  exists d' out, Forget (demo_forget []) demo_extracted = (d', Ok out) /\ fg_scope_removed out = true.
Proof.
  destruct (Forget_succeeds (demo_forget []) demo_extracted demo_extracted_ok eq_refl eq_refl)
    as (d' & out & H & _ & _ & _ & _ & _ & _ & Hs).
  exists d', out. split; [exact H|]. apply Hs. split; [reflexivity|vm_compute; reflexivity].
Defined.

Lemma demo_second :
  exists e, e ∈ db_episodes demo_extracted /\ (N.eqb (er_id e) 2 && String.eqb (er_scope e) "s") = true.
Proof. apply existsb_spec. vm_compute. reflexivity. Qed.

(** No job of another scope names the episode. *)
Lemma demo_home : forall r, r ∈ db_jobs demo_extracted -> 2%N ∈ jr_episodes r -> jr_scope r = "s"%string.
Proof.
  assert (forallb (fun r => String.eqb (jr_scope r) "s") (db_jobs demo_extracted) = true) as H by (vm_compute; reflexivity).
  intros r Hr%list_elem_of_In _. rewrite forallb_forall in H. apply String.eqb_eq. exact (H r Hr).
Qed.

Lemma Forget_complete_witness : ~ mentions demo_forgotten 2%N.
Proof.
  destruct demo_second as (e & He & [Hid%N.eqb_eq Hs%String.eqb_eq]%andb_true_iff).
  destruct (Forget_complete _ _ _ _ demo_extracted_ok eq_refl demo_erasure) as [H _].
  destruct (H e He Hs ltac:(right; rewrite Hid; left)) as (_ & _ & Hnone).
  rewrite <- Hid. apply Hnone. rewrite Hid, Hs. exact demo_home.
Defined.

(** A job may be enqueued in one scope for an episode of another, since nothing looks
    the identifiers up; the erasure of the episode leaves it, and it can only fail. *)
Definition demo_foreign : Db := (Enqueue (MkNewJob JobKindEncode "other" [2%N] zeroTime 0) (utc 8000)
  (set_scopes (MkScopeRow "other" 0 1 :: db_scopes demo_extracted) demo_extracted)).1.

Example foreign_job_survives :
  existsb (fun r => bool_decide (2%N ∈ jr_episodes r)) (db_jobs (Forget (demo_forget [2%N]) demo_foreign).1) = true /\
  (Episode_get "other" 2%N (Forget (demo_forget [2%N]) demo_foreign).1).2 = Err (EWrap ErrNotFound).
Proof. split; vm_compute; reflexivity. Qed.


Lemma Forget_idempotent_witness :
  Forget (demo_forget [2%N]) demo_forgotten = (demo_forgotten, Ok (MkForgetResult "s" 0 0 0 0 0 false)).
Proof. exact (Forget_idempotent _ _ _ _ demo_extracted_ok eq_refl demo_erasure). Defined.
