(* ===== verification/PgEncoding.v ===== *)
(** * The vector projection and the catalogue ([postgres/encoding.go], [postgres/scope.go])

    Writing encodings, finding episodes that lack one, and listing scopes.
    [formatVector] writes each element in the shortest form that reads back as
    the same float32, so a vector is stored as the value it is. *)

From S2P Require Import Types OpsTypes Validate Server Db PgQueue Queueing PgEpisode Appending Replaying PgFact FactWriting FactReading.

#[local] Open Scope Z_scope.

Definition DefaultPendingEncodingsLimit : Z := 100.
Definition DefaultScopesLimit : Z := 100.

(** [validateEncoding], against the width the schema was migrated for. *)
Definition validateEncoding (dims : Z) (enc : Encoding) : res unit :=
  reject (IsZeroID (enc_episode enc)) (EWrap ErrInvalidConfig) ;;?
  reject (is_empty (enc_model enc)) (EWrap ErrInvalidConfig) ;;?
  reject (IsZero (enc_at enc)) (EWrap ErrInvalidConfig) ;;?
  reject (f_ltb (enc_surprise enc) f_zero || f_gtb (enc_surprise enc) (f32_of_Z 1))
    (EWrap ErrInvalidConfig) ;;?
  reject (negb (Dimensions (enc_vector enc) =? dims)) (EWrap ErrDimensionMismatch) ;;?
  check_all (fun f => reject (is_nan f || is_inf f) (EWrap ErrInvalidConfig)) (enc_vector enc).

Section Encodings.
Context `{Sv : Server}.

(** The row [putEncodingSQL] selects: scope and ingestion time are the episode's. *)
Definition encoding_of (enc : Encoding) (e : EpisodeRow) : EncodingRow :=
  MkEncodingRow (er_id e) (enc_model enc) (er_scope e) (er_ingested e) (enc_vector enc)
    (enc_surprise enc) (pg_ts (t_ns (enc_at enc))).

(** [ON CONFLICT DO UPDATE]. *)
Definition replace_encoding (new old : EncodingRow) : EncodingRow :=
  if bool_decide (encoding_key old = encoding_key new)
  then MkEncodingRow (nr_episode old) (nr_model old) (nr_scope old) (nr_ingested old) (nr_vec new)
         (nr_surprise new) (nr_encoded new)
  else old.

Definition upsert_encoding (new : EncodingRow) (l : list EncodingRow) : list EncodingRow :=
  if bool_decide (encoding_key new ∈ map encoding_key l) then map (replace_encoding new) l
  else l ++ [new].

(** [putEncodingSQL]: the number of rows written. *)
Definition put_stmt (enc : Encoding) : dbop Z :=
  on_schema (fun d =>
    match List.find (fun e => N.eqb (er_id e) (enc_episode enc)) (db_episodes d) with
    | None => (d, Ok 0)
    | Some e =>
        let row := encoding_of enc e in
        if negb (encoding_checks (db_dims d) row) then (d, Err (EPg pgerrcodeCheckViolation))
        else (set_encodings (upsert_encoding row (db_encodings d)) d, Ok 1)
    end).

(** [Store.PutEncoding]; [dims] is what [New] read from the schema. *)
Definition PutEncoding (dims : Z) (enc : Encoding) : dbop unit :=
  olift (validateEncoding dims enc) ;;;
  let! affected := omap_err wrap_query (with_text [enc_model enc] (put_stmt enc)) in
  if affected =? 0 then ofail (EWrap ErrNotFound) else oret tt.

Definition has_encoding (d : Db) (model : string) (e : EpisodeRow) : bool :=
  bool_decide ((er_id e, model) ∈ map encoding_key (db_encodings d)).

(** [pendingAllScopesSQL] and [pendingOneScopeSQL]. *)
Definition pending_encoding_rows (q : PendingEncodings) (limit : Z) (d : Db) : list EpisodeRow :=
  pending_rows (pe_scope q) (pe_after_seq q) limit (has_encoding d (pe_model q)) d.

(** [Store.PendingEncodings]. *)
Definition PendingEncodings_get (q : PendingEncodings) : dbop (list EpisodeID) :=
  olift (validate_pending (pe_model q) (pe_scope q) (pe_after_seq q) (pe_limit q)) ;;;
  let limit := if pe_limit q =? 0 then DefaultPendingEncodingsLimit else pe_limit q in
  omap_err wrap_query
    (with_text [pe_model q]
      (on_schema (fun d =>
        (d, Ok (map er_id (pending_encoding_rows q limit d)))))).

(** ** The catalogue *)

(** [scanScope]. *)
Definition scanScope (r : ScopeRow) : OpsScope :=
  MkOpsScope (sr_id r) (sr_last_seq r) (utc (sr_created r)).

(** The WHERE clause of [Scopes]; [starts_with] takes its prefix literally. *)
Definition scopes_filter (q : ScopeQuery) (r : ScopeRow) : bool :=
  (is_empty (scq_after q) || match pg_collate (sr_id r) (scq_after q) with Gt => true | _ => false end) &&
  (is_empty (scq_prefix q) || String.prefix (scq_prefix q) (sr_id r)).

(** [Store.Scopes]. *)
Definition Scopes (q : ScopeQuery) : dbop (list OpsScope) :=
  olift (ScopeQuery_Validate q) ;;;
  let limit := if scq_limit q =? 0 then DefaultScopesLimit else scq_limit q in
  omap_err wrap_query
    (on_schema (fun d =>
      (d, Ok (map scanScope (sql_limit limit (sort_func (cmp_on sr_id pg_collate)
                (List.filter (scopes_filter q) (db_scopes d)))))))).
End Encodings.

(** ** Writing an encoding *)

Section EncodingsOk.
Context `{Sv : Server} `{!ServerLaws Sv}.

Lemma replace_key new old : encoding_key (replace_encoding new old) = encoding_key old.
Proof. unfold replace_encoding. by destruct (bool_decide _). Qed.

Lemma upsert_keys new l :
  NoDup (map encoding_key l) -> NoDup (map encoding_key (upsert_encoding new l)).
Proof.
  intros Hl. unfold upsert_encoding. case_bool_decide as Hin.
  - rewrite map_map. erewrite map_ext; [exact Hl|]. apply replace_key.
  - rewrite map_app. apply NoDup_app_fresh; [done|apply NoDup_singleton|].
    intros k Hk ->%list_elem_of_singleton. done.
Qed.

(** Another key's rows stay as they are, and the key's row is the new one. *)
Lemma elem_of_upsert new l r :
  (forall o, o ∈ l -> encoding_key o = encoding_key new ->
     nr_scope o = nr_scope new /\ nr_ingested o = nr_ingested new) ->
  r ∈ upsert_encoding new l <-> r = new \/ r ∈ l /\ encoding_key r <> encoding_key new.
Proof.
  intros Hsame. unfold upsert_encoding. case_bool_decide as Hin.
  - assert (forall o, o ∈ l -> replace_encoding new o =
      if decide (encoding_key o = encoding_key new) then new else o) as Hrep.
    { intros o Ho. unfold replace_encoding. destruct (decide _) as [Heq|Hne].
      - rewrite bool_decide_true by done. destruct (Hsame o Ho Heq) as [-> ->].
        unfold encoding_key in Heq. injection Heq as -> ->. by destruct new.
      - by rewrite bool_decide_false. }
    rewrite list_elem_of_fmap. split.
    + intros (o & -> & Ho). rewrite (Hrep o Ho). destruct (decide _); [by left|by right].
    + intros [-> |[Hr Hne]].
      * apply list_elem_of_fmap in Hin as (o & Hk & Ho). exists o. split; [|done].
        rewrite (Hrep o Ho). by rewrite decide_True.
      * exists r. split; [|done]. rewrite (Hrep r Hr). by rewrite decide_False.
  - rewrite elem_of_app, list_elem_of_singleton. split; [|naive_solver].
    intros [Hr| ->]; [|by left]. right. split; [done|]. intros Heq. apply Hin. rewrite <- Heq.
    by apply list_elem_of_fmap_2.
Qed.

Lemma encodings_agree d enc e o :
  db_ok d -> e ∈ db_episodes d -> o ∈ db_encodings d ->
  encoding_key o = encoding_key (encoding_of enc e) ->
  nr_scope o = nr_scope (encoding_of enc e) /\ nr_ingested o = nr_ingested (encoding_of enc e).
Proof.
  intros Hok He Ho Hk. destruct (ok_encodings d Hok) as [_ Hrows]. rewrite Forall_forall in Hrows.
  destruct (Hrows o Ho) as (_ & e' & He' & Hid & <- & <-). injection Hk as Hid2 _.
  assert (e' = e) as ->; [|done].
  apply (NoDup_key er_id (db_episodes d)); [apply (eo_ids d (ok_episodes d Hok))|done|done|congruence].
Qed.

Lemma put_ok d enc e :
  db_ok d -> e ∈ db_episodes d -> encoding_checks (db_dims d) (encoding_of enc e) = true ->
  db_ok (set_encodings (upsert_encoding (encoding_of enc e) (db_encodings d)) d).
Proof.
  intros Hok He Hc. pose proof Hok as [? [? ? ?] [Hk Hr] ? ? ?].
  split; [by apply (scopes_ok_mono d)|by split| |by apply (jobs_ok_mono d)|by apply (facts_ok_mono d)|
          by apply (extractions_ok_mono d)].
  split; cbn; [by apply upsert_keys|]. rewrite Forall_forall in Hr |- *. intros r Hin.
  apply elem_of_upsert in Hin; [|intros; by eapply encodings_agree].
  destruct Hin as [-> |[Hin _]]; [|by apply Hr]. split; [done|]. by exists e.
Qed.

Lemma validated_checks dims enc e :
  validateEncoding dims enc = Ok tt -> is_nan (enc_surprise enc) = false ->
  pg_length (enc_model enc) <= 200 -> encoding_checks dims (encoding_of enc e) = true.
Proof.
  unfold validateEncoding. rewrite rbind_Ok. intros (? & _ & Hv) Hnan Hlen.
  rewrite rbind_Ok in Hv. destruct Hv as (? & Hm%reject_Ok & Hv).
  rewrite rbind_Ok in Hv. destruct Hv as (? & _ & Hv).
  rewrite rbind_Ok in Hv. destruct Hv as (? & [Hlo Hhi]%reject_Ok%orb_false_iff & Hv).
  rewrite rbind_Ok in Hv. destruct Hv as (? & Hd%reject_Ok%negb_false_iff & _).
  unfold is_empty in Hm. apply String.eqb_neq, rune_count_pos in Hm.
  unfold encoding_checks, pg_in_unit, encoding_of. unfold nr_surprise, nr_model, nr_vec.
  rewrite Hnan, Hlo, Hhi, Hd. unfold between, pg_length in *. cbn [negb andb]. lia.
Qed.

Lemma upsert_same new l :
  NoDup (map encoding_key l) -> new ∈ l -> upsert_encoding new l = l.
Proof.
  intros Hnd Hin. unfold upsert_encoding. rewrite bool_decide_true by (by apply list_elem_of_fmap_2).
  rewrite <- (map_id l) at 2. apply map_ext_in. intros o Ho%list_elem_of_In.
  unfold replace_encoding. case_bool_decide as Hk; [|done].
  assert (o = new) as -> by (by apply (NoDup_key encoding_key l)). by destruct new.
Qed.

Lemma put_stmt_found enc d e :
  db_ready d = true -> encoding_checks (db_dims d) (encoding_of enc e) = true ->
  List.find (fun e => N.eqb (er_id e) (enc_episode enc)) (db_episodes d) = Some e ->
  put_stmt enc d = (set_encodings (upsert_encoding (encoding_of enc e) (db_encodings d)) d, Ok 1).
Proof. intros Hr Hc Hf. unfold put_stmt, on_schema. rewrite Hr, Hf. cbv zeta. by rewrite Hc. Qed.

(** [Store.PutEncoding] writes one encoding and replaces the one before it.
    For an episode of the log and a storable model it succeeds: the projection
    then holds exactly one row for the episode and the model, with the vector,
    the surprise and the instant of the call and the scope and the ingestion time
    of L0, and every other row is as it was; writing the same again changes
    nothing. For an id the log does not hold it fails with not-found and writes
    nothing. *)
Theorem PutEncoding_spec enc d :
  db_ok d -> db_ready d = true -> validateEncoding (db_dims d) enc = Ok tt ->
  is_nan (enc_surprise enc) = false -> pg_text (enc_model enc) = true ->
  pg_length (enc_model enc) <= 200 ->
  match List.find (fun e => N.eqb (er_id e) (enc_episode enc)) (db_episodes d) with
  | None => PutEncoding (db_dims d) enc d = (d, Err (EWrap ErrNotFound))
  | Some e =>
      exists d', PutEncoding (db_dims d) enc d = (d', Ok tt) /\ db_ok d' /\
        (forall r, r ∈ db_encodings d' <->
           r = encoding_of enc e \/ r ∈ db_encodings d /\ encoding_key r <> (er_id e, enc_model enc)) /\
        has_encoding d' (enc_model enc) e = true /\
        PutEncoding (db_dims d) enc d' = (d', Ok tt)
  end.
Proof.
  intros Hok Hready Hv Hnan Ht Hm.
  assert (forall d', PutEncoding (db_dims d) enc d' = obind (omap_err wrap_query (put_stmt enc))
      (fun affected => if affected =? 0 then ofail (EWrap ErrNotFound) else oret tt) d') as Hput.
  { intros d'. unfold PutEncoding. rewrite obind_olift, Hv. unfold obind, omap_err, with_text.
    cbn [forallb]. by rewrite Ht. }
  destruct (List.find _ (db_episodes d)) as [e|] eqn:Hf.
  - apply find_elem in Hf as He. destruct He as [He Hid%N.eqb_eq].
    pose proof (validated_checks (db_dims d) enc e Hv Hnan Hm) as Hc.
    set (d' := set_encodings (upsert_encoding (encoding_of enc e) (db_encodings d)) d).
    assert (db_ok d') as Hok' by (by apply put_ok).
    assert (forall r, r ∈ db_encodings d' <->
      r = encoding_of enc e \/ r ∈ db_encodings d /\ encoding_key r <> (er_id e, enc_model enc)) as Hel.
    { intros r. apply elem_of_upsert. intros o Ho Hk. by apply (encodings_agree d). }
    assert (encoding_of enc e ∈ db_encodings d') as Hin by (apply Hel; by left).
    exists d'. split; [|split; [done|split; [done|split]]].
    + rewrite Hput. unfold obind, omap_err. by rewrite (put_stmt_found enc d e).
    + apply bool_decide_eq_true, list_elem_of_fmap. by exists (encoding_of enc e).
    + rewrite Hput. unfold obind, omap_err. rewrite (put_stmt_found enc d' e) by done.
      rewrite upsert_same; [|apply (no_keys d' (ok_encodings d' Hok'))|done]. done.
  - rewrite Hput. unfold obind, omap_err, put_stmt, on_schema. by rewrite Hready, Hf.
Qed.

(** A valid encoding of an episode of the log is written. *)
Lemma PutEncoding_run enc d e :
  db_ok d -> db_ready d = true -> validateEncoding (db_dims d) enc = Ok tt ->
  is_nan (enc_surprise enc) = false -> pg_text (enc_model enc) = true ->
  pg_length (enc_model enc) <= 200 -> e ∈ db_episodes d -> er_id e = enc_episode enc ->
  let d' := set_encodings (upsert_encoding (encoding_of enc e) (db_encodings d)) d in
  PutEncoding (db_dims d) enc d = (d', Ok tt) /\ db_ok d' /\
  forall r, r ∈ db_encodings d' <->
    r = encoding_of enc e \/ r ∈ db_encodings d /\ encoding_key r <> (enc_episode enc, enc_model enc).
Proof.
  intros Hok Hready Hv Hnan Ht Hm He Hid d'.
  pose proof (validated_checks (db_dims d) enc e Hv Hnan Hm) as Hc.
  assert (List.find (fun e => N.eqb (er_id e) (enc_episode enc)) (db_episodes d) = Some e) as Hf.
  { destruct (List.find _ _) as [e'|] eqn:Hf.
    - apply find_elem in Hf as [He' Hid'%N.eqb_eq]. f_equal.
      apply (NoDup_key er_id (db_episodes d)); [apply (eo_ids d (ok_episodes d Hok))|done|done|congruence].
    - eapply find_absent in Hf; [|done]. by rewrite Hid, N.eqb_refl in Hf. }
  split; [|split; [by apply put_ok|]].
  - unfold PutEncoding. rewrite obind_olift, Hv. unfold obind, omap_err, with_text. cbn [forallb].
    rewrite Ht. cbn [andb]. by rewrite (put_stmt_found enc d e).
  - intros r. rewrite <- Hid. apply elem_of_upsert. intros o Ho Hk. by apply (encodings_agree d).
Qed.

(** What it never does: touch another table, or lose an encoding. *)
Definition encodings_grow (d d' : Db) : Prop :=
  (db_ok d -> db_ok d') /\ db_episodes d' = db_episodes d /\ db_scopes d' = db_scopes d /\
  db_jobs d' = db_jobs d /\ db_facts d' = db_facts d /\ db_extractions d' = db_extractions d /\
  db_dims d' = db_dims d /\ db_ready d' = db_ready d /\ db_minted d' = db_minted d /\
  map encoding_key (db_encodings d) ⊆ map encoding_key (db_encodings d').

#[export] Instance encodings_grow_refl : Reflexive encodings_grow.
Proof. intros d. by split_and!. Qed.

Lemma upsert_grows new l : map encoding_key l ⊆ map encoding_key (upsert_encoding new l).
Proof.
  unfold upsert_encoding. destruct (bool_decide _).
  - rewrite map_map. by rewrite (map_ext _ _ (replace_key new)).
  - rewrite map_app. set_solver.
Qed.

Lemma put_stmt_grows enc : keeps encodings_grow (put_stmt enc).
Proof.
  intros d. unfold put_stmt, on_schema. destruct (db_ready d) eqn:Hr; [|by split_and!].
  destruct (List.find _ _) as [e|] eqn:Hf; [|by split_and!]. apply find_elem in Hf as [He _].
  cbv zeta. destruct (encoding_checks _ _) eqn:Hc; [|by split_and!]. cbn.
  split; [intros Hok; by apply put_ok|]. do 8 (split; [done|]). apply upsert_grows.
Qed.

Lemma PutEncoding_grows dims enc : keeps encodings_grow (PutEncoding dims enc).
Proof.
  apply keeps_guard; [apply _|done|]. intros _. apply keeps_then_reads.
  - apply keeps_map_err, keeps_with_text; [apply _|]. apply put_stmt_grows.
  - intros n. by destruct (n =? 0).
Qed.

Lemma PutEncoding_has dims enc d d' :
  PutEncoding dims enc d = (d', Ok tt) ->
  (enc_episode enc, enc_model enc) ∈ map encoding_key (db_encodings d').
Proof.
  unfold PutEncoding. rewrite obind_olift. destruct (validateEncoding dims enc); [|done].
  unfold obind, omap_err, with_text. destruct (forallb _ _); [|done].
  unfold put_stmt, on_schema. destruct (db_ready d); [|done].
  destruct (List.find _ _) as [e|] eqn:Hf; [|done]. apply find_elem in Hf as [_ Hid%N.eqb_eq].
  cbv zeta. destruct (negb _); [done|]. cbn. intros [= <-]. cbn [db_encodings set_encodings].
  rewrite <- Hid. change (er_id e, enc_model enc) with (encoding_key (encoding_of enc e)).
  unfold upsert_encoding. case_bool_decide as Hin.
  - rewrite map_map. by rewrite (map_ext _ _ (replace_key _)).
  - rewrite map_app. apply elem_of_app. right. by left.
Qed.

(** Whatever it answers, the database stays well formed. *)
Lemma PutEncoding_ok dims enc d : db_ok d -> db_ok (PutEncoding dims enc d).1.
Proof.
  intros Hok. unfold PutEncoding. rewrite obind_olift.
  destruct (validateEncoding dims enc) as [[]|]; [|done]. unfold obind, omap_err, with_text.
  destruct (forallb pg_text _); [|done]. unfold put_stmt, on_schema. destruct (db_ready d); [|done].
  destruct (List.find _ (db_episodes d)) as [e|] eqn:Hf; [|done]. cbv zeta.
  apply find_elem in Hf as [He _].
  destruct (encoding_checks (db_dims d) (encoding_of enc e)) eqn:Hc; [|done]. by apply put_ok.
Qed.

(** [Store.PendingEncodings] reports exactly the episodes without an
    encoding by the model, in sequence order within the scope asked for, up to the
    limit: whatever work a queue lost, this finds again. *)
Theorem PendingEncodings_spec q d :
  db_ready d = true ->
  validate_pending (pe_model q) (pe_scope q) (pe_after_seq q) (pe_limit q) = Ok tt ->
  pg_text (pe_model q) = true ->
  let limit := if pe_limit q =? 0 then DefaultPendingEncodingsLimit else pe_limit q in
  let lacks := pending (pe_scope q) (pe_after_seq q) (has_encoding d (pe_model q)) in
  exists rows,
    PendingEncodings_get q d = (d, Ok (map er_id rows)) /\
    is_page (pending_order (pe_scope q)) lacks (Z.to_nat limit) (db_episodes d) rows.
Proof.
  intros Hready Hv Ht limit lacks.
  exists (pending_rows (pe_scope q) (pe_after_seq q) limit (has_encoding d (pe_model q)) d).
  split; [|apply pending_rows_spec].
  unfold PendingEncodings_get. rewrite obind_olift, Hv. cbv beta iota zeta.
  unfold omap_err, with_text, on_schema. cbn [forallb]. by rewrite Ht, Hready.
Qed.

Lemma scope_id_nonempty d x : db_ok d -> x ∈ db_scopes d -> sr_id x <> ""%string.
Proof.
  intros Hok Hx Hnil. destruct (ok_scopes d Hok) as [_ Hrows]. rewrite Forall_forall in Hrows.
  specialize (Hrows x Hx). unfold scope_checks in Hrows. by rewrite Hnil in Hrows.
Qed.

(** Resuming at [x]: of what the query asks for, the scopes past [x]. *)
Lemma past_cursor q x r :
  sr_id x <> ""%string -> scopes_filter q r = true ->
  scopes_filter (MkScopeQuery (scq_prefix q) (sr_id x) (scq_limit q)) r =
  bool_decide (pg_collate (sr_id r) (sr_id x) = Gt).
Proof.
  unfold scopes_filter. intros Hne [_ Hp]%andb_true_iff. cbn [scq_prefix scq_after]. rewrite Hp, andb_true_r.
  replace (is_empty (sr_id x)) with false by (symmetry; by apply String.eqb_neq).
  cbn [orb]. by destruct (pg_collate _ _).
Qed.

(** [Store.Scopes] walks the catalogue without skipping: the scopes past the
    cursor that start with the prefix, in strict order and so each once, the first
    [limit] of them; and when a page was full, the next one, resumed after its last
    id, holds what follows and only that. *)
Theorem Scopes_spec q d :
  db_ok d -> db_ready d = true -> ScopeQuery_Validate q = Ok tt ->
  let limit := if scq_limit q =? 0 then DefaultScopesLimit else scq_limit q in
  exists rows,
    Scopes q d = (d, Ok (map scanScope rows)) /\
    is_page (cmp_on sr_id pg_collate) (fun r => scopes_filter q r = true) (Z.to_nat limit) (db_scopes d) rows /\
    StronglySorted (fun x y => cmp_on sr_id pg_collate x y = Lt) rows /\
    (forall x r, last rows = Some x -> r ∈ db_scopes d -> scopes_filter q r = true ->
       (r ∈ rows <-> scopes_filter (MkScopeQuery (scq_prefix q) (sr_id x) (scq_limit q)) r = false)).
Proof.
  intros Hok Hready Hv limit. destruct (ok_scopes d Hok) as [Hids Hrows].
  set (n := Z.to_nat limit). set (rows := page (cmp_on sr_id pg_collate) (scopes_filter q) n (db_scopes d)).
  assert (is_page (cmp_on sr_id pg_collate) (fun r => scopes_filter q r = true) n (db_scopes d) rows) as Hp
    by (apply page_spec; [apply _|done]).
  assert (StronglySorted (fun x y => cmp_on sr_id pg_collate x y = Lt) rows) as Hs.
  { apply page_strict; [apply _|by eapply NoDup_fmap_1|]. intros x y Hx Hy Heq.
    apply (NoDup_key sr_id (db_scopes d)); [done|done|done|]. by apply pg_collate_eq. }
  exists rows. split; [|split; [done|split; [done|]]].
  { unfold Scopes. rewrite obind_olift, Hv. cbv beta iota zeta. unfold omap_err, on_schema.
    by rewrite Hready. }
  intros x r Hlast Hr Hfr. destruct Hp as (Hin & _ & _ & Hout).
  apply last_Some in Hlast as [l Hl].
  assert (x ∈ rows) as Hx by (rewrite Hl; apply elem_of_app; right; by apply list_elem_of_singleton).
  destruct (Hin x Hx) as [Hxd _]. rewrite (past_cursor q x r) by (done || by apply scope_id_nonempty with d).
  rewrite bool_decide_eq_false.
  rewrite Hl in Hs. apply StronglySorted_app in Hs as (Hcross & _ & _). unfold cmp_on in *.
  split.
  - rewrite Hl, elem_of_app, list_elem_of_singleton. intros [Hrl| ->] Hgt.
    + rewrite (Hcross r x Hrl) in Hgt by (by apply list_elem_of_singleton). done.
    + rewrite cmp_refl in Hgt; [done|apply _].
  - intros Hle. destruct (decide (r ∈ rows)) as [|Hnr]; [done|].
    destruct (Hout r Hr Hfr Hnr) as [_ Hxr]. specialize (Hxr x Hx).
    destruct (pg_collate (sr_id x) (sr_id r)) eqn:E; [|destruct Hle; by rewrite cmp_flip, E|done].
    destruct Hnr. apply pg_collate_eq in E. replace r with x; [done|]. by apply (NoDup_key sr_id (db_scopes d)).
Qed.
End EncodingsOk.

(** ** A concrete projection *)

Definition demo_encoding (id : N) : Encoding :=
  MkEncoding id "m" [f32_of_Z 1; f_zero] f_zero (utc 8000).

Definition demo_encoded : Db := (PutEncoding 2 (demo_encoding 1) demo_extracted).1.

Lemma PutEncoding_spec_witness :
  exists d' e, PutEncoding 2 (demo_encoding 1) demo_extracted = (d', Ok tt) /\
    has_encoding d' "m" e = true.
Proof.
  assert (validateEncoding (db_dims demo_extracted) (demo_encoding 1) = Ok tt) as Hv
    by (vm_compute; reflexivity).
  assert (pg_text "m" = true) as Ht by (vm_compute; reflexivity).
  assert (pg_length "m" <= 200) as Hl by (vm_compute; discriminate).
  pose proof (PutEncoding_spec (demo_encoding 1) demo_extracted demo_extracted_ok eq_refl Hv eq_refl Ht Hl) as H.
  destruct (List.find _ (db_episodes demo_extracted)) as [e|] eqn:Hf.
  - destruct H as (d' & H & _ & _ & Hh & _). exists d', e. split; [exact H|exact Hh].
  - vm_compute in Hf. discriminate Hf.
Defined.

Lemma PendingEncodings_spec_witness :
  exists rows, PendingEncodings_get (MkPendingEncodings "s" "m" 0 10) demo_encoded =
    (demo_encoded, Ok (map er_id rows)) /\ (length rows <= 10)%nat.
Proof.
  destruct (PendingEncodings_spec (MkPendingEncodings "s" "m" 0 10) demo_encoded)
    as (rows & H & _ & Hlen & _); [vm_compute; reflexivity..|].
  exists rows. split; [exact H|exact Hlen].
Defined.

Lemma Scopes_spec_witness :
  exists rows, Scopes (MkScopeQuery "" "a" 10) demo_extracted = (demo_extracted, Ok (map scanScope rows)).
Proof.
  assert (ScopeQuery_Validate (MkScopeQuery "" "a" 10) = Ok tt) as Hv by (vm_compute; reflexivity).
  destruct (Scopes_spec (MkScopeQuery "" "a" 10) demo_extracted demo_extracted_ok eq_refl Hv)
    as (rows & H & _).
  exists rows. exact H.
Defined.
