(* ===== verification/PgSearch.v ===== *)
(** * The retrieval channels ([postgres/search.go])

    Full-text and vector search over one scope as of an instant. What matches
    and how it scores is the server's ([pg_match], [pg_rank], [pg_cosine]); the
    filters, the ranking and the order of ties are the adapter's. *)

From S2P Require Import Types OpsTypes Validate Server Db PgQueue Queueing PgEpisode Appending Replaying PgFact FactWriting FactReading PgEncoding.

#[local] Open Scope Z_scope.

(** [candidateLimit]. *)
Definition candidateLimit (limit : Z) : Z :=
  if limit <=? 0 then DefaultCandidatesPerChannel else limit.

(** [validateChannelQuery]. *)
Definition validateChannelQuery (q : ChannelQuery) : res unit :=
  ScopeID_Validate (cq_scope q) ;;?
  reject (IsZero (cq_as_of q)) (EWrap ErrInvalidConfig) ;;?
  reject (cq_limit q <? 0) (EWrap ErrInvalidConfig) ;;?
  reject (negb (IsZero (cq_occurred_from q)) && negb (IsZero (cq_occurred_to q)) &&
          Before (cq_occurred_to q) (cq_occurred_from q)) (EWrap ErrInvalidConfig) ;;?
  check_all (fun role => reject (negb (Role_Valid role)) (EWrap ErrInvalidRole)) (cq_roles q) ;;?
  Binding_Validate (cq_binding q).

(** [validateSemantic]; [dims] is what [New] read from the schema. *)
Definition validateSemantic (dims : Z) (q : SemanticQuery) : res unit :=
  validateChannelQuery (sq_channel q) ;;?
  reject (is_empty (sq_model q)) (EWrap ErrInvalidConfig) ;;?
  reject (negb (Dimensions (sq_vector q) =? dims)) (EWrap ErrDimensionMismatch).

(** [validateLexical]. *)
Definition validateLexical (q : LexicalQuery) : res unit :=
  validateChannelQuery (lq_channel q) ;;?
  reject (is_empty (TrimSpace (lq_text q))) (EWrap ErrInvalidContent).

(** ** Ranking *)

(** A row of a result set: the episode's columns and the score. *)
Definition scanCandidate (ch : Channel) (x : EpisodeRow * float64) : res Candidate :=
  let? ep := scanEpisode x.1 in Ok (MkCandidate ep ch 0 x.2).

Definition cmp_candidate : Candidate -> Candidate -> comparison :=
  cmp_lex (cmp_rev (cmp_on cand_score fcompare))
    (cmp_rev (cmp_on (fun c => ep_id (cand_episode c)) N.compare)).

Definition with_rank (i : Z) (c : Candidate) : Candidate :=
  MkCandidate (cand_episode c) (cand_channel c) (i + 1) (cand_score c).

(** [for i := range out { out[i].Rank = i + 1 }] *)
Fixpoint rank_from (i : Z) (l : list Candidate) : list Candidate :=
  match l with
  | [] => []
  | c :: l' => with_rank i c :: rank_from (i + 1) l'
  end.

(** [scanCandidates]. *)
Definition scanCandidates (ch : Channel) (rows : list (EpisodeRow * float64)) : res (list Candidate) :=
  let? out := map_res (scanCandidate ch) rows in
  Ok (rank_from 0 (sort_func cmp_candidate out)).

(** [wrapSearchError]. *)
Definition wrapSearchError (e : Error) : Error := wrap_query e.

Section Search.
Context `{Sv : Server}.

(** [appendEpisodeFilters]. *)
Definition episode_filters (q : ChannelQuery) (e : EpisodeRow) : bool :=
  (IsZero (cq_occurred_from q) || (pg_ts (t_ns (cq_occurred_from q)) <=? er_occurred e)) &&
  (IsZero (cq_occurred_to q) || (er_occurred e <=? pg_ts (t_ns (cq_occurred_to q)))) &&
  bool_decide (Binding_entries (cq_binding q) ⊆ er_binding e) &&
  any_or_all (er_role e) (cq_roles q).

Definition query_binding_text (q : ChannelQuery) : bool :=
  forallb (fun kv => pg_text kv.1 && pg_text kv.2) (map_to_list (Binding_entries (cq_binding q))).

(** The parameters a filter sends, refused when the server cannot hold them. *)
Definition with_filters {A} (q : ChannelQuery) (m : dbop A) : dbop A :=
  fun d => if query_binding_text q then m d else (d, Err (EPg pgerrcodeBadJSON)).

Definition semantic_filter (q : SemanticQuery) (d : Db) (x : EncodingRow) : option (EpisodeRow * EncodingRow) :=
  if String.eqb (nr_model x) (sq_model q) && String.eqb (nr_scope x) (cq_scope (sq_channel q)) &&
     (nr_ingested x <=? pg_ts (t_ns (cq_as_of (sq_channel q))))
  then match List.find (fun e => N.eqb (er_id e) (nr_episode x)) (db_episodes d) with
       | Some e => if episode_filters (sq_channel q) e then Some (e, x) else None
       | None => None
       end
  else None.

Definition distance (q : SemanticQuery) (x : EpisodeRow * EncodingRow) : float64 :=
  pg_cosine (nr_vec x.2) (sq_vector q).

(** The rows of the semantic statement, as the index gives them. *)
Definition semantic_rows (q : SemanticQuery) (d : Db) : list (EpisodeRow * float64) :=
  map (fun x => (x.1, f64_sub (f64_of_Z 1) (distance q x)))
    (pg_ann _ (distance q) (Z.to_nat (candidateLimit (cq_limit (sq_channel q))))
       (omap (semantic_filter q d) (db_encodings d))).

(** The literal of a vector, parsed: a component that is no finite number is refused. *)
Definition pgerrcodeDataException : string := "22000".
Definition vector_literal (v : Vector) : bool := forallb (fun f => negb (is_nan f || is_inf f)) v.
Definition with_vector {A} (v : Vector) (m : dbop A) : dbop A :=
  fun d => if vector_literal v then m d else (d, Err (EPg pgerrcodeDataException)).

(** [Store.SearchSemantic]. *)
Definition SearchSemantic (dims : Z) (q : SemanticQuery) : dbop (list Candidate) :=
  olift (validateSemantic dims q) ;;;
  omap_err wrapSearchError
    (with_text [sq_model q] (with_filters (sq_channel q)
      (on_schema (with_vector (sq_vector q)
        (fun d => (d, scanCandidates ChannelSemantic (semantic_rows q d))))))).

Definition lexical_filter (q : LexicalQuery) (e : EpisodeRow) : bool :=
  String.eqb (er_scope e) (cq_scope (lq_channel q)) &&
  (er_ingested e <=? pg_ts (t_ns (cq_as_of (lq_channel q)))) && pg_match (lq_text q) (er_content e) &&
  episode_filters (lq_channel q) e.

Definition lexical_score (q : LexicalQuery) (e : EpisodeRow) : float64 := pg_rank (lq_text q) (er_content e).

(** [ORDER BY score DESC, e.seq DESC]. *)
Definition lexical_order (q : LexicalQuery) : EpisodeRow -> EpisodeRow -> comparison :=
  cmp_lex (cmp_rev (cmp_on (lexical_score q) fcompare)) (cmp_rev (cmp_on er_seq Z.compare)).

Definition lexical_rows (q : LexicalQuery) (d : Db) : list (EpisodeRow * float64) :=
  map (fun e => (e, lexical_score q e))
    (sql_limit (candidateLimit (cq_limit (lq_channel q)))
       (sort_func (lexical_order q) (List.filter (lexical_filter q) (db_episodes d)))).

(** [Store.SearchLexical]. *)
Definition SearchLexical (q : LexicalQuery) : dbop (list Candidate) :=
  olift (validateLexical q) ;;;
  omap_err wrapSearchError
    (with_text [lq_text q] (with_filters (lq_channel q)
      (on_schema (fun d => (d, scanCandidates ChannelLexical (lexical_rows q d)))))).
End Search.

(** ** What a channel hands to fusion *)

#[export] Instance cmp_candidate_total : TotalCmp cmp_candidate.
Proof.
  apply cmp_lex_total; apply cmp_rev_total, cmp_on_total; [apply fcompare_total|apply Ncompare_total].
Qed.

Definition cand_key (c : Candidate) : N := ep_id (cand_episode c).

(** The order of a ranking: better scores first, and the newer of a tie. *)
Definition ranked (l : list Candidate) : Prop :=
  StronglySorted (fun x y => cmp_candidate x y = Lt) l /\
  forall i c, l !! i = Some c -> cand_rank c = Z.of_nat i + 1.

Lemma rank_from_lookup i l k c :
  rank_from i l !! k = Some c <-> exists c0, l !! k = Some c0 /\ c = with_rank (i + Z.of_nat k) c0.
Proof.
  revert i k. induction l as [|x l IH]; intros i k; [split; [done|by intros (? & ? & _)]|].
  destruct k as [|k]; cbn.
  - rewrite Z.add_0_r. naive_solver.
  - rewrite IH. replace (i + Z.of_nat (S k)) with (i + 1 + Z.of_nat k) by lia. done.
Qed.

Lemma rank_from_elem i l c :
  c ∈ rank_from i l -> exists c0 k, c0 ∈ l /\ c = with_rank k c0.
Proof.
  intros (k & Hk)%list_elem_of_lookup. apply rank_from_lookup in Hk as (c0 & Hk & ->).
  exists c0, (i + Z.of_nat k). split; [|done]. by eapply list_elem_of_lookup_2.
Qed.

Lemma rank_from_length i l : length (rank_from i l) = length l.
Proof. revert i. induction l; intros; cbn; auto. Qed.

Lemma rank_from_sorted i l :
  StronglySorted (fun x y => cmp_candidate x y = Lt) l ->
  StronglySorted (fun x y => cmp_candidate x y = Lt) (rank_from i l).
Proof.
  intros H. revert i. induction H as [|x l Hl IH Hx]; intros i; cbn; constructor; [apply IH|].
  apply Forall_forall. intros y Hy. apply rank_from_elem in Hy as (c0 & k & Hc0 & ->).
  rewrite Forall_forall in Hx. exact (Hx c0 Hc0).
Qed.

Lemma cmp_candidate_id x y : cmp_candidate x y = Eq -> cand_key x = cand_key y.
Proof.
  unfold cmp_candidate, cmp_lex, cmp_rev, cmp_on. destruct (fcompare _ _); [|done|done].
  intros H%N.compare_eq. done.
Qed.

Definition candidate_of (ch : Channel) (x : EpisodeRow * float64) : Candidate :=
  MkCandidate (episode_of x.1) ch 0 x.2.

Lemma scan_rows ch rows :
  Forall (fun x => scanEpisode x.1 = Ok (episode_of x.1)) rows ->
  map_res (scanCandidate ch) rows = Ok (map (candidate_of ch) rows).
Proof.
  intros H. apply map_res_total. eapply Forall_impl; [exact H|]. intros x Hx. unfold scanCandidate.
  by rewrite Hx.
Qed.

Lemma scan_role r : Role_Valid (er_role r) = true -> scanEpisode r = Ok (episode_of r).
Proof. intros H. unfold scanEpisode. by rewrite H. Qed.

(** the ranking of a channel does not depend on the order in which the scan
    delivered the rows: any order of the same result set, one row an episode,
    gives the same candidates with the same ranks, ties included. *)
Theorem scanCandidates_deterministic ch rows rows' :
  NoDup (map (fun x => er_id x.1) rows) -> rows ≡ₚ rows' ->
  Forall (fun x => Role_Valid (er_role x.1) = true) rows ->
  scanCandidates ch rows = scanCandidates ch rows'.
Proof.
  intros Hnd Hp Hroles. assert (Forall (fun x => scanEpisode x.1 = Ok (episode_of x.1)) rows) as Hs
    by (eapply Forall_impl; [exact Hroles|]; intros x; apply scan_role).
  unfold scanCandidates. rewrite !scan_rows by (done || by rewrite <- Hp). cbn [rbind]. do 2 f_equal.
  apply sort_func_unique; [apply _| |by apply Permutation_map].
  intros x y Hx Hy Heq%cmp_candidate_id.
  apply (NoDup_key cand_key (map (candidate_of ch) rows)); [|done|done|done].
  rewrite map_map. exact Hnd.
Qed.

(** The ranking of rows of distinct episodes. *)
Lemma scan_ranked ch rows :
  NoDup (map (fun x => er_id x.1) rows) -> Forall (fun x => Role_Valid (er_role x.1) = true) rows ->
  exists cands, scanCandidates ch rows = Ok cands /\ ranked cands /\ length cands = length rows /\
    map cand_key cands ≡ₚ map (fun x => er_id x.1) rows /\
    forall c, c ∈ cands -> exists x, x ∈ rows /\ cand_episode c = episode_of x.1 /\
      cand_channel c = ch /\ cand_score c = x.2.
Proof.
  intros Hnd Hroles. assert (Forall (fun x => scanEpisode x.1 = Ok (episode_of x.1)) rows) as Hs
    by (eapply Forall_impl; [exact Hroles|]; intros x; apply scan_role).
  unfold scanCandidates. rewrite scan_rows by done. cbn [rbind]. eexists. split; [done|].
  set (sorted := sort_func cmp_candidate (map (candidate_of ch) rows)).
  assert (map cand_key (map (candidate_of ch) rows) = map (fun x => er_id x.1) rows) as Hk
    by (by rewrite map_map).
  assert (NoDup (map cand_key (map (candidate_of ch) rows))) as Hndk by (by rewrite Hk).
  assert (StronglySorted (fun x y => cmp_candidate x y = Lt) sorted) as Hst.
  { pose proof (page_strict cmp_candidate (fun _ => true) (length sorted) (map (candidate_of ch) rows)) as H.
    unfold page in H. rewrite forallb_filter_id in H by (by apply forallb_forall). fold sorted in H.
    rewrite firstn_all in H. apply H; [by eapply NoDup_fmap_1|].
    intros x y Hx Hy Heq%cmp_candidate_id.
    apply (NoDup_key cand_key (map (candidate_of ch) rows)); [by rewrite Hk|done|done|done]. }
  split; [split; [by apply rank_from_sorted|]|split; [|split]].
  - intros i c Hi. apply rank_from_lookup in Hi as (c0 & _ & ->). cbn. lia.
  - rewrite rank_from_length. unfold sorted, sort_func. by rewrite length_sort_by, length_map.
  - assert (forall i l, map cand_key (rank_from i l) = map cand_key l) as ->.
    { intros i l. revert i. induction l as [|x l IH]; intros i; [done|]. cbn. by rewrite IH. }
    unfold sorted, sort_func. rewrite sort_by_Permutation. by rewrite Hk.
  - intros c (c0 & k & Hc0 & ->)%rank_from_elem. unfold sorted, sort_func in Hc0.
    rewrite elem_of_sort_by, list_elem_of_fmap in Hc0. destruct Hc0 as (x & -> & Hx). by exists x.
Qed.

Section SearchOk.
Context `{Sv : Server} `{!ServerLaws Sv}.

#[export] Instance lexical_order_total q : TotalCmp (lexical_order q).
Proof.
  apply cmp_lex_total; apply cmp_rev_total, cmp_on_total; [apply fcompare_total|apply Zcompare_total].
Qed.

(** What the filters of a query ask of an episode, in the terms of the log. *)
Definition in_query (q : ChannelQuery) (e : EpisodeRow) : Prop :=
  er_scope e = cq_scope q /\ er_ingested e <= pg_ts (t_ns (cq_as_of q)) /\
  (t_ns (cq_occurred_from q) <> 0 -> pg_ts (t_ns (cq_occurred_from q)) <= er_occurred e) /\
  (t_ns (cq_occurred_to q) <> 0 -> er_occurred e <= pg_ts (t_ns (cq_occurred_to q))) /\
  Binding_entries (cq_binding q) ⊆ er_binding e /\
  (cq_roles q = [] \/ er_role e ∈ cq_roles q).

Lemma IsZero_or t b : IsZero t || b = true <-> (t_ns t <> 0 -> b = true).
Proof.
  destruct (IsZero t) eqn:E; [apply IsZero_eq in E|apply IsZero_neq in E]; cbn; naive_solver.
Qed.

Lemma in_query_spec q e :
  String.eqb (er_scope e) (cq_scope q) && (er_ingested e <=? pg_ts (t_ns (cq_as_of q))) &&
    episode_filters q e = true <-> in_query q e.
Proof.
  unfold episode_filters, in_query.
  rewrite !andb_true_iff, String.eqb_eq, Z.leb_le, !IsZero_or, !Z.leb_le, bool_decide_eq_true, any_or_all_spec.
  tauto.
Qed.

Lemma role_of d e : db_ok d -> e ∈ db_episodes d -> Role_Valid (er_role e) = true.
Proof.
  intros Hok He. pose proof (scanEpisode_ok d e Hok He) as H. unfold scanEpisode in H.
  by destruct (Role_Valid (er_role e)).
Qed.

(** What a search returns: candidates of its channel for episodes of the scope
    the query may see, each once, ranked. *)
Definition answers (ch : Channel) (q : ChannelQuery) (limit : Z) (d : Db) (cands : list Candidate) : Prop :=
  ranked cands /\ (length cands <= Z.to_nat limit)%nat /\ NoDup (map cand_key cands) /\
  forall c, c ∈ cands -> cand_channel c = ch /\
    exists e, e ∈ db_episodes d /\ in_query q e /\ cand_episode c = episode_of e.

Lemma scan_answers ch q limit d rows :
  db_ok d -> NoDup (map (fun x => er_id x.1) rows) -> (length rows <= Z.to_nat limit)%nat ->
  (forall x, x ∈ rows -> x.1 ∈ db_episodes d /\ in_query q x.1) ->
  exists cands, scanCandidates ch rows = Ok cands /\ answers ch q limit d cands /\
    (forall x, x ∈ rows -> er_id x.1 ∈ map cand_key cands) /\
    length cands = length rows /\
    forall c, c ∈ cands -> exists x, x ∈ rows /\ cand_episode c = episode_of x.1 /\ cand_score c = x.2.
Proof.
  intros Hok Hnd Hlen Hin.
  destruct (scan_ranked ch rows Hnd) as (cands & Hs & Hr & Hl & Hk & Hc).
  { apply Forall_forall. intros x Hx. apply (role_of d); [done|by apply Hin]. }
  exists cands. split; [done|]. split; [split; [done|split; [by rewrite Hl|split]]|].
  - by rewrite Hk.
  - intros c Hcin. destruct (Hc c Hcin) as (x & Hx & He & Hch & _). split; [done|].
    destruct (Hin x Hx) as [Hxd Hxq]. by exists x.1.
  - split; [|split; [done|]].
    + intros x Hx. rewrite Hk. by apply (list_elem_of_fmap_2 (fun x => er_id x.1)).
    + intros c Hcin. destruct (Hc c Hcin) as (x & Hx & He & _ & Hsc). by exists x.
Qed.

(** [Store.SearchLexical] answers with the best matches of the scope as of
    the query's instant: each candidate is an episode of the scope, ingested by
    then, inside the event-time window, carrying the binding and a role asked for,
    and matching the text; they are ranked 1, 2, ... by score and then by id; and
    an episode that qualifies is left out only by the limit, behind matches that
    score no worse. *)
Theorem SearchLexical_spec q d :
  db_ok d -> db_ready d = true -> validateLexical q = Ok tt -> pg_text (lq_text q) = true ->
  query_binding_text (lq_channel q) = true ->
  let limit := candidateLimit (cq_limit (lq_channel q)) in
  exists cands,
    SearchLexical q d = (d, Ok cands) /\ answers ChannelLexical (lq_channel q) limit d cands /\
    forall e, e ∈ db_episodes d -> in_query (lq_channel q) e -> pg_match (lq_text q) (er_content e) = true ->
      er_id e ∉ map cand_key cands ->
      length cands = Z.to_nat limit /\
      forall c, c ∈ cands -> fcompare (lexical_score q e) (cand_score c) <> Gt.
Proof.
  intros Hok Hready Hv Ht Hb limit.
  set (rows := page (lexical_order q) (lexical_filter q) (Z.to_nat limit) (db_episodes d)).
  assert (is_page (lexical_order q) (fun e => in_query (lq_channel q) e /\ pg_match (lq_text q) (er_content e) = true)
            (Z.to_nat limit) (db_episodes d) rows) as (Hin & Hlen & _ & Hout).
  { apply page_spec; [apply _|]. intros e. rewrite <- in_query_spec. unfold lexical_filter.
    rewrite !andb_true_iff. tauto. }
  destruct (scan_answers ChannelLexical (lq_channel q) limit d (map (fun e => (e, lexical_score q e)) rows))
    as (cands & Hs & Ha & Hall & Hcl & Hback); [done| | | |].
  - rewrite map_map. apply (NoDup_page er_id), (eo_ids d (ok_episodes d Hok)).
  - by rewrite length_map.
  - intros x (e & -> & He)%list_elem_of_fmap. cbn. destruct (Hin e He) as (? & ? & _). done.
  - exists cands. split; [|split; [done|]].
    + unfold SearchLexical. rewrite obind_olift, Hv. unfold omap_err, with_text, with_filters, on_schema.
      cbn [forallb]. rewrite Ht, Hb, Hready. cbn [andb].
      change (lexical_rows q d) with (map (fun e => (e, lexical_score q e)) rows). by rewrite Hs.
    + intros e He Hq Hm Hn. assert (e ∉ rows) as Hnr.
      { intros Her. apply Hn. apply (Hall (e, lexical_score q e)).
        by apply (list_elem_of_fmap_2 (fun e => (e, lexical_score q e))). }
      destruct (Hout e He (conj Hq Hm) Hnr) as [Hl Hle]. rewrite length_map in Hcl.
      split; [congruence|]. intros c Hc. destruct (Hback c Hc) as (x & Hx & _ & ->).
      apply list_elem_of_fmap in Hx as (e' & -> & He'). specialize (Hle e' He'). cbn.
      unfold lexical_order, cmp_lex, cmp_rev, cmp_on in Hle. by destruct (fcompare _ _).
Qed.

Lemma semantic_filter_spec q d x y :
  semantic_filter q d x = Some y ->
  y.2 = x /\ y.1 ∈ db_episodes d /\ encoding_key x = (er_id y.1, sq_model q) /\
  nr_scope x = cq_scope (sq_channel q) /\ nr_ingested x <= pg_ts (t_ns (cq_as_of (sq_channel q))) /\
  episode_filters (sq_channel q) y.1 = true.
Proof.
  unfold semantic_filter, encoding_key. destruct (_ && _) eqn:Hc; [|done].
  rewrite !andb_true_iff, !String.eqb_eq, Z.leb_le in Hc. destruct Hc as ((Hm & Hs) & Hi).
  destruct (List.find _ _) as [e|] eqn:Hf; [|done]. apply find_elem in Hf as [He Hid%N.eqb_eq].
  destruct (episode_filters _ e) eqn:Hq; [|done]. intros [= <-]. cbn. by rewrite Hid, Hm.
Qed.

Lemma semantic_keys q d :
  db_ok d -> NoDup (map (fun y => er_id y.1) (omap (semantic_filter q d) (db_encodings d))).
Proof.
  intros Hok. destruct (ok_encodings d Hok) as [Hk _]. revert Hk.
  assert (forall l y, y ∈ omap (semantic_filter q d) l -> (er_id y.1, sq_model q) ∈ map encoding_key l) as Hin.
  { intros l y (x & Hx & Hs)%list_elem_of_omap. apply semantic_filter_spec in Hs as (_ & _ & <- & _).
    by apply list_elem_of_fmap_2. }
  induction (db_encodings d) as [|x l IH]; cbn; [constructor|]. rewrite NoDup_cons. intros [Hx Hl].
  destruct (semantic_filter q d x) as [y|] eqn:Hs; cbn; [|by apply IH]. apply NoDup_cons.
  split; [|by apply IH]. intros (z & Heq & Hz)%list_elem_of_fmap. apply Hx.
  apply semantic_filter_spec in Hs as (_ & _ & -> & _). rewrite Heq. by apply Hin.
Qed.

(** What the index gives. *)
Lemma semantic_rows_spec q d :
  db_ok d ->
  NoDup (map (fun x => er_id x.1) (semantic_rows q d)) /\
  (length (semantic_rows q d) <= Z.to_nat (candidateLimit (cq_limit (sq_channel q))))%nat /\
  forall r, r ∈ semantic_rows q d ->
    r.1 ∈ db_episodes d /\ in_query (sq_channel q) r.1 /\
    exists x, x ∈ db_encodings d /\ encoding_key x = (er_id r.1, sq_model q) /\
      r.2 = f64_sub (f64_of_Z 1) (pg_cosine (nr_vec x) (sq_vector q)).
Proof.
  intros Hok. unfold semantic_rows. set (limit := candidateLimit _). set (all := omap _ _).
  pose proof (pg_ann_sub _ (distance q) (Z.to_nat limit) all) as Hsub.
  rewrite map_map, length_map. split; [|split; [apply pg_ann_limit|]].
  - apply submseteq_Permutation in Hsub as [rest Hp].
    pose proof (semantic_keys q d Hok) as Hnd. fold all in Hnd. rewrite Hp, map_app in Hnd.
    by apply NoDup_app in Hnd as [? _].
  - intros r (y & -> & Hy)%list_elem_of_fmap. eapply elem_of_submseteq in Hy; [|exact Hsub].
    apply list_elem_of_omap in Hy as (x & Hx & Hs).
    apply semantic_filter_spec in Hs as (Hyx & He & Hk & Hsc & Hi & Hq). cbn.
    split; [done|]. destruct (ok_encodings d Hok) as [_ Hrows]. rewrite Forall_forall in Hrows.
    destruct (Hrows x Hx) as (_ & e' & He' & Hid & Hs' & Hi').
    assert (e' = y.1) as ->.
    { injection Hk as Hk _.
      apply (NoDup_key er_id (db_episodes d)); [apply (eo_ids d (ok_episodes d Hok))|done|done|congruence]. }
    split; [|exists x; unfold distance; by rewrite Hyx].
    apply in_query_spec. rewrite Hq, Hs', Hi', Hsc, String.eqb_refl. apply andb_true_iff.
    split; [|done]. by apply Z.leb_le.
Qed.

(** [Store.SearchSemantic] answers only with episodes the query may see: each
    candidate is an episode of the scope, ingested by the query's instant, inside
    the event-time window, carrying the binding and a role asked for, with an
    encoding by the model; they are ranked 1, 2, ... by similarity and then by id.
    The copies of scope and ingestion time the vector table is filtered by cannot
    let an episode of another scope, or a later one, through. *)
Theorem SearchSemantic_spec q d :
  db_ok d -> db_ready d = true -> validateSemantic (db_dims d) q = Ok tt -> pg_text (sq_model q) = true ->
  query_binding_text (sq_channel q) = true -> vector_literal (sq_vector q) = true ->
  let limit := candidateLimit (cq_limit (sq_channel q)) in
  exists cands,
    SearchSemantic (db_dims d) q d = (d, Ok cands) /\
    answers ChannelSemantic (sq_channel q) limit d cands /\
    forall c, c ∈ cands -> exists x, x ∈ db_encodings d /\ encoding_key x = (cand_key c, sq_model q) /\
      cand_score c = f64_sub (f64_of_Z 1) (pg_cosine (nr_vec x) (sq_vector q)).
Proof.
  intros Hok Hready Hv Ht Hb Hvec limit. destruct (semantic_rows_spec q d Hok) as (Hnd & Hlen & Hin).
  destruct (scan_answers ChannelSemantic (sq_channel q) limit d (semantic_rows q d))
    as (cands & Hs & Ha & _ & _ & Hback); [done|done|done|intros x Hx; by destruct (Hin x Hx) as (? & ? & _)|].
  exists cands. split; [|split; [done|]].
  - unfold SearchSemantic. rewrite obind_olift, Hv. unfold omap_err, with_text, with_filters, on_schema, with_vector.
    cbn [forallb]. rewrite Ht, Hb, Hready, Hvec. cbn [andb]. by rewrite Hs.
  - intros c Hc. destruct (Hback c Hc) as (r & Hr & He & Hsc).
    destruct (Hin r Hr) as (_ & _ & x & Hx & Hk & Hd). exists x. unfold cand_key. rewrite He, Hsc.
    split; [done|]. split; [exact Hk|exact Hd].
Qed.
End SearchOk.

(** ** A concrete search *)

Definition demo_channel_query : ChannelQuery := MkChannelQuery "s" (utc 9000) zeroTime zeroTime None [] 0.
Definition demo_lexical : LexicalQuery := MkLexicalQuery demo_channel_query "first".
Definition demo_semantic : SemanticQuery := MkSemanticQuery demo_channel_query [f32_of_Z 1; f_zero] "m".

Lemma demo_encoded_ok : db_ok demo_encoded.
Proof. exact (PutEncoding_ok 2 (demo_encoding 1) demo_extracted demo_extracted_ok). Qed.

Lemma scanCandidates_deterministic_witness :
  let r := fun id s => (MkEpisodeRow id "s" (Z.of_N id) "c" RoleUser "" "chat" 1 1 ∅, f64_of_Z s) in
  scanCandidates ChannelLexical [r 1%N 5; r 2%N 5; r 3%N 7] = scanCandidates ChannelLexical [r 3%N 7; r 2%N 5; r 1%N 5].
Proof.
  intros r. apply scanCandidates_deterministic.
  - refine (bool_decide_unpack _ _). vm_compute. exact I.
  - apply (Permutation_rev [r 1%N 5; r 2%N 5; r 3%N 7]).
  - repeat constructor.
Defined.

Lemma SearchLexical_spec_witness :
  exists cands, SearchLexical demo_lexical demo_extracted = (demo_extracted, Ok cands) /\
    answers ChannelLexical demo_channel_query 50 demo_extracted cands.
Proof.
  assert (validateLexical demo_lexical = Ok tt) as Hv by (vm_compute; reflexivity).
  assert (pg_text (lq_text demo_lexical) = true) as Ht by (vm_compute; reflexivity).
  destruct (SearchLexical_spec demo_lexical demo_extracted demo_extracted_ok eq_refl Hv Ht eq_refl)
    as (cands & H & Ha & _).
  exists cands. split; [exact H|exact Ha].
Defined.

Lemma SearchSemantic_spec_witness :
  exists cands, SearchSemantic 2 demo_semantic demo_encoded = (demo_encoded, Ok cands) /\
    answers ChannelSemantic demo_channel_query 50 demo_encoded cands.
Proof.
  assert (db_dims demo_encoded = 2) as Hd by (vm_compute; reflexivity).
  assert (validateSemantic (db_dims demo_encoded) demo_semantic = Ok tt) as Hv by (vm_compute; reflexivity).
  assert (pg_text (sq_model demo_semantic) = true) as Ht by (vm_compute; reflexivity).
  assert (db_ready demo_encoded = true) as Hr by (vm_compute; reflexivity).
  destruct (SearchSemantic_spec demo_semantic demo_encoded demo_encoded_ok Hr Hv Ht eq_refl eq_refl)
    as (cands & H & Ha & _).
  exists cands. rewrite Hd in H. split; [exact H|exact Ha].
Defined.
