(* ===== verification/Statements.v ===== *)
(** * The statements the adapter assembles ([postgres/search.go], [fact.go], [queue.go], [scope.go])

    Seven statements are built by [queryBuilder], a filter at a time. Here is their
    text, with the values bound to their placeholders, and what ties it to the model
    of the queries: read clause by clause under those values, the WHERE of each is the
    filter the rest of the development uses; and no value is ever part of a text. *)

From S2P Require Import Prelude Utf8 Strconv GoNum Types Windows OpsTypes Server Db PgQueue Queueing PgEpisode Appending Replaying PgFact FactWriting FactReading PgEncoding PgSearch.

#[local] Open Scope Z_scope.
#[local] Open Scope string_scope.

(** ** [queryBuilder] *)

(** A bound value. *)
Inductive Arg : Type :=
  | AText (s : string)
  | AUuid (id : N)
  | AInt (z : Z)
  | ATime (t : Time)
  | AFloat (f : float32)
  | ATexts (l : list string)
  | ABinding (b : Binding).

Definition queryBuilder : Type := list Arg.

Definition placeholder (i : nat) : string := "$" ++ Itoa (Z.of_nat i).

(** [queryBuilder.arg]. *)
Definition arg (v : Arg) (b : queryBuilder) : queryBuilder * string :=
  let args := (b ++ [v])%list in (args, placeholder (length args)).

(** A statement as it grows: the [strings.Builder] and the [queryBuilder]. *)
Definition statement : Type := string * queryBuilder.

(** [fmt.Fprintf(&sql, before + "%s" + after, b.arg(v))]. *)
Definition printed (before : string) (v : Arg) (after : string) (st : statement) : statement :=
  let (b, p) := arg v st.2 in (st.1 ++ before ++ p ++ after, b).

(** [if len(l) > 0 { ...; fmt.Fprintf(&sql, before + "%s" + after, b.arg(l)) }]. *)
Definition printed_any (before : string) (l : list string) (after : string) (st : statement) : statement :=
  match l with
  | [] => st
  | _ :: _ => printed before (ATexts l) after st
  end.

(** ** Columns *)

(** [strings.Split] at a comma. *)
Fixpoint split_comma (l current : list N) : list (list N) :=
  match l with
  | [] => [current]
  | b :: l' => if N.eqb b 44 then current :: split_comma l' [] else split_comma l' (current ++ [b])%list
  end.

(** [qualify]. *)
Definition qualify (columns prefix : string) : string :=
  String.concat ", " (map (fun part => prefix ++ TrimSpace (of_bytes part)) (split_comma (bytes_of columns) [])).

Definition tab : string := String (Ascii.ascii_of_nat 9) EmptyString.

Definition factColumns : string :=
  "id, scope_id, extractor, subject, predicate, object," ++ newline ++ tab ++
  "statement, valid, confidence, episode_ids, asserted_at, updated_at".
Definition episodeColumnsQualified : string :=
  "e.id, e.scope_id, e.seq, e.content, e.role, e.actor," ++ newline ++ tab ++
  "e.source, e.occurred_at, e.ingested_at, e.binding".
Definition jobColumns : string :=
  "id, kind, scope_id, episode_ids, state, attempts, max_attempts," ++ newline ++ tab ++
  "run_after, leased_until, leased_by, last_error, created_at, updated_at".
Definition scopeColumns : string := "id, last_seq, created_at".

(** [anyLexemeQuery]. *)
Definition anyLexemeQuery (config text : string) : string :=
  "COALESCE((SELECT string_agg(quote_literal(lexeme), ' | ')" ++
  " FROM unnest(to_tsvector(" ++ config ++ "::regconfig, " ++ text ++ ")))::tsquery, ''::tsquery)".

(** ** The statements *)

Section Statements.
(** [strconv.FormatFloat(f, 'g', -1, 32)]. *)
Context (FormatFloat : float32 -> string).

(** [formatVector]. *)
Definition formatVector (v : Vector) : string := "[" ++ String.concat "," (map FormatFloat v) ++ "]".

(** [appendEpisodeFilters]. *)
Definition appendEpisodeFilters (q : ChannelQuery) (st : statement) : statement :=
  let st := if IsZero (cq_occurred_from q) then st
            else printed (newline ++ "  AND e.occurred_at >= ") (ATime (cq_occurred_from q)) "" st in
  let st := if IsZero (cq_occurred_to q) then st
            else printed (newline ++ "  AND e.occurred_at <= ") (ATime (cq_occurred_to q)) "" st in
  let st := if bool_decide (Binding_entries (cq_binding q) = ∅) then st
            else printed (newline ++ "  AND e.binding @> ") (ABinding (cq_binding q)) "" st in
  printed_any (newline ++ "  AND e.role = ANY(") (cq_roles q) ")" st.

(** The statement of [SearchSemantic]; [vectorType] is the store's. *)
Definition semantic_statement (vectorType : string) (q : SemanticQuery) : statement :=
  let c := sq_channel q in
  let (b, model) := arg (AText (sq_model q)) [] in
  let (b, scope) := arg (AText (cq_scope c)) b in
  let (b, asOf) := arg (ATime (cq_as_of c)) b in
  let (b, v) := arg (AText (formatVector (sq_vector q))) b in
  let vector := v ++ "::" ++ vectorType in
  let st := appendEpisodeFilters c
    ("SELECT " ++ episodeColumnsQualified ++ ", 1 - (enc.content_vec <=> " ++ vector ++ ") AS score" ++ newline ++
     "FROM mempher.episode_encodings enc" ++ newline ++
     "JOIN mempher.episodes e ON e.id = enc.episode_id" ++ newline ++
     "WHERE enc.model = " ++ model ++ " AND enc.scope_id = " ++ scope ++ " AND enc.ingested_at <= " ++ asOf, b) in
  printed (newline ++ "ORDER BY enc.content_vec <=> " ++ vector ++ newline ++ "LIMIT ")
    (AInt (candidateLimit (cq_limit c))) "" st.

(** The statement of [SearchLexical]; [textSearchConfig] is the store's. *)
Definition lexical_statement (textSearchConfig : string) (q : LexicalQuery) : statement :=
  let c := lq_channel q in
  let (b, config) := arg (AText textSearchConfig) [] in
  let (b, text) := arg (AText (lq_text q)) b in
  let (b, scope) := arg (AText (cq_scope c)) b in
  let (b, asOf) := arg (ATime (cq_as_of c)) b in
  let st := appendEpisodeFilters c
    ("SELECT " ++ episodeColumnsQualified ++ ", ts_rank_cd(e.content_tsv, tsq.query) AS score" ++ newline ++
     "FROM mempher.episodes e, (SELECT " ++ anyLexemeQuery config text ++ ") AS tsq(query)" ++ newline ++
     "WHERE e.scope_id = " ++ scope ++ " AND e.ingested_at <= " ++ asOf ++ " AND e.content_tsv @@ tsq.query", b) in
  printed (newline ++ "ORDER BY score DESC, e.seq DESC" ++ newline ++ "LIMIT ")
    (AInt (candidateLimit (cq_limit c))) "" st.

(** The filters of [Facts]. *)
Definition factFilters (q : FactQuery) (st : statement) : statement :=
  let st := printed (newline ++ "  AND f.asserted_at <= ") (ATime (fq_as_of q)) "" st in
  let st := if fq_include_closed q
            then printed (newline ++ "  AND lower(f.valid) <= ") (ATime (fq_at q)) "" st
            else printed (newline ++ "  AND f.valid @> ") (ATime (fq_at q)) "::timestamptz" st in
  let st := printed_any (newline ++ "  AND f.subject = ANY(") (fq_subjects q) ")" st in
  let st := printed_any (newline ++ "  AND f.predicate = ANY(") (fq_predicates q) ")" st in
  if f_gtb (fq_min_confidence q) f_zero
  then printed (newline ++ "  AND f.confidence >= ") (AFloat (fq_min_confidence q)) "" st else st.

(** The statement of [Facts]. *)
Definition facts_statement (textSearchConfig : string) (q : FactQuery) : statement :=
  let (b, scope) := arg (AText (fq_scope q)) [] in
  let (b, extractor) := arg (AText (fq_extractor q)) b in
  let (b, rank) :=
    if String.eqb (TrimSpace (fq_text q)) "" then (b, "")
    else let (b, config) := arg (AText textSearchConfig) b in
         let (b, text) := arg (AText (fq_text q)) b in
         (b, "ts_rank_cd(f.statement_tsv, " ++ anyLexemeQuery config text ++ ")") in
  let st := factFilters q
    ("SELECT " ++ qualify factColumns "f." ++ newline ++ "FROM mempher.facts f" ++ newline ++
     "WHERE f.scope_id = " ++ scope ++ " AND f.extractor = " ++ extractor, b) in
  let limit := if (fq_limit q =? 0)%Z then DefaultFactsLimit else fq_limit q in
  let st := if is_empty rank then (st.1 ++ newline ++ "ORDER BY f.subject, f.predicate, f.object", st.2)
            else (st.1 ++ newline ++ "ORDER BY " ++ rank ++ " DESC, f.subject, f.predicate, f.object", st.2) in
  printed (newline ++ "LIMIT ") (AInt limit) "" st.

(** The rows [Lease] claims, from the placeholder of its instant on. *)
Definition lease_candidates (req : LeaseRequest) (now : string) (b : queryBuilder) : statement :=
  let limit := if (lr_limit req =? 0)%Z then 1%Z else lr_limit req in
  let st := ("SELECT id FROM mempher.jobs" ++ newline ++
             "        WHERE state = 'pending' AND run_after <= " ++ now ++ " AND attempts < max_attempts", b) in
  let st := printed_any (newline ++ "          AND kind = ANY(") (lr_kinds req) ")" st in
  printed (newline ++ "        ORDER BY run_after, id" ++ newline ++ "        LIMIT ") (AInt limit)
    (newline ++ "        FOR UPDATE SKIP LOCKED") st.

(** The statement of [Lease]. *)
Definition lease_statement (req : LeaseRequest) : statement :=
  let duration := if (lr_duration req =? 0)%Z then DefaultLeaseDuration else lr_duration req in
  let (b, now) := arg (ATime (lr_now req)) [] in
  let (b, until) := arg (ATime (Add (lr_now req) duration)) b in
  let (b, worker) := arg (AText (lr_worker req)) b in
  let candidates := lease_candidates req now b in
  (newline ++ "UPDATE mempher.jobs SET" ++ newline ++
   "    state        = 'running'," ++ newline ++
   "    attempts     = attempts + 1," ++ newline ++
   "    leased_until = " ++ until ++ "," ++ newline ++
   "    leased_by    = " ++ worker ++ "," ++ newline ++
   "    updated_at   = " ++ now ++ newline ++
   "WHERE id IN (" ++ newline ++ "        " ++ candidates.1 ++ newline ++ ")" ++ newline ++
   "RETURNING " ++ jobColumns, candidates.2).

(** The statement of [Jobs]. *)
Definition jobs_statement (q : JobQuery) : statement :=
  let limit := if (jq_limit q =? 0)%Z then DefaultJobsLimit else jq_limit q in
  let st := ("SELECT " ++ jobColumns ++ " FROM mempher.jobs WHERE true", []) in
  let st := if is_empty (jq_scope q) then st
            else printed (newline ++ "  AND scope_id = ") (AText (jq_scope q)) "" st in
  let st := printed_any (newline ++ "  AND kind = ANY(") (jq_kinds q) ")" st in
  let st := printed_any (newline ++ "  AND state = ANY(") (jq_states q) ")" st in
  let st := if IsZeroID (jq_after q) then st else printed (newline ++ "  AND id > ") (AUuid (jq_after q)) "" st in
  printed (newline ++ "ORDER BY id" ++ newline ++ "LIMIT ") (AInt limit) "" st.

(** The statement of [Stats]. *)
Definition stats_statement (scope : ScopeID) : statement :=
  let st := ("SELECT kind, state, count(*), min(created_at)" ++ newline ++ "FROM mempher.jobs" ++ newline ++ "WHERE true", []) in
  let st := if is_empty scope then st else printed (newline ++ "  AND scope_id = ") (AText scope) "" st in
  (st.1 ++ newline ++ "GROUP BY kind, state" ++ newline ++ "ORDER BY kind, state", st.2).

(** The statement of [Scopes]. *)
Definition scopes_statement (q : ScopeQuery) : statement :=
  let limit := if (scq_limit q =? 0)%Z then DefaultScopesLimit else scq_limit q in
  let st := ("SELECT " ++ scopeColumns ++ " FROM mempher.scopes WHERE true", []) in
  let st := if is_empty (scq_after q) then st else printed (newline ++ "  AND id > ") (AText (scq_after q)) "" st in
  let st := if is_empty (scq_prefix q) then st
            else printed (newline ++ "  AND starts_with(id, ") (AText (scq_prefix q)) ")" st in
  printed (newline ++ "ORDER BY id" ++ newline ++ "LIMIT ") (AInt limit) "" st.
End Statements.

(** ** Reading a statement back *)

(** The value a placeholder stands for; they count from one. *)
Definition value (args : list Arg) (i : nat) : option Arg := args !! pred i.

(** One condition of a WHERE: its text, and what it says of a row under the values. *)
Class Condition (C R : Type) : Type := {
  show : C -> string;
  holds : queryBuilder -> C -> R -> bool;
}.

Definition show_all `{Condition C R} (cs : list C) : string := String.concat "" (map show cs).

(** A statement is a head, conditions, and a tail; under its values the conditions
    together are [p]. *)
Definition reads_as C `{Condition C R} (head tail : string) (st : statement) (p : R -> bool) : Prop :=
  exists cs : list C, st.1 = head ++ show_all cs ++ tail /\ forall r, forallb (fun c => holds st.2 c r) cs = p r.

(** Its LIMIT is the last value. *)
Definition limited (limit : Z) (st : statement) : Prop := last st.2 = Some (AInt limit).
Definition limit_clause (st : statement) : string := "LIMIT " ++ placeholder (length st.2).

(** ** What the conditions say *)

Section Conditions.
Context `{Sv : Server}.

Inductive episode_condition : Type :=
  | scope_is (i : nat)
  | ingested_by (i : nat)
  | matches_text (i : nat)
  | occurred_from (i : nat)
  | occurred_to (i : nat)
  | binding_has (i : nat)
  | role_in (i : nat).

(** The text a lexical query matches is bound in its FROM. *)
Definition show_episode (c : episode_condition) : string :=
  match c with
  | scope_is i => "e.scope_id = " ++ placeholder i
  | ingested_by i => " AND e.ingested_at <= " ++ placeholder i
  | matches_text _ => " AND e.content_tsv @@ tsq.query"
  | occurred_from i => newline ++ "  AND e.occurred_at >= " ++ placeholder i
  | occurred_to i => newline ++ "  AND e.occurred_at <= " ++ placeholder i
  | binding_has i => newline ++ "  AND e.binding @> " ++ placeholder i
  | role_in i => newline ++ "  AND e.role = ANY(" ++ placeholder i ++ ")"
  end.

Definition episode_holds (args : queryBuilder) (c : episode_condition) (e : EpisodeRow) : bool :=
  match c with
  | scope_is i => match value args i with Some (AText s) => String.eqb (er_scope e) s | _ => false end
  | ingested_by i => match value args i with Some (ATime t) => (er_ingested e <=? pg_ts (t_ns t))%Z | _ => false end
  | matches_text i => match value args i with Some (AText s) => pg_match s (er_content e) | _ => false end
  | occurred_from i => match value args i with Some (ATime t) => (pg_ts (t_ns t) <=? er_occurred e)%Z | _ => false end
  | occurred_to i => match value args i with Some (ATime t) => (er_occurred e <=? pg_ts (t_ns t))%Z | _ => false end
  | binding_has i => match value args i with Some (ABinding b) => bool_decide (Binding_entries b ⊆ er_binding e) | _ => false end
  | role_in i => match value args i with Some (ATexts l) => one_of (er_role e) l | _ => false end
  end.

#[export] Instance Condition_episode : Condition episode_condition EpisodeRow :=
  { show := show_episode; holds := episode_holds }.

(** Of an encoding joined to its episode. *)
Inductive join_condition : Type :=
  | model_is (i : nat)
  | encoded_scope_is (i : nat)
  | encoded_by (i : nat)
  | of_episode (c : episode_condition).

Definition show_join (c : join_condition) : string :=
  match c with
  | model_is i => "enc.model = " ++ placeholder i
  | encoded_scope_is i => " AND enc.scope_id = " ++ placeholder i
  | encoded_by i => " AND enc.ingested_at <= " ++ placeholder i
  | of_episode c => show_episode c
  end.

Definition join_holds (args : queryBuilder) (c : join_condition) (x : EpisodeRow * EncodingRow) : bool :=
  match c with
  | model_is i => match value args i with Some (AText s) => String.eqb (nr_model x.2) s | _ => false end
  | encoded_scope_is i => match value args i with Some (AText s) => String.eqb (nr_scope x.2) s | _ => false end
  | encoded_by i => match value args i with Some (ATime t) => (nr_ingested x.2 <=? pg_ts (t_ns t))%Z | _ => false end
  | of_episode c => episode_holds args c x.1
  end.

#[export] Instance Condition_join : Condition join_condition (EpisodeRow * EncodingRow) :=
  { show := show_join; holds := join_holds }.

Inductive fact_condition : Type :=
  | fact_scope_is (i : nat)
  | extractor_is (i : nat)
  | asserted_by (i : nat)
  | begun_by (i : nat)
  | valid_at (i : nat)
  | subject_in (i : nat)
  | predicate_in (i : nat)
  | confident (i : nat).

Definition show_fact (c : fact_condition) : string :=
  match c with
  | fact_scope_is i => "f.scope_id = " ++ placeholder i
  | extractor_is i => " AND f.extractor = " ++ placeholder i
  | asserted_by i => newline ++ "  AND f.asserted_at <= " ++ placeholder i
  | begun_by i => newline ++ "  AND lower(f.valid) <= " ++ placeholder i
  | valid_at i => newline ++ "  AND f.valid @> " ++ placeholder i ++ "::timestamptz"
  | subject_in i => newline ++ "  AND f.subject = ANY(" ++ placeholder i ++ ")"
  | predicate_in i => newline ++ "  AND f.predicate = ANY(" ++ placeholder i ++ ")"
  | confident i => newline ++ "  AND f.confidence >= " ++ placeholder i
  end.

Definition fact_holds (args : queryBuilder) (c : fact_condition) (r : FactRow) : bool :=
  match c with
  | fact_scope_is i => match value args i with Some (AText s) => String.eqb (gr_scope r) s | _ => false end
  | extractor_is i => match value args i with Some (AText s) => String.eqb (gr_extractor r) s | _ => false end
  | asserted_by i => match value args i with Some (ATime t) => (gr_asserted r <=? pg_ts (t_ns t))%Z | _ => false end
  | begun_by i => match value args i with Some (ATime t) => (gr_from r <=? pg_ts (t_ns t))%Z | _ => false end
  | valid_at i => match value args i with Some (ATime t) => range_contains r (pg_ts (t_ns t)) | _ => false end
  | subject_in i => match value args i with Some (ATexts l) => one_of (gr_subject r) l | _ => false end
  | predicate_in i => match value args i with Some (ATexts l) => one_of (gr_predicate r) l | _ => false end
  | confident i => match value args i with Some (AFloat f) => negb (f_ltb (gr_confidence r) f) | _ => false end
  end.

#[export] Instance Condition_fact : Condition fact_condition FactRow := { show := show_fact; holds := fact_holds }.

Inductive job_condition : Type :=
  | job_pending
  | due_by (i : nat)
  | attempts_left
  | leased_kind_in (i : nat)
  | job_scope_is (i : nat)
  | kind_in (i : nat)
  | state_in (i : nat)
  | job_after (i : nat).

Definition show_job (c : job_condition) : string :=
  match c with
  | job_pending => "state = 'pending'"
  | due_by i => " AND run_after <= " ++ placeholder i
  | attempts_left => " AND attempts < max_attempts"
  | leased_kind_in i => newline ++ "          AND kind = ANY(" ++ placeholder i ++ ")"
  | job_scope_is i => newline ++ "  AND scope_id = " ++ placeholder i
  | kind_in i => newline ++ "  AND kind = ANY(" ++ placeholder i ++ ")"
  | state_in i => newline ++ "  AND state = ANY(" ++ placeholder i ++ ")"
  | job_after i => newline ++ "  AND id > " ++ placeholder i
  end.

Definition job_holds (args : queryBuilder) (c : job_condition) (r : JobRow) : bool :=
  match c with
  | job_pending => String.eqb (jr_state r) "pending"
  | due_by i => match value args i with Some (ATime t) => (jr_run_after r <=? pg_ts (t_ns t))%Z | _ => false end
  | attempts_left => (jr_attempts r <? jr_max_attempts r)%Z
  | leased_kind_in i | kind_in i => match value args i with Some (ATexts l) => one_of (jr_kind r) l | _ => false end
  | job_scope_is i => match value args i with Some (AText s) => String.eqb (jr_scope r) s | _ => false end
  | state_in i => match value args i with Some (ATexts l) => one_of (jr_state r) l | _ => false end
  | job_after i => match value args i with Some (AUuid id) => N.ltb id (jr_id r) | _ => false end
  end.

#[export] Instance Condition_job : Condition job_condition JobRow := { show := show_job; holds := job_holds }.

Inductive scope_condition : Type :=
  | scope_after (i : nat)
  | scope_prefixed (i : nat).

Definition show_scope (c : scope_condition) : string :=
  match c with
  | scope_after i => newline ++ "  AND id > " ++ placeholder i
  | scope_prefixed i => newline ++ "  AND starts_with(id, " ++ placeholder i ++ ")"
  end.

Definition scope_holds (args : queryBuilder) (c : scope_condition) (r : ScopeRow) : bool :=
  match c with
  | scope_after i =>
      match value args i with Some (AText s) => match pg_collate (sr_id r) s with Gt => true | _ => false end | _ => false end
  | scope_prefixed i => match value args i with Some (AText s) => String.prefix s (sr_id r) | _ => false end
  end.

#[export] Instance Condition_scope : Condition scope_condition ScopeRow := { show := show_scope; holds := scope_holds }.
End Conditions.

(** ** The text around the conditions *)

Section Frames.
Context `{Sv : Server}.

Definition semantic_head (vectorType : string) : string :=
  "SELECT " ++ episodeColumnsQualified ++ ", 1 - (enc.content_vec <=> $4::" ++ vectorType ++ ") AS score" ++ newline ++
  "FROM mempher.episode_encodings enc" ++ newline ++ "JOIN mempher.episodes e ON e.id = enc.episode_id" ++ newline ++ "WHERE ".
Definition semantic_tail (vectorType : string) (st : statement) : string :=
  newline ++ "ORDER BY enc.content_vec <=> $4::" ++ vectorType ++ newline ++ limit_clause st.

Definition lexical_head : string :=
  "SELECT " ++ episodeColumnsQualified ++ ", ts_rank_cd(e.content_tsv, tsq.query) AS score" ++ newline ++
  "FROM mempher.episodes e, (SELECT " ++ anyLexemeQuery "$1" "$2" ++ ") AS tsq(query)" ++ newline ++ "WHERE ".
Definition lexical_tail (st : statement) : string :=
  newline ++ "ORDER BY score DESC, e.seq DESC" ++ newline ++ limit_clause st.

Definition facts_head : string :=
  "SELECT " ++ qualify factColumns "f." ++ newline ++ "FROM mempher.facts f" ++ newline ++ "WHERE ".
Definition facts_tail (ranked : bool) (st : statement) : string :=
  newline ++ "ORDER BY " ++
  (if ranked then "ts_rank_cd(f.statement_tsv, " ++ anyLexemeQuery "$3" "$4" ++ ") DESC, " else "") ++
  "f.subject, f.predicate, f.object" ++ newline ++ limit_clause st.

Definition lease_head : string :=
  newline ++ "UPDATE mempher.jobs SET" ++ newline ++
  "    state        = 'running'," ++ newline ++ "    attempts     = attempts + 1," ++ newline ++
  "    leased_until = $2," ++ newline ++ "    leased_by    = $3," ++ newline ++ "    updated_at   = $1" ++ newline ++
  "WHERE id IN (" ++ newline ++ "        SELECT id FROM mempher.jobs" ++ newline ++ "        WHERE ".
Definition lease_tail (st : statement) : string :=
  newline ++ "        ORDER BY run_after, id" ++ newline ++ "        " ++ limit_clause st ++ newline ++
  "        FOR UPDATE SKIP LOCKED" ++ newline ++ ")" ++ newline ++ "RETURNING " ++ jobColumns.

Definition jobs_head : string := "SELECT " ++ jobColumns ++ " FROM mempher.jobs WHERE true".
Definition scopes_head : string := "SELECT " ++ scopeColumns ++ " FROM mempher.scopes WHERE true".
Definition id_tail (st : statement) : string := newline ++ "ORDER BY id" ++ newline ++ limit_clause st.
Definition stats_head : string :=
  "SELECT kind, state, count(*), min(created_at)" ++ newline ++ "FROM mempher.jobs" ++ newline ++ "WHERE true".
Definition stats_tail : string := newline ++ "GROUP BY kind, state" ++ newline ++ "ORDER BY kind, state".

(** What the semantic statement joins. *)
Definition semantic_where (q : SemanticQuery) (x : EpisodeRow * EncodingRow) : bool :=
  String.eqb (nr_model x.2) (sq_model q) && String.eqb (nr_scope x.2) (cq_scope (sq_channel q)) &&
  (nr_ingested x.2 <=? pg_ts (t_ns (cq_as_of (sq_channel q))))%Z && episode_filters (sq_channel q) x.1.
End Frames.

Example qualified_fact_columns : qualify factColumns "f." =
  "f.id, f.scope_id, f.extractor, f.subject, f.predicate, f.object, f.statement, f.valid, f.confidence, f.episode_ids, f.asserted_at, f.updated_at".
Proof. vm_compute. reflexivity. Qed.

(** ** Growing a statement *)

Section Growing.
Context {C R : Type} `{!Condition C R}.

Lemma show_all_cons (c : C) cs : show_all (c :: cs) = (show c ++ show_all cs)%string.
Proof. unfold show_all. destruct cs; cbn; [by rewrite string_app_nil_r|done]. Qed.

Lemma show_all_app (cs cs' : list C) : show_all (cs ++ cs') = (show_all cs ++ show_all cs')%string.
Proof. induction cs as [|c cs IH]; [done|]. cbn [app]. by rewrite !show_all_cons, IH, string_app_assoc. Qed.

(** From one statement to a longer one, what was added says [p]; values bound later
    change nothing of it. *)
Definition grown (from to : statement) (p : R -> bool) : Prop :=
  exists cs : list C, to.1 = (from.1 ++ show_all cs)%string /\ from.2 `prefix_of` to.2 /\
    forall args r, to.2 `prefix_of` args -> forallb (fun c => holds args c r) cs = p r.

Lemma grown_refl st : grown st st (fun _ => true).
Proof. exists []. split; [by rewrite string_app_nil_r|]. done. Qed.

Lemma grown_trans a b c p q : grown a b p -> grown b c q -> grown a c (fun r => p r && q r).
Proof.
  intros (cs & Ht & Hp & Hh) (cs' & Ht' & Hp' & Hh'). exists (cs ++ cs')%list.
  split; [by rewrite Ht', Ht, show_all_app, string_app_assoc|]. split; [by transitivity b.2|].
  intros args r Hargs. rewrite forallb_app, Hh', Hh; [done| |done]. by transitivity c.2.
Qed.

Lemma grown_ext a b p q : (forall r, p r = q r) -> grown a b p -> grown a b q.
Proof. intros He (cs & Ht & Hp & Hh). exists cs. split; [done|]. split; [done|]. intros args r Hargs. by rewrite Hh. Qed.

(** One more condition, on the value it binds. *)
Lemma grown_printed (c : nat -> C) before v after st p :
  (forall i, show (c i) = (before ++ placeholder i ++ after)%string) ->
  (forall args i r, value args i = Some v -> holds args (c i) r = p r) ->
  grown st (printed before v after st) p.
Proof.
  intros Hs Hh. set (i := S (length st.2)). exists [c i]. unfold printed, arg. cbn [fst snd].
  rewrite length_app, Nat.add_1_r. split; [by rewrite show_all_cons, string_app_nil_r, Hs|].
  split; [by apply prefix_app_r|]. intros args r [k ->]. cbn [forallb]. rewrite andb_true_r. apply Hh.
  unfold value, i. cbn [pred]. unfold queryBuilder in *. rewrite <- app_assoc. by rewrite lookup_app_r, Nat.sub_diag.
Qed.

(** A filter that is left out when it says nothing. *)
Lemma grown_unless (skip : bool) a b p :
  (skip = true -> forall r, p r = true) -> (skip = false -> grown a b p) -> grown a (if skip then a else b) p.
Proof. intros Hs H. destruct skip; [|by apply H]. apply (grown_ext _ _ (fun _ => true)); [|apply grown_refl]. intros r. by rewrite Hs. Qed.

(** A list that is bound when it is not empty. *)
Lemma grown_any (c : nat -> C) before after st (l : list string) (key : R -> string) :
  (forall i, show (c i) = (before ++ placeholder i ++ after)%string) ->
  (forall args i r, value args i = Some (ATexts l) -> holds args (c i) r = one_of (key r) l) ->
  grown st (printed_any before l after st) (fun r => any_or_all (key r) l).
Proof.
  intros Hs Hh. unfold any_or_all, printed_any. destruct l as [|x l]; [apply grown_refl|].
  by apply (grown_printed c).
Qed.
(** The conditions a statement starts with. *)
Lemma grown_start head (cs : list C) st p :
  st.1 = (head ++ show_all cs)%string ->
  (forall args r, st.2 `prefix_of` args -> forallb (fun c => holds args c r) cs = p r) -> grown (head, []) st p.
Proof. intros Ht Hh. exists cs. split; [done|]. split; [apply prefix_nil|done]. Qed.

(** With a tail behind it, a statement that has grown from a head reads as such. *)
Lemma grown_reads head tail (st st' : statement) p :
  grown (head, []) st p -> st'.1 = (st.1 ++ tail)%string -> st.2 `prefix_of` st'.2 -> reads_as C head tail st' p.
Proof.
  intros (cs & Ht & _ & Hh) Ht' Hp. exists cs. split; [by rewrite Ht', Ht, string_app_assoc|]. intros r. by apply Hh.
Qed.

(** A LIMIT behind what has grown. *)
Lemma limited_reads head tail order before limit after (st0 st : statement) p :
  grown (head, []) st0 p -> st.1 = (st0.1 ++ order)%string -> st.2 = st0.2 ->
  let st' := printed before (AInt limit) after st in
  (order ++ before ++ placeholder (length st'.2) ++ after)%string = tail ->
  reads_as C head tail st' p /\ limited limit st'.
Proof.
  intros Hg Ht Hargs st' <-. split; [|apply last_snoc]. eapply grown_reads; [exact Hg| |].
  - cbn [st' printed arg fst snd]. by rewrite Ht, !string_app_assoc.
  - cbn [st' printed arg fst snd]. rewrite Hargs. by apply prefix_app_r.
Qed.

End Growing.

(** Conditions on a part of a row. *)
Lemma grown_map {C C' R R'} `{!Condition C R, !Condition C' R'} (f : C -> C') (g : R' -> R) a b p :
  (forall c, show (f c) = show c) -> (forall args c r, holds args (f c) r = holds args c (g r)) ->
  grown (C := C) a b p -> grown (C := C') a b (fun r => p (g r)).
Proof.
  intros Hs Hh (cs & Ht & Hp & Hcs). exists (map f cs). split; [|split; [done|]].
  - unfold show_all in *. rewrite Ht, map_map. by rewrite (map_ext _ _ Hs).
  - intros args r Hargs. rewrite <- (Hcs args (g r) Hargs). clear -Hh. induction cs as [|c cs IH]; [done|]. cbn. by rewrite Hh, IH.
Qed.

(** ** What each statement asks for *)

Section Reading.
Context `{Sv : Server} (FormatFloat : float32 -> string).

(** The condition a value is bound to. *)
Ltac shown := intros; cbn; by rewrite ?string_app_assoc, ?string_app_nil_r.
Ltac bound_any c := apply (grown_any c); [shown|intros args i r Hv; cbn; by rewrite Hv].
Ltac bound c := apply (grown_printed c); [shown|intros args i r Hv; cbn; rewrite Hv; try done].

(** The filters both channels share are those of the model. *)
Lemma filters_grow (q : ChannelQuery) st :
  grown (C := episode_condition) st (appendEpisodeFilters q st) (episode_filters q).
Proof.
  unfold appendEpisodeFilters. cbv zeta. apply (grown_ext _ _ (fun e => episode_filters q e)); [done|]. unfold episode_filters.
  set (s1 := if IsZero (cq_occurred_from q) then st else _). set (s2 := if IsZero (cq_occurred_to q) then s1 else _).
  set (s3 := if bool_decide _ then s2 else _).
  refine (grown_trans _ s3 _ _ _ (grown_trans _ s2 _ _ _ (grown_trans _ s1 _ _ _ _ _) _) _).
  - apply grown_unless; intros H; [by rewrite H|]. bound occurred_from. by rewrite H.
  - apply grown_unless; intros H; [by rewrite H|]. bound occurred_to. by rewrite H.
  - apply grown_unless; intros H; [|bound binding_has]. intros r. apply bool_decide_eq_true in H as ->.
    apply bool_decide_eq_true, map_empty_subseteq.
  - bound_any role_in.
Qed.

(** The text after the conditions, and its LIMIT. *)
Ltac tail := cbn [fst snd]; unfold semantic_tail, lexical_tail, facts_tail, lease_tail, id_tail, limit_clause;
  rewrite ?string_app_assoc, ?string_app_nil_r; reflexivity.

Lemma semantic_reads vectorType q :
  let st := semantic_statement FormatFloat vectorType q in
  reads_as join_condition (semantic_head vectorType) (semantic_tail vectorType st) st (semantic_where q) /\
  limited (candidateLimit (cq_limit (sq_channel q))) st.
Proof.
  cbv zeta. unfold semantic_statement, arg. cbv zeta. set (base := (_, _)).
  eapply (limited_reads _ _ ""); [|by rewrite string_app_nil_r|done|tail].
  apply (grown_ext _ _ (fun x => semantic_where q x)); [done|]. unfold semantic_where.
  refine (grown_trans _ base _ _ _ _ (grown_map of_episode fst _ _ _ _ _ (filters_grow _ _))); [|done..].
  apply (grown_start _ [model_is 1; encoded_scope_is 2; encoded_by 3]).
  - unfold base, semantic_head. cbn [fst]. rewrite !string_app_assoc. reflexivity.
  - intros args r [k ->]. cbn. by rewrite andb_true_r, andb_assoc.
Qed.

Lemma lexical_reads config q :
  let st := lexical_statement config q in
  reads_as episode_condition lexical_head (lexical_tail st) st (lexical_filter q) /\
  limited (candidateLimit (cq_limit (lq_channel q))) st.
Proof.
  cbv zeta. unfold lexical_statement, arg. cbv zeta. set (base := (_, _)).
  eapply (limited_reads _ _ ""); [|by rewrite string_app_nil_r|done|tail].
  apply (grown_ext _ _ (fun x => lexical_filter q x)); [done|]. unfold lexical_filter.
  refine (grown_trans _ base _ _ _ _ (filters_grow _ _)).
  apply (grown_start _ [scope_is 3; ingested_by 4; matches_text 2]); [reflexivity|].
  intros args r [k ->]. cbn. by rewrite andb_true_r, andb_assoc.
Qed.

(** Whatever else is bound for the ranking. *)
Lemma facts_grow q (b : queryBuilder) :
  [AText (fq_scope q); AText (fq_extractor q)] `prefix_of` b ->
  grown (C := fact_condition) (facts_head, [])
    (factFilters q (facts_head ++ "f.scope_id = $1 AND f.extractor = $2", b)%string) (facts_filter q).
Proof.
  intros Hb. unfold factFilters. cbv zeta. set (base := (_, b)). set (s1 := printed _ _ _ base).
  set (s2 := if fq_include_closed q then printed _ _ _ s1 else _). set (s3 := printed_any _ (fq_subjects q) _ s2).
  set (s4 := printed_any _ (fq_predicates q) _ s3).
  apply (grown_ext _ _ (fun r => facts_filter q r)); [done|]. unfold facts_filter.
  refine (grown_trans _ s4 _ _ _ (grown_trans _ s3 _ _ _ (grown_trans _ s2 _ _ _ (grown_trans _ s1 _ _ _
    (grown_trans _ base _ _ _ _ _) _) _) _) _).
  - apply (grown_start _ [fact_scope_is 1; extractor_is 2]); [reflexivity|].
    intros args r [k ->]. destruct Hb as [k' ->]. cbn. by rewrite andb_true_r.
  - bound asserted_by.
  - destruct (fq_include_closed q); [bound begun_by|bound valid_at].
  - bound_any subject_in.
  - bound_any predicate_in.
  - destruct (f_gtb _ _); [bound confident|]. apply (grown_ext _ _ (fun _ => true)); [done|apply grown_refl].
Qed.

Lemma facts_reads config q :
  let st := facts_statement config q in
  reads_as fact_condition facts_head (facts_tail (negb (String.eqb (TrimSpace (fq_text q)) "")) st) st (facts_filter q) /\
  limited (if (fq_limit q =? 0)%Z then DefaultFactsLimit else fq_limit q) st.
Proof.
  cbv zeta. unfold facts_statement, arg. cbv zeta. set (limit := if (_ =? _)%Z then _ else _).
  destruct (String.eqb (TrimSpace (fq_text q)) "") eqn:He; cbn [negb].
  - change (is_empty "") with true. cbv iota.
    eapply limited_reads; [apply (facts_grow q); apply prefix_cons, prefix_cons, prefix_nil|reflexivity|done|tail].
  - change (is_empty ("ts_rank_cd(f.statement_tsv, " ++ _)) with false. cbv iota.
    eapply limited_reads; [apply (facts_grow q); apply prefix_cons, prefix_cons, prefix_nil|reflexivity|done|tail].
Qed.

Lemma jobs_reads q :
  let st := jobs_statement q in
  reads_as job_condition jobs_head (id_tail st) st (jobs_filter q) /\
  limited (if (jq_limit q =? 0)%Z then DefaultJobsLimit else jq_limit q) st.
Proof.
  cbv zeta. unfold jobs_statement. cbv zeta. set (base := (_, [])). set (s1 := if is_empty (jq_scope q) then base else _).
  set (s2 := printed_any _ (jq_kinds q) _ s1). set (s3 := printed_any _ (jq_states q) _ s2).
  eapply (limited_reads _ _ ""); [|by rewrite string_app_nil_r|done|tail].
  apply (grown_ext _ _ (fun r => jobs_filter q r)); [done|]. unfold jobs_filter.
  refine (grown_trans _ s3 _ _ _ (grown_trans _ s2 _ _ _ (grown_trans _ s1 _ _ _ _ _) _) _).
  - apply grown_unless; intros H; [by rewrite H|]. bound job_scope_is. by rewrite H.
  - bound_any kind_in.
  - bound_any state_in.
  - apply grown_unless; intros H; [by rewrite H|]. bound job_after. by rewrite H.
Qed.

Lemma stats_reads scope :
  let st := stats_statement scope in
  reads_as job_condition stats_head stats_tail st (fun r => is_empty scope || String.eqb (jr_scope r) scope).
Proof.
  cbv zeta. unfold stats_statement. set (base := (_, [])). set (s1 := if is_empty scope then base else _).
  eapply (grown_reads _ _ s1); [|reflexivity|done].
  apply grown_unless; intros H; [by rewrite H|]. bound job_scope_is. by rewrite H.
Qed.

Lemma scopes_reads q :
  let st := scopes_statement q in
  reads_as scope_condition scopes_head (id_tail st) st (scopes_filter q) /\
  limited (if (scq_limit q =? 0)%Z then DefaultScopesLimit else scq_limit q) st.
Proof.
  cbv zeta. unfold scopes_statement. cbv zeta. set (base := (_, [])). set (s1 := if is_empty (scq_after q) then base else _).
  eapply (limited_reads _ _ ""); [|by rewrite string_app_nil_r|done|tail].
  apply (grown_ext _ _ (fun r => scopes_filter q r)); [done|]. unfold scopes_filter.
  refine (grown_trans _ s1 _ _ _ _ _); (apply grown_unless; intros H; [by rewrite H|]).
  - bound scope_after. by rewrite H.
  - bound scope_prefixed. by rewrite H.
Qed.

Lemma candidates_read req (b : queryBuilder) :
  [ATime (lr_now req)] `prefix_of` b ->
  let st := lease_candidates req "$1" b in
  reads_as job_condition ("SELECT id FROM mempher.jobs" ++ newline ++ "        WHERE ")%string
    (newline ++ "        ORDER BY run_after, id" ++ newline ++ "        " ++ limit_clause st ++ newline ++ "        FOR UPDATE SKIP LOCKED")%string
    st (leasable (lr_kinds req) (pg_ts (t_ns (lr_now req)))) /\
  limited (if (lr_limit req =? 0)%Z then 1%Z else lr_limit req) st.
Proof.
  intros Hb. cbv zeta. unfold lease_candidates. cbv zeta. set (base := (_, b)). set (s1 := printed_any _ _ _ base).
  eapply (limited_reads _ _ ""); [|by rewrite string_app_nil_r|done|tail].
  apply (grown_ext _ _ (fun r => leasable (lr_kinds req) (pg_ts (t_ns (lr_now req))) r)); [done|]. unfold leasable.
  refine (grown_trans _ base _ _ _ _ _).
  - apply (grown_start _ [job_pending; due_by 1; attempts_left]); [reflexivity|].
    intros args r [k ->]. destruct Hb as [k' ->]. cbn. by rewrite andb_true_r, andb_assoc.
  - bound_any leased_kind_in.
Qed.

Lemma lease_reads req :
  let st := lease_statement req in
  reads_as job_condition lease_head (lease_tail st) st (leasable (lr_kinds req) (pg_ts (t_ns (lr_now req)))) /\
  limited (if (lr_limit req =? 0)%Z then 1%Z else lr_limit req) st.
Proof.
  cbv zeta. unfold lease_statement, arg. cbv zeta. set (b := (_ ++ [AText _])%list).
  change (placeholder (length ([] ++ [ATime (lr_now req)])%list)) with "$1".
  destruct (candidates_read req b) as [Hr Hl]; [apply prefix_cons, prefix_nil|]. split; [|exact Hl].
  destruct Hr as (cs & Ht & Hh). exists cs. split; [|exact Hh].
  cbn [fst snd]. rewrite Ht. unfold lease_head. tail.
Qed.
(** C30: the statements ask for what the model answers. For every request, each of the
    seven statements the adapter assembles is a fixed head, conditions, and its ORDER BY
    and LIMIT; every condition compares a column with the placeholder of the value it
    was given, so that under the values bound, whatever filters the request has, the
    conditions together hold of exactly the rows the model's query selects; and the last
    value is the limit. *)
Theorem statements_read vectorType config :
  (forall q, let st := semantic_statement FormatFloat vectorType q in
     reads_as join_condition (semantic_head vectorType) (semantic_tail vectorType st) st (semantic_where q) /\
     limited (candidateLimit (cq_limit (sq_channel q))) st) /\
  (forall q, let st := lexical_statement config q in
     reads_as episode_condition lexical_head (lexical_tail st) st (lexical_filter q) /\
     limited (candidateLimit (cq_limit (lq_channel q))) st) /\
  (forall q, let st := facts_statement config q in
     reads_as fact_condition facts_head (facts_tail (negb (String.eqb (TrimSpace (fq_text q)) "")) st) st (facts_filter q) /\
     limited (if (fq_limit q =? 0)%Z then DefaultFactsLimit else fq_limit q) st) /\
  (forall req, let st := lease_statement req in
     reads_as job_condition lease_head (lease_tail st) st (leasable (lr_kinds req) (pg_ts (t_ns (lr_now req)))) /\
     limited (if (lr_limit req =? 0)%Z then 1%Z else lr_limit req) st) /\
  (forall q, let st := jobs_statement q in
     reads_as job_condition jobs_head (id_tail st) st (jobs_filter q) /\
     limited (if (jq_limit q =? 0)%Z then DefaultJobsLimit else jq_limit q) st) /\
  (forall scope, reads_as job_condition stats_head stats_tail (stats_statement scope)
     (fun r => is_empty scope || String.eqb (jr_scope r) scope)) /\
  (forall q, let st := scopes_statement q in
     reads_as scope_condition scopes_head (id_tail st) st (scopes_filter q) /\
     limited (if (scq_limit q =? 0)%Z then DefaultScopesLimit else scq_limit q) st).
Proof.
  split_and!; intros; [apply semantic_reads|apply lexical_reads|apply facts_reads|apply lease_reads|apply jobs_reads|
    apply stats_reads|apply scopes_reads].
Qed.

(** The join of the semantic statement, as the model runs it. *)
Lemma semantic_filter_joins q d x :
  semantic_filter q d x =
  match List.find (fun e => N.eqb (er_id e) (nr_episode x)) (db_episodes d) with
  | Some e => if semantic_where q (e, x) then Some (e, x) else None
  | None => None
  end.
Proof.
  unfold semantic_filter, semantic_where. cbn [fst snd]. destruct (List.find _ _) as [e|]; [|by destruct (_ && _)].
  destruct (_ && _ && _); [|done]. by destruct (episode_filters _ _).
Qed.
End Reading.

(** ** What a text depends on *)

(** The same text, with as many values bound. *)
Definition alike (st st' : statement) : Prop := st.1 = st'.1 /\ length st.2 = length st'.2.

#[export] Instance alike_equivalence : Equivalence alike.
Proof. split; [by intros st|by intros st st' []|intros x y z [] []; split; congruence]. Qed.

Lemma alike_printed before v v' after st st' :
  alike st st' -> alike (printed before v after st) (printed before v' after st').
Proof. unfold alike, printed, arg. cbn [fst snd]. intros [-> H]. by rewrite !length_app, H. Qed.

Definition is_nil (l : list string) : bool := match l with [] => true | _ => false end.

Lemma alike_any before l l' after st st' :
  is_nil l = is_nil l' -> alike st st' -> alike (printed_any before l after st) (printed_any before l' after st').
Proof. intros Hl Hst. destruct l, l'; try done. by apply alike_printed. Qed.

Lemma alike_if (c c' : bool) a b a' b' : c = c' -> alike a a' -> alike b b' -> alike (if c then a else b) (if c' then a' else b').
Proof. intros ->. by destruct c'. Qed.

Lemma alike_around st st' h t : alike st st' -> alike (h ++ st.1 ++ t, st.2)%string (h ++ st'.1 ++ t, st'.2)%string.
Proof. intros [H1 H2]. split; cbn [fst snd]; congruence. Qed.

(** Which filters a request has. *)
Definition channel_shape (q : ChannelQuery) : bool * bool * bool * bool :=
  (IsZero (cq_occurred_from q), IsZero (cq_occurred_to q), bool_decide (Binding_entries (cq_binding q) = ∅), is_nil (cq_roles q)).
Definition facts_shape (q : FactQuery) : bool * bool * bool * bool * bool :=
  (String.eqb (TrimSpace (fq_text q)) "", fq_include_closed q, is_nil (fq_subjects q), is_nil (fq_predicates q),
   f_gtb (fq_min_confidence q) f_zero).
Definition jobs_shape (q : JobQuery) : bool * bool * bool * bool :=
  (is_empty (jq_scope q), is_nil (jq_kinds q), is_nil (jq_states q), IsZeroID (jq_after q)).
Definition scopes_shape (q : ScopeQuery) : bool * bool := (is_empty (scq_after q), is_empty (scq_prefix q)).

Create HintDb alike.
#[local] Hint Resolve alike_printed alike_any alike_if alike_around : alike.
#[local] Hint Extern 1 (alike (_, _) (_, _)) => split; reflexivity : alike.

Lemma filters_alike q q' st st' :
  channel_shape q = channel_shape q' -> alike st st' -> alike (appendEpisodeFilters q st) (appendEpisodeFilters q' st').
Proof. intros [= H1 H2 H3 H4] Hst. unfold appendEpisodeFilters. cbv zeta. auto 10 with alike. Qed.

Lemma fact_filters_alike q q' st st' :
  facts_shape q = facts_shape q' -> alike st st' -> alike (factFilters q st) (factFilters q' st').
Proof. intros [= H1 H2 H3 H4 H5] Hst. unfold factFilters. cbv zeta. auto 10 with alike. Qed.

Lemma facts_alike config config' q q' :
  facts_shape q = facts_shape q' -> alike (facts_statement config q) (facts_statement config' q').
Proof.
  intros H. pose proof H as [= H1 _ _ _ _]. unfold facts_statement, arg. cbv zeta. rewrite H1.
  destruct (String.eqb (TrimSpace (fq_text q')) ""); cbv iota; apply alike_printed.
  - apply (alike_around _ _ ""), fact_filters_alike; [done|by split].
  - apply (alike_around _ _ ""), fact_filters_alike; [done|by split].
Qed.

Lemma lease_alike req req' : is_nil (lr_kinds req) = is_nil (lr_kinds req') -> alike (lease_statement req) (lease_statement req').
Proof.
  intros H. unfold lease_statement, arg. cbv zeta. set (b := (_ ++ [AText _])%list). set (b' := (_ ++ [AText (lr_worker req')])%list).
  assert (alike (lease_candidates req "$1" b) (lease_candidates req' "$1" b')) as [Ht Hl].
  { unfold lease_candidates. cbv zeta. apply alike_printed, alike_any; [done|by split]. }
  split; [|exact Hl]. cbn [fst]. change (placeholder (length ([] ++ [ATime _])%list)) with "$1". by rewrite Ht.
Qed.

(** C31: no value is part of a statement. The text the adapter sends, and how many
    values go with it, depend only on which filters a request has: whatever the scopes,
    names, texts, times, vectors or bindings of two requests are, with the same filters
    set the same text is sent, and the values travel beside it. *)
Theorem statements_carry_no_values (FormatFloat : float32 -> string) vectorType config config' :
  (forall q q', channel_shape (sq_channel q) = channel_shape (sq_channel q') ->
     alike (semantic_statement FormatFloat vectorType q) (semantic_statement FormatFloat vectorType q')) /\
  (forall q q', channel_shape (lq_channel q) = channel_shape (lq_channel q') ->
     alike (lexical_statement config q) (lexical_statement config' q')) /\
  (forall q q', facts_shape q = facts_shape q' -> alike (facts_statement config q) (facts_statement config' q')) /\
  (forall req req', is_nil (lr_kinds req) = is_nil (lr_kinds req') -> alike (lease_statement req) (lease_statement req')) /\
  (forall q q', jobs_shape q = jobs_shape q' -> alike (jobs_statement q) (jobs_statement q')) /\
  (forall s s', is_empty s = is_empty s' -> alike (stats_statement s) (stats_statement s')) /\
  (forall q q', scopes_shape q = scopes_shape q' -> alike (scopes_statement q) (scopes_statement q')).
Proof.
  split_and!.
  - intros q q' H. unfold semantic_statement, arg. cbv zeta. apply alike_printed, filters_alike; [done|by split].
  - intros q q' H. unfold lexical_statement, arg. cbv zeta. apply alike_printed, filters_alike; [done|by split].
  - apply facts_alike.
  - apply lease_alike.
  - intros q q' [= H1 H2 H3 H4]. unfold jobs_statement. cbv zeta. auto 10 with alike.
  - intros s s' H. unfold stats_statement. cbv zeta. apply (alike_around _ _ ""). auto with alike.
  - intros q q' [= H1 H2]. unfold scopes_statement. cbv zeta. auto 10 with alike.
Qed.

(** ** The text of a vector *)

Definition comma_free (s : string) : Prop := Forall (fun b => b <> 44%N) (bytes_of s).

Lemma split_comma_app a l current :
  Forall (fun b => b <> 44%N) a -> split_comma (a ++ l)%list current = split_comma l (current ++ a)%list.
Proof.
  intros Ha. revert current. induction Ha as [|b a Hb _ IH]; intros current; cbn; [by rewrite app_nil_r|].
  apply N.eqb_neq in Hb as ->. by rewrite IH, <- app_assoc.
Qed.

Lemma split_join (l : list string) :
  l <> [] -> Forall comma_free l -> split_comma (bytes_of (String.concat "," l)) [] = map bytes_of l.
Proof.
  intros Hne H. induction H as [|s l Hs Hl IH]; [done|]. destruct l as [|t l].
  - change (String.concat "," [s]) with s. rewrite <- (app_nil_r (bytes_of s)), split_comma_app by done. done.
  - change (String.concat "," (s :: t :: l)) with (s ++ "," ++ String.concat "," (t :: l)).
    rewrite !bytes_of_app, split_comma_app by done. cbn [app]. change (bytes_of ",") with [44%N]. cbn [app split_comma N.eqb Pos.eqb].
    by rewrite IH.
Qed.

(** Read at its commas, the text of a vector gives back each component's. *)
Lemma formatVector_components (FormatFloat : float32 -> string) v :
  v <> [] -> (forall f, comma_free (FormatFloat f)) ->
  exists inner, formatVector FormatFloat v = "[" ++ inner ++ "]" /\
    split_comma (bytes_of inner) [] = map (fun f => bytes_of (FormatFloat f)) v.
Proof.
  intros Hv Hf. eexists. split; [done|]. rewrite split_join, map_map; [done|by destruct v|].
  apply Forall_fmap, Forall_forall. intros f _. apply Hf.
Qed.

(** ** Concrete statements *)

Definition demo_fact_query : FactQuery := MkFactQuery "s" "x" (utc 9000) (utc 5000) false ["the user"] [] f_zero "" 0.

Definition demo_facts_statement : statement := facts_statement "english" demo_fact_query.

Example demo_facts_text : demo_facts_statement =
  ("SELECT f.id, f.scope_id, f.extractor, f.subject, f.predicate, f.object, f.statement, f.valid, f.confidence, f.episode_ids, f.asserted_at, f.updated_at" ++ newline ++
   "FROM mempher.facts f" ++ newline ++
   "WHERE f.scope_id = $1 AND f.extractor = $2" ++ newline ++
   "  AND f.asserted_at <= $3" ++ newline ++
   "  AND f.valid @> $4::timestamptz" ++ newline ++
   "  AND f.subject = ANY($5)" ++ newline ++
   "ORDER BY f.subject, f.predicate, f.object" ++ newline ++
   "LIMIT $6",
   [AText "s"; AText "x"; ATime (utc 9000); ATime (utc 5000); ATexts ["the user"]; AInt 200]).
Proof. vm_compute. reflexivity. Qed.

Definition hostile : LexicalQuery :=
  MkLexicalQuery (MkChannelQuery "s' OR true --" (utc 9000) zeroTime zeroTime None [] 0) "'; DROP TABLE mempher.episodes; --".
Definition harmless : LexicalQuery := MkLexicalQuery (MkChannelQuery "s" (utc 1) zeroTime zeroTime None [] 5) "tea".

Lemma statements_carry_no_values_witness :
  (lexical_statement "english" hostile).1 = (lexical_statement "simple" harmless).1.
Proof.
  destruct (statements_carry_no_values (fun _ => "0") "public.vector" "english" "simple") as (_ & H & _).
  apply (H hostile harmless). vm_compute. reflexivity.
Defined.
