(* ===== verification/Ports.v ===== *)
(** * The ports ([store.go], [queue.go], [fact.go], [encoding.go], [clock.go], [tokens.go], [ops/ops.go])

    Go's interfaces as records of operations over a world [W], the type
    assertions a configuration makes as optional fields, and, as classes, what
    the clients of a port are promised. *)

From S2P Require Import Types Validate OpsTypes Windows.

#[local] Open Scope Z_scope.

(** ** Interfaces *)

Section Interfaces.
Context {W : Type}.

Abbreviation wop := (op Error W).

(** [Clock]: reading it cannot fail, and two readings may differ. *)
Record Clock : Type := MkClock { Now : W -> W * Time }.
Definition now (c : Clock) : wop Time := fun w => let (w', t) := Now c w in (w', Ok t).

Record Queue : Type := MkQueue {
  q_Enqueue : NewJob -> Time -> wop Job;
  q_Lease : LeaseRequest -> wop (list Job);
  q_Succeed : JobID -> WorkerID -> Time -> wop unit;
  q_Fail : JobID -> WorkerID -> option string -> Time -> Time -> wop unit;
  q_Reclaim : Time -> wop Z;
  q_Job : JobID -> wop Job;
}.

Record FactStore : Type := MkFactStore {
  fs_ApplyExtraction : ExtractCommand -> wop (list Fact);
  fs_Facts : FactQuery -> wop (list Fact);
  fs_Fact : ScopeID -> FactID -> wop Fact;
}.

(** A [Store], with what the dynamic type behind it also implements. *)
Record Store : Type := MkStore {
  s_Append : AppendCommand -> wop AppendResult;
  s_Episode : ScopeID -> EpisodeID -> wop Episode;
  s_Replay : ScopeID -> Z -> Z -> wop (list Episode);
  s_SearchSemantic : SemanticQuery -> wop (list Candidate);
  s_SearchLexical : LexicalQuery -> wop (list Candidate);
  s_PutEncoding : Encoding -> wop unit;
  s_Forget : ForgetRequest -> wop ForgetResult;
  s_as_queue : option Queue;
  s_as_facts : option FactStore;
}.

Record Embedder : Type := MkEmbedder {
  e_EmbedDocuments : list string -> wop (list Vector);
  e_EmbedQuery : string -> wop Vector;
  e_Dimensions : Z;
  e_Model : ModelID;
}.

Record Extractor : Type := MkExtractor {
  x_Extract : ExtractRequest -> wop ExtractResult;
  x_Model : ExtractorID;
}.

(** [ops.FactStore] and [ops.Store]. *)
Record OpsFactStore : Type := MkOpsFactStore {
  of_PendingExtractions : PendingExtractions -> wop (list EpisodeID);
}.

Record OpsStore : Type := MkOpsStore {
  o_Scopes : ScopeQuery -> wop (list OpsScope);
  o_Episode : ScopeID -> EpisodeID -> wop Episode;
  o_PendingEncodings : PendingEncodings -> wop (list EpisodeID);
  o_Enqueue : NewJob -> Time -> wop Job;
  o_Jobs : JobQuery -> wop (list Job);
  o_Stats : ScopeID -> wop (list JobCount);
  o_Retry : JobID -> Time -> wop Job;
  o_Purge : PurgeRequest -> wop Z;
  o_as_facts : option OpsFactStore;
}.
End Interfaces.
Arguments Clock : clear implicits.
Arguments Queue : clear implicits.
Arguments FactStore : clear implicits.
Arguments Store : clear implicits.
Arguments Embedder : clear implicits.
Arguments Extractor : clear implicits.
Arguments OpsFactStore : clear implicits.
Arguments OpsStore : clear implicits.

(** ** Token accounting *)

Definition TokenCounter : Type := string -> Z.

Definition DefaultBytesPerToken : Z := 4.

Record ApproxTokenCounter : Type := MkApproxTokenCounter { BytesPerToken : Z }.

(** [ApproxTokenCounter.CountTokens], in 64-bit integers. *)
Definition CountTokens (c : ApproxTokenCounter) (text : string) : Z :=
  if is_empty text then 0 else
  let per := if BytesPerToken c <=? 0 then DefaultBytesPerToken else BytesPerToken c in
  Z.quot (int64 (int64 (len text + per) - 1)) per.

(** ** Promises *)

(** Reading leaves the world alone: what lets the channels run in any order. *)
Class ReadOnlyStore {W} (s : Store W) : Prop := {
  ro_Episode : forall scope id, reads (s_Episode s scope id);
  ro_SearchSemantic : forall q, reads (s_SearchSemantic s q);
  ro_SearchLexical : forall q, reads (s_SearchLexical s q);
}.

Class ReadOnlyFacts {W} (f : FactStore W) : Prop := {
  ro_Facts : forall q, reads (fs_Facts f q);
}.

(** What a channel query allows an episode to be: of the scope, ingested by the
    cut, inside the event-time window, in a role asked for. [ts] is the store's
    resolution of instants. *)
Definition visible (ts : Z -> Z) (q : ChannelQuery) (e : Episode) : Prop :=
  ep_scope e = cq_scope q /\ t_ns (ep_ingested e) <= ts (t_ns (cq_as_of q)) /\
  (t_ns (cq_occurred_from q) <> 0 -> ts (t_ns (cq_occurred_from q)) <= t_ns (ep_occurred e)) /\
  (t_ns (cq_occurred_to q) <> 0 -> t_ns (ep_occurred e) <= ts (t_ns (cq_occurred_to q))) /\
  Binding_entries (cq_binding q) ⊆ Binding_entries (ep_binding e) /\
  (cq_roles q = [] \/ ep_role e ∈ cq_roles q).

(** What a fact query allows a fact to be. *)
Definition current (ts : Z -> Z) (q : FactQuery) (f : Fact) : Prop :=
  f_scope f = fq_scope q /\ f_extractor f = fq_extractor q /\
  t_ns (f_asserted f) <= ts (t_ns (fq_as_of q)) /\
  t_ns (v_from (f_valid f)) <= ts (t_ns (fq_at q)) /\
  (fq_include_closed q = false ->
     t_ns (v_to (f_valid f)) = 0 \/ ts (t_ns (fq_at q)) < t_ns (v_to (f_valid f))) /\
  (fq_subjects q = [] \/ f_subject f ∈ fq_subjects q).

(** What a search promises its caller in the worlds [Inv] describes: episodes of
    the log as it stands, that the query may see. *)
Class SearchSpec {W} (Inv : W -> Prop) (ts : Z -> Z) (log : W -> list Episode) (s : Store W) : Prop := {
  ss_semantic : forall q w w' cands, Inv w -> s_SearchSemantic s q w = (w', Ok cands) ->
    forall c, c ∈ cands ->
      cand_episode c ∈ log w /\ visible ts (sq_channel q) (cand_episode c) /\ 1 <= cand_rank c;
  ss_lexical : forall q w w' cands, Inv w -> s_SearchLexical s q w = (w', Ok cands) ->
    forall c, c ∈ cands ->
      cand_episode c ∈ log w /\ visible ts (lq_channel q) (cand_episode c) /\ 1 <= cand_rank c;
}.

Class FactsSpec {W} (Inv : W -> Prop) (ts : Z -> Z) (known : W -> list Fact) (f : FactStore W) : Prop := {
  fsp_current : forall q w w' facts, Inv w -> fs_Facts f q w = (w', Ok facts) ->
    forall x, x ∈ facts -> x ∈ known w /\ current ts q x;
}.

(** What a search promises beside: an answerable query is answered, out of a log
    in which an id names one episode, and an episode that the query may see and
    that the text finds is missing only when the answer is as long as was asked. *)
Class CompleteSearch {W} (Inv : W -> Prop) (ts : Z -> Z) (log : W -> list Episode)
    (finds : string -> string -> bool) (answerable : W -> LexicalQuery -> Prop) (s : Store W) : Prop := {
  cs_keyed : forall w e e', Inv w -> e ∈ log w -> e' ∈ log w -> ep_id e = ep_id e' -> e = e';
  cs_lexical : forall q w, Inv w -> answerable w q -> 0 < cq_limit (lq_channel q) ->
    exists cands, s_SearchLexical s q w = (w, Ok cands) /\
      forall e, e ∈ log w -> visible ts (lq_channel q) e -> finds (lq_text q) (ep_content e) = true ->
        e ∈ map cand_episode cands \/ Z.of_nat (length cands) = cq_limit (lq_channel q);
}.

(** How sure a fact query wants its facts to be; zero wants nothing. *)
Definition sure (q : FactQuery) (f : Fact) : Prop :=
  f_gtb (fq_min_confidence q) f_zero = true -> f_ltb (f_confidence f) (fq_min_confidence q) = false.

(** The same of a fact query, for facts that began no earlier than Go's zero
    instant, which a window read back cannot tell from an unset end. *)
Class CompleteFacts {W} (Inv : W -> Prop) (ts : Z -> Z) (known : W -> list Fact)
    (answerable : W -> FactQuery -> Prop) (f : FactStore W) : Prop := {
  cf_listed : forall q w, Inv w -> answerable w q -> 0 < fq_limit q -> fq_predicates q = [] ->
    exists facts, fs_Facts f q w = (w, Ok facts) /\
      forall x, x ∈ known w -> current ts q x -> sure q x -> 0 <= t_ns (v_from (f_valid x)) ->
        x ∈ facts \/ Z.of_nat (length facts) = fq_limit q;
}.

(** What an extractor's answer must be for a worker to make a command of it: claims
    and closings that pass validation, no more of them than one extraction may hold,
    and closings only of facts the extractor was shown. *)
Record fit (known : list Fact) (out : ExtractResult) : Prop := {
  fit_claims : Z.of_nat (length (xr_assert out)) <= MaxAssertionsPerExtraction;
  fit_closings : Z.of_nat (length (xr_retract out)) <= MaxRetractionsPerExtraction;
  fit_assert : Forall (fun a => Assertion_Validate a = Ok tt) (xr_assert out);
  fit_retract : Forall (fun r => Retraction_Validate r = Ok tt /\ exists f, f ∈ known /\ f_id f = r_fact r) (xr_retract out);
}.

Class FitExtractor {W} (x : Extractor W) : Prop := {
  fx_fit : forall req w w' out, x_Extract x req w = (w', Ok out) -> fit (xr_known req) out;
}.

Lemma fit_command known out scope extractor episodes at_ :
  fit known out -> ScopeID_Validate scope = Ok tt -> extractor <> EmptyString -> episodes <> [] ->
  Forall (fun id => IsZeroID id = false) episodes -> IsZero at_ = false ->
  ExtractCommand_Validate (MkExtractCommand scope extractor episodes (xr_assert out) (xr_retract out) at_) = Ok tt.
Proof.
  intros [Hla Hlr Has Hrs] Hs Hx Hne Hz Hat. unfold ExtractCommand_Validate.
  rewrite !seq_Ok, !reject_Ok_tt, !check_all_Ok. cbn [xc_scope xc_extractor xc_episodes xc_assert xc_retract xc_at].
  split_and!; [done|by apply bool_decide_false| |lia|lia|done| |done|].
  - apply bool_decide_false. by destruct episodes.
  - eapply Forall_impl; [exact Hz|]. intros id Hzid. by apply reject_Ok_tt.
  - eapply Forall_impl; [exact Hrs|]. by intros r [? _].
Qed.

(** ** The approximate counter *)

Lemma len_empty text : is_empty text = false -> 1 <= len text.
Proof.
  intros H. apply String.eqb_neq in H. pose proof (len_nonneg text). pose proof (len_zero text).
  destruct (Z.eq_dec (len text) 0); [naive_solver|lia].
Qed.

(** [ApproxTokenCounter] counts one token for every started group of
    [BytesPerToken] bytes, four when it is unset: none for the empty text, and
    otherwise the least number of groups that holds the text, so at least one, as
    long as text and group fit 64 bits together. *)
Theorem CountTokens_spec c text :
  len text + Z.max (BytesPerToken c) 4 <= maxInt64 ->
  let per := if BytesPerToken c <=? 0 then DefaultBytesPerToken else BytesPerToken c in
  if is_empty text then CountTokens c text = 0
  else 1 <= CountTokens c text /\
       per * (CountTokens c text - 1) < len text <= per * CountTokens c text.
Proof.
  intros Hb per. unfold CountTokens. fold per. destruct (is_empty text) eqn:He; [done|].
  apply len_empty in He. unfold maxInt64 in Hb.
  assert (1 <= per <= Z.max (BytesPerToken c) 4) as Hper.
  { unfold per, DefaultBytesPerToken. destruct (Z.leb_spec (BytesPerToken c) 0); lia. }
  rewrite !int64_id by (rewrite ?int64_id; lia). rewrite Z.quot_div_nonneg by lia.
  pose proof (Z.div_mod (len text + per - 1) per). pose proof (Z.mod_pos_bound (len text + per - 1) per).
  split; nia.
Qed.

Lemma CountTokens_spec_witness : 1 <= CountTokens (MkApproxTokenCounter 0) "hello".
Proof.
  assert (len "hello" + Z.max (BytesPerToken (MkApproxTokenCounter 0)) 4 <= maxInt64) as H
    by (vm_compute; discriminate).
  exact (proj1 (CountTokens_spec (MkApproxTokenCounter 0) "hello" H)).
Defined.

(** A divisor near the top of the range wraps the sum, and the count with it. *)
Example CountTokens_wraps : CountTokens (MkApproxTokenCounter maxInt64) "ab" = -1.
Proof. vm_compute. reflexivity. Qed.
