(* ===== verification/Memory.v ===== *)
(** * The entry point: the write and the read loop ([mempher.go], [forget.go])

    [New], [Memory.Append], [Memory.AppendBatch], [Memory.Recall] and
    [Memory.Forget] over the ports. The goroutines of [runChannels] run in an
    order given from outside, a schedule; the durations they measure and the
    state of the context are given from outside too. *)

From S2P Require Import Types OpsTypes Validate Fusion Ports.

#[local] Open Scope Z_scope.

Section Memory.
Context {W : Type}.

Record Config : Type := MkConfig {
  cf_store : option (Store W);
  cf_queue : option (Queue W);
  cf_embedder : option (Embedder W);
  cf_extractor : option (Extractor W);
  cf_facts : option (FactStore W);
  cf_clock : option (Clock W);
  cf_tokens : option TokenCounter;
  cf_fusion : FusionOptions;
  cf_default_limit : Z;
}.

Record Memory : Type := MkMemory {
  m_store : Store W;
  m_queue : Queue W;
  m_embedder : Embedder W;
  m_extractor : option (Extractor W);
  m_facts : option (FactStore W);
  m_clock : Clock W;
  m_tokens : TokenCounter;
  m_fusion : FusionOptions;
  m_default_limit : Z;
}.

(** [resolveFactStore]. *)
Definition resolveFactStore (store : Store W) (explicit : option (FactStore W))
    (extractor : option (Extractor W)) : res (option (FactStore W)) :=
  match extractor with
  | None =>
      match explicit with
      | Some _ => Err (EWrap ErrInvalidConfig)
      | None => Ok None
      end
  | Some _ =>
      match explicit with
      | Some f => Ok (Some f)
      | None =>
          match s_as_facts store with
          | Some f => Ok (Some f)
          | None => Err (EWrap ErrInvalidConfig)
          end
      end
  end.

(** [cfg.Queue], or the store when it is one. *)
Definition resolveQueue (store : Store W) (explicit : option (Queue W)) : res (Queue W) :=
  match explicit with
  | Some q => Ok q
  | None => match s_as_queue store with Some q => Ok q | None => Err (EWrap ErrInvalidConfig) end
  end.

(** The checks [New] and [NewWorker] share. *)
Definition check_embedder (e : Embedder W) : res unit :=
  reject (e_Dimensions e <=? 0) (EWrap ErrInvalidConfig) ;;?
  reject (is_empty (e_Model e)) (EWrap ErrInvalidConfig).
Definition check_extractor (x : option (Extractor W)) : res unit :=
  match x with
  | Some x => reject (is_empty (x_Model x)) (EWrap ErrInvalidConfig)
  | None => Ok tt
  end.
Definition required {A} (x : option A) : res A :=
  match x with Some a => Ok a | None => Err (EWrap ErrInvalidConfig) end.

(** [New]. *)
Definition New (SystemClock : Clock W) (cfg : Config) : res Memory :=
  let? store := required (cf_store cfg) in
  let? embedder := required (cf_embedder cfg) in
  check_embedder embedder ;;?
  let? queue := resolveQueue store (cf_queue cfg) in
  let? facts := resolveFactStore store (cf_facts cfg) (cf_extractor cfg) in
  check_extractor (cf_extractor cfg) ;;?
  let? fusion := resolve (cf_fusion cfg) in
  reject (cf_default_limit cfg <? 0) (EWrap ErrInvalidConfig) ;;?
  Ok (MkMemory store queue embedder (cf_extractor cfg) facts
        (default SystemClock (cf_clock cfg))
        (default (CountTokens (MkApproxTokenCounter 0)) (cf_tokens cfg)) fusion
        (if cf_default_limit cfg =? 0 then DefaultRecallLimit else cf_default_limit cfg)).

(** ** The write loop *)

(** [jobsFor]. *)
Definition jobsFor (m : Memory) (scope : ScopeID) : list NewJob :=
  MkNewJob JobKindEncode scope [] zeroTime 0 ::
  match m_facts m with
  | Some _ => [MkNewJob JobKindExtract scope [] zeroTime 0]
  | None => []
  end.

Definition new_episode (now : Time) (req : AppendRequest) : NewEpisode :=
  MkNewEpisode (ar_scope req) (ar_content req) (ar_role req) (ar_actor req) (ar_source req)
    (if IsZero (ar_occurred req) then now else ar_occurred req) now (Binding_Clone (ar_binding req)).

(** [Memory.Append]. A store that answered with no episode would make the source
    index out of range; that panic is an error here. *)
Definition Append (m : Memory) (req : AppendRequest) : op Error W Episode :=
  olift (AppendRequest_Validate req) ;;;
  let! now := now (m_clock m) in
  let! result := s_Append (m_store m)
    (MkAppendCommand [new_episode now req] (jobsFor m (ar_scope req))) in
  match res_episodes result with
  | e :: _ => oret e
  | [] => ofail (EOther "index out of range")
  end.

(** One turn of [AppendBatch]'s loop. *)
Definition batch_check (scope : ScopeID) (req : AppendRequest) : res unit :=
  AppendRequest_Validate req ;;?
  reject (negb (String.eqb (ar_scope req) scope)) (EWrap ErrInvalidConfig).

(** [Memory.AppendBatch]. *)
Definition AppendBatch (m : Memory) (reqs : list AppendRequest) : op Error W (list Episode) :=
  match reqs with
  | [] => ofail (EWrap ErrInvalidConfig)
  | first :: _ =>
      if MaxAppendBatch <? Z.of_nat (length reqs) then ofail (EWrap ErrInvalidConfig) else
      let! now := now (m_clock m) in
      olift (check_all (batch_check (ar_scope first)) reqs) ;;;
      let! result := s_Append (m_store m)
        (MkAppendCommand (map (new_episode now) reqs) (jobsFor m (ar_scope first))) in
      oret (res_episodes result)
  end.

(** [Memory.Forget]. *)
Definition Forget (m : Memory) (req : ForgetRequest) : op Error W ForgetResult :=
  olift (ForgetRequest_Validate req) ;;; s_Forget (m_store m) req.

(** ** The read loop *)

Record recallPlan : Type := MkRecallPlan {
  pl_episodes : ChannelQuery;
  pl_facts : FactQuery;
  pl_text : string;
}.

(** [resolveChannels]: requested channels without repeats, in order. *)
Definition distinct_channels (requested : list Channel) : list Channel :=
  foldl (fun out ch => if one_of ch out then out else out ++ [ch]) [] requested.
Definition resolveChannels (m : Memory) (requested : list Channel) : list Channel :=
  match requested with
  | [] =>
      match m_facts m with
      | None => [ChannelSemantic; ChannelLexical]
      | Some _ => [ChannelSemantic; ChannelLexical; ChannelFact]
      end
  | _ => distinct_channels requested
  end.

(** [runChannel]. *)
Definition runChannel (m : Memory) (ch : Channel) (plan : recallPlan) : op Error W (list Candidate * list Fact) :=
  if String.eqb ch ChannelSemantic then
    let! vector := e_EmbedQuery (m_embedder m) (pl_text plan) in
    let! cands := s_SearchSemantic (m_store m)
      (MkSemanticQuery (pl_episodes plan) vector (e_Model (m_embedder m))) in
    oret (cands, [])
  else if String.eqb ch ChannelLexical then
    let! cands := s_SearchLexical (m_store m) (MkLexicalQuery (pl_episodes plan) (pl_text plan)) in
    oret (cands, [])
  else if String.eqb ch ChannelFact then
    match m_facts m with
    | None => ofail (EWrap ErrInvalidConfig)
    | Some f => let! facts := fs_Facts f (pl_facts plan) in oret ([], facts)
    end
  else ofail (EWrap ErrInvalidChannel).

(** One goroutine, to its end. *)
Definition run_slot (m : Memory) (plan : recallPlan) (elapsed : Duration) (ch : Channel) (w : W)
    : W * channelResult :=
  match runChannel m ch plan w with
  | (w', Ok (cands, facts)) => (w', MkChannelResult ch cands facts elapsed None)
  | (w', Err e) => (w', MkChannelResult ch [] [] elapsed (Some e))
  end.

(** Slot [i] of [results] is written by goroutine [i] alone. *)
Definition run_one (m : Memory) (plan : recallPlan) (elapsed : nat -> Duration) (channels : list Channel)
    (st : W * list channelResult) (i : nat) : W * list channelResult :=
  match channels !! i with
  | None => st
  | Some ch =>
      let (w', r) := run_slot m plan (elapsed i) ch st.1 in (w', <[i := r]> st.2)
  end.

Definition zero_result : channelResult := MkChannelResult "" [] [] 0 None.

(** [runChannels]: the goroutines, in the order of the schedule. *)
Definition runChannels (m : Memory) (sched : list nat) (elapsed : nat -> Duration)
    (channels : list Channel) (plan : recallPlan) (w : W) : W * list channelResult :=
  foldl (run_one m plan elapsed channels) (w, replicate (length channels) zero_result) sched.

(** [allFailed]. *)
Definition join_errors (causes : list Error) : Error :=
  foldr EJoin (EOther "") causes.
Definition allFailed (results : list channelResult) : option Error :=
  match results with
  | [] => None
  | _ =>
      if existsb (fun r => bool_decide (cr_err r = None)) results then None
      else Some (EJoin (EWrap ErrAllChannelsFailed) (join_errors (omap cr_err results)))
  end.

(** The two loops that spend the budget, over facts and over episodes: stop at
    the limit, or at the first item that does not fit. *)
Fixpoint spend {A B} (mk : A -> Z -> B) (cost : A -> Z) (limit max_tokens : Z) (items : list A)
    (st : list B * Z * bool) : list B * Z * bool :=
  match items with
  | [] => st
  | x :: rest =>
      let '(out, tokens, truncated) := st in
      if limit <=? Z.of_nat (length out) then (out, tokens, true)
      else if (0 <? max_tokens) && (max_tokens <? int64 (tokens + cost x)) then (out, tokens, true)
      else spend mk cost limit max_tokens rest (out ++ [mk x (cost x)], int64 (tokens + cost x), truncated)
  end.

Definition fact_cost (m : Memory) (f : Fact) : Z := m_tokens m (f_statement f).
Definition episode_cost (m : Memory) (e : RecalledEpisode) : Z := m_tokens m (ep_content (re_episode e)).
Definition with_tokens (e : RecalledEpisode) (n : Z) : RecalledEpisode :=
  MkRecalledEpisode (re_episode e) (re_score e) (re_hits e) n.

(** The outer loop over the channels' facts; a [break] leaves the inner one only. *)
Definition spend_facts (m : Memory) (limit max_tokens : Z) (results : list channelResult)
    : list RecalledFact * Z * bool :=
  foldl (fun st r => spend MkRecalledFact (fact_cost m) limit max_tokens (cr_facts r) st)
    ([], 0, false) results.

Definition report (r : channelResult) : ChannelReport :=
  MkChannelReport (cr_channel r) (Z.of_nat (length (cr_candidates r)) + Z.of_nat (length (cr_facts r)))
    (cr_elapsed r) (cr_err r).

(** What the channels' results come to, under the two limits and the budget. *)
Definition assemble (m : Memory) (scope : ScopeID) (as_of : Time) (limit fact_limit max_tokens : Z)
    (results : list channelResult) : Recollection :=
  let '(facts, tokens, truncated) := spend_facts m fact_limit max_tokens results in
  let '(episodes, tokens, truncated) :=
    spend with_tokens (episode_cost m) limit max_tokens (fuse results (m_fusion m))
      ([], tokens, truncated) in
  MkRecollection scope as_of facts episodes (map report results) tokens truncated.

Definition recall_limit (m : Memory) (req : RecallRequest) : Z :=
  if rr_limit req =? 0 then m_default_limit m else rr_limit req.
Definition recall_fact_limit (req : RecallRequest) : Z :=
  if rr_fact_limit req =? 0 then DefaultFactLimit else rr_fact_limit req.
Definition recall_depth (m : Memory) (req : RecallRequest) : Z :=
  Z.max (if rr_candidates req =? 0 then DefaultCandidatesPerChannel else rr_candidates req)
    (recall_limit m req).

(** [plan], with every default resolved. *)
Definition make_plan (m : Memory) (req : RecallRequest) (as_of : Time) : recallPlan :=
  MkRecallPlan
    (MkChannelQuery (rr_scope req) as_of (rr_occurred_from req) (rr_occurred_to req)
       (Binding_Clone (rr_binding req)) (rr_roles req) (recall_depth m req))
    (MkFactQuery (rr_scope req)
       (match m_extractor m with Some x => x_Model x | None => "" end) as_of
       (if IsZero (rr_occurred_to req) then as_of else rr_occurred_to req) false
       (rr_subjects req) [] (rr_min_confidence req) (rr_query req) (recall_fact_limit req))
    (rr_query req).

(** [Memory.Recall]. *)
Definition Recall (m : Memory) (sched : list nat) (elapsed : nat -> Duration) (ctx_err : option Error)
    (req : RecallRequest) : op Error W Recollection :=
  olift (RecallRequest_Validate req) ;;;
  let! as_of := (if IsZero (rr_as_of req) then now (m_clock m) else oret (rr_as_of req)) in
  fun w =>
    let (w', results) := runChannels m sched elapsed (resolveChannels m (rr_channels req))
                           (make_plan m req as_of) w in
    match ctx_err with
    | Some e => (w', Err e)
    | None =>
        match allFailed results with
        | Some e => (w', Err e)
        | None =>
            (w', Ok (assemble m (rr_scope req) as_of (recall_limit m req) (recall_fact_limit req)
                       (rr_max_tokens req) results))
        end
    end.
End Memory.
Arguments Config : clear implicits.
Arguments Memory : clear implicits.

(** ** Assembly *)

Section MemoryProofs.
Context {W : Type}.
Implicit Types (m : Memory W) (cfg : Config W).

(** What a configuration must have. *)
Definition wired cfg : Prop :=
  exists (store : Store W) (embedder : Embedder W),
    cf_store cfg = Some store /\ cf_embedder cfg = Some embedder /\
    0 < e_Dimensions embedder /\ e_Model embedder <> ""%string /\
    (cf_queue cfg <> None \/ s_as_queue store <> None) /\
    match cf_extractor cfg with
    | None => cf_facts cfg = None
    | Some x => x_Model x <> ""%string /\ (cf_facts cfg <> None \/ s_as_facts store <> None)
    end /\
    0 <= cf_default_limit cfg.

Lemma resolveFactStore_Ok (store : Store W) explicit x f :
  resolveFactStore store explicit x = Ok f <->
  match x with
  | None => explicit = None /\ f = None
  | Some _ => (f = explicit \/ explicit = None /\ f = s_as_facts store) /\ f <> None
  end.
Proof. unfold resolveFactStore. destruct x, explicit, (s_as_facts store), f; naive_solver. Qed.

Lemma is_empty_false s : is_empty s = false <-> s <> ""%string.
Proof. apply String.eqb_neq. Qed.

Lemma check_embedder_Ok (e : Embedder W) :
  check_embedder e = Ok tt <-> 0 < e_Dimensions e /\ e_Model e <> ""%string.
Proof.
  unfold check_embedder. by rewrite seq_Ok, !reject_Ok_tt, is_empty_false, Z.leb_gt.
Qed.

(** [New] accepts exactly the configurations that can work: a store and an
    embedder with a width and a name, a queue or a store that is one, fusion
    options that resolve, a default limit that is not negative, and a fact store,
    its own or the store's, if and only if there is an extractor, which is then
    named. The [Memory] it returns has facts exactly when it has an extractor, a
    positive default limit, and is otherwise what was configured. *)
Theorem New_spec (SystemClock : Clock W) cfg :
  match New SystemClock cfg with
  | Ok m =>
      wired cfg /\ cf_store cfg = Some (m_store m) /\ cf_embedder cfg = Some (m_embedder m) /\
      resolve (cf_fusion cfg) = Ok (m_fusion m) /\ m_extractor m = cf_extractor cfg /\
      (m_facts m = None <-> m_extractor m = None) /\ 0 < m_default_limit m /\
      m_clock m = default SystemClock (cf_clock cfg)
  | Err _ => ~ (wired cfg /\ exists o, resolve (cf_fusion cfg) = Ok o)
  end.
Proof.
  unfold New, wired, required.
  destruct (cf_store cfg) as [store|]; cbn [rbind]; [|naive_solver].
  destruct (cf_embedder cfg) as [emb|]; cbn [rbind]; [|naive_solver].
  destruct (check_embedder emb) as [[]|] eqn:He; cbn [rbind].
  2: { intros [(? & ? & [= <-] & [= <-] & H1 & H2 & _) _].
       by rewrite (proj2 (check_embedder_Ok emb) (conj H1 H2)) in He. }
  apply check_embedder_Ok in He as [Hd Hm].
  destruct (resolveQueue store (cf_queue cfg)) as [queue|] eqn:Hq; cbn [rbind].
  2: { intros [(? & ? & [= <-] & [= <-] & _ & _ & Hq' & _) _]. unfold resolveQueue in Hq.
       destruct (cf_queue cfg), (s_as_queue store); naive_solver. }
  assert (cf_queue cfg <> None \/ s_as_queue store <> None) as Hqw.
  { unfold resolveQueue in Hq. destruct (cf_queue cfg), (s_as_queue store); naive_solver. }
  destruct (resolveFactStore store (cf_facts cfg) (cf_extractor cfg)) as [facts|] eqn:Hf; cbn [rbind].
  2: { intros [(? & ? & [= <-] & [= <-] & _ & _ & _ & Hx & _) _]. unfold resolveFactStore in Hf.
       destruct (cf_extractor cfg), (cf_facts cfg), (s_as_facts store); naive_solver. }
  apply resolveFactStore_Ok in Hf.
  destruct (check_extractor (cf_extractor cfg)) as [[]|] eqn:Hx; cbn [rbind].
  2: { intros [(? & ? & _ & _ & _ & _ & _ & Hxw & _) _]. unfold check_extractor, reject in Hx.
       destruct (cf_extractor cfg) as [xt|]; [|done]. destruct Hxw as [Hxw%is_empty_false _].
       by rewrite Hxw in Hx. }
  destruct (resolve (cf_fusion cfg)) as [fusion|]; cbn [rbind]; [|naive_solver].
  unfold reject. destruct (Z.ltb_spec (cf_default_limit cfg) 0) as [Hl|Hl]; cbn [rbind].
  { intros [(? & ? & _ & _ & _ & _ & _ & _ & Hl') _]. lia. }
  cbn [m_store m_embedder m_fusion m_extractor m_facts m_default_limit m_clock].
  split; [|do 4 (split; [done|])].
  - exists store, emb. do 5 (split; [done|]). split; [|done]. unfold check_extractor in Hx.
    destruct (cf_extractor cfg) as [xt|]; [|naive_solver]. apply reject_Ok, is_empty_false in Hx.
    split; [done|]. destruct Hf as [[->|[-> ->]] ?]; auto.
  - split; [destruct (cf_extractor cfg); naive_solver|]. split; [|done].
    unfold DefaultRecallLimit. destruct (Z.eqb_spec (cf_default_limit cfg) 0); lia.
Qed.

(** *** The fan-out *)

(** Every read the channels make leaves the world alone. *)
Definition reads_only m : Prop :=
  (forall text, reads (e_EmbedQuery (m_embedder m) text)) /\ ReadOnlyStore (m_store m) /\
  forall f, m_facts m = Some f -> ReadOnlyFacts f.

Lemma reads_runChannel m ch plan : reads_only m -> reads (runChannel m ch plan).
Proof.
  intros (He & [_ Hs Hl] & Hf). unfold runChannel.
  destruct (String.eqb ch ChannelSemantic).
  { apply reads_bind; [apply He|]. intros v. apply reads_bind; [apply Hs|]. intros c. apply reads_oret. }
  destruct (String.eqb ch ChannelLexical).
  { apply reads_bind; [apply Hl|]. intros c. apply reads_oret. }
  destruct (String.eqb ch ChannelFact); [|apply reads_ofail].
  destruct (m_facts m) as [f|] eqn:E; [|apply reads_ofail].
  destruct (Hf f eq_refl) as [Hr]. apply reads_bind; [apply Hr|]. intros c. apply reads_oret.
Qed.

(** What goroutine [i] writes into its slot in the world [w]. *)
Definition slot m plan (elapsed : nat -> Duration) (w : W) (i : nat) (ch : Channel) : channelResult :=
  (run_slot m plan (elapsed i) ch w).2.

Lemma run_slot_reads m plan e ch w : reads_only m -> (run_slot m plan e ch w).1 = w.
Proof.
  intros Hro. pose proof (reads_runChannel m ch plan Hro w) as H. unfold run_slot.
  by destruct (runChannel m ch plan w) as [w' [[c f]|]].
Qed.

Lemma run_sched m plan elapsed channels w sched slots :
  reads_only m -> length slots = length channels ->
  exists slots', foldl (run_one m plan elapsed channels) (w, slots) sched = (w, slots') /\
    length slots' = length channels /\
    forall i ch, channels !! i = Some ch ->
      slots' !! i = if decide (i ∈ sched) then Some (slot m plan elapsed w i ch) else slots !! i.
Proof.
  intros Hro. revert slots. induction sched as [|j sched IH]; intros slots Hlen; cbn [foldl].
  { exists slots. split; [done|]. split; [done|]. intros i ch Hi. rewrite decide_False; [done|].
    by intros ?%not_elem_of_nil. }
  unfold run_one at 2. destruct (channels !! j) as [cj|] eqn:Hj; cbn [fst snd].
  - pose proof (run_slot_reads m plan (elapsed j) cj w Hro) as Hw.
    destruct (run_slot m plan (elapsed j) cj w) as [w' r] eqn:Hr. cbn [fst] in Hw. subst w'.
    destruct (IH (<[j := r]> slots)) as (slots' & Hf & Hl & Hs); [by rewrite length_insert|].
    exists slots'. split; [exact Hf|]. split; [done|]. intros i ch Hi. rewrite (Hs i ch Hi).
    destruct (decide (i ∈ sched)) as [Hin|Hin].
    + rewrite decide_True; [done|by right].
    + destruct (decide (i = j)) as [->|Hne].
      * rewrite decide_True by (by left). rewrite list_lookup_insert_eq by (apply lookup_lt_Some in Hj; lia).
        unfold slot. assert (ch = cj) as -> by congruence. by rewrite Hr.
      * rewrite list_lookup_insert_ne by done. rewrite decide_False; [done|].
        intros [?|?]%elem_of_cons; done.
  - destruct (IH slots Hlen) as (slots' & Hf & Hl & Hs). exists slots'. split; [done|]. split; [done|].
    intros i ch Hi. rewrite (Hs i ch Hi). apply lookup_ge_None in Hj. apply lookup_lt_Some in Hi as Hlt.
    destruct (decide (i ∈ sched)).
    + rewrite decide_True; [done|by right].
    + rewrite decide_False; [done|]. intros [->|?]%elem_of_cons; [lia|done].
Qed.

(** Every goroutine run once, in whatever order: each slot holds its channel's answer. *)
Lemma runChannels_slots m sched elapsed channels plan w :
  reads_only m -> sched ≡ₚ seq 0 (length channels) ->
  runChannels m sched elapsed channels plan w = (w, imap (slot m plan elapsed w) channels).
Proof.
  intros Hro Hp. unfold runChannels.
  destruct (run_sched m plan elapsed channels w sched (replicate (length channels) zero_result) Hro)
    as (slots & -> & Hl & Hs); [apply length_replicate|].
  f_equal. apply list_eq. intros i. rewrite list_lookup_imap. destruct (channels !! i) as [ch|] eqn:Hi.
  - rewrite (Hs i ch Hi), decide_True; [done|]. rewrite Hp. apply elem_of_seq.
    apply lookup_lt_Some in Hi. lia.
  - cbn. apply lookup_ge_None. apply lookup_ge_None in Hi. by rewrite Hl.
Qed.

(** C11: recall does not depend on timing. Over ports whose reads change nothing,
    any two orders in which the goroutines of the channels run give the same
    recollection, or the same error. *)
Theorem Recall_schedule m sched sched' elapsed ctx_err req w :
  reads_only m ->
  sched ≡ₚ seq 0 (length (resolveChannels m (rr_channels req))) ->
  sched' ≡ₚ seq 0 (length (resolveChannels m (rr_channels req))) ->
  Recall m sched elapsed ctx_err req w = Recall m sched' elapsed ctx_err req w.
Proof.
  intros Hro H1 H2. unfold Recall. rewrite !obind_olift.
  destruct (RecallRequest_Validate req); [|done]. unfold obind.
  destruct ((if IsZero (rr_as_of req) then now (m_clock m) else oret (rr_as_of req)) w) as [w1 [as_of|e]];
    [|done].
  by rewrite !runChannels_slots.
Qed.

(** *** The budget *)








(** *** Recall as a whole *)

(** The instant of the cut and the world it was read in. *)
Definition cut m (req : RecallRequest) (w : W) : W * Time :=
  if IsZero (rr_as_of req) then Now (m_clock m) w else (w, rr_as_of req).

Definition answers_of m (req : RecallRequest) (elapsed : nat -> Duration) (w : W) (as_of : Time)
    : list channelResult :=
  imap (slot m (make_plan m req as_of) elapsed w) (resolveChannels m (rr_channels req)).

Lemma slot_channel m plan elapsed w i ch : cr_channel (slot m plan elapsed w i ch) = ch.
Proof. unfold slot, run_slot. by destruct (runChannel m ch plan w) as [w' [[c f]|]]. Qed.

Lemma Recall_run m sched elapsed ctx_err req w :
  reads_only m -> sched ≡ₚ seq 0 (length (resolveChannels m (rr_channels req))) ->
  RecallRequest_Validate req = Ok tt ->
  Recall m sched elapsed ctx_err req w =
    let '(w1, as_of) := cut m req w in
    let results := answers_of m req elapsed w1 as_of in
    (w1, match ctx_err with
         | Some e => Err e
         | None =>
             match allFailed results with
             | Some e => Err e
             | None => Ok (assemble m (rr_scope req) as_of (recall_limit m req) (recall_fact_limit req)
                             (rr_max_tokens req) results)
             end
         end).
Proof.
  intros Hro Hp Hv. unfold Recall, cut. rewrite obind_olift, Hv. unfold obind, now.
  destruct (IsZero (rr_as_of req)).
  - destruct (Now (m_clock m) w) as [w1 as_of]. rewrite runChannels_slots by done.
    unfold answers_of. destruct ctx_err; [done|]. by destruct (allFailed _).
  - unfold oret. rewrite runChannels_slots by done.
    unfold answers_of. destruct ctx_err; [done|]. by destruct (allFailed _).
Qed.

Lemma resolveChannels_nonempty m requested : resolveChannels m requested <> [].
Proof.
  unfold resolveChannels. destruct requested as [|ch l]; [by destruct (m_facts m)|].
  unfold distinct_channels. cbn [foldl]. assert (one_of ch [] = false) as -> by done. cbn [app].
  assert (forall acc, acc <> [] ->
    foldl (fun out c => if one_of c out then out else out ++ [c]) acc l <> []) as H; [|by apply H].
  induction l as [|c l IH]; intros acc Hne; [done|]. cbn [foldl]. apply IH.
  destruct (one_of c acc); [done|]. by destruct acc.
Qed.

Lemma allFailed_spec results :
  results <> [] ->
  match allFailed results with
  | None => exists r, r ∈ results /\ cr_err r = None
  | Some e => (forall r, r ∈ results -> cr_err r <> None) /\ errors_is e ErrAllChannelsFailed = true /\
      forall r c s, r ∈ results -> cr_err r = Some c -> errors_is c s = true -> errors_is e s = true
  end.
Proof.
  intros Hne. unfold allFailed. destruct results as [|r0 l]; [done|]. set (results := r0 :: l).
  destruct (existsb _ results) eqn:He.
  - apply existsb_exists in He as (r & Hr%list_elem_of_In & Hc%bool_decide_eq_true). by exists r.
  - assert (forall r, r ∈ results -> cr_err r <> None) as Hall.
    { intros r Hr Hn. apply not_true_iff_false in He. apply He. apply existsb_exists. exists r.
      split; [by apply list_elem_of_In|]. by apply bool_decide_eq_true. }
    split; [done|]. split; [done|]. intros r c s Hr Hc Hs. cbn [errors_is]. apply orb_true_iff. right.
    assert (c ∈ omap cr_err results) as Hin by (apply list_elem_of_omap; by exists r).
    induction (omap cr_err results) as [|c' cs IH]; [by apply not_elem_of_nil in Hin|].
    cbn. apply orb_true_iff. apply elem_of_cons in Hin as [->|Hin]; [by left|right; by apply IH].
Qed.

(** C13: one failed channel does not fail a recall, and an empty memory is never
    mistaken for a broken one. A valid recall that was not cancelled answers when
    any channel did, with what the channels found and one report per channel that
    carries its error; when none did it fails with ErrAllChannelsFailed, which
    carries every channel's cause. *)
Theorem Recall_partial m sched elapsed req w :
  reads_only m -> sched ≡ₚ seq 0 (length (resolveChannels m (rr_channels req))) ->
  RecallRequest_Validate req = Ok tt ->
  let w1 := (cut m req w).1 in
  let as_of := (cut m req w).2 in
  let results := answers_of m req elapsed w1 as_of in
  match Recall m sched elapsed None req w with
  | (w', Ok out) => w' = w1 /\ (exists r, r ∈ results /\ cr_err r = None) /\
      out = assemble m (rr_scope req) as_of (recall_limit m req) (recall_fact_limit req)
              (rr_max_tokens req) results /\
      map rep_channel (rec_channels out) = resolveChannels m (rr_channels req) /\
      map rep_err (rec_channels out) = map cr_err results
  | (w', Err e) => w' = w1 /\ (forall r, r ∈ results -> cr_err r <> None) /\
      errors_is e ErrAllChannelsFailed = true /\
      forall r c s, r ∈ results -> cr_err r = Some c -> errors_is c s = true -> errors_is e s = true
  end.
Proof.
  intros Hro Hp Hv. rewrite Recall_run by done. destruct (cut m req w) as [w1 as_of]. cbn [fst snd]. cbv zeta.
  set (results := answers_of m req elapsed w1 as_of).
  assert (results <> []) as Hne.
  { unfold results, answers_of. pose proof (resolveChannels_nonempty m (rr_channels req)).
    by destruct (resolveChannels m (rr_channels req)). }
  pose proof (allFailed_spec results Hne) as H. destruct (allFailed results) as [e|]; [done|].
  split; [done|]. split; [done|]. split; [done|].
  assert (rec_channels (assemble m (rr_scope req) as_of (recall_limit m req) (recall_fact_limit req)
            (rr_max_tokens req) results) = map report results) as ->.
  { unfold assemble. destruct (spend_facts _ _ _ _) as [[? ?] ?]. by destruct (spend _ _ _ _ _ _) as [[? ?] ?]. }
  rewrite !map_map. split; [|done]. unfold results, answers_of.
  change (map (fun x => rep_channel (report x)) ?l) with (map cr_channel l).
  apply list_eq. intros i. rewrite list_lookup_fmap, list_lookup_imap.
  destruct (_ !! i) as [ch|]; [|done]. cbn. by rewrite slot_channel.
Qed.

(** *** What recall may show *)

Lemma spend_elem {A B} (mk : A -> Z -> B) cost limit mx items out tokens tr y :
  y ∈ (spend mk cost limit mx items (out, tokens, tr)).1.1 ->
  y ∈ out \/ exists x n, x ∈ items /\ y = mk x n.
Proof.
  revert out tokens. induction items as [|x items IH]; intros out tokens; cbn [spend]; [by left|].
  destruct (limit <=? _); [by left|]. destruct (_ && _); [by left|].
  intros [Hy|(x' & n & Hx & ->)]%IH.
  - apply elem_of_app in Hy as [?| ->%list_elem_of_singleton]; [by left|]. right. exists x, (cost x).
    split; [by left|done].
  - right. exists x', n. split; [by right|done].
Qed.

Lemma spend_facts_elem m limit mx results y :
  y ∈ (spend_facts m limit mx results).1.1 ->
  exists r, r ∈ results /\ rf_fact y ∈ cr_facts r.
Proof.
  unfold spend_facts. induction results as [|r results IH] using rev_ind; [by intros ?%not_elem_of_nil|].
  rewrite foldl_app. cbn [foldl]. destruct (foldl _ _ results) as [[out tokens] tr].
  intros [Hy|(f & n & Hf & ->)]%spend_elem.
  - destruct (IH Hy) as (r' & Hr' & ?). exists r'. split; [|done]. apply elem_of_app. by left.
  - exists r. split; [|done]. apply elem_of_app. right. by apply list_elem_of_singleton.
Qed.

Lemma assemble_elem m scope as_of limit fact_limit mx results :
  let out := assemble m scope as_of limit fact_limit mx results in
  (forall e, e ∈ rec_episodes out -> exists r c, r ∈ results /\ cr_err r = None /\
     c ∈ cr_candidates r /\ re_episode e = cand_episode c) /\
  (forall f, f ∈ rec_facts out -> exists r, r ∈ results /\ rf_fact f ∈ cr_facts r).
Proof.
  unfold assemble. pose proof (spend_facts_elem m fact_limit mx results) as Hf.
  destruct (spend_facts m fact_limit mx results) as [[facts tokens] tr].
  pose proof (spend_elem with_tokens (episode_cost m) limit mx (fuse results (m_fusion m)) [] tokens tr) as He.
  destruct (spend with_tokens _ _ _ _ _) as [[eps tokens'] tr']. cbn in *. split; [|exact Hf].
  intros e Hin. destruct (He e Hin) as [?%not_elem_of_nil|(x & n & Hx & ->)]; [done|].
  apply fuse_from in Hx as (r & c & ? & ? & ? & Heq). by exists r, c.
Qed.

Section Scoped.
Context (Inv : W -> Prop) (ts : Z -> Z) (log : W -> list Episode) (known : W -> list Fact) m.
Context `{!SearchSpec Inv ts log (m_store m)}.
Context (Hfacts : forall f, m_facts m = Some f -> FactsSpec Inv ts known f).
Context (Hclock : forall w, Inv w -> Inv (Now (m_clock m) w).1).
Context (Hreads : reads_only m).

(** What one channel answers with. *)
Lemma slot_visible plan elapsed w i ch :
  Inv w -> let r := slot m plan elapsed w i ch in
  (forall c, c ∈ cr_candidates r -> cand_episode c ∈ log w /\ visible ts (pl_episodes plan) (cand_episode c)) /\
  (forall f, f ∈ cr_facts r -> f ∈ known w /\ current ts (pl_facts plan) f).
Proof using All.
  intros Hw. unfold slot, run_slot, runChannel, obind, oret, ofail.
  destruct (String.eqb ch ChannelSemantic).
  { pose proof (proj1 Hreads (pl_text plan) w) as Hw1.
    destruct (e_EmbedQuery _ _ w) as [w1 [v|]]; [|by split; intros ? ?%not_elem_of_nil]. cbn [fst] in Hw1.
    subst w1.
    destruct (s_SearchSemantic _ _ w) as [w2 [cands|]] eqn:Hs; cbn; [|by split; intros ? ?%not_elem_of_nil].
    split; [|by intros ? ?%not_elem_of_nil]. intros c Hc. by destruct (ss_semantic _ _ _ _ Hw Hs c Hc) as (? & ? & _). }
  destruct (String.eqb ch ChannelLexical).
  { destruct (s_SearchLexical _ _ w) as [w2 [cands|]] eqn:Hs; cbn; [|by split; intros ? ?%not_elem_of_nil].
    split; [|by intros ? ?%not_elem_of_nil]. intros c Hc. by destruct (ss_lexical _ _ _ _ Hw Hs c Hc) as (? & ? & _). }
  destruct (String.eqb ch ChannelFact); [|by split; intros ? ?%not_elem_of_nil].
  destruct (m_facts m) as [fs|]; [|by split; intros ? ?%not_elem_of_nil].
  destruct (fs_Facts fs _ w) as [w2 [facts|]] eqn:Hs; cbn; [|by split; intros ? ?%not_elem_of_nil].
  split; [by intros ? ?%not_elem_of_nil|]. pose proof (Hfacts fs eq_refl) as Hspec.
  by apply (fsp_current _ _ _ _ Hw Hs).
Qed.

Lemma Recall_sources sched elapsed req w w' out :
  sched ≡ₚ seq 0 (length (resolveChannels m (rr_channels req))) -> Inv w ->
  Recall m sched elapsed None req w = (w', Ok out) ->
  let plan := make_plan m req (rec_as_of out) in
  w' = (cut m req w).1 /\
  (forall e, e ∈ rec_episodes out -> re_episode e ∈ log w' /\ visible ts (pl_episodes plan) (re_episode e)) /\
  (forall f, f ∈ rec_facts out -> rf_fact f ∈ known w' /\ current ts (pl_facts plan) (rf_fact f)).
Proof using All.
  intros Hp Hw Hrec. destruct (RecallRequest_Validate req) as [[]|] eqn:Hv.
  2: { unfold Recall in Hrec. rewrite obind_olift, Hv in Hrec. done. }
  rewrite Recall_run in Hrec by done.
  assert (Inv (cut m req w).1) as Hw1 by (unfold cut; destruct (IsZero _); [by apply Hclock|done]).
  destruct (cut m req w) as [w1 as_of]. cbn [fst] in Hw1. cbv zeta in Hrec.
  destruct (allFailed _); [done|]. injection Hrec as <- <-.
  assert (rec_as_of (assemble m (rr_scope req) as_of (recall_limit m req) (recall_fact_limit req)
    (rr_max_tokens req) (answers_of m req elapsed w1 as_of)) = as_of) as ->.
  { unfold assemble. destruct (spend_facts _ _ _ _) as [[? ?] ?]. by destruct (spend _ _ _ _ _ _) as [[? ?] ?]. }
  intros plan. split; [done|].
  assert (forall r, r ∈ answers_of m req elapsed w1 as_of -> exists i ch, r = slot m plan elapsed w1 i ch) as Hr.
  { intros r (i & Hi)%list_elem_of_lookup. unfold answers_of in Hi. rewrite list_lookup_imap in Hi.
    apply fmap_Some in Hi as (ch & _ & ->). by exists i, ch. }
  destruct (assemble_elem m (rr_scope req) as_of (recall_limit m req) (recall_fact_limit req)
    (rr_max_tokens req) (answers_of m req elapsed w1 as_of)) as [He Hf]. split.
  - intros e Hin. destruct (He e Hin) as (r & c & Hrin & _ & Hc & ->).
    destruct (Hr r Hrin) as (i & ch & ->). by destruct (slot_visible plan elapsed w1 i ch Hw1) as [H _]; apply H.
  - intros f Hin. destruct (Hf f Hin) as (r & Hrin & Hc).
    destruct (Hr r Hrin) as (i & ch & ->). by destruct (slot_visible plan elapsed w1 i ch Hw1) as [_ H]; apply H.
Qed.

(** C14: recall never crosses its cuts and invents nothing. Over stores that keep
    the promises of their ports, every episode of a recollection is one the log
    holds, belongs to the scope asked for, was known at the cut, and satisfies the
    window, the binding and the roles of the request; every fact is one the scope
    holds, is by the configured extractor, had been learned by the cut, and holds
    at the instant asked about; and the world is as the clock left it. *)
Theorem Recall_scoped sched elapsed req w w' out :
  sched ≡ₚ seq 0 (length (resolveChannels m (rr_channels req))) -> Inv w ->
  Recall m sched elapsed None req w = (w', Ok out) ->
  let plan := make_plan m req (rec_as_of out) in
  w' = (cut m req w).1 /\
  (forall e, e ∈ rec_episodes out -> re_episode e ∈ log w' /\ visible ts (pl_episodes plan) (re_episode e)) /\
  (forall f, f ∈ rec_facts out -> rf_fact f ∈ known w' /\ current ts (pl_facts plan) (rf_fact f)).
Proof using All. apply Recall_sources. Qed.
End Scoped.
End MemoryProofs.
