(* ===== verification/Worker.v ===== *)
(** * The consolidation loop ([worker.go])

    [NewWorker], [DrainOnce] and [Run], with the two job bodies. The
    text of an error and the name of the process come from outside, and so does
    the state of the context before each job. Logging is not modelled. *)

From S2P Require Import Strconv Types OpsTypes Validate Fusion Ports Memory.

#[local] Open Scope Z_scope.

Definition DefaultWorkerBatch : Z := 8.
Definition DefaultPollInterval : Duration := Second.
Definition DefaultReclaimInterval : Duration := Minute.
Definition DefaultRetryBackoff : Duration := 10 * Second.
Definition MaxRetryBackoff : Duration := 10 * Minute.
Definition maxKnownFactCue : Z := Z.shiftl 8 10.
Definition DefaultKnownFactLimit : Z := 100.

(** ** Backing off *)

(** The loop of [retryBackoff], [n] turns left. *)
Fixpoint backoff_loop (n : nat) (backoff : Duration) : Duration :=
  match n with
  | O => backoff
  | S n' =>
      let backoff := int64 (backoff * 2) in
      if MaxRetryBackoff <=? backoff then MaxRetryBackoff else backoff_loop n' backoff
  end.

(** [retryBackoff]. *)
Definition retryBackoff (attempt : Z) : Duration :=
  let attempt := if attempt <? 1 then 1 else attempt in
  backoff_loop (Z.to_nat (attempt - 1)) DefaultRetryBackoff.

(** ** The cue *)

(** The loop that joins the contents, until there is enough. *)
Fixpoint join_cue (acc : string) (episodes : list Episode) : string :=
  match episodes with
  | [] => acc
  | ep :: rest =>
      if maxKnownFactCue <=? len acc then acc
      else join_cue ((if (0 <? len acc)%Z then acc ++ " " else acc) ++ ep_content ep)%string rest
  end.

(** [for len(cue) > 0 && !utf8.ValidString(cue) { cue = cue[:len(cue)-1] }]; the
    string's own length is enough fuel, see [trim_cue_valid]. *)
Fixpoint trim_cue (fuel : nat) (cue : string) : string :=
  match fuel with
  | O => cue
  | S fuel' =>
      if (0 <? len cue) && negb (ValidString cue)
      then trim_cue fuel' (slice_to cue (String.length cue - 1))
      else cue
  end.

(** [knownFactCue]. *)
Definition knownFactCue (episodes : list Episode) : string :=
  let cue := join_cue "" episodes in
  if maxKnownFactCue <? len cue then
    let cut := slice_to cue (Z.to_nat maxKnownFactCue) in trim_cue (String.length cut) cut
  else cue.

(** [defaultWorkerID]: the host, when it has a name, and the process. *)
Definition defaultWorkerID (hostname : option string) (pid : Z) : WorkerID :=
  let host := match hostname with
              | Some h => if is_empty h then "unknown"%string else h
              | None => "unknown"%string
              end in
  (host ++ "/" ++ Itoa pid)%string.

Section Worker.
Context {W : Type}.

Record WorkerConfig : Type := MkWorkerConfig {
  wc_store : option (Store W);
  wc_queue : option (Queue W);
  wc_embedder : option (Embedder W);
  wc_extractor : option (Extractor W);
  wc_facts : option (FactStore W);
  wc_known : Z;
  wc_clock : option (Clock W);
  wc_id : WorkerID;
  wc_batch : Z;
  wc_lease : Duration;
  wc_poll : Duration;
  wc_reclaim : Duration;
}.

Record Worker : Type := MkWorker {
  w_store : Store W;
  w_queue : Queue W;
  w_embedder : Embedder W;
  w_extractor : option (Extractor W);
  w_facts : option (FactStore W);
  w_clock : Clock W;
  w_id : WorkerID;
  w_batch : Z;
  w_known : Z;
  w_lease : Duration;
  w_poll : Duration;
  w_reclaim : Duration;
  w_kinds : list JobKind;
}.

Definition or_default (z d : Z) : Z := if z =? 0 then d else z.

(** [NewWorker]; [hostID] is [defaultWorkerID] of the host. *)
Definition NewWorker (SystemClock : Clock W) (hostID : WorkerID) (cfg : WorkerConfig)
    : res Worker :=
  let? store := required (wc_store cfg) in
  let? embedder := required (wc_embedder cfg) in
  check_embedder embedder ;;?
  let? queue := resolveQueue store (wc_queue cfg) in
  let? facts := resolveFactStore store (wc_facts cfg) (wc_extractor cfg) in
  check_extractor (wc_extractor cfg) ;;?
  reject (wc_batch cfg <? 0) (EWrap ErrInvalidConfig) ;;?
  reject (wc_known cfg <? 0) (EWrap ErrInvalidConfig) ;;?
  reject (wc_lease cfg <? 0) (EWrap ErrInvalidConfig) ;;?
  reject (wc_poll cfg <? 0) (EWrap ErrInvalidConfig) ;;?
  reject (wc_reclaim cfg <? 0) (EWrap ErrInvalidConfig) ;;?
  Ok (MkWorker store queue embedder (wc_extractor cfg) facts (default SystemClock (wc_clock cfg))
        (if is_empty (wc_id cfg) then hostID else wc_id cfg)
        (or_default (wc_batch cfg) DefaultWorkerBatch)
        (or_default (wc_known cfg) DefaultKnownFactLimit)
        (or_default (wc_lease cfg) DefaultLeaseDuration)
        (or_default (wc_poll cfg) DefaultPollInterval)
        (or_default (wc_reclaim cfg) DefaultReclaimInterval)
        (JobKindEncode :: match wc_extractor cfg with Some _ => [JobKindExtract] | None => [] end)).

(** ** The two job bodies *)

Definition encoding_for (w : Worker) (at_ : Time) (x : Episode * Vector) : Encoding :=
  MkEncoding (ep_id x.1) (e_Model (w_embedder w)) x.2 f_zero at_.

(** [encode]. *)
Definition encode (w : Worker) (job : Job) : op Error W unit :=
  let! episodes := omapM (s_Episode (w_store w) (job_scope job)) (job_episodes job) in
  let! vectors := e_EmbedDocuments (w_embedder w) (map ep_content episodes) in
  if negb (Nat.eqb (length vectors) (length episodes)) then ofail (EWrap ErrInvalidConfig) else
  let! encodedAt := now (w_clock w) in
  ofor (fun x => s_PutEncoding (w_store w) (encoding_for w encodedAt x)) (combine episodes vectors).

Definition cmp_seq : Episode -> Episode -> comparison := cmp_on ep_seq Z.compare.

(** What the extractor is shown. *)
Definition known_query (w : Worker) (x : Extractor W) (job : Job) (episodes : list Episode)
    (latest : Episode) : FactQuery :=
  MkFactQuery (job_scope job) (x_Model x) (ep_ingested latest) (ep_occurred latest) false [] []
    f_zero (knownFactCue episodes) (w_known w).

(** [extract]; a worker with an extractor has a fact store. *)
Definition extract (w : Worker) (x : Extractor W) (facts : FactStore W) (job : Job) : op Error W unit :=
  if Nat.eqb (length (job_episodes job)) 0 then ofail (EWrap ErrInvalidConfig) else
  let! read := omapM (s_Episode (w_store w) (job_scope job)) (job_episodes job) in
  let episodes := sort_func cmp_seq read in
  match last episodes with
  | None => ofail (EOther "index out of range")
  | Some latest =>
      let! known := fs_Facts facts (known_query w x job episodes latest) in
      let! asked := now (w_clock w) in
      let! result := x_Extract x (MkExtractRequest (job_scope job) episodes known asked) in
      let! at_ := now (w_clock w) in
      fs_ApplyExtraction facts
        (MkExtractCommand (job_scope job) (x_Model x) (job_episodes job) (xr_assert result)
           (xr_retract result) at_) ;;;
      oret tt
  end.

(** [runJob]. *)
Definition runJob (w : Worker) (job : Job) : op Error W unit :=
  if String.eqb (job_kind job) JobKindEncode then encode w job
  else if String.eqb (job_kind job) JobKindExtract then
    match w_extractor w, w_facts w with
    | Some x, Some facts => extract w x facts job
    | None, _ => ofail (EWrap ErrInvalidConfig)
    | Some _, None => ofail (EOther "nil pointer dereference")
    end
  else ofail (EWrap ErrInvalidJobKind).

(** ** The loop *)

Context (error_text : Error -> string).

(** [m], its error absorbed after logging: whether it succeeded. *)
Definition absorb {A} (m : op Error W A) : op Error W (option A) := fun s =>
  match m s with
  | (s', Ok a) => (s', Ok (Some a))
  | (s', Err _) => (s', Ok None)
  end.

(** [reportFailure]. *)
Definition reportFailure (w : Worker) (job : Job) (cause : Error) : op Error W unit :=
  let! now := now (w_clock w) in
  absorb (q_Fail (w_queue w) (job_id job) (w_id w) (Some (error_text cause)) now
            (Add now (retryBackoff (job_attempts job)))) ;;;
  oret tt.

(** One turn of [DrainOnce]'s loop: the number of jobs marked done. *)
Definition drain_job (w : Worker) (job : Job) : op Error W Z := fun s =>
  match runJob w job s with
  | (s', Err cause) => (reportFailure w job cause ;;; oret 0) s'
  | (s', Ok _) =>
      (let! now := now (w_clock w) in
       let! marked := absorb (q_Succeed (w_queue w) (job_id job) (w_id w) now) in
       oret (match marked with Some _ => 1 | None => 0 end)) s'
  end.

(** The loop, from job [i] on; [ctx] is the context's error before each job. *)
Fixpoint drain_loop (w : Worker) (ctx : nat -> option Error) (i : nat) (jobs : list Job) (done_ : Z)
    : W -> W * (Z * option Error) := fun s =>
  match jobs with
  | [] => (s, (done_, None))
  | job :: rest =>
      match ctx i with
      | Some e => (s, (done_, Some e))
      | None =>
          match drain_job w job s with
          | (s', Ok n) => drain_loop w ctx (S i) rest (done_ + n) s'
          | (s', Err _) => drain_loop w ctx (S i) rest done_ s'
          end
      end
  end.

(** [DrainOnce]: how many succeeded, and the error. *)
Definition DrainOnce (w : Worker) (ctx : nat -> option Error) (s : W) : W * (Z * option Error) :=
  match (let! now := now (w_clock w) in
         q_Lease (w_queue w) (MkLeaseRequest (w_kinds w) (w_id w) (w_batch w) (w_lease w) now)) s with
  | (s', Err e) => (s', (0, Some e))
  | (s', Ok jobs) => drain_loop w ctx 0 jobs 0 s'
  end.

(** One turn of [Run] after the timer fires: when it last reclaimed, and how long
    it waits. *)
Definition run_turn (w : Worker) (ctx : nat -> option Error) (lastReclaim : Time) (s : W)
    : W * (Time * Duration) :=
  let (s1, now) := Now (w_clock w) s in
  let due := w_reclaim w <=? Sub now lastReclaim in
  let s2 := if due then (q_Reclaim (w_queue w) now s1).1 else s1 in
  let '(s3, (done_, _)) := DrainOnce w ctx s2 in
  (s3, (if due then now else lastReclaim, if 0 <? done_ then 0 else w_poll w)).

(** What a turn began at, and what it left. *)
Record Turn : Type := MkTurn {
  turn_now : Time;
  turn_reclaimed : Time;
  turn_wait : Duration;
  turn_world : W;
}.

(** [Run], for as many turns as there is fuel: before turn [i] the [select] finds the
    context done, with its error, or the timer fired; [elsewhere] is what the rest of
    the deployment does while the timer runs. *)
Fixpoint Run (fuel : nat) (w : Worker) (woken : nat -> option Error) (ctx : nat -> nat -> option Error)
    (elsewhere : nat -> Duration -> W -> W) (i : nat) (lastReclaim : Time) (s : W) : list Turn * option Error :=
  match fuel with
  | O => ([], None)
  | S fuel' =>
      match woken i with
      | Some e => ([], Some e)
      | None =>
          let '(s1, (last, wait)) := run_turn w (ctx i) lastReclaim s in
          let '(turns, e) := Run fuel' w woken ctx elsewhere (S i) last (elsewhere i wait s1) in
          (MkTurn (Now (w_clock w) s).2 last wait s1 :: turns, e)
      end
  end.
End Worker.
Arguments Turn : clear implicits.
Arguments WorkerConfig : clear implicits.
Arguments Worker : clear implicits.

(** ** Backing off: the closed form *)

Lemma backoff_loop_spec n b :
  0 < b < MaxRetryBackoff -> backoff_loop n b = Z.min MaxRetryBackoff (b * 2 ^ Z.of_nat n).
Proof.
  revert b. induction n as [|n IH]; intros b Hb; cbn [backoff_loop]; [lia|].
  assert (int64 (b * 2) = b * 2) as -> by (apply int64_id; unfold MaxRetryBackoff, Minute, Second, Millisecond in *; lia).
  rewrite Nat2Z.inj_succ, Z.pow_succ_r by lia. assert (0 < 2 ^ Z.of_nat n) by (apply Z.pow_pos_nonneg; lia).
  destruct (Z.leb_spec MaxRetryBackoff (b * 2)); [nia|]. rewrite IH by lia. f_equal. lia.
Qed.

Lemma retryBackoff_pos attempt : 0 < retryBackoff attempt.
Proof.
  unfold retryBackoff. rewrite backoff_loop_spec by (vm_compute; done).
  assert (0 < 2 ^ Z.of_nat (Z.to_nat ((if attempt <? 1 then 1 else attempt) - 1))) by (apply Z.pow_pos_nonneg; lia).
  assert (0 < MaxRetryBackoff /\ 0 < DefaultRetryBackoff) as [? ?] by (vm_compute; done). nia.
Qed.

(** the wait after attempt [n] is ten seconds doubled [n - 1] times, and never
    more than ten minutes; attempts below the first count as the first. *)
Theorem retryBackoff_spec attempt :
  retryBackoff attempt = Z.min MaxRetryBackoff (DefaultRetryBackoff * 2 ^ (Z.max attempt 1 - 1)).
Proof.
  unfold retryBackoff. rewrite backoff_loop_spec by (vm_compute; done).
  do 3 f_equal. destruct (Z.ltb_spec attempt 1); lia.
Qed.

(** ** The cue: bounded and storable *)

Lemma join_cue_valid acc episodes :
  ValidString acc = true -> Forall (fun e => ValidString (ep_content e) = true) episodes ->
  ValidString (join_cue acc episodes) = true.
Proof.
  intros Ha H. revert acc Ha. induction H as [|e l He Hl IH]; intros acc Ha; cbn [join_cue]; [done|].
  destruct (_ <=? _); [done|]. apply IH, ValidString_app; [|done].
  destruct (0 <? len acc); [|done]. by apply ValidString_app.
Qed.

Lemma length_slice_to s n : String.length (slice_to s n) = Nat.min n (String.length s).
Proof. pose proof (len_slice_to s n) as H. unfold len in H. lia. Qed.

(** The trimming loop ends at the longest valid prefix. *)
Lemma trim_cue_valid fuel s :
  (String.length s <= fuel)%nat ->
  exists n, trim_cue fuel s = slice_to s n /\ (n <= String.length s)%nat /\
    ValidString (slice_to s n) = true /\
    forall m, (n < m <= String.length s)%nat -> ValidString (slice_to s m) = false.
Proof.
  revert s. induction fuel as [|fuel IH]; intros s Hs; cbn [trim_cue].
  { exists 0%nat. destruct s; [|simpl in Hs; lia]. split; [done|]. split; [done|]. split; [done|]. simpl. lia. }
  destruct ((0 <? len s) && negb (ValidString s)) eqn:Hc.
  - apply andb_true_iff in Hc as [Hl Hv%negb_true_iff]. apply Z.ltb_lt in Hl. unfold len in Hl.
    destruct (IH (slice_to s (String.length s - 1))) as (n & -> & Hn & Hok & Hmax); [rewrite length_slice_to; lia|].
    rewrite length_slice_to in Hn, Hmax. exists n. rewrite slice_to_slice_to in Hok |- * by lia.
    split; [done|]. split; [lia|]. split; [done|]. intros m Hm.
    destruct (decide (m = String.length s)) as [->|Hne]; [by rewrite slice_to_all|].
    rewrite <- (slice_to_slice_to s m (String.length s - 1)) by lia. apply Hmax. lia.
  - exists (String.length s). rewrite slice_to_all by lia. split; [done|]. split; [done|]. split; [|lia].
    destruct (ValidString s) eqn:Hv; [done|]. rewrite andb_true_r in Hc. apply Z.ltb_ge in Hc.
    unfold len in Hc. destruct s; [done|simpl in Hc; lia].
Qed.

(** the cue of valid episodes is valid UTF-8, which the database insists on,
    and at most 8192 bytes long: a prefix of the joined contents, all of them when
    they fit, and otherwise no more than three bytes short of the cap, so only the
    rune the cut fell in is lost. *)
Theorem knownFactCue_spec episodes :
  Forall (fun e => ValidString (ep_content e) = true) episodes ->
  let joined := join_cue "" episodes in
  let cue := knownFactCue episodes in
  ValidString cue = true /\ len cue <= 8192 /\ (exists n, cue = slice_to joined n) /\
  (len joined <= 8192 -> cue = joined) /\ (8192 < len joined -> 8189 <= len cue).
Proof.
  intros Hv joined. assert (ValidString joined = true) as Hj by (by apply join_cue_valid).
  unfold knownFactCue. fold joined. change maxKnownFactCue with 8192.
  destruct (Z.ltb_spec 8192 (len joined)) as [Hlong|Hshort].
  - set (cap := Z.to_nat 8192). assert (Z.of_nat cap = 8192) as Hcap by (unfold cap; lia). clearbody cap.
    unfold len in Hlong. set (cut := slice_to joined cap).
    assert (String.length cut = cap)%nat as Hc by (unfold cut; rewrite length_slice_to; lia).
    destruct (trim_cue_valid (String.length cut) cut) as (n & -> & Hn & Hok & Hmax); [lia|].
    destruct (ValidString_cut_near joined cap Hj) as (k & Hk3 & _ & Hk); [lia|].
    assert (slice_to cut n = slice_to joined n) as Heq by (apply slice_to_slice_to; lia).
    split; [done|]. split; [rewrite len_slice_to; lia|]. split; [exists n; exact Heq|]. split; [unfold len; lia|].
    intros _. rewrite len_slice_to. unfold len. rewrite Hc.
    destruct (decide (n < cap - k)%nat); [|lia]. exfalso.
    assert (ValidString (slice_to cut (cap - k)) = false) as Hf by (apply Hmax; lia).
    unfold cut in Hf. rewrite slice_to_slice_to in Hf by lia. congruence.
  - split; [done|]. split; [done|]. split; [|split; [done|lia]].
    exists (String.length joined). by rewrite slice_to_all.
Qed.

Definition demo_episode (content : string) : Episode :=
  MkEpisode 1%N "s" 1 content RoleUser "ada" "chat" (utc 1) (utc 1) None.

Lemma knownFactCue_spec_witness :
  ValidString (knownFactCue [demo_episode "café"; demo_episode "tea"]) = true.
Proof.
  assert (Forall (fun e => ValidString (ep_content e) = true) [demo_episode "café"; demo_episode "tea"]) as H
    by (repeat constructor).
  exact (proj1 (knownFactCue_spec _ H)).
Defined.
