(* ===== verification/System.v ===== *)
(** * The database under every operation

    The adapter's writes as one step relation over the schema, and what holds of
    every database a deployment can reach: the schema's invariants, and the
    append-only log. *)

From S2P Require Import Types Validate OpsTypes Server Db PgQueue Queueing PgEpisode Appending Replaying PgFact FactWriting FactReading PgForget PgEncoding.

#[local] Open Scope Z_scope.

Section System.
Context `{Sv : Server}.

(** The operations of [postgres.Store] that write. *)
Inductive SysOp : Type :=
  | SAppend (cmd : AppendCommand)
  | SPutEncoding (dims : Z) (enc : Encoding)
  | SApplyExtraction (cmd : ExtractCommand)
  | SForget (req : ForgetRequest)
  | SQueue (o : QueueOp).

Definition run_sys (o : SysOp) (d : Db) : Db :=
  match o with
  | SAppend cmd => (PgEpisode.Append cmd d).1
  | SPutEncoding dims enc => (PutEncoding dims enc d).1
  | SApplyExtraction cmd => (ApplyExtraction cmd d).1
  | SForget req => (PgForget.Forget req d).1
  | SQueue o => run_queue o d
  end.

(** A batch is counted in an int32 parameter. *)
Definition sys_ok (o : SysOp) : Prop :=
  match o with
  | SAppend cmd => Z.of_nat (length (ac_episodes cmd)) < 2 ^ 31
  | _ => True
  end.

(** [allowed] restricts the operations of a run. *)
Inductive reachable (allowed : SysOp -> Prop) (d0 : Db) : Db -> Prop :=
  | reach_start : reachable allowed d0 d0
  | reach_step d o : reachable allowed d0 d -> sys_ok o -> allowed o ->
      reachable allowed d0 (run_sys o d).

(** Operations that leave the scope's catalogue row standing. *)
Definition keeps_scope (scope : string) (o : SysOp) : Prop :=
  match o with
  | SForget req => fr_scope req = scope -> fr_episodes req <> []
  | _ => True
  end.
End System.

Section SystemOk.
Context `{Sv : Server} `{!ServerLaws Sv}.

Lemma Forget_db req d :
  db_ok d -> (PgForget.Forget req d).1 = d \/ (PgForget.Forget req d).1 = erased req d.
Proof.
  intros Hok. pose proof (Forget_cases req d Hok) as H.
  destruct (PgForget.Forget req d) as [d' [r|e]]; [right; by destruct H|by left].
Qed.

Lemma Append_cases cmd d :
  db_ok d -> sys_ok (SAppend cmd) ->
  (PgEpisode.Append cmd d).1 = d \/
  exists rows jobs, append_post (cmd_scope cmd) (ac_episodes cmd) (pg_ts (t_ns (cmd_at cmd)))
    (cmd_specs cmd) d (PgEpisode.Append cmd d).1 rows jobs.
Proof.
  intros Hok Hlen. destruct (validateAppend cmd) as [[]|] eqn:Hv.
  2: { left. unfold PgEpisode.Append. by rewrite obind_olift, Hv. }
  pose proof (Append_run cmd d Hok Hv Hlen) as H.
  destruct (PgEpisode.Append cmd d) as [d' [r|e]]; [|by left]. right.
  destruct H as (rows & jobs & H & _). by exists rows, jobs.
Qed.

Lemma run_sys_ok o d : sys_ok o -> db_ok d -> db_ok (run_sys o d).
Proof.
  intros Ho Hok. destruct o; cbn [run_sys].
  - destruct (Append_cases cmd d Hok Ho) as [->|(rows & jobs & [])]; done.
  - by apply PutEncoding_ok.
  - destruct (ApplyExtraction cmd d) as [d' [facts|e]] eqn:H; cbn [fst].
    + by eapply ApplyExtraction_ok.
    + unfold ApplyExtraction in H. rewrite obind_olift in H.
      destruct (ExtractCommand_Validate cmd); [|by injection H as <-]. rewrite obind_olift in H.
      destruct (dedupeAssertions _); [|by injection H as <-]. by apply atomically_Err in H as ->.
  - destruct (Forget_db req d Hok) as [->| ->]; [done|by apply erased_ok].
  - by eapply follows_ok, Hok; apply run_queue_follows.
Qed.

(** C1: every database reached from a well-formed one is well formed: whatever
    operations run, in whatever order and with whatever arguments, the keys and
    CHECKs of the six tables hold, every sequence number is covered by its scope's
    counter, encodings and markers carry the scope and the ingestion time of the
    episode they point at, facts rest on episodes of their own scope, and no claim
    is believed over two overlapping windows. *)
Theorem system_invariant allowed d0 d : db_ok d0 -> reachable allowed d0 d -> db_ok d.
Proof. intros H0 H. induction H; [done|]. by apply run_sys_ok. Qed.

(** ** The log *)

(** What has happened to L0 since [d0]. *)
Record log_since (d0 d : Db) : Prop := {
  ls_mint : (db_minted d0 <= db_minted d)%nat;
  ls_old : forall e, e ∈ db_episodes d -> minted d0 (er_id e) -> e ∈ db_episodes d0;
}.

Lemma same_base_log d0 d d' :
  db_episodes d' = db_episodes d -> (db_minted d <= db_minted d')%nat -> log_since d0 d -> log_since d0 d'.
Proof. intros He Hm [H1 H2]. split; [lia|]. rewrite He. done. Qed.

Lemma follows_base step d d' :
  jobs_ok d -> follows step d d' ->
  db_episodes d' = db_episodes d /\ db_scopes d' = db_scopes d /\ (db_minted d <= db_minted d')%nat.
Proof.
  intros Hok Hf. destruct (Hf Hok) as [_ [_ _ [Hrest Hm]]].
  split; [|split; [|done]]; rewrite <- Hrest; by destruct d'.
Qed.

Lemma PutEncoding_base dims enc d :
  let d' := (PutEncoding dims enc d).1 in
  db_episodes d' = db_episodes d /\ db_scopes d' = db_scopes d /\ db_minted d' = db_minted d.
Proof.
  unfold PutEncoding. rewrite obind_olift. destruct (validateEncoding dims enc); [|done].
  unfold obind, omap_err, with_text. destruct (forallb pg_text _); [|done].
  unfold put_stmt, on_schema. destruct (db_ready d); [|done]. destruct (List.find _ _); [|done].
  cbv zeta. by destruct (negb _).
Qed.

Lemma log_step o d0 d : sys_ok o -> db_ok d -> log_since d0 d -> log_since d0 (run_sys o d).
Proof.
  intros Ho Hok Hl. destruct o; cbn [run_sys].
  - destruct (Append_cases cmd d Hok Ho) as [->|(rows & jobs & Hpost)]; [done|].
    pose proof Hpost as [_ (mint & Hmint & Hrows) Heps _ _ _ _ _ _ Hm]. destruct Hl as [H1 H2].
    split; [lia|]. rewrite Heps. intros e [He|He]%elem_of_app (k & Hk & Hid); [apply H2; [done|by exists k]|].
    rewrite Hrows in He. apply elem_of_episode_rows in He as (_ & _ & k' & e' & Hk' & Hid' & _).
    rewrite Hid in Hid'. apply uuidv7_inj in Hid'. lia.
  - destruct (PutEncoding_base dims enc d) as (? & ? & Hm). apply (same_base_log d0 d); [done|lia|done].
  - destruct (ApplyExtraction_base cmd d) as (? & _ & _ & _ & _ & ?). by apply (same_base_log d0 d).
  - destruct (Forget_db req d Hok) as [->| ->]; [done|]. destruct Hl as [H1 H2]. split; [done|].
    intros e [He _]%elem_of_keep. by apply H2.
  - destruct (follows_base _ _ _ (ok_jobs d Hok) (run_queue_follows o d)) as (? & _ & ?).
    by apply (same_base_log d0 d).
Qed.

Lemma log_reachable allowed d0 d : db_ok d0 -> reachable allowed d0 d -> db_ok d /\ log_since d0 d.
Proof.
  intros H0 H. induction H as [|d o H [Hok IH] Ho _].
  - split; [done|]. split; [done|]. done.
  - split; [by apply run_sys_ok|by apply log_step].
Qed.

(** C2: an episode is never rewritten. Whatever runs between two states, a row of
    the log that carries an id it carried before is the same row, in content,
    order, actor, times and binding; without an erasure every row is still there. *)
Theorem log_immutable allowed d0 d :
  db_ok d0 -> reachable allowed d0 d ->
  (forall e0 e, e0 ∈ db_episodes d0 -> e ∈ db_episodes d -> er_id e = er_id e0 -> e = e0) /\
  ((forall o, allowed o -> match o with SForget _ => False | _ => True end) ->
   exists rows, db_episodes d = db_episodes d0 ++ rows).
Proof.
  intros H0 H. split.
  - destruct (log_reachable allowed d0 d H0 H) as [_ [_ Hold]]. intros e0 e He0 He Hid.
    destruct (ok_episodes d0 H0) as [Hids _ Hrows]. rewrite Forall_forall in Hrows.
    destruct (Hrows e0 He0) as (_ & Hm & _).
    apply (NoDup_key er_id (db_episodes d0)); [done|apply Hold; [done|by rewrite Hid]|done|done].
  - intros Hno. induction H as [|d o H IH Ho Ha]; [exists []; by rewrite app_nil_r|].
    destruct (log_reachable allowed d0 d H0 H) as [Hok _]. destruct IH as [rows IH].
    specialize (Hno o Ha). destruct o; cbn [run_sys]; [| | |done|].
    + destruct (Append_cases cmd d Hok Ho) as [->|(rows' & jobs & [])]; [by exists rows|].
      exists (rows ++ rows'). by rewrite ap_episodes, IH, app_assoc.
    + destruct (PutEncoding_base dims enc d) as (-> & _). by exists rows.
    + destruct (ApplyExtraction_base cmd d) as (-> & _). by exists rows.
    + destruct (follows_base _ _ _ (ok_jobs d Hok) (run_queue_follows o d)) as (-> & _). by exists rows.
Qed.

(** *** What no erasure names *)

(** Operations that leave an episode standing. *)
Definition spares (scope : string) (id : N) (o : SysOp) : Prop :=
  match o with
  | SForget req => fr_scope req = scope -> fr_episodes req <> [] /\ id ∉ fr_episodes req
  | _ => True
  end.

Lemma ready_step o d : db_ready d = true -> sys_ok o -> db_ok d -> db_ready (run_sys o d) = true.
Proof.
  intros Hr Ho Hok. destruct o; cbn [run_sys].
  - destruct (Append_cases cmd d Hok Ho) as [->|(rows & jobs & Hpost)]; [done|]. apply Hpost.
  - by destruct (PutEncoding_grows dims enc d) as (_ & _ & _ & _ & _ & _ & _ & -> & _).
  - destruct (ApplyExtraction_base cmd d) as (_ & _ & _ & _ & -> & _). done.
  - by destruct (Forget_db req d Hok) as [->| ->].
  - destruct (run_queue_follows o d (ok_jobs d Hok)) as [_ [_ _ [Hrest _]]]. by rewrite <- Hrest in Hr.
Qed.

Lemma spared_step scope id o d e :
  sys_ok o -> spares scope id o -> db_ok d -> e ∈ db_episodes d -> er_scope e = scope -> er_id e = id ->
  e ∈ db_episodes (run_sys o d).
Proof.
  intros Ho Hs Hok He Hsc Hid. destruct o; cbn [run_sys].
  - destruct (Append_cases cmd d Hok Ho) as [->|(rows & jobs & Hpost)]; [done|].
    rewrite (ap_episodes _ _ _ _ _ _ _ _ Hpost). apply elem_of_app. by left.
  - by destruct (PutEncoding_base dims enc d) as (-> & _).
  - by destruct (ApplyExtraction_base cmd d) as (-> & _).
  - destruct (Forget_db req d Hok) as [->| ->]; [done|]. apply elem_of_keep. split; [done|].
    apply not_true_is_false. intros Hg. unfold gone_episode in Hg. apply andb_true_iff in Hg as [Heq%String.eqb_eq Hn].
    apply named_spec in Hn. destruct (Hs ltac:(congruence)) as [Hne Hout].
    destruct Hn as [?|(x & Hx%list_elem_of_singleton & Hin)]; [done|]. by subst.
  - by destruct (follows_base _ _ _ (ok_jobs d Hok) (run_queue_follows o d)) as (-> & _).
Qed.

(** Whatever else runs, it stays in the log as it is. *)
Lemma spared_stays scope id d0 d e :
  db_ok d0 -> db_ready d0 = true -> reachable (spares scope id) d0 d ->
  e ∈ db_episodes d0 -> er_scope e = scope -> er_id e = id ->
  db_ok d /\ db_ready d = true /\ e ∈ db_episodes d.
Proof.
  intros H0 Hr H He Hsc Hid. induction H as [|d o H (Hok & Hready & IH) Ho Ha]; [done|].
  split; [by apply run_sys_ok|]. split; [by apply ready_step|]. by apply (spared_step scope id).
Qed.

(** *** Sequence numbers *)

Record numbered (scope : string) (d0 d : Db) : Prop := {
  nu_last : last_seq_of scope d0 <= last_seq_of scope d;
  nu_new : forall e, e ∈ db_episodes d -> er_scope e = scope ->
    e ∈ db_episodes d0 \/ last_seq_of scope d0 < er_seq e;
}.

Lemma numbered_same scope d0 d d' :
  db_episodes d' = db_episodes d -> db_scopes d' = db_scopes d -> numbered scope d0 d -> numbered scope d0 d'.
Proof. intros He Hs [H1 H2]. split; [unfold last_seq_of in *; by rewrite Hs|]. rewrite He. done. Qed.

Lemma last_seq_erased req d scope :
  (fr_scope req = scope -> fr_episodes req <> []) -> last_seq_of scope (erased req d) = last_seq_of scope d.
Proof.
  intros Hk. unfold last_seq_of, erased. cbn [db_scopes].
  assert (List.find (same_scope scope) (keep_unless (gone_scope req) (db_scopes d)) =
          List.find (same_scope scope) (db_scopes d)) as ->; [|done].
  unfold keep_unless. induction (db_scopes d) as [|s l IH]; [done|]. cbn.
  destruct (gone_scope req s) eqn:Hg; cbn; rewrite IH; [|done].
  destruct (same_scope scope s) eqn:Hs; [|done]. exfalso. apply same_scope_spec in Hs.
  unfold gone_scope, whole_scope in Hg. apply andb_true_iff in Hg as [Hw Heq%String.eqb_eq].
  apply (Hk ltac:(congruence)). by destruct (fr_episodes req).
Qed.

Lemma numbered_step scope o d0 d :
  sys_ok o -> keeps_scope scope o -> db_ok d -> numbered scope d0 d -> numbered scope d0 (run_sys o d).
Proof.
  intros Ho Hk Hok Hn. destruct o; cbn [run_sys].
  - destruct (Append_cases cmd d Hok Ho) as [->|(rows & jobs & Hpost)]; [done|].
    pose proof Hpost as [_ (mint & _ & Hrows) Heps Hseq Hothers _ _ _ _ _]. destruct Hn as [H1 H2].
    split.
    + destruct (decide (scope = cmd_scope cmd)) as [->|Hne]; [lia|by rewrite Hothers].
    + rewrite Heps. intros e [He|He]%elem_of_app Hs; [by apply H2|]. right.
      rewrite Hrows in He. apply elem_of_episode_rows in He as (Hes & Hsq & _).
      rewrite <- Hs, Hes in H1 |- *. lia.
  - destruct (PutEncoding_base dims enc d) as (? & ? & _). by apply (numbered_same scope d0 d).
  - destruct (ApplyExtraction_base cmd d) as (? & ? & _). by apply (numbered_same scope d0 d).
  - destruct (Forget_db req d Hok) as [->| ->]; [done|]. destruct Hn as [H1 H2]. split.
    + by rewrite last_seq_erased.
    + intros e [He _]%elem_of_keep. by apply H2.
  - destruct (follows_base _ _ _ (ok_jobs d Hok) (run_queue_follows o d)) as (? & ? & _).
    by apply (numbered_same scope d0 d).
Qed.

(** C3: a sequence number is never given out twice. As long as the scope is not
    erased whole, its counter never falls, and an episode appended since carries a
    number above every one given out before, the holes of erased episodes
    included. *)
Theorem seq_never_reused scope d0 d :
  db_ok d0 -> reachable (keeps_scope scope) d0 d ->
  last_seq_of scope d0 <= last_seq_of scope d /\
  forall e, e ∈ db_episodes d -> er_scope e = scope ->
    e ∈ db_episodes d0 \/ last_seq_of scope d0 < er_seq e.
Proof.
  intros H0 H. assert (numbered scope d0 d) as [? ?]; [|done].
  induction H as [|d o H IH Ho Ha]; [split; [done|by left]|].
  apply numbered_step; [done|done| |done]. exact (proj1 (log_reachable _ d0 d H0 H)).
Qed.
End SystemOk.

(** ** A concrete run *)

Definition demo_run : Db :=
  run_sys (SForget (demo_forget [2%N])) (run_sys (SPutEncoding 2 (demo_encoding 1)) demo_extracted).

Lemma demo_reachable : reachable (keeps_scope "s") demo_extracted demo_run.
Proof.
  apply reach_step; [|exact I|by intros _].
  apply reach_step; [apply reach_start|exact I|exact I].
Qed.

Lemma system_invariant_witness : db_ok demo_run.
Proof. exact (system_invariant _ _ _ demo_extracted_ok demo_reachable). Defined.

Lemma log_immutable_witness :
  exists e, er_id e = 1%N /\ e ∈ db_episodes demo_extracted /\ e ∈ db_episodes demo_run.
Proof.
  destruct (List.find (fun e => N.eqb (er_id e) 1) (db_episodes demo_extracted)) as [e0|] eqn:H0;
    [|vm_compute in H0; discriminate H0].
  destruct (List.find (fun e => N.eqb (er_id e) 1) (db_episodes demo_run)) as [e|] eqn:H;
    [|vm_compute in H; discriminate H].
  apply find_elem in H0 as [Hin0 Hid0%N.eqb_eq]. apply find_elem in H as [Hin Hid%N.eqb_eq].
  exists e. split; [exact Hid|]. split; [|exact Hin].
  rewrite (proj1 (log_immutable _ _ _ demo_extracted_ok demo_reachable) e0 e Hin0 Hin (eq_trans Hid (eq_sym Hid0))).
  exact Hin0.
Defined.

Lemma seq_never_reused_witness : last_seq_of "s" demo_extracted <= last_seq_of "s" demo_run.
Proof. exact (proj1 (seq_never_reused "s" _ _ demo_extracted_ok demo_reachable)). Defined.
