(* ===== verification/Postgres.v ===== *)
(** * The adapter behind the ports ([postgres/store.go])

    [postgres.Store] as a [Store], a [Queue], a [FactStore] and an [ops.Store]
    over one world: the database and, beside it, everything else a process
    touches, [E]. The instances discharge the promises of [Ports] for it. *)

From S2P Require Import Types Validate OpsTypes Windows Server Db PgQueue Queueing PgEpisode Appending Replaying PgFact FactWriting FactReading PgForget PgEncoding PgSearch Ports.

#[local] Open Scope Z_scope.

Section Wiring.
Context `{Sv : Server} {E : Type}.

Record World : Type := MkWorld { w_db : Db; w_env : E }.

(** An operation on either half. *)
Definition on_db {A} (m : dbop A) : op Error World A := fun w =>
  let (d, r) := m (w_db w) in (MkWorld d (w_env w), r).
Definition on_env {A} (m : op Error E A) : op Error World A := fun w =>
  let (e, r) := m (w_env w) in (MkWorld (w_db w) e, r).

(** The job rows other sessions have locked, which [SKIP LOCKED] passes over. *)
Context (locked : E -> list JobID).

Definition pg_queue : Queue World :=
  MkQueue (fun job now => on_db (Enqueue job now))
    (fun req w => on_db (Lease (locked (w_env w)) req) w)
    (fun id worker at_ => on_db (Succeed id worker at_))
    (fun id worker cause at_ retryAt => on_db (Fail id worker cause at_ retryAt))
    (fun now => on_db (Reclaim now))
    (fun id => on_db (Job_get id)).

Definition pg_facts : FactStore World :=
  MkFactStore (fun cmd => on_db (ApplyExtraction cmd)) (fun q => on_db (Facts q))
    (fun scope id => on_db (Fact_get scope id)).

(** [Store], with the width [New] read once. *)
Definition pg_store (vectorDimensions : Z) : Store World :=
  MkStore (fun cmd => on_db (PgEpisode.Append cmd))
    (fun scope id => on_db (Episode_get scope id))
    (fun scope after limit => on_db (Replay scope after limit))
    (fun q => on_db (SearchSemantic vectorDimensions q))
    (fun q => on_db (SearchLexical q))
    (fun enc => on_db (PutEncoding vectorDimensions enc))
    (fun req => on_db (PgForget.Forget req))
    (Some pg_queue) (Some pg_facts).

Definition pg_ops_facts : OpsFactStore World :=
  MkOpsFactStore (fun q => on_db (PendingExtractions_get q)).

Definition pg_ops : OpsStore World :=
  MkOpsStore (fun q => on_db (Scopes q))
    (fun scope id => on_db (Episode_get scope id))
    (fun q => on_db (PendingEncodings_get q))
    (fun job now => on_db (Enqueue job now))
    (fun q => on_db (Jobs q))
    (fun scope => on_db (Stats scope))
    (fun id now => on_db (Retry id now))
    (fun req => on_db (Purge req))
    (Some pg_ops_facts).

(** [VerifyEmbedder]. *)
Definition VerifyEmbedder (vectorDimensions : Z) (emb : option (Embedder World)) : res unit :=
  match emb with
  | None => Err (EWrap ErrInvalidConfig)
  | Some emb => reject (negb (e_Dimensions emb =? vectorDimensions)) (EWrap ErrEmbedderMismatch)
  end.

(** [readSchemaConfig], on the row of [schema_config]: the width and the text
    search configuration; [identifier] is [validateIdentifier]. *)
Definition readSchemaConfig (identifier : string -> res unit) (row : result Error (Z * string))
    : res (Z * string) :=
  match row with
  | Err ENoRows => Err (EWrapPg ErrSchemaNotReady)
  | Err e => Err (wrap_query e)
  | Ok (dims, config) =>
      reject (dims <=? 0) (EWrapPg ErrSchemaNotReady) ;;? identifier config ;;? Ok (dims, config)
  end.
End Wiring.
Arguments World : clear implicits.

(** ** Lifting *)

Section Lifting.
Context {E : Type}.
Implicit Types w : World E.

Lemma reads_on_db {A} (m : dbop A) : reads m -> reads (on_db (E := E) m).
Proof.
  intros H w. unfold on_db. specialize (H (w_db w)). destruct (m (w_db w)) as [d r]. cbn in *. subst.
  by destruct w.
Qed.

Lemma on_db_Ok {A} (m : dbop A) w w' a :
  on_db m w = (w', Ok a) <-> exists d', m (w_db w) = (d', Ok a) /\ w' = MkWorld d' (w_env w).
Proof. unfold on_db. destruct (m (w_db w)) as [d [x|x]]; naive_solver. Qed.
End Lifting.

(** ** What the searches answer *)

Section Promises.
Context `{Sv : Server} `{!ServerLaws Sv}.

Lemma reads_SearchSemantic dims q : reads (SearchSemantic dims q).
Proof.
  intros d. unfold SearchSemantic. rewrite obind_olift. destruct (validateSemantic dims q); [|done].
  unfold omap_err, with_text, with_filters, on_schema, with_vector. destruct (forallb _ _); [|done].
  destruct (query_binding_text _); [|done]. destruct (db_ready d); [|done]. destruct (vector_literal _); [|done].
  by destruct (scanCandidates _ _).
Qed.

Lemma reads_SearchLexical q : reads (SearchLexical q).
Proof.
  intros d. unfold SearchLexical. rewrite obind_olift. destruct (validateLexical q); [|done].
  unfold omap_err, with_text, with_filters, on_schema. destruct (forallb _ _); [|done].
  destruct (query_binding_text _); [|done]. destruct (db_ready d); [|done].
  by destruct (scanCandidates _ _).
Qed.

Lemma reads_Episode_get scope id : reads (Episode_get scope id).
Proof.
  intros d. unfold Episode_get. rewrite obind_olift. destruct (ScopeID_Validate scope); [|done].
  rewrite obind_olift. destruct (reject _ _); [|done]. unfold omap_err, on_schema.
  destruct (db_ready d); [|done]. by destruct (let? r := _ in _).
Qed.

Lemma reads_Facts q : reads (Facts q).
Proof.
  intros d. unfold Facts. rewrite obind_olift. destruct (FactQuery_Validate q); [|done].
  rewrite obind_olift. destruct (reject _ _); [|done]. rewrite obind_olift. destruct (reject _ _); [|done].
  unfold omap_err, with_text, on_schema. destruct (forallb _ _); [|done]. by destruct (db_ready d).
Qed.

Lemma in_query_visible q e : in_query q e -> visible pg_ts q (episode_of e).
Proof.
  intros (H1 & H2 & H3 & H4 & H5 & H6). unfold visible, episode_of. cbn [ep_scope ep_ingested ep_occurred
    ep_binding ep_role]. cbn [t_ns utc]. do 4 (split; [done|]). split; [|done].
  case_bool_decide as Hb; [|done]. rewrite Hb in H5. exact H5.
Qed.

(** A search that answered, whatever its arguments. *)
Lemma scanned_visible ch q rows cands d :
  db_ok d -> NoDup (map (fun x => er_id x.1) rows) ->
  (forall x, x ∈ rows -> x.1 ∈ db_episodes d /\ in_query q x.1) ->
  scanCandidates ch rows = Ok cands ->
  forall c, c ∈ cands ->
    cand_episode c ∈ map episode_of (db_episodes d) /\ visible pg_ts q (cand_episode c) /\ 1 <= cand_rank c.
Proof.
  intros Hok Hnd Hin Hs c Hc.
  destruct (scan_answers ch q (Z.of_nat (length rows)) d rows Hok Hnd) as (cands' & Hs' & Ha & _);
    [lia|done|]. assert (cands' = cands) as -> by congruence.
  destruct Ha as ((_ & Hr) & _ & _ & Hall). destruct (Hall c Hc) as (_ & e & He & Hq & ->).
  split; [by apply list_elem_of_fmap_2|]. split; [by apply in_query_visible|]. apply list_elem_of_lookup in Hc as [i Hi].
  rewrite (Hr i c Hi). lia.
Qed.

Lemma lexical_rows_spec q d :
  db_ok d ->
  NoDup (map (fun x => er_id x.1) (lexical_rows q d)) /\
  forall x, x ∈ lexical_rows q d ->
    x.1 ∈ db_episodes d /\ in_query (lq_channel q) x.1 /\ pg_match (lq_text q) (er_content x.1) = true.
Proof.
  intros Hok. unfold lexical_rows. split.
  - rewrite map_map. apply (NoDup_page er_id), (eo_ids d (ok_episodes d Hok)).
  - intros x (e & -> & He)%list_elem_of_fmap. cbn [fst].
    apply elem_of_sql_limit in He. unfold sort_func in He.
    apply elem_of_sort_by, elem_of_filter_b in He as [He Hf]. split; [done|].
    rewrite <- in_query_spec. unfold lexical_filter in Hf. rewrite !andb_true_iff in Hf. rewrite !andb_true_iff. tauto.
Qed.

#[export] Instance pg_store_reads {E} (locked : E -> list JobID) dims :
  ReadOnlyStore (pg_store locked dims).
Proof.
  split; intros; cbn; apply reads_on_db;
    [apply reads_Episode_get|apply reads_SearchSemantic|apply reads_SearchLexical].
Qed.

#[export] Instance pg_facts_reads {E} : ReadOnlyFacts (pg_facts (E := E)).
Proof. split. intros q. apply reads_on_db, reads_Facts. Qed.

(** The worlds a deployment is in. *)
Definition sound {E} (w : World E) : Prop := db_ok (w_db w).
Definition pg_log {E} (w : World E) : list Episode := map episode_of (db_episodes (w_db w)).
Definition pg_known {E} (w : World E) : list Fact := map scanFact (db_facts (w_db w)).

#[export] Instance pg_store_search {E} (locked : E -> list JobID) dims :
  SearchSpec sound pg_ts pg_log (pg_store locked dims).
Proof.
  split; intros q w w' cands Hw H; cbn in H; apply on_db_Ok in H as (d' & H & _).
  - unfold SearchSemantic in H. rewrite obind_olift in H. destruct (validateSemantic dims q); [|done].
    unfold omap_err, with_text, with_filters, on_schema, with_vector in H. destruct (forallb _ _); [|done].
    destruct (query_binding_text _); [|done]. destruct (db_ready _); [|done]. destruct (vector_literal _); [|done].
    destruct (scanCandidates _ _) eqn:Hs; [|done]. injection H as _ ->.
    destruct (semantic_rows_spec q (w_db w) Hw) as (Hnd & _ & Hin).
    eapply scanned_visible; [exact Hw|exact Hnd| |exact Hs].
    intros x Hx. by destruct (Hin x Hx) as (? & ? & _).
  - unfold SearchLexical in H. rewrite obind_olift in H. destruct (validateLexical q); [|done].
    unfold omap_err, with_text, with_filters, on_schema in H. destruct (forallb _ _); [|done].
    destruct (query_binding_text _); [|done]. destruct (db_ready _); [|done].
    destruct (scanCandidates _ _) eqn:Hs; [|done]. injection H as _ ->.
    destruct (lexical_rows_spec q (w_db w) Hw) as (Hnd & Hin).
    eapply scanned_visible; [exact Hw|exact Hnd| |exact Hs].
    intros x Hx. by destruct (Hin x Hx) as (? & ? & _).
Qed.

Lemma believed_current q r : believed q r -> current pg_ts q (scanFact r).
Proof.
  intros (H1 & H2 & H3 & H4 & H5 & H6 & _). unfold current, scanFact. cbn.
  do 4 (split; [done|]). split; [|done]. intros Hc. specialize (H5 Hc). unfold toValidity.
  destruct (gr_to r); cbn; [by right|by left].
Qed.

#[export] Instance pg_facts_spec {E} : FactsSpec sound pg_ts pg_known (pg_facts (E := E)).
Proof.
  split. intros q w w' facts _ H. cbn in H. apply on_db_Ok in H as (d' & H & _).
  unfold Facts in H. rewrite obind_olift in H. destruct (FactQuery_Validate q); [|done].
  rewrite obind_olift in H. destruct (reject _ _); [|done].
  rewrite obind_olift in H. destruct (reject _ _); [|done].
  unfold omap_err, with_text, on_schema in H. destruct (forallb _ _); [|done].
  destruct (db_ready _); [|done]. injection H as _ <-.
  intros x (r & -> & Hr)%list_elem_of_fmap.
  apply elem_of_sql_limit in Hr. unfold sort_func in Hr.
  apply elem_of_sort_by, elem_of_filter_b in Hr as [Hr Hf].
  split; [by apply list_elem_of_fmap_2|by apply believed_current, facts_filter_spec].
Qed.

(** *** And what they leave out *)

Lemma visible_in_query q e : visible pg_ts q (episode_of e) -> in_query q e.
Proof.
  intros (H1 & H2 & H3 & H4 & H5 & H6). unfold in_query. unfold episode_of in *.
  cbn [ep_scope ep_ingested ep_occurred ep_binding ep_role t_ns utc] in *.
  do 4 (split; [done|]). split; [|done]. case_bool_decide as Hb; [by rewrite Hb|done].
Qed.

Lemma current_believed q r :
  fact_checks r = true -> fq_predicates q = [] -> current pg_ts q (scanFact r) -> sure q (scanFact r) ->
  0 <= gr_from r -> believed q r.
Proof.
  unfold fact_checks, range_ok. rewrite !andb_true_iff. intros Hc Hp (H1 & H2 & H3 & H4 & H5 & H6) Hs Hf.
  destruct Hc as ((_ & Hrange) & _). unfold believed, sure, scanFact in *. cbn in *.
  do 4 (split; [done|]). split; [|split; [done|split; [by left|done]]].
  intros Hx. specialize (H5 Hx). unfold toValidity in H5. destruct (gr_to r) as [h|]; [|done]. cbn in *.
  apply Z.ltb_lt in Hrange. lia.
Qed.

(** Queries the adapter answers, on a database that is ready for them. *)
Definition pg_searchable {E} (w : World E) (q : LexicalQuery) : Prop :=
  db_ready (w_db w) = true /\ validateLexical q = Ok tt /\ pg_text (lq_text q) = true /\
  query_binding_text (lq_channel q) = true.

Definition pg_queryable {E} (w : World E) (q : FactQuery) : Prop :=
  db_ready (w_db w) = true /\ FactQuery_Validate q = Ok tt /\ t_ns (fq_as_of q) <> 0 /\ t_ns (fq_at q) <> 0 /\
  pg_text (fq_extractor q) = true /\ pg_text (fq_text q) = true.

#[export] Instance pg_store_complete {E} (locked : E -> list JobID) dims :
  CompleteSearch sound pg_ts pg_log pg_match pg_searchable (pg_store locked dims).
Proof.
  split.
  - intros w e e' Hw (r & -> & Hr)%list_elem_of_fmap (r' & -> & Hr')%list_elem_of_fmap Hid. cbn in Hid.
    by rewrite (NoDup_key er_id (db_episodes (w_db w)) r r' (eo_ids _ (ok_episodes _ Hw))).
  - intros q w Hw (Hready & Hv & Ht & Hb) Hlim.
    destruct (SearchLexical_spec q (w_db w) Hw Hready Hv Ht Hb) as (cands & Hs & (_ & _ & _ & Hall) & Hout).
    exists cands. cbn [pg_store s_SearchLexical]. unfold on_db. rewrite Hs. split; [by destruct w|].
    intros e (r & -> & Hr)%list_elem_of_fmap Hvis Hm.
    destruct (decide (er_id r ∈ map cand_key cands)) as [(c & Hid & Hc)%list_elem_of_fmap|Hn].
    + left. apply list_elem_of_fmap. exists c. split; [|done]. destruct (Hall c Hc) as (_ & r' & Hr' & _ & He).
      unfold cand_key in Hid. rewrite He in Hid |- *. cbn in Hid.
      by rewrite (NoDup_key er_id (db_episodes (w_db w)) r r' (eo_ids _ (ok_episodes _ Hw))).
    + right. destruct (Hout r Hr (visible_in_query _ _ Hvis) Hm Hn) as [-> _]. unfold candidateLimit.
      rewrite (proj2 (Z.leb_gt _ _)) by done. lia.
Qed.

#[export] Instance pg_facts_complete {E} :
  CompleteFacts sound pg_ts pg_known pg_queryable (pg_facts (E := E)).
Proof.
  split. intros q w Hw (Hready & Hv & Hao & Hat & Hx & Ht) Hlim Hp.
  assert (forallb pg_text (if String.eqb (TrimSpace (fq_text q)) "" then [fq_extractor q]
    else [fq_extractor q; fq_text q]) = true) as Htexts by (destruct (String.eqb _ _); cbn; rewrite Hx, ?Ht; done).
  eexists. cbn [pg_facts fs_Facts]. unfold on_db. rewrite (Facts_run q (w_db w)) by done.
  split; [by destruct w|]. rewrite (proj2 (Z.eqb_neq _ _)) by lia. rewrite length_map.
  intros x (r & -> & Hr)%list_elem_of_fmap Hc Hs Hf.
  destruct (ok_facts _ Hw) as [_ _ Hrows]. rewrite Forall_forall in Hrows. destruct (Hrows r Hr) as (Hck & _).
  assert (facts_filter q r = true) as Hfil by (by apply facts_filter_spec, current_believed).
  destruct (page_full (facts_order q) (facts_filter q) (Z.to_nat (fq_limit q)) _ r Hr Hfil) as [Hin|Hl].
  - left. by apply list_elem_of_fmap_2.
  - right. rewrite Hl. lia.
Qed.
End Promises.
