(* ===== verification/Abstract.v ===== *)
(** * The memory a client is promised

    What the storage ports come to, without tables, statements or transactions: for
    each scope a numbered log, one vector per episode and model, a record of which
    extractor has read what, and beliefs that are amended and never silently lost.
    A call and its reply are one step of this machine; [Refinement] shows that the
    adapter's replies are always replies of it. Two memories are compared by what
    can be looked up in them ([same]). *)

From S2P Require Import Types Validate OpsTypes Windows Server Db.

#[local] Open Scope Z_scope.

(** ** States *)

Record Mem : Type := MkMem {
  log : ScopeID -> list Episode;
  last_seq : ScopeID -> Z;
  vector : EpisodeID -> ModelID -> option Vector;
  has_read : EpisodeID -> ExtractorID -> bool;
  belief : FactID -> option FactRow;
}.

Record same (m m' : Mem) : Prop := {
  sm_log : forall s, log m' s = log m s;
  sm_last : forall s, last_seq m' s = last_seq m s;
  sm_vector : forall id model, vector m' id model = vector m id model;
  sm_read : forall id x, has_read m' id x = has_read m id x;
  sm_belief : forall id, belief m' id = belief m id;
}.

#[export] Instance same_equivalence : Equivalence same.
Proof.
  split; [by intros m|intros m m' []; by split|]. intros m1 m2 m3 [] [].
  split; intros; etransitivity; eauto.
Qed.

(** ** How beliefs and memories age *)

(** The same claim of the same extractor from the same instant, known since the same
    time; its end may be drawn in, its evidence may grow. *)
Record amended (f f' : FactRow) : Prop := {
  am_id : gr_id f' = gr_id f;
  am_scope : gr_scope f' = gr_scope f;
  am_extractor : gr_extractor f' = gr_extractor f;
  am_subject : gr_subject f' = gr_subject f;
  am_predicate : gr_predicate f' = gr_predicate f;
  am_object : gr_object f' = gr_object f;
  am_from : gr_from f' = gr_from f;
  am_asserted : gr_asserted f' = gr_asserted f;
  am_to : gr_to f' = gr_to f \/
    exists h, gr_to f' = Some h /\ gr_from f < h /\
      match gr_to f with Some h0 => h < h0 | None => True end;
  am_evidence : gr_episodes f ⊆ gr_episodes f';
}.

#[export] Instance amended_refl : Reflexive amended.
Proof. intros f. split; try done. by left. Qed.

#[export] Instance amended_trans : Transitive amended.
Proof.
  intros f1 f2 f3 [] []. split; try congruence; [|set_solver].
  destruct am_to1 as [E|(h & E & Hlt & Hto)], am_to0 as [E0|(h0 & E0 & Hlt0 & Hto0)].
  - left. congruence.
  - right. exists h0. split; [congruence|done].
  - right. exists h. split; [done|]. split; [lia|]. by rewrite <- E0.
  - right. exists h. split; [done|]. split; [lia|]. rewrite E0 in Hto. destruct (gr_to f1); [lia|done].
Qed.

(** One memory after another when nothing was forgotten in between. *)

Record grows (m m' : Mem) : Prop := {
  gw_log : forall s, log m s `prefix_of` log m' s;
  gw_last : forall s, last_seq m s <= last_seq m' s;
  gw_vector : forall id model, is_Some (vector m id model) -> is_Some (vector m' id model);
  gw_read : forall id x, has_read m id x = true -> has_read m' id x = true;
  gw_belief : forall id f, belief m id = Some f -> exists f', belief m' id = Some f' /\ amended f f';
}.

#[export] Instance grows_preorder : PreOrder grows.
Proof.
  split.
  - intros m. split; try done. intros id f Hf. by exists f.
  - intros m1 m2 m3 H12 H23. split; intros.
    + by transitivity (log m2 s); [apply H12|apply H23].
    + transitivity (last_seq m2 s); [apply H12|apply H23].
    + by apply H23, H12.
    + by apply H23, H12.
    + destruct (gw_belief _ _ H12 id f H) as (f2 & H2 & ?).
      destruct (gw_belief _ _ H23 id f2 H2) as (f3 & H3 & ?). exists f3. split; [done|by transitivity f2].
Qed.

Lemma same_grows m m' : same m m' -> grows m m'.
Proof.
  intros []. split; intros; rewrite ?sm_log0, ?sm_last0, ?sm_vector0, ?sm_read0; try done.
  exists f. by rewrite sm_belief0.
Qed.

(** ** Calls and replies *)

Inductive Call : Type :=
  | CAppend (cmd : AppendCommand)
  | CEpisode (scope : ScopeID) (id : EpisodeID)
  | CReplay (scope : ScopeID) (after limit : Z)
  | CPutEncoding (enc : Encoding)
  | CApplyExtraction (cmd : ExtractCommand)
  | CFacts (q : FactQuery)
  | CForget (req : ForgetRequest).

Inductive Reply : Type :=
  | RAppended (episodes : list Episode)
  | REpisode (e : Episode)
  | REpisodes (l : list Episode)
  | RDone
  | RFacts (facts : list Fact)
  | RForgotten (res : ForgetResult)
  | RFailed (e : Error).

Section Machine.
(** The store's resolution of instants, what a fact query asks for and in which
    order, how much by default, and how a belief is shown. *)
Context (ts : Z -> Z) (wanted : FactQuery -> FactRow -> Prop).
Context (precedes : FactQuery -> FactRow -> FactRow -> comparison).
Context (fact_limit : FactQuery -> Z) (shown : FactRow -> Fact).

(** *** Appending *)

Definition answered (ne : NewEpisode) (id : EpisodeID) (seq : Z) : Episode :=
  MkEpisode id (ne_scope ne) seq (ne_content ne) (ne_role ne) (ne_actor ne) (ne_source ne)
    (UTC (ne_occurred ne)) (UTC (ne_ingested ne)) (ne_binding ne).

(** How an episode is read back. *)
Definition kept (e : Episode) : Episode :=
  MkEpisode (ep_id e) (ep_scope e) (ep_seq e) (ep_content e) (ep_role e) (ep_actor e) (ep_source e)
    (utc (ts (t_ns (ep_occurred e)))) (utc (ts (t_ns (ep_ingested e))))
    (if bool_decide (Binding_entries (ep_binding e) = ∅) then None
     else Some (Binding_entries (ep_binding e))).

(** Numbered from the scope's counter on, under ids no log holds. *)
Definition numbers (m : Mem) (scope : ScopeID) (new : list NewEpisode) (eps : list Episode) : Prop :=
  length eps = length new /\
  (forall i ne, new !! i = Some ne -> ne_scope ne = scope /\
     exists id, eps !! i = Some (answered ne id (last_seq m scope + 1 + Z.of_nat i))) /\
  NoDup (map ep_id eps) /\
  forall s e, e ∈ log m s -> ep_id e ∉ map ep_id eps.

Definition append_to (scope : ScopeID) (eps : list Episode) (m : Mem) : Mem :=
  MkMem
    (fun s => if String.eqb s scope then log m s ++ map kept eps else log m s)
    (fun s => if String.eqb s scope then last_seq m s + Z.of_nat (length eps) else last_seq m s)
    (vector m) (has_read m) (belief m).

(** *** Projecting *)

Definition in_memory (m : Mem) (id : EpisodeID) : Prop :=
  exists s e, e ∈ log m s /\ ep_id e = id.

Definition with_vector (enc : Encoding) (m : Mem) : Mem :=
  MkMem (log m) (last_seq m)
    (fun id model => if N.eqb id (enc_episode enc) && String.eqb model (enc_model enc)
                     then Some (enc_vector enc) else vector m id model)
    (has_read m) (belief m).

(** *** Believing *)

(** What one extraction may do to the beliefs: amend those of its scope, and add some
    of its own, resting on what it read. *)
Record revises (scope : ScopeID) (x : ExtractorID) (ids : list EpisodeID) (m m' : Mem) : Prop := {
  rv_old : forall id f, belief m id = Some f ->
    exists f', belief m' id = Some f' /\ amended f f' /\ (gr_scope f <> scope -> f' = f);
  rv_new : forall id f', belief m' id = Some f' -> belief m id = None ->
    gr_scope f' = scope /\ gr_extractor f' = x /\ gr_episodes f' = ids;
}.

Definition with_read (x : ExtractorID) (ids : list EpisodeID) (m : Mem) (id : EpisodeID) (y : ExtractorID) : bool :=
  has_read m id y || (String.eqb y x && bool_decide (id ∈ ids)).

(** *** Forgetting *)

Definition names (req : ForgetRequest) (ids : list EpisodeID) : bool :=
  match fr_episodes req with
  | [] => true
  | eps => existsb (fun id => bool_decide (id ∈ eps)) ids
  end.

(** The episodes an erasure removes. *)
Definition erases (m : Mem) (req : ForgetRequest) (id : EpisodeID) : bool :=
  names req [id] && existsb (fun e => N.eqb (ep_id e) id) (log m (fr_scope req)).

Definition without (req : ForgetRequest) (m : Mem) : Mem :=
  MkMem
    (fun s => if String.eqb s (fr_scope req)
              then List.filter (fun e => negb (names req [ep_id e])) (log m s) else log m s)
    (fun s => if String.eqb s (fr_scope req) && bool_decide (fr_episodes req = []) then 0 else last_seq m s)
    (fun id model => if erases m req id then None else vector m id model)
    (fun id x => has_read m id x && negb (erases m req id))
    (fun id => match belief m id with
               | Some f => if String.eqb (gr_scope f) (fr_scope req) && names req (gr_episodes f) then None
                           else Some f
               | None => None
               end).

(** *** Steps *)

(** When a call may fail: some never do on valid arguments, and not-found is only
    answered for what is not there. *)
Definition refusable (m : Mem) (c : Call) (e : Error) : Prop :=
  match c with
  | CEpisode scope id => e = EWrap ErrNotFound -> forall x, x ∈ log m scope -> ep_id x <> id
  | CReplay scope after limit => ScopeID_Validate scope <> Ok tt \/ after < 0 \/ limit <= 0
  | CPutEncoding enc => e = EWrap ErrNotFound -> ~ in_memory m (enc_episode enc)
  | CForget req => ForgetRequest_Validate req <> Ok tt
  | _ => True
  end.

Inductive step (m : Mem) : Call -> Reply -> Mem -> Prop :=
  | step_refused c e m' : refusable m c e -> same m m' -> step m c (RFailed e) m'
  | step_append cmd scope eps m' :
      ac_episodes cmd <> [] -> numbers m scope (ac_episodes cmd) eps ->
      same (append_to scope eps m) m' -> step m (CAppend cmd) (RAppended eps) m'
  | step_episode scope id e m' :
      e ∈ log m scope -> ep_id e = id -> same m m' -> step m (CEpisode scope id) (REpisode e) m'
  | step_replay scope after limit m' :
      0 <= after -> 0 < limit -> same m m' ->
      step m (CReplay scope after limit)
        (REpisodes (take (Z.to_nat limit) (List.filter (fun e => after <? ep_seq e) (log m scope)))) m'
  | step_encode enc m' :
      in_memory m (enc_episode enc) -> same (with_vector enc m) m' -> step m (CPutEncoding enc) RDone m'
  | step_extract cmd facts m' :
      (forall id, id ∈ xc_episodes cmd -> exists e, e ∈ log m (xc_scope cmd) /\ ep_id e = id) ->
      revises (xc_scope cmd) (xc_extractor cmd) (xc_episodes cmd) m m' ->
      ((forall id, id ∈ xc_episodes cmd -> has_read m id (xc_extractor cmd) = true) ->
        forall id, belief m' id = belief m id) ->
      same (MkMem (log m) (last_seq m) (vector m)
              (with_read (xc_extractor cmd) (xc_episodes cmd) m) (belief m')) m' ->
      (forall f, f ∈ facts <-> exists id r, belief m' id = Some r /\ f = shown r /\ gr_scope r = xc_scope cmd /\
         gr_extractor r = xc_extractor cmd /\ exists e, e ∈ gr_episodes r /\ e ∈ xc_episodes cmd) ->
      step m (CApplyExtraction cmd) (RFacts facts) m'
  | step_facts q rows m' :
      (forall r, r ∈ rows -> belief m (gr_id r) = Some r /\ wanted q r) ->
      (length rows <= Z.to_nat (fact_limit q))%nat ->
      StronglySorted (fun x y => precedes q x y <> Gt) rows ->
      (forall id r, belief m id = Some r -> wanted q r -> r ∉ rows ->
         length rows = Z.to_nat (fact_limit q) /\ forall x, x ∈ rows -> precedes q x r <> Gt) ->
      same m m' -> step m (CFacts q) (RFacts (map shown rows)) m'
  | step_forget req res m' :
      same (without req m) m' ->
      fg_episodes res = Z.of_nat (length (log m (fr_scope req))) - Z.of_nat (length (log m' (fr_scope req))) ->
      step m (CForget req) (RForgotten res) m'.

(** A run of calls with their replies. *)
Inductive run (m : Mem) : list (Call * Reply) -> Mem -> Prop :=
  | run_nil : run m [] m
  | run_cons c r m1 tr m2 : step m c r m1 -> run m1 tr m2 -> run m ((c, r) :: tr) m2.

(** ** What a client may count on while nothing is forgotten *)

Definition forgets (c : Call) : bool := match c with CForget _ => true | _ => false end.

Lemma step_grows m c r m' : forgets c = false -> step m c r m' -> grows m m'.
Proof.
  intros Hc H. destruct H as [|cmd scope eps m'| | |enc m'|cmd facts m' _ Hrev _ Hsame _| |];
    try by apply same_grows.
  - transitivity (append_to scope eps m); [|by apply same_grows]. split; cbn; intros; try done.
    + destruct (String.eqb_spec s scope); [by apply prefix_app_r|done].
    + destruct (String.eqb_spec s scope); lia.
    + by exists f.
  - transitivity (with_vector enc m); [|by apply same_grows]. split; cbn; intros; try done.
    + by destruct (_ && _).
    + by exists f.
  - transitivity (MkMem (log m) (last_seq m) (vector m)
      (with_read (xc_extractor cmd) (xc_episodes cmd) m) (belief m')); [|by apply same_grows].
    split; cbn; try done.
    + intros id x Hx. unfold with_read. by rewrite Hx.
    + intros id f Hf. destruct (rv_old _ _ _ _ _ Hrev id f Hf) as (f' & ? & ? & _). by exists f'.
Qed.

Lemma run_grows m tr m' : forallb (fun cr => negb (forgets cr.1)) tr = true -> run m tr m' -> grows m m'.
Proof.
  intros Hf H. induction H as [|m c r m1 tr m2 Hs _ IH]; [done|].
  cbn in Hf. apply andb_true_iff in Hf as [Hc Hf]. apply negb_true_iff in Hc.
  transitivity m1; [by eapply step_grows|by apply IH].
Qed.
End Machine.
