(* ===== verification/Refinement.v ===== *)
(** * The adapter implements the memory of [Abstract]

    [abs] reads a memory off the tables; [serve] is one call of [postgres.Store] and
    its reply. Every reply is one the machine gives, and the memory read off
    afterwards is the machine's next state: a forward simulation, over any
    well-formed database, with the queue's own operations as silent steps. *)

From S2P Require Import Types OpsTypes Validate Windows Server Db PgQueue Queueing PgEpisode Appending Replaying PgFact FactWriting FactReading PgForget PgEncoding PgSearch Ports Postgres System Abstract.

#[local] Open Scope Z_scope.

Lemma find_key {A K} (key : A -> K) (p : A -> bool) (l : list A) r :
  NoDup (map key l) -> (forall x, p x = true <-> key x = key r) -> (List.find p l = Some r <-> r ∈ l).
Proof.
  intros Hnd Hp. split; [by intros [? _]%find_elem|]. intros Hr.
  destruct (List.find p l) as [r'|] eqn:Hf.
  - apply find_elem in Hf as [Hr' Hk%Hp]. f_equal. by eapply NoDup_key.
  - eapply find_absent in Hf; [|exact Hr]. by rewrite (proj2 (Hp r) eq_refl) in Hf.
Qed.

Lemma StronglySorted_filter_b {A} (R : A -> A -> Prop) (p : A -> bool) (l : list A) :
  StronglySorted R l -> StronglySorted R (List.filter p l).
Proof.
  induction 1 as [|x l Hl IH Hx]; [constructor|]. cbn. destruct (p x); [|done]. constructor; [done|].
  by apply Forall_filter_keep.
Qed.

Lemma prefix_take_filter {A} n (p : A -> bool) (l k : list A) :
  l `prefix_of` k -> take n (List.filter p l) `prefix_of` take n (List.filter p k).
Proof. intros [m ->]. rewrite List.filter_app, take_app. by apply prefix_app_r. Qed.

Section Refinement.
Context `{Sv : Server} `{!ServerLaws Sv}.

(** ** The memory of a database *)

Definition is_encoding (id : EpisodeID) (model : ModelID) (r : EncodingRow) : bool :=
  N.eqb (nr_episode r) id && String.eqb (nr_model r) model.
Definition is_fact (id : FactID) (r : FactRow) : bool := N.eqb (gr_id r) id.

Definition abs (d : Db) : Mem :=
  MkMem (fun s => map episode_of (history s 0 d)) (fun s => last_seq_of s d)
    (fun id model => option_map nr_vec (List.find (is_encoding id model) (db_encodings d)))
    (has_extraction d) (fun id => List.find (is_fact id) (db_facts d)).

(** ** The adapter's calls *)

Definition reply {A} (f : A -> Reply) (x : Db * res A) : Db * Reply :=
  (x.1, match x.2 with Ok a => f a | Err e => RFailed e end).

Definition serve (dims : Z) (c : Call) (d : Db) : Db * Reply :=
  match c with
  | CAppend cmd => reply (fun r => RAppended (res_episodes r)) (PgEpisode.Append cmd d)
  | CEpisode scope id => reply REpisode (Episode_get scope id d)
  | CReplay scope after limit => reply REpisodes (Replay scope after limit d)
  | CPutEncoding enc => reply (fun _ => RDone) (PutEncoding dims enc d)
  | CApplyExtraction cmd => reply RFacts (ApplyExtraction cmd d)
  | CFacts q => reply RFacts (Facts q d)
  | CForget req => reply RForgotten (PgForget.Forget req d)
  end.

(** A batch is counted in an int32 parameter. *)
Definition call_ok (c : Call) : Prop :=
  match c with
  | CAppend cmd => Z.of_nat (length (ac_episodes cmd)) < 2 ^ 31
  | _ => True
  end.

(** Calls and replies, with the queue at work in between. *)
Inductive served (dims : Z) : Db -> list (Call * Reply) -> Db -> Prop :=
  | served_nil d : served dims d [] d
  | served_call c d tr d' : call_ok c -> served dims (serve dims c d).1 tr d' ->
      served dims d ((c, (serve dims c d).2) :: tr) d'
  | served_work o d tr d' : served dims (run_queue o d) tr d' -> served dims d tr d'.

Definition fact_limit (q : FactQuery) : Z := if fq_limit q =? 0 then DefaultFactsLimit else fq_limit q.

(** The machine with the adapter's resolution, filter and order. *)
Definition pg_step : Mem -> Call -> Reply -> Mem -> Prop :=
  step pg_ts believed facts_order fact_limit scanFact.
Definition pg_run : Mem -> list (Call * Reply) -> Mem -> Prop :=
  run pg_ts believed facts_order fact_limit scanFact.

(** ** Lookups *)

Lemma abs_log d s e :
  e ∈ log (abs d) s <-> exists r, r ∈ db_episodes d /\ er_scope r = s /\ 0 < er_seq r /\ e = episode_of r.
Proof. cbn. rewrite list_elem_of_fmap. setoid_rewrite elem_of_history. naive_solver. Qed.

Lemma abs_belief d id r : db_ok d -> belief (abs d) id = Some r <-> r ∈ db_facts d /\ gr_id r = id.
Proof.
  intros Hok. cbn. assert (forall x, is_fact id x = true <-> gr_id x = id) as Hp by (intros; apply N.eqb_eq).
  split.
  - by intros [? ?%Hp]%find_elem.
  - intros [Hr <-]. by apply (find_key gr_id); [apply (fo_ids d (ok_facts d Hok))| |].
Qed.

Lemma is_encoding_spec id model r : is_encoding id model r = true <-> encoding_key r = (id, model).
Proof.
  unfold is_encoding, encoding_key. rewrite andb_true_iff, N.eqb_eq, String.eqb_eq. naive_solver.
Qed.

Lemma abs_vector d id model v :
  db_ok d -> vector (abs d) id model = Some v <->
  exists r, r ∈ db_encodings d /\ encoding_key r = (id, model) /\ nr_vec r = v.
Proof.
  intros Hok. cbn. split.
  - destruct (List.find _ _) as [r|] eqn:Hf; [|done]. intros [= <-]. exists r.
    by apply find_elem in Hf as [? ?%is_encoding_spec].
  - intros (r & Hr & Hk & <-).
    assert (List.find (is_encoding id model) (db_encodings d) = Some r) as ->; [|done].
    apply (find_key encoding_key); [apply (no_keys d (ok_encodings d Hok))| |done].
    intros x. by rewrite is_encoding_spec, <- Hk.
Qed.

Lemma option_ext {A} (a b : option A) : (forall v, a = Some v <-> b = Some v) -> a = b.
Proof. intros H. destruct a as [x|]; [by symmetry; apply H|]. destruct b as [y|]; [|done]. by apply H. Qed.

(** Two databases with the same rows of the log read the same. *)
Lemma history_ext s after d d' :
  db_ok d -> db_ok d' ->
  (forall r, er_scope r = s -> after < er_seq r -> r ∈ db_episodes d' <-> r ∈ db_episodes d) ->
  history s after d' = history s after d.
Proof.
  intros Hok Hok' Hin. apply sorted_lt_unique; [by apply history_sorted..|].
  intros r. rewrite !elem_of_history. naive_solver.
Qed.

Lemma log_after d s after :
  db_ok d -> 0 <= after ->
  map episode_of (history s after d) = List.filter (fun e => after <? ep_seq e) (log (abs d) s).
Proof.
  intros Hok Ha. cbn. rewrite filter_map. f_equal. apply sorted_lt_unique.
  - by apply history_sorted.
  - by apply StronglySorted_filter_b, history_sorted.
  - intros r. rewrite elem_of_filter_b, !elem_of_history, Z.ltb_lt. cbn. naive_solver lia.
Qed.

(** The queue's operations leave the memory as it is. *)
Lemma queue_silent o d : jobs_ok d -> abs (run_queue o d) = abs d /\ db_ready (run_queue o d) = db_ready d.
Proof.
  intros Hok. destruct (run_queue_follows o d Hok) as [_ [_ _ [Hrest _]]].
  revert Hrest. generalize (run_queue o d). intros d' <-. done.
Qed.

Lemma ScopeID_Validate_Err s e : ScopeID_Validate s = Err e -> e = EWrap ErrInvalidScope.
Proof.
  unfold ScopeID_Validate, reject. repeat destruct (_ : bool); cbn; by intros [= <-] || done.
Qed.

Lemma validateEncoding_Err dims enc e :
  validateEncoding dims enc = Err e -> e <> EWrap ErrNotFound.
Proof.
  unfold validateEncoding. rewrite !rbind_Err, !reject_Err.
  intros [[_ ->]|(_ & _ & H)]; [done|]. rewrite !rbind_Err, !reject_Err in H.
  destruct H as [[_ ->]|(_ & _ & H)]; [done|]. rewrite !rbind_Err, !reject_Err in H.
  destruct H as [[_ ->]|(_ & _ & H)]; [done|]. rewrite !rbind_Err, !reject_Err in H.
  destruct H as [[_ ->]|(_ & _ & H)]; [done|]. rewrite !rbind_Err, !reject_Err in H.
  destruct H as [[_ ->]|(_ & _ & (pre & f & post & _ & [_ ->]%reject_Err & _)%check_all_Err)]; done.
Qed.

Lemma episode_id_nonzero d r : db_ok d -> r ∈ db_episodes d -> er_id r <> 0%N.
Proof.
  intros Hok Hr. destruct (ok_episodes d Hok) as [_ _ Hrows]. rewrite Forall_forall in Hrows.
  destruct (Hrows r Hr) as (_ & (k & _ & ->) & _). apply uuidv7_nonzero.
Qed.

(** ** Call by call *)

Lemma reads_Replay scope after limit : reads (Replay scope after limit).
Proof.
  intros d. unfold Replay. rewrite obind_olift. destruct (ScopeID_Validate scope); [|done].
  rewrite obind_olift. destruct (reject _ _); [|done]. rewrite obind_olift. destruct (reject _ _); [|done].
  unfold on_schema. by destruct (db_ready d).
Qed.

(** When a replay is answered, and with what. *)
Lemma replay_reply dims scope after limit d l :
  db_ok d -> db_ready d = true ->
  (serve dims (CReplay scope after limit) d).2 = REpisodes l <->
  ScopeID_Validate scope = Ok tt /\ 0 <= after /\ 0 < limit /\
  l = take (Z.to_nat limit) (List.filter (fun e => after <? ep_seq e) (log (abs d) scope)).
Proof.
  intros Hok Hready. cbn [serve]. unfold reply. split.
  - intros H. unfold Replay in H. rewrite obind_olift in H. destruct (ScopeID_Validate scope) as [[]|] eqn:Hv; [|done].
    rewrite obind_olift in H. destruct (Z.ltb_spec after 0); [done|]. cbv beta iota delta [reject] in H.
    rewrite obind_olift in H. destruct (Z.leb_spec limit 0); [done|]. split_and!; [done..|].
    assert (on_schema (fun d => (d, map_res scanEpisode (replay_rows scope after limit d))) d = Replay scope after limit d) as E.
    { unfold Replay. rewrite obind_olift, Hv. cbv beta iota. rewrite obind_olift. replace (after <? 0) with false by lia.
      cbv beta iota delta [reject]. rewrite obind_olift. by replace (limit <=? 0) with false by lia. }
    cbv beta iota in H. rewrite E, Replay_history in H by done. injection H as <-. by rewrite <- firstn_map, log_after.
  - intros (Hv & Ha & Hl & ->). rewrite Replay_history by done. cbn [fst snd]. by rewrite <- firstn_map, log_after.
Qed.

Lemma simulates_episode dims scope id d :
  db_ok d -> db_ready d = true ->
  pg_step (abs d) (CEpisode scope id) (serve dims (CEpisode scope id) d).2 (abs (serve dims (CEpisode scope id) d).1).
Proof.
  intros Hok Hready. cbn [serve]. unfold reply.
  destruct (ScopeID_Validate scope) as [[]|e] eqn:Hv.
  2: { unfold Episode_get. rewrite obind_olift, Hv. cbn. apply step_refused; [|done]. cbn. intros ->.
       by apply ScopeID_Validate_Err in Hv. }
  destruct (decide (id = 0%N)) as [->|Hid].
  { unfold Episode_get. rewrite obind_olift, Hv. cbv beta iota. rewrite obind_olift. cbn.
    apply step_refused; [|done]. cbn. intros _ x Hx. apply abs_log in Hx as (r & Hr & _ & _ & ->). cbn.
    by apply (episode_id_nonzero d). }
  destruct (Episode_get_spec scope id d Hok Hready Hv Hid) as [Hfound Hnone].
  destruct (List.find (fun r => String.eqb (er_scope r) scope && N.eqb (er_id r) id) (db_episodes d)) as [r|] eqn:Hf.
  - apply find_elem in Hf as [Hr [Hs%String.eqb_eq Hi%N.eqb_eq]%andb_true_iff].
    rewrite (Hfound r Hr Hs Hi). cbn. apply step_episode; [|done|done].
    apply abs_log. exists r. split; [done|]. split; [done|]. by apply (seq_below d r Hok) in Hr as [? _].
  - rewrite Hnone; [|intros r Hr Hs Hi; eapply find_absent in Hf; [|exact Hr]; by rewrite Hs, Hi, String.eqb_refl, N.eqb_refl in Hf].
    cbn. apply step_refused; [|done]. cbn. intros _ x Hx. apply abs_log in Hx as (r & Hr & Hs & _ & ->). cbn.
    intros Hi. eapply find_absent in Hf; [|exact Hr]. by rewrite Hs, Hi, String.eqb_refl, N.eqb_refl in Hf.
Qed.

Lemma simulates_replay dims scope after limit d :
  db_ok d -> db_ready d = true ->
  pg_step (abs d) (CReplay scope after limit) (serve dims (CReplay scope after limit) d).2
    (abs (serve dims (CReplay scope after limit) d).1).
Proof.
  intros Hok Hready. cbn [serve]. unfold reply.
  destruct (ScopeID_Validate scope) as [[]|e] eqn:Hv.
  2: { unfold Replay. rewrite obind_olift, Hv. cbn. apply step_refused; [|done]. left. congruence. }
  destruct (Z.ltb_spec after 0) as [Ha|Ha].
  { unfold Replay. rewrite obind_olift, Hv. cbv beta iota. rewrite obind_olift.
    replace (after <? 0) with true by lia. cbn. apply step_refused; [|done]. right. by left. }
  destruct (Z.leb_spec limit 0) as [Hl|Hl].
  { unfold Replay. rewrite obind_olift, Hv. cbv beta iota. rewrite obind_olift.
    replace (after <? 0) with false by lia. cbv beta iota delta [reject]. rewrite obind_olift.
    replace (limit <=? 0) with true by lia. cbn. apply step_refused; [|done]. right. by right. }
  rewrite Replay_history by done. cbn [fst snd]. rewrite <- firstn_map, log_after by done.
  by apply step_replay.
Qed.
Lemma simulates_encode dims enc d :
  db_ok d ->
  pg_step (abs d) (CPutEncoding enc) (serve dims (CPutEncoding enc) d).2 (abs (serve dims (CPutEncoding enc) d).1).
Proof.
  intros Hok. cbn [serve]. unfold reply, PutEncoding. rewrite obind_olift.
  destruct (validateEncoding dims enc) as [[]|e] eqn:Hv.
  2: { cbn. apply step_refused; [|done]. cbn. intros ->. by apply validateEncoding_Err in Hv. }
  unfold obind, omap_err, with_text. destruct (forallb pg_text _).
  2: { cbn. apply step_refused; [|done]. by intros [=]. }
  unfold put_stmt, on_schema. destruct (db_ready d); [|apply step_refused; [by intros [=]|done]].
  destruct (List.find _ (db_episodes d)) as [r|] eqn:Hf; cbn zeta.
  2: { cbn. apply step_refused; [|done]. cbn. intros _ (s & x & Hx & Hid).
       apply abs_log in Hx as (r & Hr & _ & _ & ->). eapply find_absent in Hf; [|exact Hr].
       cbn in Hid. by rewrite Hid, N.eqb_refl in Hf. }
  apply find_elem in Hf as [Hr Hid%N.eqb_eq].
  destruct (encoding_checks (db_dims d) (encoding_of enc r)) eqn:Hc; cbn [negb fst snd].
  2: { apply step_refused; [|done]. by intros [=]. }
  apply step_encode.
  - exists (er_scope r), (episode_of r). split; [|done]. apply abs_log. exists r.
    pose proof (seq_below d r Hok Hr). split_and!; [done..|lia|done].
  - pose proof (put_ok d enc r Hok Hr Hc) as Hok'. split; intros; try done.
    apply option_ext. intros v. rewrite (abs_vector _ id model v Hok'). cbn [db_encodings set_encodings vector with_vector].
    assert (forall x, x ∈ upsert_encoding (encoding_of enc r) (db_encodings d) <->
      x = encoding_of enc r \/ x ∈ db_encodings d /\ encoding_key x <> encoding_key (encoding_of enc r)) as Hel
      by (intros x; apply elem_of_upsert; intros; by apply (encodings_agree d)).
    setoid_rewrite Hel.
    unfold vector, with_vector. fold (vector (abs d) id model). unfold encoding_key, encoding_of. cbn [nr_episode nr_model].
    rewrite Hid. destruct (N.eqb id (enc_episode enc) && String.eqb model (enc_model enc)) eqn:E.
    + apply andb_true_iff in E as [->%N.eqb_eq ->%String.eqb_eq]. split.
      * intros (x & [->|[_ Hn]] & Hk & <-); [done|by destruct Hn].
      * intros [= <-]. eexists. by split; [left|].
    + rewrite (abs_vector d) by done. unfold encoding_key.
      apply andb_false_iff in E. rewrite N.eqb_neq, String.eqb_neq in E. split.
      * intros (x & [->|[Hx _]] & Hk & <-); [cbn in Hk; destruct E; congruence|by exists x].
      * intros (x & Hx & Hk & <-). exists x. split; [|done]. right. split; [done|]. destruct E; congruence.
Qed.

(** When an episode is answered, and with what. *)
Lemma episode_reply dims scope id d e :
  db_ok d -> db_ready d = true ->
  (serve dims (CEpisode scope id) d).2 = REpisode e <->
  ScopeID_Validate scope = Ok tt /\ id <> 0%N /\ e ∈ log (abs d) scope /\ ep_id e = id.
Proof.
  intros Hok Hready. split.
  - intros H. pose proof (simulates_episode dims scope id d Hok Hready) as Hs. rewrite H in Hs.
    assert (e ∈ log (abs d) scope /\ ep_id e = id) as [Hin Hid] by (by inversion Hs).
    cbn [serve] in H. unfold reply, Episode_get in H. rewrite obind_olift in H.
    destruct (ScopeID_Validate scope) as [[]|]; [|done]. split; [done|]. split; [|done]. intros ->.
    rewrite obind_olift in H. done.
  - intros (Hv & Hid & Hin & He). apply abs_log in Hin as (r & Hr & Hs & _ & ->). cbn [serve]. unfold reply.
    destruct (Episode_get_spec scope id d Hok Hready Hv Hid) as [Hget _]. by rewrite (Hget r Hr Hs He).
Qed.

Lemma Facts_page q d d' facts :
  Facts q d = (d', Ok facts) ->
  exists rows, facts = map scanFact rows /\
    is_page (facts_order q) (believed q) (Z.to_nat (fact_limit q)) (db_facts d) rows.
Proof.
  intros H. unfold Facts in H. rewrite obind_olift in H. destruct (FactQuery_Validate q); [|done].
  rewrite obind_olift in H. destruct (reject _ _); [|done]. rewrite obind_olift in H. destruct (reject _ _); [|done].
  unfold omap_err, with_text, on_schema in H. destruct (forallb _ _); [|done]. destruct (db_ready d); [|done].
  injection H as _ <-. exists (page (facts_order q) (facts_filter q) (Z.to_nat (fact_limit q)) (db_facts d)).
  split; [done|]. apply page_spec; [apply _|apply facts_filter_spec].
Qed.

Lemma simulates_facts dims q d :
  db_ok d ->
  pg_step (abs d) (CFacts q) (serve dims (CFacts q) d).2 (abs (serve dims (CFacts q) d).1).
Proof.
  intros Hok. cbn [serve]. unfold reply. pose proof (reads_Facts q d) as Hread.
  destruct (Facts q d) as [d' [facts|e]] eqn:H; cbn in Hread |- *; subst d'.
  2: { by apply step_refused. }
  apply Facts_page in H as (rows & -> & Hin & Hlen & Hsort & Hall).
  apply step_facts; [|done|done| |done].
  - intros r Hr. destruct (Hin r Hr) as [Hd Hb]. split; [|done]. by apply abs_belief.
  - intros id r Hr Hb Hn. apply abs_belief in Hr as [Hr _]; [|done]. by apply Hall.
Qed.
(** *** Appending *)

Lemma history_appended s scope d d' base mint eps :
  db_ok d -> db_ok d' -> base = last_seq_of scope d ->
  db_episodes d' = db_episodes d ++ episode_rows scope base mint eps ->
  history s 0 d' = history s 0 d ++ (if String.eqb s scope then episode_rows scope base mint eps else []).
Proof.
  intros Hok Hok' Hb He. destruct (String.eqb_spec s scope) as [->|Hne].
  - apply sorted_lt_unique; [by apply history_sorted| |].
    + apply StronglySorted_app_2; [|by apply history_sorted|apply episode_rows_sorted].
      intros x y (Hx & Hs & _)%elem_of_history (_ & Hy & _)%elem_of_episode_rows.
      pose proof (seq_below d x Hok Hx). subst. lia.
    + intros r. rewrite elem_of_app, !elem_of_history, He, elem_of_app. split; [naive_solver|].
      intros [?|Hr]; [naive_solver|]. pose proof (last_seq_nonneg scope d Hok).
      apply elem_of_episode_rows in Hr as Hr'. destruct Hr' as (? & ? & _). split; [by right|]. subst. split; [done|lia].
  - rewrite app_nil_r. apply history_ext; [done|done|]. intros r Hs _. rewrite He, elem_of_app.
    split; [|by left]. intros [?|Hr]; [done|]. apply elem_of_episode_rows in Hr as (? & _). congruence.
Qed.

Lemma Append_cases_Err cmd d d' e :
  db_ok d -> Z.of_nat (length (ac_episodes cmd)) < 2 ^ 31 -> PgEpisode.Append cmd d = (d', Err e) -> d' = d.
Proof.
  intros Hok Hlen H. destruct (validateAppend cmd) as [[]|e'] eqn:Hv.
  - pose proof (Append_run cmd d Hok Hv Hlen) as Hrun. by rewrite H in Hrun.
  - unfold PgEpisode.Append in H. rewrite obind_olift, Hv in H. by injection H.
Qed.

Lemma appended_answered ne row : appended ne row = answered ne row.1 row.2.
Proof. unfold appended, answered. by rewrite Binding_Clone_id. Qed.

Lemma simulates_append dims cmd d :
  db_ok d -> Z.of_nat (length (ac_episodes cmd)) < 2 ^ 31 ->
  pg_step (abs d) (CAppend cmd) (serve dims (CAppend cmd) d).2 (abs (serve dims (CAppend cmd) d).1).
Proof.
  intros Hok Hlen. cbn [serve]. unfold reply.
  destruct (PgEpisode.Append cmd d) as [d' [r|e]] eqn:Happ; cbn [fst snd].
  2: { pose proof (Append_cases_Err cmd d d' e Hok Hlen Happ) as ->. by apply step_refused. }
  destruct (Append_written cmd d d' r Hok Hlen Happ)
    as (scope & rows & jobs & Hcmd & -> & [Hok' (mint & Hmint & Hrows) Heps Hseq Hothers _ _ _ (Hn & Hf & Hx & _) _] & Hres & Hids & Hst).
  set (scope := cmd_scope cmd) in *.
  assert (length (res_episodes r) = length (ac_episodes cmd)) as Hl.
  { rewrite Hres, length_zip_appended; [done|]. by rewrite Hrows, length_episode_rows. }
  apply (step_append _ _ _ _ _ _ cmd scope).
  - by destruct (co_some _ _ Hcmd) as (? & ? & -> & _).
  - split; [done|]. split; [|split].
    + intros i ne Hi. pose proof (co_episodes _ _ Hcmd) as Hall. rewrite Forall_forall in Hall.
      destruct (Hall ne) as (_ & Hs & _); [by eapply list_elem_of_lookup_2|]. split; [done|].
      exists (uuidv7 (mint + i)). rewrite Hres, lookup_zip_with, Hi. cbn.
      rewrite list_lookup_fmap, Hrows, (episode_rows_lookup _ _ _ _ _ _ Hi). cbn. by rewrite appended_answered.
    + rewrite Hids, Hrows. apply episode_rows_ids.
    + intros s x (row & Hrow & _ & _ & ->)%abs_log. cbn. rewrite Hids. intros (row' & Heq & Hrow')%list_elem_of_fmap.
      destruct (ok_episodes d' Hok') as [Hnd _ _]. rewrite Heps, map_app in Hnd. apply NoDup_app in Hnd as (_ & Hnd & _).
      apply (Hnd (er_id row)); [by apply list_elem_of_fmap_2|]. rewrite Heq. by apply list_elem_of_fmap_2.
  - split; intros; cbn.
    + rewrite Hrows in Heps. rewrite (history_appended s scope d d' _ mint _ Hok Hok' eq_refl Heps), map_app.
      destruct (String.eqb_spec s scope) as [->|]; [|cbn; by rewrite app_nil_r]. f_equal. rewrite <- Hrows.
      clear -Hst. induction Hst as [|e row es rows He _ IH]; [done|]. cbn. rewrite IH. f_equal. by rewrite <- He.
    + destruct (String.eqb_spec s scope) as [->|Hne]; [by rewrite Hseq, Hl|by apply Hothers].
    + by rewrite Hn.
    + unfold has_extraction. by rewrite Hx.
    + by rewrite Hf.
Qed.
(** *** Believing *)

Definition touched (scope : string) (f f' : FactRow) : Prop :=
  amended f f' /\ (gr_scope f <> scope -> f' = f).

#[local] Instance touched_refl scope : Reflexive (touched scope).
Proof. intros f. by split. Qed.

#[local] Instance touched_trans scope : Transitive (touched scope).
Proof.
  intros f1 f2 f3 [H1 H1'] [H2 H2']. split; [by transitivity f2|]. intros Hne.
  rewrite H2'; [by apply H1'|]. by rewrite (am_scope _ _ H1).
Qed.

Lemma touched_map scope (g : FactRow -> FactRow) l :
  (forall f, touched scope f (g f)) -> Forall2 (touched scope) l (map g l).
Proof. intros Hg. induction l; cbn; constructor; auto. Qed.

Lemma close_touched id scope at_ now f :
  touched scope f (if retractable id scope at_ f then close_row at_ now f else f).
Proof.
  destruct (retractable id scope at_ f) eqn:Hp; [|done]. unfold retractable in Hp.
  rewrite !andb_true_iff, String.eqb_eq, Z.ltb_lt in Hp. destruct Hp as [[[_ Hs] Hlt] Hto].
  split; [|done]. split; try done. right. exists at_. split; [done|]. split; [done|].
  destruct (gr_to f); [by apply Z.ltb_lt|done].
Qed.

Lemma refresh_touched scope x input eps at_ f :
  touched scope f (default f (refreshed scope x input eps at_ f)).
Proof.
  unfold refreshed. destruct (List.find (matches scope x f) input) as [a|] eqn:Hf; [|done].
  apply find_elem in Hf as [_ Hm]. unfold matches in Hm. rewrite !andb_true_iff, String.eqb_eq in Hm.
  split; [|tauto]. split; try done; [by left|]. cbn. unfold merge_episodes, sort_func.
  intros id Hid. rewrite elem_of_sort_by. apply elem_of_remove_dups, elem_of_app. by left.
Qed.

Lemma write_facts_Ok touched_ facts' mint d d' u :
  write_facts touched_ facts' mint d = (d', Ok u) -> d' = set_minted mint (set_facts facts' d).
Proof. unfold write_facts. destruct (negb _); [by intros|]. destruct (negb _); [by intros|]. by intros [= <-]. Qed.

Lemma retractions_touched scope at_ l d d' u :
  applyRetractions scope at_ l d = (d', Ok u) -> Forall2 (touched scope) (db_facts d) (db_facts d').
Proof.
  revert d. induction l as [|r l IH]; intros d; cbn [applyRetractions]; [intros [= <- _]; done|].
  rewrite obind_Ok. intros (d1 & n & Hret & H). rewrite obind_Ok in H. destruct H as (d2 & [] & He & H).
  assert (d2 = d1) as ->.
  { destruct (0 <? n); [by injection He as <-|].
    pose proof (reads_explainRetraction scope r d1) as Hread. by rewrite He in Hread. }
  apply IH in H. unfold retract_stmt, on_schema in Hret. destruct (db_ready d); [|done]. cbv zeta in Hret.
  apply obind_Ok in Hret as (d3 & [] & ->%write_facts_Ok & [= <- _]). cbn [db_facts set_minted set_facts] in H.
  etransitivity; [|exact H]. apply touched_map. intros f. apply close_touched.
Qed.
(** The facts a transaction leaves: those there were, and new ones after them. *)
Definition extended (cmd : ExtractCommand) (l l' : list FactRow) : Prop :=
  exists old new, l' = old ++ new /\ Forall2 (touched (xc_scope cmd)) l old /\
    Forall (fun r => gr_scope r = xc_scope cmd /\ gr_extractor r = xc_extractor cmd /\
                     gr_episodes r = xc_episodes cmd) new.

Lemma write_part_extended cmd l marked d d' :
  write_part cmd l marked d = (d', Ok tt) -> extended cmd (db_facts d) (db_facts d').
Proof.
  unfold write_part. destruct (0 <? marked); [|intros [= <-]; exists (db_facts d), []; by rewrite app_nil_r].
  rewrite obind_Ok. intros (d1 & [] & Hr%retractions_touched & Ha). unfold applyAssertions in Ha.
  destruct l as [|a l]; [injection Ha as <-; exists (db_facts d1), []; by rewrite app_nil_r|].
  unfold omap_err, with_text in Ha. destruct (forallb pg_text _); [|done].
  destruct (assert_stmt _ _ _ _ _ d1) as [d2 [[]|]] eqn:Hs; [|done]. injection Ha as <-.
  unfold assert_stmt, on_schema in Hs. destruct (db_ready d1); [|done]. apply write_facts_Ok in Hs as ->.
  cbn [db_facts set_minted set_facts]. eexists _, _. split; [done|]. split.
  - etransitivity; [exact Hr|]. apply touched_map. intros f. apply refresh_touched.
  - apply Forall_forall. intros r (i & b & _ & ->)%elem_of_new_facts. done.
Qed.

Lemma extended_revises cmd d d' :
  db_ok d -> db_ok d' -> extended cmd (db_facts d) (db_facts d') ->
  revises (xc_scope cmd) (xc_extractor cmd) (xc_episodes cmd) (abs d) (abs d').
Proof.
  intros Hok Hok' (old & new & Hl & Hold & Hnew). split.
  - intros id f [Hf Hid]%abs_belief; [|done]. apply list_elem_of_lookup in Hf as [i Hi].
    destruct (Forall2_lookup_l _ _ _ _ _ Hold Hi) as (f' & Hf' & Ha & Hs). exists f'. split; [|done].
    apply abs_belief; [done|]. rewrite Hl, elem_of_app. split; [left; by eapply list_elem_of_lookup_2|].
    by rewrite (am_id _ _ Ha).
  - intros id f' [Hf' Hid]%abs_belief Hnone; [|done]. rewrite Hl in Hf'. apply elem_of_app in Hf' as [Hf'|Hf'].
    + apply list_elem_of_lookup in Hf' as [i Hi]. destruct (Forall2_lookup_r _ _ _ _ _ Hold Hi) as (f & Hf & Ha & _).
      assert (belief (abs d) id = Some f) as Hb; [|congruence].
      apply abs_belief; [done|]. rewrite <- (am_id _ _ Ha). split; [by eapply list_elem_of_lookup_2|done].
    + rewrite Forall_forall in Hnew. by apply Hnew.
Qed.

(** The markers an extraction leaves. *)
Lemma mark_reads eps scope x count at_ d d' found marked id y :
  mark_stmt eps scope x count at_ d = (d', Ok (found, marked)) -> in_log eps scope d ->
  has_extraction d' id y = has_extraction d id y || (String.eqb y x && bool_decide (id ∈ eps)).
Proof.
  unfold mark_stmt, on_schema. destruct (db_ready d); [|done]. destruct (negb _); [done|].
  intros [= <- _ _] Hlog. apply eq_true_iff_eq. unfold has_extraction at 1.
  cbn [db_extractions set_extractions]. rewrite orb_true_iff, andb_true_iff, String.eqb_eq, !bool_decide_eq_true.
  rewrite map_app, elem_of_app. split.
  - intros [Hin|Hin]; [left; by apply bool_decide_eq_true|].
    apply list_elem_of_fmap in Hin as (m & Hk & [Hm _]%elem_of_filter_b).
    apply list_elem_of_fmap in Hm as (r & -> & (_ & Hr & _)%elem_of_found). injection Hk as -> ->. by right.
  - intros [Hold|[-> Hid]]; [left; by apply bool_decide_eq_true in Hold|].
    destruct (has_extraction d id x) eqn:Hx; [left; by apply bool_decide_eq_true in Hx|right].
    unfold in_log in Hlog. rewrite Forall_forall in Hlog. destruct (Hlog id Hid) as (e & He & <- & Hs).
    apply list_elem_of_fmap. exists (marker x count at_ e). split; [done|]. apply elem_of_filter_b.
    split; [|cbn; by rewrite Hx]. apply list_elem_of_fmap_2, elem_of_found. done.
Qed.

Lemma mark_none eps scope x count at_ d d' found marked :
  mark_stmt eps scope x count at_ d = (d', Ok (found, marked)) ->
  (forall id, id ∈ eps -> has_extraction d id x = true) -> marked = 0.
Proof.
  unfold mark_stmt, on_schema. destruct (db_ready d); [|done]. destruct (negb _); [done|].
  intros [= _ _ <-] Hall. rewrite (proj2 (filter_none _ _)); [done|].
  intros m (r & -> & (_ & Hr & _)%elem_of_found)%list_elem_of_fmap. cbn. by rewrite Hall.
Qed.
Lemma facts_returned cmd d f :
  db_ok d ->
  f ∈ facts_of_extraction (xc_scope cmd) (xc_extractor cmd) (xc_episodes cmd) d <->
  exists id r, belief (abs d) id = Some r /\ f = scanFact r /\ gr_scope r = xc_scope cmd /\
    gr_extractor r = xc_extractor cmd /\ exists e, e ∈ gr_episodes r /\ e ∈ xc_episodes cmd.
Proof.
  intros Hok. unfold facts_of_extraction, sort_func. rewrite list_elem_of_fmap.
  setoid_rewrite elem_of_sort_by. setoid_rewrite elem_of_filter_b.
  setoid_rewrite andb_true_iff. setoid_rewrite andb_true_iff. setoid_rewrite String.eqb_eq.
  unfold supports. setoid_rewrite existsb_spec. setoid_rewrite bool_decide_eq_true. split.
  - intros (r & -> & Hr & (Hs & Hx) & e & He & He'). exists (gr_id r), r.
    split; [by apply abs_belief|]. split_and!; [done..|by exists e].
  - intros (id & r & [Hr _]%abs_belief & -> & Hs & Hx & e & He & He'); [|done]. exists r.
    split; [done|]. split; [done|]. split; [done|by exists e].
Qed.

Lemma simulates_extract dims cmd d :
  db_ok d ->
  pg_step (abs d) (CApplyExtraction cmd) (serve dims (CApplyExtraction cmd) d).2
    (abs (serve dims (CApplyExtraction cmd) d).1).
Proof.
  intros Hok. cbn [serve]. unfold reply. pose proof (ApplyExtraction_outcome cmd d Hok) as Hout.
  pose proof (ApplyExtraction_base cmd d) as Hbase. pose proof (ApplyExtraction_grows cmd d) as [Hn _].
  destruct (ApplyExtraction cmd d) as [d' [facts|e]] eqn:H; cbn [fst snd] in *.
  2: { subst d'. by apply step_refused. }
  destruct Hbase as (He & Hs & _). unfold ApplyExtraction in H. rewrite obind_olift in H.
  destruct (ExtractCommand_Validate cmd) as [[]|]; [|done]. rewrite obind_olift in H.
  destruct (dedupeAssertions (xc_assert cmd)) as [l|]; [|done]. rewrite atomically_Ok in H.
  destruct (apply_tx_run cmd l d d' facts Hok H) as (d0 & marked & Hm & _ & Hlog & _ & Hw & Hok' & ->).
  pose proof (mark_episodes _ _ _ _ _ _ _ _ Hm) as (_ & He0 & Hf0).
  assert (in_log (xc_episodes cmd) (xc_scope cmd) d) as Hlog' by (by unfold in_log in *; rewrite <- He0).
  pose proof (write_part_log cmd l marked d0) as (_ & Hx & _). rewrite Hw in Hx. cbn in Hx.
  apply step_extract.
  - intros id Hid. unfold in_log in Hlog'. rewrite Forall_forall in Hlog'.
    destruct (Hlog' id Hid) as (r & Hr & <- & Hrs). exists (episode_of r). split; [|done]. apply abs_log.
    exists r. pose proof (seq_below d r Hok Hr). split_and!; [done..|lia|done].
  - apply extended_revises; [done|done|]. rewrite <- Hf0. by apply (write_part_extended cmd l marked).
  - intros Hall id. pose proof (mark_none _ _ _ _ _ _ _ _ _ Hm Hall) as ->. injection Hw as <-. cbn. by rewrite Hf0.
  - split; intros; cbn; [by unfold history; rewrite He|by unfold last_seq_of; rewrite Hs|by rewrite Hn| |done].
    transitivity (has_extraction d0 id x); [unfold has_extraction; by rewrite Hx|].
    exact (mark_reads _ _ _ _ _ _ _ _ _ id x Hm Hlog').
  - intros f. by apply facts_returned.
Qed.

(** *** Forgetting *)

Lemma names_named req ids : names req ids = named req ids.
Proof. unfold names, named, whole_scope, arrays_meet. by destruct (fr_episodes req). Qed.

Lemma erases_spec d req id :
  erases (abs d) req id = true <->
  named req [id] = true /\ exists r, r ∈ db_episodes d /\ er_scope r = fr_scope req /\ 0 < er_seq r /\ er_id r = id.
Proof.
  unfold erases. rewrite andb_true_iff, names_named, existsb_spec. setoid_rewrite N.eqb_eq.
  setoid_rewrite abs_log. naive_solver.
Qed.

Lemma erases_copied d req id scope ing :
  db_ok d -> copied_from d id scope ing -> erases (abs d) req id = String.eqb scope (fr_scope req) && named req [id].
Proof.
  intros Hok (e & He & Hid & Hs & _). apply eq_true_iff_eq.
  rewrite erases_spec, andb_true_iff, String.eqb_eq. split.
  - intros [Hn (r & Hr & Hrs & _ & Hrid)]. split; [|done]. rewrite <- Hs, <- Hrs. f_equal.
    apply (NoDup_key er_id (db_episodes d)); [apply (eo_ids d (ok_episodes d Hok))|done|done|congruence].
  - intros [-> Hn]. split; [done|]. exists e. pose proof (seq_below d e Hok He). split_and!; [done..|lia|done].
Qed.

Lemma history_erased req d s :
  db_ok d -> history s 0 (erased req d) =
    if String.eqb s (fr_scope req) then keep_unless (fun r => names req [er_id r]) (history s 0 d)
    else history s 0 d.
Proof.
  intros Hok. pose proof (erased_ok req d Hok) as Hok'. destruct (String.eqb_spec s (fr_scope req)) as [->|Hne].
  - apply sorted_lt_unique; [by apply history_sorted|by apply StronglySorted_filter_b, history_sorted|].
    intros r. rewrite elem_of_keep, !elem_of_history, names_named. cbn [db_episodes erased]. rewrite elem_of_keep.
    unfold gone_episode. split; [|intros [(Hr & Hs & Hlt) Hn]; rewrite Hs, Hn, String.eqb_refl; done].
    intros ((Hr & Hg) & Hs & Hlt). by rewrite Hs, String.eqb_refl in Hg.
  - apply history_ext; [done|done|]. intros r Hs _. cbn [db_episodes erased]. rewrite elem_of_keep.
    unfold gone_episode. rewrite Hs. apply String.eqb_neq in Hne. rewrite Hne. cbn. tauto.
Qed.

Lemma history_matching req d :
  db_ok d ->
  matching (fun r => names req [er_id r]) (history (fr_scope req) 0 d) = matching (gone_episode req) (db_episodes d).
Proof.
  intros Hok. unfold matching. f_equal. apply Permutation_length, NoDup_Permutation.
  - apply NoDup_filter_b. unfold history, sort_func. rewrite sort_by_Permutation. apply NoDup_filter_b.
    eapply NoDup_fmap_1, (eo_ids d (ok_episodes d Hok)).
  - apply NoDup_filter_b. eapply NoDup_fmap_1, (eo_ids d (ok_episodes d Hok)).
  - intros r. rewrite !elem_of_filter_b, elem_of_history, names_named. unfold gone_episode.
    rewrite andb_true_iff, String.eqb_eq. split; [tauto|]. intros (Hr & Hs & Hn).
    pose proof (seq_below d r Hok Hr). split; [|done]. split_and!; [done..|lia].
Qed.

Lemma last_seq_whole req d : fr_episodes req = [] -> last_seq_of (fr_scope req) (erased req d) = 0.
Proof.
  intros Hw. unfold last_seq_of. destruct (List.find _ _) as [r|] eqn:Hf; [|done].
  apply find_elem in Hf as [[_ Hg]%elem_of_keep Hs%same_scope_spec]. unfold gone_scope, whole_scope in Hg.
  by rewrite Hw, Hs, String.eqb_refl in Hg.
Qed.

Lemma erased_same req d : db_ok d -> same (without req (abs d)) (abs (erased req d)).
Proof.
  intros Hok. pose proof (erased_ok req d Hok) as Hok'. split; intros.
  - cbn [log abs without]. rewrite history_erased by done. destruct (String.eqb s (fr_scope req)); [|done].
    rewrite filter_map. done.
  - cbn [last_seq abs without]. destruct (String.eqb_spec s (fr_scope req)) as [->|Hne]; cbn [andb].
    + case_bool_decide; [by apply last_seq_whole|by apply last_seq_erased].
    + apply last_seq_erased. congruence.
  - apply option_ext. intros v. rewrite (abs_vector (erased req d)) by done. cbn [db_encodings erased vector without].
    setoid_rewrite elem_of_keep. pose proof (no_rows d (ok_encodings d Hok)) as Hrows. rewrite Forall_forall in Hrows.
    assert (forall r, r ∈ db_encodings d -> nr_episode r = id -> gone_encoding req r = erases (abs d) req id) as Hg.
    { intros r Hr <-. destruct (Hrows r Hr) as [_ Hc]. by rewrite (erases_copied d req _ _ _ Hok Hc). }
    destruct (erases (abs d) req id).
    + split; [|done]. intros (r & [Hr Hkeep] & [= Hid _] & _). by rewrite Hg in Hkeep.
    + fold (vector (abs d) id model). rewrite (abs_vector d) by done. split; [naive_solver|].
      intros (r & Hr & [= Hid Hm] & Hv). exists r. split; [split; [done|by rewrite Hg]|]. unfold encoding_key. by rewrite Hid, Hm.
  - apply eq_true_iff_eq. cbn [has_read abs without]. unfold has_extraction. rewrite andb_true_iff, !bool_decide_eq_true, negb_true_iff.
    rewrite !list_elem_of_fmap. cbn [db_extractions erased]. setoid_rewrite elem_of_keep.
    pose proof (xo_rows d (ok_extractions d Hok)) as Hrows. rewrite Forall_forall in Hrows.
    assert (forall r, r ∈ db_extractions d -> xt_episode r = id -> gone_extraction req r = erases (abs d) req id) as Hg.
    { intros r Hr <-. destruct (Hrows r Hr) as [_ Hc]. by rewrite (erases_copied d req _ _ _ Hok Hc). }
    split.
    + intros (r & Hk & Hr & Hkeep). injection Hk as -> ->. rewrite <- (Hg r Hr eq_refl). split; [by exists r|done].
    + intros [(r & Hk & Hr) He]. injection Hk as Hid Hx. exists r. unfold extraction_key. rewrite <- Hid, <- Hx.
      split; [done|]. split; [done|]. by rewrite Hg.
  - apply option_ext. intros f. rewrite abs_belief by done. cbn [db_facts erased belief without]. rewrite elem_of_keep.
    unfold gone_fact. fold (belief (abs d) id). destruct (belief (abs d) id) as [g|] eqn:Hb.
    + apply abs_belief in Hb as [Hg Hid]; [|done]. rewrite names_named. split.
      * intros [[Hf Hk] Hid']. assert (f = g) as -> by (apply (NoDup_key gr_id (db_facts d)); [apply (fo_ids d (ok_facts d Hok))|done|done|congruence]).
        by rewrite Hk.
      * destruct (_ && _) eqn:Hk; [done|]. by intros [= <-].
    + split; [|done]. intros [[Hf _] Hid]. assert (belief (abs d) id = Some f) as Hb'; [by apply abs_belief|congruence].
Qed.

Lemma simulates_forget dims req d :
  db_ok d -> db_ready d = true ->
  pg_step (abs d) (CForget req) (serve dims (CForget req) d).2 (abs (serve dims (CForget req) d).1).
Proof.
  intros Hok Hready. cbn [serve]. unfold reply. destruct (ForgetRequest_Validate req) as [[]|e] eqn:Hv.
  2: { unfold PgForget.Forget. rewrite obind_olift, Hv. cbn. apply step_refused; [|done]. cbn. congruence. }
  rewrite Forget_run by done. apply step_forget; [by apply erased_same|]. cbn [fst snd tally fg_episodes log abs].
  rewrite !length_map, history_erased, String.eqb_refl, <- history_matching by done.
  pose proof (keep_length (fun r => names req [er_id r]) (history (fr_scope req) 0 d)). lia.
Qed.
(** ** Runs *)

Lemma serve_ok dims c d :
  call_ok c -> db_ok d -> db_ready d = true ->
  db_ok (serve dims c d).1 /\ db_ready (serve dims c d).1 = true.
Proof.
  intros Hc Hok Hready. destruct c; cbn [serve]; unfold reply; cbn [fst].
  - pose proof (run_sys_ok (SAppend cmd) d Hc Hok) as Hok'. cbn in Hok'. split; [done|].
    destruct (Append_cases cmd d Hok Hc) as [->|(rows & jobs & [_ _ _ _ _ _ _ _ (_ & _ & _ & ?) _])]; done.
  - by rewrite (reads_Episode_get scope id d).
  - by rewrite (reads_Replay scope after limit d).
  - destruct (PutEncoding_grows dims enc d) as (? & _ & _ & _ & _ & _ & _ & -> & _). auto.
  - pose proof (run_sys_ok (SApplyExtraction cmd) d I Hok) as Hok'. cbn in Hok'. split; [done|].
    by destruct (ApplyExtraction_base cmd d) as (_ & _ & _ & _ & -> & _).
  - by rewrite (reads_Facts q d).
  - destruct (Forget_db req d Hok) as [->| ->]; [done|]. split; [by apply erased_ok|done].
Qed.

Lemma serve_step dims c d :
  call_ok c -> db_ok d -> db_ready d = true ->
  pg_step (abs d) c (serve dims c d).2 (abs (serve dims c d).1).
Proof.
  intros Hc Hok Hready. destruct c.
  - by apply simulates_append.
  - by apply simulates_episode.
  - by apply simulates_replay.
  - by apply simulates_encode.
  - by apply simulates_extract.
  - by apply simulates_facts.
  - by apply simulates_forget.
Qed.

Lemma work_ok o d : db_ok d -> db_ok (run_queue o d).
Proof. intros Hok. by eapply follows_ok, Hok; apply run_queue_follows. Qed.

(** C4: the adapter refines the abstract memory. Over a migrated, well-formed
    database, every run of calls, with the queue's operations anywhere in between,
    has exactly replies the machine of [Abstract] gives: an append numbers its
    episodes from the scope's counter under fresh ids, a replay is a page of the
    log, not-found is answered only for what is not there, an extraction revises
    the beliefs of its scope and no others, once per episode, an erasure leaves
    nothing that rests on what it names, and a failed call leaves no trace. *)
Theorem adapter_refines dims d0 tr d :
  db_ok d0 -> db_ready d0 = true -> served dims d0 tr d -> pg_run (abs d0) tr (abs d).
Proof.
  intros Hok Hready H. induction H as [d|c d tr d' Hc H IH|o d tr d' H IH].
  - constructor.
  - destruct (serve_ok dims c d Hc Hok Hready) as [Hok' Hready']. econstructor; [by apply serve_step|]. by apply IH.
  - destruct (queue_silent o d (ok_jobs d Hok)) as [<- Hr]. apply IH; [by apply work_ok|congruence].
Qed.

Lemma served_grows dims d0 tr d :
  db_ok d0 -> db_ready d0 = true -> served dims d0 tr d ->
  forallb (fun cr => negb (forgets cr.1)) tr = true -> grows (abs d0) (abs d) /\ db_ok d /\ db_ready d = true.
Proof.
  intros Hok Hready H. induction H as [d|c d tr d' Hc H IH|o d tr d' H IH]; intros Hf; [done| |].
  - cbn in Hf. apply andb_true_iff in Hf as [Hcf%negb_true_iff Hf].
    destruct (serve_ok dims c d Hc Hok Hready) as [Hok' Hready']. destruct (IH Hok' Hready' Hf) as [Hg ?].
    split; [|done]. transitivity (abs (serve dims c d).1); [|done].
    eapply step_grows; [exact Hcf|by apply serve_step].
  - destruct (queue_silent o d (ok_jobs d Hok)) as [<- Hr]. apply IH; [by apply work_ok|congruence|done].
Qed.

(** C5: what a client has seen stays. As long as nothing is forgotten, whatever
    else runs in between: the same replay answered later starts with the same
    episodes in the same order; an episode read once reads the same again; no
    sequence counter falls; an episode with a vector keeps one; what an extractor
    has read stays read; and a belief is never lost, only amended: the same claim
    from the same instant, its end drawn in at most, its evidence only growing. *)
Theorem client_history dims d0 tr d :
  db_ok d0 -> db_ready d0 = true -> served dims d0 tr d ->
  forallb (fun cr => negb (forgets cr.1)) tr = true ->
  grows (abs d0) (abs d) /\
  (forall scope after limit l0, (serve dims (CReplay scope after limit) d0).2 = REpisodes l0 ->
     exists l, (serve dims (CReplay scope after limit) d).2 = REpisodes l /\ l0 `prefix_of` l) /\
  (forall scope id e, (serve dims (CEpisode scope id) d0).2 = REpisode e ->
     (serve dims (CEpisode scope id) d).2 = REpisode e).
Proof.
  intros Hok Hready Hs Hf. destruct (served_grows dims d0 tr d Hok Hready Hs Hf) as (Hg & Hok' & Hready').
  split; [done|]. split.
  - intros scope after limit l0 Hl0. apply replay_reply in Hl0 as (Hv & Ha & Hl & ->); [|done..].
    exists (take (Z.to_nat limit) (List.filter (fun e => after <? ep_seq e) (log (abs d) scope))).
    split; [by apply replay_reply|]. apply prefix_take_filter, Hg.
  - intros scope id e He. apply episode_reply in He as (Hv & Hid & Hin & Hei); [|done..].
    apply episode_reply; [done..|]. split_and!; [done..| |done].
    destruct (gw_log _ _ Hg scope) as [k ->]. apply elem_of_app. by left.
Qed.
End Refinement.

(** ** A concrete run *)

(** The calls of a script, one after another. *)
Fixpoint play `{Sv : Server} (dims : Z) (cs : list Call) (d : Db) : list (Call * Reply) * Db :=
  match cs with
  | [] => ([], d)
  | c :: rest =>
      let (d', r) := serve dims c d in
      let (tr, d2) := play dims rest d' in ((c, r) :: tr, d2)
  end.

Lemma play_served `{Sv : Server} dims cs d :
  Forall call_ok cs -> served dims d (play dims cs d).1 (play dims cs d).2.
Proof.
  intros H. revert d. induction H as [|c cs Hc _ IH]; intros d; cbn; [constructor|].
  pose proof (served_call dims c d) as Hs. destruct (serve dims c d) as [d' r]. specialize (IH d').
  destruct (play dims cs d') as [tr d2]. by apply Hs.
Qed.

Definition demo_calls : list Call :=
  [CAppend demo_command; CEpisode "s" 1%N; CReplay "s" 0 10; CPutEncoding (demo_encoding 1);
   CApplyExtraction (demo_extract [1%N; 2%N] demo_claims); CForget (demo_forget [2%N]); CReplay "s" 0 10; CEpisode "s" 2%N].

(** What they answer: both episodes at first, the one left at last. *)
Example demo_replies :
  map (fun cr => match cr.2 with REpisodes l => map ep_id l | RFailed _ => [0%N] | _ => [] end)
    (play 2 demo_calls (empty_db 2)).1 = [[]; []; [1%N; 2%N]; []; []; []; [1%N]; [0%N]].
Proof. vm_compute. reflexivity. Qed.

Lemma demo_calls_ok : Forall call_ok demo_calls.
Proof. repeat constructor. Qed.

Lemma adapter_refines_witness :
  pg_run (abs (empty_db 2)) (play 2 demo_calls (empty_db 2)).1 (abs (play 2 demo_calls (empty_db 2)).2).
Proof. exact (adapter_refines 2 _ _ _ (empty_db_ok 2) eq_refl (play_served 2 demo_calls _ demo_calls_ok)). Defined.

Definition demo_later : list Call := [CAppend demo_command; CPutEncoding (demo_encoding 1)].

Lemma client_history_witness :
  exists l, (serve 2 (CReplay "s" 0 10) (play 2 demo_later demo_appended).2).2 = REpisodes l /\
    map episode_of (db_episodes demo_appended) `prefix_of` l.
Proof.
  refine (proj1 (proj2 (client_history 2 demo_appended (play 2 demo_later demo_appended).1 _ demo_appended_ok eq_refl
    (play_served 2 demo_later _ _) _)) "s"%string 0 10 _ _).
  - repeat constructor.
  - vm_compute. reflexivity.
  - vm_compute. reflexivity.
Defined.
