(* ===== verification/Deployment.v ===== *)
(** * The library over its adapter

    [Memory] wired to [postgres.Store]: what the two layers promise together.
    The write loop ends in rows that can be read back, the read loop in episodes
    the log holds, and an erasure is final for both. *)

From S2P Require Import Types Validate OpsTypes Fusion Server Db PgQueue Queueing PgEpisode Appending Replaying PgFact FactWriting FactReading PgForget PgEncoding PgSearch Ports Memory Postgres.

#[local] Open Scope Z_scope.

Section Writing.
Context `{Sv : Server} `{!ServerLaws Sv} {E : Type}.
Implicit Types (w : World E) (m : Memory (World E)).

(** The commands [Memory] builds are the commands [validateAppend] accepts. *)
Lemma command_of_batch m now reqs scope :
  reqs <> [] -> t_ns now <> 0 -> Forall (fun r => AppendRequest_Validate r = Ok tt /\ ar_scope r = scope) reqs ->
  let cmd := MkAppendCommand (map (new_episode now) reqs) (jobsFor m scope) in
  validateAppend cmd = Ok tt /\ cmd_scope cmd = scope.
Proof.
  intros Hne Hnow Hall. destruct reqs as [|first rest]; [done|]. cbn zeta. split.
  2: { apply Forall_cons in Hall as [[_ Hs] _]. unfold cmd_scope. cbn. exact Hs. }
  unfold validateAppend. cbn [ac_episodes ac_jobs map]. apply seq_Ok. split.
  - apply check_all_Ok. change (new_episode now first :: map (new_episode now) rest)
      with (map (new_episode now) (first :: rest)). apply Forall_map.
    eapply Forall_impl; [exact Hall|]. intros r [Hv Hs]. unfold validate_episode.
    apply seq_Ok. split; [|apply seq_Ok; split; apply reject_Ok_tt].
    + apply AppendRequest_Validate_spec in Hv. apply AppendRequest_Validate_spec.
      unfold append_ok in *. cbn. by rewrite Binding_Clone_id.
    + apply orb_false_iff. cbn. apply IsZero_neq in Hnow. split; [|done].
      by destruct (IsZero (ar_occurred r)) eqn:Ho.
    + apply negb_false_iff, String.eqb_eq. cbn. rewrite Hs. apply Forall_cons in Hall as [[_ ->] _]. done.
  - apply validate_jobs_spec. unfold jobsFor. destruct (m_facts m).
    + split; [by repeat constructor|]. split; [|by intros ? _ ?%not_elem_of_nil].
      refine (bool_decide_unpack _ _). vm_compute. exact I.
    + split; [by repeat constructor|]. split; [|by intros ? _ ?%not_elem_of_nil].
      refine (bool_decide_unpack _ _). vm_compute. exact I.
Qed.

(** The texts of a batch, as the server will be sent them. *)
Definition batch_texts (now : Time) (reqs : list AppendRequest) : bool :=
  cmd_texts (MkAppendCommand (map (new_episode now) reqs) []).

(** What an answered append means in the database. *)
Record batch_stored (scope : ScopeID) (reqs : list AppendRequest) (now : Time) (d d' : Db)
    (eps : list Episode) : Prop := {
  bs_ok : db_ok d';
  bs_length : length eps = length reqs;
  bs_each : forall i req, reqs !! i = Some req -> exists e, eps !! i = Some e /\
    ep_scope e = scope /\ ep_seq e = last_seq_of scope d + 1 + Z.of_nat i /\
    ep_content e = ar_content req /\ ep_role e = ar_role req /\
    ep_occurred e = UTC (if IsZero (ar_occurred req) then now else ar_occurred req) /\
    ep_ingested e = UTC now /\ Binding_entries (ep_binding e) = Binding_entries (ar_binding req) /\
    Episode_get scope (ep_id e) d' = (d', Ok (stored e));
  bs_encode : covered JobKindEncode scope (map ep_id eps) d';
}.

Lemma batch_written m now reqs scope d :
  db_ok d -> db_ready d = true -> t_ns now <> 0 -> reqs <> [] ->
  Z.of_nat (length reqs) <= MaxAppendBatch ->
  Forall (fun r => AppendRequest_Validate r = Ok tt /\ ar_scope r = scope) reqs ->
  batch_texts now reqs = true ->
  exists d' r, PgEpisode.Append (MkAppendCommand (map (new_episode now) reqs) (jobsFor m scope)) d = (d', Ok r) /\
    batch_stored scope reqs now d d' (res_episodes r) /\
    (m_facts m <> None -> covered JobKindExtract scope (map ep_id (res_episodes r)) d').
Proof.
  intros Hok Hready Hnow Hne Hlen Hall Ht.
  destruct (command_of_batch m now reqs scope Hne Hnow Hall) as [Hv Hscope].
  set (cmd := MkAppendCommand (map (new_episode now) reqs) (jobsFor m scope)) in *.
  assert (Z.of_nat (length (ac_episodes cmd)) < 2 ^ 31) as Hl by (cbn; rewrite length_map; unfold MaxAppendBatch in Hlen; lia).
  destruct (Append_total cmd d Hok Hready Hv Hl) as (d' & r & Happ); [|exact Ht|].
  { unfold cmd, jobsFor. cbn. destruct (m_facts m); repeat constructor. }
  exists d', r. split; [done|].
  destruct (Append_written cmd d d' r Hok Hl Happ) as (? & rows & jobs & Hcmd & -> & Hpost & Hres & Hids & HF).
  rewrite Hscope in *. pose proof Hpost as [Hok' (mint & _ & Hrows) Heps _ _ _ _ Hcov (_ & _ & _ & Hready') _].
  rewrite <- Hids in Hcov. rewrite Forall_forall in Hcov.
  assert (forall k, k ∈ map nj_kind (jobsFor m scope) -> covered k scope (map ep_id (res_episodes r)) d') as Hjobs.
  { intros k (j & -> & Hj)%list_elem_of_fmap. apply (Hcov (job_spec (cmd_at cmd) j)).
    unfold cmd_specs. by apply list_elem_of_fmap_2. }
  split; [|intros Hf; apply Hjobs; unfold jobsFor; destruct (m_facts m); [|done]; cbn; right; by left].
  assert (length rows = length reqs) as Hlr by (rewrite Hrows, length_episode_rows; cbn; by rewrite length_map).
  split; [done| | |apply Hjobs; by left].
  { pose proof (Forall2_length _ _ _ HF). congruence. }
  intros i req Hi. destruct (lookup_lt_is_Some_2 rows i) as [row Hrow].
  { rewrite Hlr. by eapply lookup_lt_Some. }
  exists (appended (new_episode now req) (er_id row, er_seq row)). split.
  { rewrite Hres, lookup_zip_with. unfold cmd. cbn [ac_episodes]. by rewrite !list_lookup_fmap, Hi, Hrow. }
  rewrite Forall_forall in Hall. destruct (Hall req) as [Hrv Hrs]; [by eapply list_elem_of_lookup_2|].
  destruct (Forall2_lookup_r _ _ _ _ _ HF Hrow) as (e & He & Hst).
  assert (e = appended (new_episode now req) (er_id row, er_seq row)) as ->.
  { rewrite Hres, lookup_zip_with in He. unfold cmd in He. cbn [ac_episodes] in He.
    rewrite !list_lookup_fmap, Hi, Hrow in He. by injection He. }
  cbn [appended ep_scope ep_seq ep_content ep_role ep_occurred ep_ingested ep_id ne_scope ne_content ne_role
    ne_occurred ne_ingested new_episode fst snd].
  split; [done|]. split.
  { rewrite Hrows in Hrow. rewrite (episode_rows_lookup _ _ _ _ _ (new_episode now req)) in Hrow.
    - by injection Hrow as <-.
    - cbn. by rewrite list_lookup_fmap, Hi. }
  do 4 (split; [done|]). split; [cbn [appended ep_binding ne_binding new_episode]; by rewrite !Binding_Clone_id|]. apply list_elem_of_lookup_2 in Hrow.
  rewrite Hst. destruct (Episode_get_spec scope (er_id row) d') as [Hget _]; [done|done| | |apply Hget; [| |done]].
  - apply AppendRequest_Validate_spec in Hrv as (Hrv & _). apply ScopeID_Validate_spec. by rewrite <- Hrs.
  - rewrite Hrows in Hrow. apply elem_of_episode_rows in Hrow as (_ & _ & k & _ & _ & -> & _). apply uuidv7_nonzero.
  - rewrite Heps. apply elem_of_app. by right.
  - rewrite Hrows in Hrow. by apply elem_of_episode_rows in Hrow as (? & _).
Qed.

(** A valid batch, run: the adapter's append of the command [Memory] makes of it. *)
Lemma AppendBatch_run (locked : E -> list JobID) dims m reqs w w1 now scope :
  m_store m = pg_store locked dims -> sound w -> db_ready (w_db w) = true ->
  Now (m_clock m) w = (w1, now) -> w_db w1 = w_db w -> t_ns now <> 0 ->
  reqs <> [] -> Z.of_nat (length reqs) <= MaxAppendBatch ->
  Forall (fun r => AppendRequest_Validate r = Ok tt /\ ar_scope r = scope) reqs -> batch_texts now reqs = true ->
  exists d' r, AppendBatch m reqs w = (MkWorld d' (w_env w1), Ok (res_episodes r)) /\
    PgEpisode.Append (MkAppendCommand (map (new_episode now) reqs) (jobsFor m scope)) (w_db w) = (d', Ok r) /\
    batch_stored scope reqs now (w_db w) d' (res_episodes r) /\
    (m_facts m <> None -> covered JobKindExtract scope (map ep_id (res_episodes r)) d').
Proof.
  intros Hm Hok Hready Hnow Hdb Hnz Hne Hlen Hall Ht.
  destruct (batch_written m now reqs scope (w_db w) Hok Hready Hnz Hne Hlen Hall Ht) as (d' & r & Happ & Hst & Hx).
  exists d', r. split; [|done].
  assert (check_all (batch_check scope) reqs = Ok tt) as Hc.
  { apply check_all_Ok. eapply Forall_impl; [exact Hall|]. intros q [Hv Hs]. unfold batch_check.
    rewrite seq_Ok, reject_Ok_tt, negb_false_iff, String.eqb_eq. done. }
  unfold AppendBatch. destruct reqs as [|first rest]; [done|].
  apply Forall_cons in Hall as [[_ Hfirst] _]. rewrite Hfirst.
  rewrite (proj2 (Z.ltb_ge _ _)) by done. unfold obind at 1, Ports.now. rewrite Hnow. cbn iota.
  rewrite obind_olift, Hc. rewrite Hm. unfold obind. cbn [s_Append pg_store]. unfold on_db.
  rewrite Hdb, Happ. done.
Qed.

(** C7: the write loop ends in the log. Over the adapter, a batch of valid requests
    of one scope, within the limit, of storable text, is never refused: it is
    answered with one episode a request, in order, with consecutive sequence
    numbers after the scope's last, the request's content, role and event time
    (the clock's when it names none) and one shared ingestion time; each can be
    read back under its scope and id; and work to encode the whole batch, and to
    extract from it when there is an extractor, is outstanding. *)
Theorem AppendBatch_stores (locked : E -> list JobID) dims m reqs w w1 now :
  m_store m = pg_store locked dims -> sound w -> db_ready (w_db w) = true ->
  Now (m_clock m) w = (w1, now) -> w_db w1 = w_db w -> t_ns now <> 0 ->
  reqs <> [] -> Z.of_nat (length reqs) <= MaxAppendBatch ->
  let scope := match reqs with first :: _ => ar_scope first | [] => EmptyString end in
  Forall (fun r => AppendRequest_Validate r = Ok tt /\ ar_scope r = scope) reqs ->
  batch_texts now reqs = true ->
  exists w' eps, AppendBatch m reqs w = (w', Ok eps) /\ w_env w' = w_env w1 /\
    batch_stored scope reqs now (w_db w) (w_db w') eps /\
    (m_facts m <> None -> covered JobKindExtract scope (map ep_id eps) (w_db w')).
Proof.
  intros Hm Hok Hready Hnow Hdb Hnz Hne Hlen scope Hall Ht.
  destruct (AppendBatch_run locked dims m reqs w w1 now scope) as (d' & r & Hrun & _ & Hst & Hx); [done..|].
  by exists (MkWorld d' (w_env w1)), (res_episodes r).
Qed.

(** *** Erasing *)

(** Nothing of what a request names is left. *)
Lemma erased_log req d e :
  e ∈ map episode_of (db_episodes (erased req d)) -> ep_scope e = fr_scope req ->
  fr_episodes req <> [] /\ ep_id e ∉ fr_episodes req.
Proof.
  intros (r & -> & Hr)%list_elem_of_fmap Hs. cbn [erased db_episodes] in Hr.
  apply elem_of_keep in Hr as [_ Hg]. unfold gone_episode in Hg. cbn in Hs.
  rewrite Hs, String.eqb_refl in Hg. cbn [andb] in Hg. apply not_true_iff_false in Hg.
  rewrite named_spec in Hg. cbn [episode_of ep_id]. split; [naive_solver|]. intros Hin. apply Hg. right.
  exists (er_id r). split; [by apply list_elem_of_singleton|done].
Qed.

Lemma erased_known req d f :
  f ∈ map scanFact (db_facts (erased req d)) -> f_scope f = fr_scope req ->
  fr_episodes req <> [] /\ forall id, id ∈ f_episodes f -> id ∉ fr_episodes req.
Proof.
  intros (r & -> & Hr)%list_elem_of_fmap Hs. cbn [erased db_facts] in Hr.
  apply elem_of_keep in Hr as [_ Hg]. unfold gone_fact in Hg. cbn in Hs.
  rewrite Hs, String.eqb_refl in Hg. cbn [andb] in Hg. apply not_true_iff_false in Hg.
  rewrite named_spec in Hg. cbn [scanFact f_episodes]. split; naive_solver.
Qed.

(** C10: what was forgotten is not recalled. After [Memory.Forget] returned, no
    recall of the scope, at any cut, past ones included, and in any order of its
    channels, shows an episode the request erased or a fact that rested on one;
    after the erasure of a whole scope it shows nothing at all. *)
Theorem forgotten_not_recalled (locked : E -> list JobID) dims m req res w0 w1 sched elapsed rr w2 out :
  m_store m = pg_store locked dims -> (forall f, m_facts m = Some f -> f = pg_facts) -> reads_only m ->
  (forall w, w_db (Now (m_clock m) w).1 = w_db w) ->
  sound w0 -> Memory.Forget m req w0 = (w1, Ok res) ->
  sched ≡ₚ seq 0 (length (resolveChannels m (rr_channels rr))) -> rr_scope rr = fr_scope req ->
  Recall m sched elapsed None rr w1 = (w2, Ok out) ->
  (forall e, e ∈ rec_episodes out ->
     fr_episodes req <> [] /\ ep_id (re_episode e) ∉ fr_episodes req) /\
  (forall f, f ∈ rec_facts out ->
     fr_episodes req <> [] /\ forall id, id ∈ f_episodes (rf_fact f) -> id ∉ fr_episodes req).
Proof.
  intros Hm Hf Hro Hclock Hok Hforget Hp Hscope Hrec.
  assert (w_db w1 = erased req (w_db w0) /\ db_ok (w_db w1)) as [Hdb Hok1].
  { unfold Memory.Forget in Hforget. rewrite obind_olift in Hforget.
    destruct (ForgetRequest_Validate req); [|done]. rewrite Hm in Hforget. cbn in Hforget.
    apply on_db_Ok in Hforget as (d' & Hd & ->). pose proof (Forget_cases req (w_db w0) Hok) as H.
    rewrite Hd in H. destruct H as [-> _]. split; [done|by apply erased_ok]. }
  assert (SearchSpec sound pg_ts pg_log (m_store m)) as Hss by (rewrite Hm; apply _).
  destruct (Recall_sources sound pg_ts pg_log pg_known m) with (sched := sched) (elapsed := elapsed)
    (req := rr) (w := w1) (w' := w2) (out := out) as (-> & He & Hfa); [|  |done|done|done|done|].
  { intros f Hmf. rewrite (Hf f Hmf). apply _. }
  { intros w Hw. unfold sound. by rewrite Hclock. }
  assert (w_db (cut m rr w1).1 = w_db w1) as Hcut by (unfold cut; destruct (IsZero _); [by apply Hclock|done]).
  unfold pg_log, pg_known in He, Hfa. rewrite Hcut, Hdb in He, Hfa. split.
  - intros e Hin. destruct (He e Hin) as [Hlog (Hs & _)]. cbn in Hs. eapply erased_log; [exact Hlog|congruence].
  - intros f Hin. destruct (Hfa f Hin) as [Hk (Hs & _)]. cbn in Hs. eapply erased_known; [exact Hk|congruence].
Qed.
End Writing.

(** ** A concrete deployment *)

(** The world beside the database is a clock that moves a microsecond a reading. *)
Definition demo_clock : Clock (World Z) :=
  MkClock (fun w => (MkWorld (w_db w) (w_env w + 1000), utc (w_env w))).
Definition demo_vector : Vector := [f32_of_Z 1; f_zero].
Definition demo_embedder : Embedder (World Z) :=
  MkEmbedder (fun texts => oret (map (fun _ => demo_vector) texts)) (fun _ => oret demo_vector) 2 "m".
Definition demo_extractor : Extractor (World Z) :=
  MkExtractor (fun _ => oret (MkExtractResult [] [])) "x".

Definition demo_store : Store (World Z) := pg_store (fun _ => []) 2.

Definition demo_config : Config (World Z) :=
  MkConfig (Some demo_store) None (Some demo_embedder) (Some demo_extractor) None None None
    (MkFusionOptions f_zero None) 0.

Definition demo_memory : Memory (World Z) :=
  MkMemory demo_store (pg_queue (fun _ => [])) demo_embedder (Some demo_extractor) (Some pg_facts)
    demo_clock (CountTokens (MkApproxTokenCounter 0))
    (match resolve (MkFusionOptions f_zero None) with Ok o => o | Err _ => MkFusionOptions f_zero None end) 10.

(** [New] builds it. *)
Example demo_new : New demo_clock demo_config = Ok demo_memory.
Proof. reflexivity. Qed.

Definition demo_world : World Z := MkWorld demo_encoded 9000.
Definition demo_recall : RecallRequest :=
  MkRecallRequest "s" "first" (utc 9000) zeroTime zeroTime None [] [] 0 0 0 f_zero [] 0.

Lemma demo_reads : reads_only demo_memory.
Proof.
  split; [intros text w; reflexivity|]. split; [apply pg_store_reads|].
  intros f [= <-]. apply pg_facts_reads.
Qed.

Lemma demo_sched : [2; 0; 1]%nat ≡ₚ seq 0 (length (resolveChannels demo_memory (rr_channels demo_recall))).
Proof. apply (Permutation_app_comm [2%nat] [0; 1]%nat). Qed.

Definition demo_elapsed : nat -> Duration := fun _ => 0.

Lemma demo_world_sound : sound demo_world.
Proof. exact demo_encoded_ok. Qed.

Lemma Recall_schedule_witness :
  Recall demo_memory [2; 0; 1]%nat demo_elapsed None demo_recall demo_world =
  Recall demo_memory [0; 1; 2]%nat demo_elapsed None demo_recall demo_world.
Proof.
  apply (Recall_schedule demo_memory [2; 0; 1]%nat [0; 1; 2]%nat demo_elapsed None demo_recall demo_world);
    [exact demo_reads|exact demo_sched|reflexivity].
Defined.




Lemma Recall_partial_witness :
  exists w' out, Recall demo_memory [2; 0; 1]%nat demo_elapsed None demo_recall demo_world = (w', Ok out) /\
    map rep_channel (rec_channels out) = [ChannelSemantic; ChannelLexical; ChannelFact].
Proof.
  assert (RecallRequest_Validate demo_recall = Ok tt) as Hv by (vm_compute; reflexivity).
  pose proof (Recall_partial demo_memory [2; 0; 1]%nat demo_elapsed demo_recall demo_world demo_reads demo_sched Hv)
    as H. cbv zeta in H.
  destruct (Recall demo_memory [2; 0; 1]%nat demo_elapsed None demo_recall demo_world) as [w' [out|e]].
  - exists w', out. split; [reflexivity|]. destruct H as (_ & _ & _ & H & _). exact H.
  - exfalso. destruct H as (_ & H & _).
    assert (existsb (fun r => bool_decide (cr_err r = None)) (answers_of demo_memory demo_recall demo_elapsed
      (cut demo_memory demo_recall demo_world).1 (cut demo_memory demo_recall demo_world).2) = true) as He
      by (vm_compute; reflexivity).
    apply existsb_exists in He as (r & Hr & Hn%bool_decide_eq_true). apply (H r); [|exact Hn].
    apply list_elem_of_In. exact Hr.
Defined.

Lemma Recall_scoped_witness :
  exists w' out, Recall demo_memory [2; 0; 1]%nat demo_elapsed None demo_recall demo_world = (w', Ok out) /\
    forall e, e ∈ rec_episodes out -> ep_scope (re_episode e) = "s"%string.
Proof.
  destruct (Recall demo_memory [2; 0; 1]%nat demo_elapsed None demo_recall demo_world) as [w' [out|e]] eqn:H.
  - exists w', out. split; [reflexivity|]. intros e He.
    assert (forall f, m_facts demo_memory = Some f -> FactsSpec sound pg_ts pg_known f) as Hf
      by (intros f [= <-]; apply pg_facts_spec).
    assert (forall w, sound w -> sound (Now (m_clock demo_memory) w).1) as Hc by (intros w Hw; exact Hw).
    destruct (Recall_scoped sound pg_ts pg_log pg_known demo_memory Hf Hc demo_reads [2; 0; 1]%nat
      demo_elapsed demo_recall demo_world w' out demo_sched demo_world_sound H) as (_ & He' & _).
    destruct (He' e He) as (_ & Hs & _). exact Hs.
  - exfalso. apply (f_equal snd) in H. vm_compute in H. discriminate H.
Defined.

Definition demo_batch : list AppendRequest :=
  [MkAppendRequest "s" "third" RoleUser "ada" "chat" zeroTime None;
   MkAppendRequest "s" "fourth" RoleUser "ada" "chat" zeroTime None].

Lemma AppendBatch_stores_witness :
  exists w' eps, AppendBatch demo_memory demo_batch demo_world = (w', Ok eps) /\
    batch_stored "s" demo_batch (utc 9000) demo_encoded (w_db w') eps.
Proof.
  destruct (AppendBatch_stores (fun _ => []) 2 demo_memory demo_batch demo_world
    (MkWorld demo_encoded 10000) (utc 9000)) as (w' & eps & H & _ & Hb & _).
  - reflexivity.
  - exact demo_world_sound.
  - vm_compute. reflexivity.
  - reflexivity.
  - reflexivity.
  - discriminate.
  - discriminate.
  - vm_compute. discriminate.
  - repeat constructor.
  - vm_compute. reflexivity.
  - exists w', eps. split; [exact H|exact Hb].
Defined.

Lemma forgotten_not_recalled_witness :
  exists w1 res w2 out,
    Memory.Forget demo_memory (MkForgetRequest "s" [1%N]) demo_world = (w1, Ok res) /\
    Recall demo_memory [2; 0; 1]%nat demo_elapsed None demo_recall w1 = (w2, Ok out) /\
    forall e, e ∈ rec_episodes out -> ep_id (re_episode e) <> 1%N.
Proof.
  destruct (Memory.Forget demo_memory (MkForgetRequest "s" [1%N]) demo_world) as [w1 [res|e]] eqn:Hf.
  2: { exfalso. apply (f_equal snd) in Hf. vm_compute in Hf. discriminate Hf. }
  exists w1, res.
  assert (w1 = (Memory.Forget demo_memory (MkForgetRequest "s" [1%N]) demo_world).1) as Hw1 by (rewrite Hf; reflexivity).
  destruct (Recall demo_memory [2; 0; 1]%nat demo_elapsed None demo_recall w1) as [w2 [out|e]] eqn:Hr.
  2: { exfalso. rewrite Hw1 in Hr. apply (f_equal snd) in Hr. vm_compute in Hr. discriminate Hr. }
  exists w2, out. split; [reflexivity|]. split; [reflexivity|]. intros e He Hid.
  assert (forall f, m_facts demo_memory = Some f -> f = pg_facts) as Hpf by (intros f [= <-]; reflexivity).
  destruct (forgotten_not_recalled (fun _ => []) 2 demo_memory (MkForgetRequest "s" [1%N]) res demo_world w1
    [2; 0; 1]%nat demo_elapsed demo_recall w2 out eq_refl Hpf demo_reads
    (fun w => eq_refl) demo_world_sound Hf demo_sched eq_refl Hr) as [H _].
  destruct (H e He) as [_ Hn]. apply Hn. rewrite Hid. apply list_elem_of_singleton. reflexivity.
Defined.
