(* ===== verification/Consolidation.v ===== *)
(** * The consolidation loop over its adapter

    [Worker] wired to [postgres.Store]: what a drained job has left behind, and
    that a drain leaves no job it claimed in the air. The clock, the embedder and
    the extractor are code outside the repository or over the network; all that is
    asked of them is that they do not write to the database, and of the clock that
    it has started. *)

From S2P Require Import Types Validate OpsTypes Fusion Server Db PgQueue Queueing PgEpisode Appending Replaying PgFact FactWriting FactReading PgForget PgEncoding PgSearch Ports Memory Worker Postgres Deployment.

#[local] Open Scope Z_scope.

(** ** What a job body may do to the database *)

Section Bodies.
Context `{Sv : Server} `{!ServerLaws Sv}.

(** No projection is lost, and the log stays as it is. *)
Record retains (d d' : Db) : Prop := {
  rt_ok : db_ok d -> db_ok d';
  rt_episodes : db_episodes d' = db_episodes d;
  rt_ready : db_ready d' = db_ready d;
  rt_dims : db_dims d' = db_dims d;
  rt_encodings : map encoding_key (db_encodings d) ⊆ map encoding_key (db_encodings d');
  rt_marks : map extraction_key (db_extractions d) ⊆ map extraction_key (db_extractions d');
}.

#[export] Instance retains_refl : Reflexive retains.
Proof. intros d. by split. Qed.
#[export] Instance retains_trans : Transitive retains.
Proof. intros x y z [] []. split; try congruence; [auto|set_solver|set_solver]. Qed.

(** A job body leaves the queue alone too. *)
Definition projects (d d' : Db) : Prop := retains d d' /\ db_jobs d' = db_jobs d.

#[export] Instance projects_refl : Reflexive projects.
Proof. intros d. by split. Qed.
#[export] Instance projects_trans : Transitive projects.
Proof. intros x y z [] []. split; [by transitivity y|congruence]. Qed.

Lemma PutEncoding_projects dims enc : keeps projects (PutEncoding dims enc).
Proof.
  intros d. destruct (PutEncoding_grows dims enc d) as (? & ? & _ & ? & _ & Hx & ? & ? & _ & ?).
  split; [|done]. split; try done. by rewrite Hx.
Qed.

Lemma ApplyExtraction_projects cmd : keeps projects (ApplyExtraction cmd).
Proof.
  intros d. destruct (ApplyExtraction_base cmd d) as (? & _ & ? & ? & ? & _).
  destruct (ApplyExtraction_grows cmd d) as [Hn ?]. split; [|done]. split; try done; [|by rewrite Hn].
  intros Hok. pose proof (ApplyExtraction_outcome cmd d Hok) as Hout.
  destruct (ApplyExtraction cmd d) as [d' [f|e]]; cbn; [by destruct Hout|by subst].
Qed.

(** An episode read is the one asked for. *)
Lemma Episode_get_id scope id d d' e : Episode_get scope id d = (d', Ok e) -> ep_id e = id.
Proof.
  unfold Episode_get. rewrite obind_olift. destruct (ScopeID_Validate scope); [|done].
  rewrite obind_olift. destruct (reject _ _); [|done]. unfold omap_err, on_schema.
  destruct (db_ready d); [|done]. rewrite query_row_find.
  destruct (List.find _ _) as [r|] eqn:Hf; cbn; [|done]. apply find_elem in Hf as [_ Hp].
  apply andb_true_iff in Hp as [_ Hid%N.eqb_eq].
  unfold scanEpisode. destruct (reject _ _); [|done]. cbn. by intros [= _ <-].
Qed.
End Bodies.

(** ** A deployed worker *)

Section Deployed.
Context `{Sv : Server} `{!ServerLaws Sv} {E : Type}.
Context (locked : E -> list JobID) (dims : Z) (error_text : Error -> string) (w : Worker (World E)).
Implicit Types s : World E.

Definition same_db s s' : Prop := w_db s' = w_db s.

(** The worker runs over the adapter, the outside world keeps to itself, and what
    an error says is text the database can store. *)
Record deployed : Prop := {
  dp_store : w_store w = pg_store locked dims;
  dp_queue : w_queue w = pg_queue locked;
  dp_facts : match w_extractor w with Some _ => w_facts w = Some pg_facts | None => True end;
  dp_clock : forall s, w_db (Now (w_clock w) s).1 = w_db s /\ 0 < t_ns (Now (w_clock w) s).2;
  dp_embed : forall texts s, w_db (e_EmbedDocuments (w_embedder w) texts s).1 = w_db s;
  dp_extract : forall x req s, w_extractor w = Some x -> w_db (x_Extract x req s).1 = w_db s;
  dp_name : is_empty (w_id w) = false /\ pg_text (w_id w) = true;
  dp_errors : forall e, forallb pg_text (option_list (truncateError (Some (error_text e)))) = true;
}.

Context (Hw : deployed).

Definition wprojects s s' : Prop := projects (w_db s) (w_db s').

#[local] Instance wprojects_refl : Reflexive wprojects.
Proof. intros s. apply projects_refl. Qed.
#[local] Instance wprojects_trans : Transitive wprojects.
Proof. intros s1 s2 s3. apply projects_trans. Qed.

Lemma same_db_projects {A} (m : op Error (World E) A) :
  (forall s, w_db (m s).1 = w_db s) -> keeps wprojects m.
Proof. intros H s. unfold wprojects. rewrite H. apply projects_refl. Qed.

Lemma on_db_projects {A} (m : dbop A) : keeps projects m -> keeps wprojects (on_db m).
Proof.
  intros H s. specialize (H (w_db s)). unfold wprojects, on_db. by destruct (m (w_db s)) as [d r].
Qed.

Lemma now_projects : keeps wprojects (now (w_clock w)).
Proof using Hw.
  apply same_db_projects. intros s. unfold now. pose proof (proj1 (dp_clock Hw s)) as H.
  by destruct (Now (w_clock w) s).
Qed.

Lemma read_episodes_reads scope ids : reads (omapM (s_Episode (w_store w) scope) ids).
Proof using Hw.
  apply reads_omapM. intros id. rewrite (dp_store Hw). apply reads_on_db, reads_Episode_get.
Qed.

(** What every call of a job body keeps, the body does. *)
Lemma runJob_keeps (R : World E -> World E -> Prop) job :
  Reflexive R -> Transitive R -> keeps R (now (w_clock w)) ->
  (forall texts, keeps R (e_EmbedDocuments (w_embedder w) texts)) ->
  (forall x req, w_extractor w = Some x -> keeps R (x_Extract x req)) ->
  (forall enc, keeps R (on_db (PutEncoding dims enc))) -> (forall cmd, keeps R (on_db (ApplyExtraction cmd))) ->
  keeps R (runJob w job).
Proof using Hw.
  intros Hrefl Htrans Hnow Hembed Hx Hput Happ. unfold runJob. destruct (String.eqb _ _).
  { unfold encode. apply keeps_bind; [apply _..| |]; [by apply keeps_reads, read_episodes_reads|].
    intros episodes. apply keeps_bind; [apply _..|apply Hembed|]. intros vectors. destruct (negb _); [by intros s|].
    apply keeps_bind; [apply _..|exact Hnow|]. intros at_. apply keeps_ofor; [apply _..|].
    intros x. rewrite (dp_store Hw). apply Hput. }
  destruct (String.eqb _ _); [|by intros s]. pose proof (dp_facts Hw) as Hf.
  destruct (w_extractor w) as [x|]; [|by intros s]. rewrite Hf.
  unfold extract. destruct (Nat.eqb _ _); [by intros s|].
  apply keeps_bind; [apply _..| |]; [by apply keeps_reads, read_episodes_reads|]. intros read.
  destruct (last _) as [latest|]; [|by intros s].
  apply keeps_bind; [apply _..|apply keeps_reads; [apply _|apply reads_on_db, reads_Facts]|]. intros known.
  apply keeps_bind; [apply _..|exact Hnow|]. intros asked.
  apply keeps_bind; [apply _..|by apply Hx|]. intros result.
  apply keeps_bind; [apply _..|exact Hnow|]. intros at_.
  apply keeps_bind; [apply _..|apply Happ|]. by intros facts s.
Qed.

(** No job body touches the queue or the log. *)
Lemma runJob_projects job : keeps wprojects (runJob w job).
Proof using All.
  apply runJob_keeps; [apply _..|apply now_projects| | | |].
  - intros texts. apply same_db_projects. intros s. apply (dp_embed Hw).
  - intros x req Hx. apply same_db_projects. intros s. by apply (dp_extract Hw).
  - intros enc. apply on_db_projects, PutEncoding_projects.
  - intros cmd. apply on_db_projects, ApplyExtraction_projects.
Qed.

(** ** What a job body has done when it returns *)

(** The projection a job stands for exists. *)
Definition work_done (job : Job) (d : Db) : Prop :=
  (job_kind job = JobKindEncode -> forall id, id ∈ job_episodes job ->
     (id, e_Model (w_embedder w)) ∈ map encoding_key (db_encodings d)) /\
  (job_kind job = JobKindExtract -> forall x id, w_extractor w = Some x -> id ∈ job_episodes job ->
     has_extraction d id (x_Model x) = true).

Lemma work_done_mono job d d' : retains d d' -> work_done job d -> work_done job d'.
Proof using w.
  intros [_ _ _ _ He Hx] [H1 H2]. split.
  - intros Hk id Hid. apply He. by apply H1.
  - intros Hk x id Hw' Hid. specialize (H2 Hk x id Hw' Hid). unfold has_extraction in *.
    rewrite bool_decide_eq_true in H2 |- *. by apply Hx.
Qed.

Lemma read_episodes_ids scope ids s s' eps :
  omapM (s_Episode (w_store w) scope) ids s = (s', Ok eps) -> map ep_id eps = ids.
Proof using Hw.
  revert s s' eps. induction ids as [|id ids IH]; intros s s' eps; cbn; [by intros [= _ <-]|].
  rewrite obind_Ok. intros (s1 & e & He & Hrest). rewrite obind_Ok in Hrest.
  destruct Hrest as (s2 & eps' & Hr & [= _ <-]). cbn. rewrite (IH _ _ _ Hr). f_equal.
  rewrite (dp_store Hw) in He. cbn in He. apply on_db_Ok in He as (d' & He & _).
  by apply Episode_get_id in He.
Qed.

Lemma encode_done job s s' :
  encode w job s = (s', Ok tt) -> forall id, id ∈ job_episodes job ->
  (id, e_Model (w_embedder w)) ∈ map encoding_key (db_encodings (w_db s')).
Proof using All.
  unfold encode. rewrite obind_Ok. intros (s1 & eps & Hread & H) id Hid.
  rewrite obind_Ok in H. destruct H as (s2 & vectors & _ & H).
  destruct (negb _) eqn:Hlen; [done|]. apply negb_false_iff, Nat.eqb_eq in Hlen.
  rewrite obind_Ok in H. destruct H as (s3 & at_ & _ & H).
  apply read_episodes_ids in Hread. rewrite <- Hread in Hid. apply list_elem_of_fmap in Hid as (e & -> & He).
  apply list_elem_of_lookup in He as [i Hi].
  destruct (lookup_lt_is_Some_2 vectors i) as [v Hv]; [rewrite Hlen; by eapply lookup_lt_Some|].
  assert ((e, v) ∈ combine eps vectors) as Hin.
  { apply list_elem_of_lookup. exists i. change (combine eps vectors) with (zip eps vectors).
    by rewrite lookup_zip_with, Hi, Hv. }
  refine (ofor_all wprojects (fun x s => (ep_id x.1, e_Model (w_embedder w)) ∈ map encoding_key (db_encodings (w_db s)))
    _ _ s3 s' _ _ _ H (e, v) Hin).
  - intros x. rewrite (dp_store Hw). apply on_db_projects, PutEncoding_projects.
  - intros x t1 t2 Hput. rewrite (dp_store Hw) in Hput. cbn in Hput.
    apply on_db_Ok in Hput as (d' & Hput & ->). by apply PutEncoding_has in Hput.
  - intros x t1 t2 [[_ _ _ _ Hsub _] _]. apply Hsub.
Qed.

Lemma extract_done x job s s' :
  w_extractor w = Some x -> sound s -> extract w x pg_facts job s = (s', Ok tt) ->
  forall id, id ∈ job_episodes job -> has_extraction (w_db s') id (x_Model x) = true.
Proof using All.
  intros Hx Hok. unfold extract. destruct (Nat.eqb _ _); [done|]. rewrite obind_Ok.
  intros (s1 & eps & Hread & H) id Hid. destruct (last _) as [latest|]; [|done].
  rewrite obind_Ok in H. destruct H as (s2 & known & Hk & H).
  rewrite obind_Ok in H. destruct H as (s3 & asked & Ha & H).
  rewrite obind_Ok in H. destruct H as (s4 & result & He & H).
  rewrite obind_Ok in H. destruct H as (s5 & at_ & Hn & H).
  rewrite obind_Ok in H. destruct H as (s6 & facts & Happ & [= <-]).
  cbn in Happ. apply on_db_Ok in Happ as (d' & Happ & ->).
  assert (db_ok (w_db s5)) as Hok5.
  { pose proof (read_episodes_reads (job_scope job) (job_episodes job) s) as H1. rewrite Hread in H1. cbn in H1. subst s1.
    pose proof (reads_on_db (E := E) _ (reads_Facts (known_query w x job (sort_func cmp_seq eps) latest)) s) as H2.
    cbn in Hk. rewrite Hk in H2. cbn in H2. subst s2.
    pose proof (now_projects s) as [H3 _]. rewrite Ha in H3.
    pose proof (dp_extract Hw x (MkExtractRequest (job_scope job) (sort_func cmp_seq eps) known asked) s3 Hx) as H4.
    rewrite He in H4. cbn in H4. pose proof (now_projects s4) as [H5 _]. rewrite Hn in H5.
    apply (rt_ok _ _ H5). rewrite H4. by apply (rt_ok _ _ H3). }
  exact (ApplyExtraction_marked _ _ _ _ Hok5 Happ id Hid).
Qed.

Lemma runJob_done job s s' :
  sound s -> runJob w job s = (s', Ok tt) -> work_done job (w_db s').
Proof using All.
  intros Hok. unfold runJob, work_done. destruct (String.eqb_spec (job_kind job) JobKindEncode) as [Hk|Hk].
  { intros H. split; [intros _; by apply (encode_done job s)|]. rewrite Hk. by intros [=]. }
  destruct (String.eqb_spec (job_kind job) JobKindExtract) as [Hk'|Hk']; [|done].
  intros H. split; [done|]. intros _ x id Hx Hid. pose proof (dp_facts Hw) as Hf. rewrite Hx in Hf, H.
  rewrite Hf in H. by apply (extract_done x job s).
Qed.

(** ** Encoding, when nothing stands in the way *)

Lemma read_all scope ids rows s :
  sound s -> db_ready (w_db s) = true -> ScopeID_Validate scope = Ok tt ->
  Forall2 (fun id r => r ∈ db_episodes (w_db s) /\ er_scope r = scope /\ er_id r = id /\ id <> 0%N) ids rows ->
  omapM (s_Episode (w_store w) scope) ids s = (s, Ok (map episode_of rows)).
Proof using Hw.
  intros Hok Hready Hv HF. induction HF as [|id r ids rows (Hin & Hs & Hid & Hnz) _ IH]; [done|].
  cbn. unfold obind at 1. rewrite (dp_store Hw). cbn [s_Episode pg_store]. unfold on_db at 1.
  destruct (Episode_get_spec scope id (w_db s) Hok Hready Hv Hnz) as [Hget _].
  rewrite (Hget r) by done. rewrite (dp_store Hw) in IH. unfold obind. destruct s as [d env]. cbn in *.
  by rewrite IH.
Qed.

(** What the call stores for an episode of the log. *)
Definition stored_encoding (t : Time) (row : EpisodeRow) (v : Vector) : EncodingRow :=
  encoding_of (encoding_for w t (episode_of row, v)) row.

(** The vectors a batch needs. *)
Definition usable (d : Db) (v : Vector) : Prop :=
  Dimensions v = db_dims d /\ Forall (fun f => is_nan f = false /\ is_inf f = false) v.

Lemma validate_stored d t row v :
  er_id row <> 0%N -> t_ns t <> 0 -> is_empty (e_Model (w_embedder w)) = false -> usable d v ->
  validateEncoding (db_dims d) (encoding_for w t (episode_of row, v)) = Ok tt.
Proof.
  intros Hid Ht Hm [Hd Hf]. unfold validateEncoding. rewrite !seq_Ok, !reject_Ok_tt, check_all_Ok. cbn.
  rewrite IsZeroID_false, IsZero_neq, Hd, Z.eqb_refl. split_and!; try done.
  eapply Forall_impl; [exact Hf|]. intros f [-> ->]. done.
Qed.

Lemma put_all t rows vs s :
  sound s -> db_ready (w_db s) = true -> dims = db_dims (w_db s) -> t_ns t <> 0 ->
  is_empty (e_Model (w_embedder w)) = false -> pg_text (e_Model (w_embedder w)) = true ->
  pg_length (e_Model (w_embedder w)) <= 200 -> NoDup (map er_id rows) ->
  Forall2 (fun row v => row ∈ db_episodes (w_db s) /\ er_id row <> 0%N /\ usable (w_db s) v) rows vs ->
  exists s', ofor (fun x => s_PutEncoding (w_store w) (encoding_for w t x)) (combine (map episode_of rows) vs) s
      = (s', Ok tt) /\ sound s' /\
    forall r, r ∈ db_encodings (w_db s') <->
      (exists i row v, rows !! i = Some row /\ vs !! i = Some v /\ r = stored_encoding t row v) \/
      r ∈ db_encodings (w_db s) /\ forall row, row ∈ rows -> encoding_key r <> (er_id row, e_Model (w_embedder w)).
Proof using All.
  intros Hok Hready Hdims Ht Hm1 Hm2 Hm3 Hnd HF. revert s Hok Hready Hdims Hnd HF.
  revert vs. induction rows as [|row rows IH]; intros vs s Hok Hready Hdims Hnd HF.
  { apply Forall2_nil_inv_l in HF as ->. exists s. split; [done|]. split; [done|]. intros r.
    split; [intros Hr; right; split; [done|by intros row ?%not_elem_of_nil]|]. by intros [(? & ? & ? & ? & _)|[? _]]. }
  apply Forall2_cons_inv_l in HF as (v & vs' & (Hin & Hid & Hu) & HF & ->).
  apply NoDup_cons in Hnd as [Hrow Hnd].
  destruct (PutEncoding_run (encoding_for w t (episode_of row, v)) (w_db s) row Hok Hready) as (Hput & Hok1 & Hel);
    [by apply validate_stored|done|done|done|done|done|].
  set (d1 := set_encodings _ (w_db s)) in *. rewrite <- Hdims in Hput.
  destruct (IH vs' (MkWorld d1 (w_env s))) as (s' & Hloop & Hok' & Hel'); [done|done|done|done|done|].
  exists s'. split; [|split; [done|]].
  { cbn [map combine ofor]. unfold obind at 1. rewrite (dp_store Hw) in Hloop |- *. cbn [s_PutEncoding pg_store].
    unfold on_db at 1. by rewrite Hput. }
  intros r. rewrite Hel'. cbn [w_db]. rewrite Hel. cbn [enc_episode enc_model encoding_for fst episode_of ep_id].
  split.
  - intros [(i & row' & v' & Hi & Hv & ->)|[[->|[Hr Hk]] Hall]].
    + left. by exists (S i), row', v'.
    + left. by exists 0%nat, row, v.
    + right. split; [done|]. intros row' [->|Hrow']%elem_of_cons; [done|by apply Hall].
  - intros [([|i] & row' & v' & Hi & Hv & ->)|[Hr Hall]].
    + injection Hi as <-. injection Hv as <-. right. split; [by left|]. intros row' Hrow' Heq.
      apply Hrow. injection Heq as ->. by apply list_elem_of_fmap_2.
    + left. by exists i, row', v'.
    + right. split; [|intros row' Hrow'; apply Hall; by right]. right. split; [done|]. apply Hall. by left.
Qed.

(** an encode job whose episodes are there is done when the model answers: if
    the embedder returns one usable vector an episode, the job succeeds, each
    vector is stored for the episode it was made from, in the job's order, with
    the scope and the ingestion time of the log, and every other encoding stays as
    it was. *)
Theorem encode_completes job rows vs s s1 s2 t :
  sound s -> db_ready (w_db s) = true -> dims = db_dims (w_db s) ->
  ScopeID_Validate (job_scope job) = Ok tt -> NoDup (job_episodes job) ->
  is_empty (e_Model (w_embedder w)) = false -> pg_text (e_Model (w_embedder w)) = true ->
  pg_length (e_Model (w_embedder w)) <= 200 ->
  Forall2 (fun id r => r ∈ db_episodes (w_db s) /\ er_scope r = job_scope job /\ er_id r = id /\ id <> 0%N)
    (job_episodes job) rows ->
  e_EmbedDocuments (w_embedder w) (map er_content rows) s = (s1, Ok vs) ->
  length vs = length rows -> Forall (usable (w_db s)) vs -> Now (w_clock w) s1 = (s2, t) ->
  exists s', encode w job s = (s', Ok tt) /\ sound s' /\
    forall r, r ∈ db_encodings (w_db s') <->
      (exists i row v, rows !! i = Some row /\ vs !! i = Some v /\ r = stored_encoding t row v) \/
      r ∈ db_encodings (w_db s) /\ forall id, id ∈ job_episodes job -> encoding_key r <> (id, e_Model (w_embedder w)).
Proof using All.
  intros Hok Hready Hdims Hsc Hnd Hm1 Hm2 Hm3 HF Hemb Hlen Hvs Hnow.
  assert (map er_id rows = job_episodes job) as Hids.
  { clear -HF. induction HF as [|id r ids rows (_ & _ & <- & _) _ IH]; cbn; congruence. }
  pose proof (dp_embed Hw (map er_content rows) s) as Hd1. rewrite Hemb in Hd1. cbn in Hd1.
  pose proof (dp_clock Hw s1) as [Hd2 Ht]. rewrite Hnow in Hd2, Ht. cbn in Hd2, Ht.
  assert (w_db s2 = w_db s) as Hd by congruence.
  destruct (put_all t rows vs s2) as (s' & Hput & Hok' & Hel);
    [unfold sound; by rewrite Hd|by rewrite Hd|by rewrite Hd|lia|done|done|done|by rewrite Hids| |].
  { apply Forall2_same_length_lookup_2; [done|]. intros i row v Hrow Hv. rewrite Hd.
    destruct (Forall2_lookup_r _ _ _ _ _ HF Hrow) as (id & _ & Hin & _ & <- & Hnz).
    split; [done|]. split; [done|]. rewrite Forall_forall in Hvs. apply Hvs. by eapply list_elem_of_lookup_2. }
  exists s'. split; [|split; [done|]].
  - unfold encode. unfold obind at 1. rewrite (read_all _ _ rows) by done. rewrite map_map.
    unfold obind at 1. change (map (fun x => ep_content (episode_of x)) rows) with (map er_content rows).
    rewrite Hemb, length_map, Hlen, Nat.eqb_refl. cbn [negb]. unfold obind, now. rewrite Hnow. exact Hput.
  - intros r. rewrite Hel, Hd, <- Hids. split; (intros [?|[Hr Hall]]; [by left|right; split; [done|]]).
    + intros id (row & -> & Hrow)%list_elem_of_fmap. by apply Hall.
    + intros row Hrow. apply Hall. by apply list_elem_of_fmap_2.
Qed.

(** ** Draining *)

(** The body of a job gave up, on a well-formed database that has lost nothing
    since. *)
Definition body_failed (job : Job) (d' : Db) : Prop :=
  exists s0 s1 cause, sound s0 /\ retains (w_db s0) d' /\ runJob w job s0 = (s1, Err cause).

(** What the report on a row [r] leaves in its place; [n] counts it if it is done. *)
Record settled (d' : Db) (r r' : JobRow) (n : Z) : Prop := {
  se_in : r' ∈ db_jobs d';
  se_same : same_job r r';
  se_attempts : jr_attempts r' = jr_attempts r;
  se_free : jr_leased_by r' = None;
  se_state : n = 1 /\ jr_state r' = JobStateDone /\ work_done (job_of r') d' \/
             n = 0 /\ jr_state r' = (if exhausted r then JobStateDead else JobStatePending) /\
             body_failed (job_of r) d';
}.

(** The queue after it: that row, and every other one as it was. *)
Definition replaced (r r' : JobRow) (d d' : Db) : Prop :=
  forall x, x ∈ db_jobs d' <-> x = r' \/ x ∈ db_jobs d /\ x <> r.

Lemma retains_set_jobs d d' : db_ok d' -> d' = set_jobs (db_jobs d') d -> retains d d'.
Proof. intros Hok Hd. split; [done|..]; by rewrite Hd. Qed.

Lemma held_update id at_ : id <> 0%N -> t_ns at_ <> 0 -> validateJobUpdate id (w_id w) at_ = Ok tt.
Proof using Hw.
  intros Hid Hat. unfold validateJobUpdate. apply IsZeroID_false in Hid as ->.
  rewrite (proj1 (dp_name Hw)). apply IsZero_neq in Hat as ->. done.
Qed.

Lemma Succeed_held r d at_ :
  db_ok d -> db_ready d = true -> r ∈ db_jobs d -> held_by (jr_id r) (w_id w) r = true -> jr_id r <> 0%N ->
  t_ns at_ <> 0 ->
  exists d', Succeed (jr_id r) (w_id w) at_ d = (d', Ok tt) /\ retains d d' /\
    replaced r (finish_row (pg_ts (t_ns at_)) r) d d'.
Proof using Hw ServerLaws0.
  intros Hok Hready Hin Hh Hid Hat.
  pose proof (Succeed_report (jr_id r) (w_id w) at_ d (ok_jobs d Hok) Hready (held_update _ _ Hid Hat)
    (proj2 (dp_name Hw))) as Hrep.
  destruct (report_held _ _ (finish_row (pg_ts (t_ns at_))) d r (ok_jobs d Hok) Hin Hh) as (d' & H & Hd & Hx).
  rewrite H in Hrep. exists d'. split; [done|]. split; [|exact Hx]. apply retains_set_jobs; [|done].
  pose proof (keeps_Succeed (jr_id r) (w_id w) at_ d) as Hf. rewrite Hrep in Hf. by eapply follows_ok.
Qed.

Lemma Fail_held r d cause at_ retryAt :
  db_ok d -> db_ready d = true -> r ∈ db_jobs d -> held_by (jr_id r) (w_id w) r = true -> jr_id r <> 0%N ->
  t_ns at_ <> 0 -> t_ns retryAt <> 0 ->
  let message := truncateError (Some (error_text cause)) in
  exists d', Fail (jr_id r) (w_id w) (Some (error_text cause)) at_ retryAt d = (d', Ok tt) /\ retains d d' /\
    replaced r (fail_row (pg_ts (t_ns at_)) (pg_ts (t_ns retryAt)) message r) d d'.
Proof using Hw ServerLaws0.
  intros Hok Hready Hin Hh Hid Hat Hrt message.
  assert (forallb pg_text (w_id w :: option_list message) = true) as Ht.
  { cbn [forallb]. rewrite (proj2 (dp_name Hw)). apply (dp_errors Hw). }
  pose proof (Fail_report (jr_id r) (w_id w) (Some (error_text cause)) at_ retryAt d (ok_jobs d Hok) Hready
    (held_update _ _ Hid Hat) (proj2 (IsZero_neq _) Hrt) Ht) as Hrep.
  destruct (report_held _ _ (fail_row (pg_ts (t_ns at_)) (pg_ts (t_ns retryAt)) message) d r (ok_jobs d Hok)
    Hin Hh) as (d' & H & Hd & Hx).
  unfold message in H. rewrite H in Hrep. exists d'. split; [done|]. split; [|exact Hx].
  apply retains_set_jobs; [|done].
  pose proof (keeps_Fail (jr_id r) (w_id w) (Some (error_text cause)) at_ retryAt d) as Hf.
  rewrite Hrep in Hf. by eapply follows_ok.
Qed.

(** A reading of the clock. *)
Lemma now_reads s : exists s' t, now (w_clock w) s = (s', Ok t) /\ w_db s' = w_db s /\ 0 < t_ns t.
Proof using Hw.
  unfold now. destruct (dp_clock Hw s) as [H1 H2]. destruct (Now (w_clock w) s) as [s' t]. by exists s', t.
Qed.

(** One job, whatever its body comes to. *)
Lemma drain_job_settles r s :
  sound s -> db_ready (w_db s) = true -> r ∈ db_jobs (w_db s) -> held_by (jr_id r) (w_id w) r = true ->
  jr_id r <> 0%N ->
  exists s' n r', drain_job error_text w (job_of r) s = (s', Ok n) /\ retains (w_db s) (w_db s') /\
    settled (w_db s') r r' n /\ replaced r r' (w_db s) (w_db s').
Proof using All.
  intros Hok Hready Hin Hh Hid. unfold drain_job.
  pose proof (runJob_projects (job_of r) s) as [Hr Hj].
  destruct (runJob w (job_of r) s) as [s1 [[]|cause]] eqn:Hrun; cbn [fst] in Hr, Hj;
    destruct (now_reads s1) as (s2 & t & Hnow & Hdb & Ht); rewrite <- Hj in Hin;
    pose proof (rt_ok _ _ Hr Hok) as Hok1; rewrite <- (rt_ready _ _ Hr) in Hready.
  - apply runJob_done in Hrun; [|done].
    destruct (Succeed_held r (w_db s1) t Hok1 Hready Hin Hh Hid) as (d' & Hs & Hret & Hx); [lia|].
    exists (MkWorld d' (w_env s2)), 1, (finish_row (pg_ts (t_ns t)) r). unfold obind. rewrite Hnow.
    rewrite (dp_queue Hw). unfold absorb. cbn [q_Succeed pg_queue job_id job_of]. unfold on_db. rewrite Hdb, Hs.
    split; [done|]. split; [cbn; by transitivity (w_db s1)|]. split; [|by intros x; rewrite <- Hj; apply Hx].
    split; [apply Hx; by left|done..|]. left. split; [done|]. split; [done|].
    by apply (work_done_mono _ (w_db s1)).
  - pose proof (retryBackoff_pos (jr_attempts r)) as Hb.
    destruct (Fail_held r (w_db s1) cause t (Add t (retryBackoff (jr_attempts r))) Hok1 Hready Hin Hh Hid)
      as (d' & Hs & Hret & Hx); [lia|cbn; lia|].
    eexists (MkWorld d' (w_env s2)), 0, _. unfold reportFailure, obind. rewrite Hnow.
    rewrite (dp_queue Hw). unfold absorb. cbn [q_Fail pg_queue job_id job_attempts job_of]. unfold on_db.
    rewrite Hdb, Hs. split; [done|]. split; [cbn; by transitivity (w_db s1)|].
    split; [|intros x; rewrite <- Hj; apply Hx].
    split; [apply Hx; by left|done..|]. right. split; [done|]. split; [cbn; by destruct (exhausted r)|].
    exists s, s1, cause. split; [done|]. split; [by transitivity (w_db s1)|done].
Qed.

Definition total_done (outs : list (JobRow * Z)) : Z := foldr (fun o n => o.2 + n) 0 outs.

(** A row of this worker's that a drain may work on. *)
Definition held (d : Db) (r : JobRow) : Prop :=
  r ∈ db_jobs d /\ held_by (jr_id r) (w_id w) r = true /\ jr_id r <> 0%N.

Lemma settled_keep d d' r r' n :
  settled d r r' n -> retains d d' -> r' ∈ db_jobs d' -> settled d' r r' n.
Proof using All.
  intros [_ ? ? ? Hs] Hr Hin. split; try done.
  destruct Hs as [(-> & ? & Hwd)|(-> & ? & s0 & s1 & cause & ? & ? & ?)]; [left|right]; do 2 (split; [done|]).
  - by eapply work_done_mono.
  - exists s0, s1, cause. split; [done|]. split; [by transitivity d|done].
Qed.

Lemma drain_loop_settles rows i s done_ :
  sound s -> db_ready (w_db s) = true -> NoDup (map jr_id rows) ->
  (forall r, r ∈ rows -> held (w_db s) r) ->
  exists s' outs,
    drain_loop error_text w (fun _ => None) i (map job_of rows) done_ s =
      (s', (done_ + total_done outs, None)) /\
    retains (w_db s) (w_db s') /\ Forall2 (fun r o => settled (w_db s') r o.1 o.2) rows outs /\
    (forall x, x ∈ db_jobs (w_db s) -> x ∉ rows -> x ∈ db_jobs (w_db s')) /\
    forall x, x ∈ db_jobs (w_db s') -> x ∈ map fst outs \/ x ∈ db_jobs (w_db s) /\ x ∉ rows.
Proof using All.
  revert i s done_. induction rows as [|r rows IH]; intros i s done_ Hok Hready Hnd Hheld.
  { exists s, []. cbn. rewrite Z.add_0_r. split_and!; try done. intros x Hx. right. split; [done|apply not_elem_of_nil]. }
  apply NoDup_cons in Hnd as [Hr Hnd]. destruct (Hheld r) as (Hin & Hh & Hid); [by left|].
  destruct (drain_job_settles r s Hok Hready Hin Hh Hid) as (s1 & n & r' & Hj & Hret & Hset & Hrep).
  assert (forall x, x ∈ rows -> x <> r) as Hne by (intros x Hx ->; apply Hr; by apply list_elem_of_fmap_2).
  destruct (IH (S i) s1 (done_ + n)) as (s2 & outs & Hl & Hret2 & HF & Hout & Hback).
  { by apply (rt_ok _ _ Hret). }
  { by rewrite (rt_ready _ _ Hret). }
  { done. }
  { intros x Hx. destruct (Hheld x) as (? & ? & ?); [by right|]. split; [|done]. apply Hrep. right. auto. }
  exists s2, ((r', n) :: outs). cbn [map drain_loop total_done foldr fst snd]. rewrite Hj, Hl.
  split; [by rewrite Z.add_assoc|]. split; [by transitivity (w_db s1)|]. split.
  - constructor; [|done]. apply (settled_keep (w_db s1)); [done|done|].
    apply Hout; [apply Hset|]. intros Hx. apply Hr. rewrite <- (proj1 (se_same _ _ _ _ Hset)).
    by apply list_elem_of_fmap_2.
  - split.
    + intros x Hx [Hxr Hxs]%not_elem_of_cons. apply Hout; [|done]. apply Hrep. by right.
    + intros x [Hx|[Hx Hn]]%Hback; [left; by right|]. apply Hrep in Hx as [->|[Hx Hxr]]; [left; by left|].
      right. split; [done|]. by apply not_elem_of_cons.
Qed.

(** What a claimed row becomes by the end of the drain. *)
Definition drained (d' : Db) (r : JobRow) (o : JobRow * Z) : Prop :=
  exists leased, same_job r leased /\ jr_attempts leased = jr_attempts r + 1 /\ settled d' leased o.1 o.2.

(** The claim of one drain. *)
Definition drain_request (t : Time) : LeaseRequest :=
  MkLeaseRequest (w_kinds w) (w_id w) (w_batch w) (w_lease w) t.

Lemma claimed_held req d :
  db_ok d -> db_ready d = true -> validateLease req = Ok tt -> lr_worker req = w_id w ->
  forall locked', let claimed := claimed_rows locked' req d in
  exists d1, Lease locked' req d = (d1, Ok (map job_of (map (claim_row req) claimed))) /\
    retains d d1 /\ NoDup (map jr_id (map (claim_row req) claimed)) /\
    (forall r, r ∈ map (claim_row req) claimed -> held d1 r) /\
    forall x, x ∈ db_jobs d -> x ∉ claimed -> x ∈ db_jobs d1 /\ x ∉ map (claim_row req) claimed.
Proof using Hw ServerLaws0.
  intros Hok Hready Hv Hid locked' claimed.
  assert (pg_text (lr_worker req) = true) as Ht by (rewrite Hid; apply (dp_name Hw)).
  destruct (Lease_run locked' req d (ok_jobs d Hok) Hready Hv Ht) as [Hrun Hcl]. fold claimed in Hrun, Hcl.
  eexists. rewrite Hrun, map_map. split; [done|].
  assert (forall r, jr_id (claim_row req r) = jr_id r) as Hids by done.
  split; [|split; [|split]].
  - apply retains_set_jobs; [|done]. pose proof (keeps_Lease locked' req d) as Hf. rewrite Hrun in Hf.
    by eapply follows_ok.
  - rewrite map_map. cbn. apply NoDup_map_filter, (jo_ids d (ok_jobs d Hok)).
  - intros r (r0 & -> & Hr0)%list_elem_of_fmap. destruct (Hcl r0 Hr0) as (Hin & _). split; [|split].
    + cbn [db_jobs set_jobs]. apply elem_of_apply_update. exists r0. by rewrite bool_decide_true.
    + unfold held_by. cbn. rewrite N.eqb_refl, Hid. by rewrite bool_decide_true.
    + cbn. pose proof (jo_rows d (ok_jobs d Hok)) as Hrows. rewrite Forall_forall in Hrows.
      destruct (Hrows r0 Hin) as (_ & _ & k & _ & ->). apply uuidv7_nonzero.
  - intros x Hx Hn. split.
    + cbn [db_jobs set_jobs]. apply elem_of_apply_update. exists x. by rewrite bool_decide_false.
    + intros (r0 & Hr0 & Hin)%list_elem_of_fmap. apply Hn. destruct (Hcl r0 Hin) as (Hin0 & _).
      assert (x = r0) as ->; [|done]. apply (jobs_ok_unique d); [apply (ok_jobs d Hok)|done|done|by rewrite Hr0].
Qed.

(** A drain that is not cancelled, run. *)
Record drain_post s s' (n t : Z) (claimed : list JobRow) (outs : list (JobRow * Z)) : Prop := {
  dr_ok : sound s';
  dr_retains : retains (w_db s) (w_db s');
  dr_claimed : forall r, r ∈ claimed -> r ∈ db_jobs (w_db s) /\ jr_state r = JobStatePending /\
    jr_run_after r <= t /\ jr_attempts r < jr_max_attempts r;
  dr_ids : NoDup (map jr_id claimed);
  dr_reading : t = pg_ts (t_ns (Now (w_clock w) s).2);
  dr_batch : exists env, length claimed = Nat.min (Z.to_nat (or_default (w_batch w) 1))
    (length (eligible (locked env) (w_kinds w) t (db_jobs (w_db s))));
  dr_drained : Forall2 (drained (w_db s')) claimed outs;
  dr_count : n = total_done outs;
  dr_others : forall x, x ∈ db_jobs (w_db s) -> x ∉ claimed -> x ∈ db_jobs (w_db s');
  dr_back : forall x, x ∈ db_jobs (w_db s') -> x ∈ map fst outs \/ x ∈ db_jobs (w_db s) /\ x ∉ claimed;
}.

Lemma DrainOnce_run s :
  sound s -> db_ready (w_db s) = true ->
  0 <= w_batch w -> 0 <= w_lease w -> Forall (fun k => JobKind_Valid k = true) (w_kinds w) ->
  exists s' n t claimed outs,
    DrainOnce error_text w (fun _ => None) s = (s', (n, None)) /\ drain_post s s' n t claimed outs.
Proof using All.
  intros Hok Hready Hb Hl Hk. unfold DrainOnce.
  destruct (now_reads s) as (s0 & t & Hnow & Hdb & Ht).
  set (req := drain_request t). set (claimed := claimed_rows (locked (w_env s0)) req (w_db s)).
  assert (validateLease req = Ok tt) as Hv.
  { unfold validateLease. rewrite !seq_Ok, !reject_Ok_tt, check_all_Ok. cbn.
    split; [apply (dp_name Hw)|]. split; [apply IsZero_neq; lia|]. split; [lia|]. split; [lia|].
    eapply Forall_impl; [exact Hk|]. intros k Hkv. by rewrite Hkv. }
  destruct (claimed_held req (w_db s) Hok Hready Hv eq_refl (locked (w_env s0)))
    as (d1 & Hlease & Hret & Hnd & Hheld & Hrest). fold claimed in Hlease, Hnd, Hheld, Hrest.
  destruct (drain_loop_settles (map (claim_row req) claimed) 0 (MkWorld d1 (w_env s0)) 0)
    as (s' & outs & Hloop & Hret' & HF & Hout & Hback);
    [by apply (rt_ok _ _ Hret)|cbn; by rewrite (rt_ready _ _ Hret)|done|done|].
  assert (retains (w_db s) (w_db s')) as Hr by (by transitivity d1).
  exists s', (total_done outs), (pg_ts (t_ns t)), claimed, outs. split.
  { unfold obind. rewrite Hnow, (dp_queue Hw). cbn [q_Lease pg_queue]. unfold on_db. rewrite Hdb.
    unfold req, drain_request in Hlease. rewrite Hlease. fold req. exact Hloop. }
  destruct (Lease_run (locked (w_env s0)) req (w_db s) (ok_jobs _ Hok) Hready Hv (proj2 (dp_name Hw))) as [Hrun Hcl].
  assert (forall r, r ∈ claimed -> r ∈ db_jobs (w_db s)) as Hsub by (intros x Hx; by apply Hcl).
  split; [by apply (rt_ok _ _ Hr)|done| | | | | |done| |].
  - intros r Hin. by destruct (Hcl r Hin) as (? & ? & ? & ? & _).
  - rewrite map_map in Hnd. exact Hnd.
  - unfold now in Hnow. destruct (Now (w_clock w) s). by injection Hnow as _ ->.
  - exists (w_env s0). apply (claimed_length _ req), (ok_jobs _ Hok).
  - rewrite <- (map_id outs) in HF. apply Forall2_fmap in HF. eapply Forall2_impl; [exact HF|].
    intros r o Ho. by exists (claim_row req r).
  - intros x Hx Hn. destruct (Hrest x Hx Hn). by apply Hout.
  - intros x [Hx|[Hx Hn]]%Hback; [by left|right]. rewrite Hlease in Hrun. injection Hrun as ->.
    cbn [w_db db_jobs set_jobs] in Hx. apply elem_of_apply_update in Hx as (x0 & Hx0 & ->).
    fold claimed in Hn |- *. case_bool_decide as Hin; [|done]. destruct Hn. by apply list_elem_of_fmap_2.
Qed.

(** C16: a drain leaves no job in the air, and marks none done whose work is not
    there. Over the adapter, with a clock that runs, a drain that is not cancelled
    returns without an error. It claims jobs due at the clock's reading, as many as
    there are that no other transaction holds, up to the batch. Each of them ends up
    released, with one attempt counted: done, and then every episode it names has
    its encoding, or its extraction marker; or, only when its body failed, pending
    again, or dead, exactly when that attempt was its last. The count returned is
    the number done. Every other job, the whole log, and every projection that was
    there before are as they were. *)
Theorem DrainOnce_settles s :
  sound s -> db_ready (w_db s) = true ->
  0 <= w_batch w -> 0 <= w_lease w -> Forall (fun k => JobKind_Valid k = true) (w_kinds w) ->
  exists s' n t claimed outs,
    DrainOnce error_text w (fun _ => None) s = (s', (n, None)) /\ sound s' /\ retains (w_db s) (w_db s') /\
    (forall r, r ∈ claimed -> r ∈ db_jobs (w_db s) /\ jr_state r = JobStatePending /\
       jr_run_after r <= t /\ jr_attempts r < jr_max_attempts r) /\
    t = pg_ts (t_ns (Now (w_clock w) s).2) /\
    (exists env, length claimed = Nat.min (Z.to_nat (or_default (w_batch w) 1))
       (length (eligible (locked env) (w_kinds w) t (db_jobs (w_db s))))) /\
    Forall2 (drained (w_db s')) claimed outs /\ n = total_done outs /\
    forall x, x ∈ db_jobs (w_db s) -> x ∉ claimed -> x ∈ db_jobs (w_db s').
Proof using All.
  intros Hok Hready Hb Hl Hk. destruct (DrainOnce_run s Hok Hready Hb Hl Hk) as (s' & n & t & claimed & outs & H & []).
  by exists s', n, t, claimed, outs.
Qed.
End Deployed.

(** ** A concrete worker *)

Definition demo_error_text : Error -> string := fun _ => "it failed".

(** A clock that has started. *)
Definition running_clock : Clock (World Z) :=
  MkClock (fun w => (MkWorld (w_db w) (w_env w + 1000), utc (Z.max 1 (w_env w)))).

Definition demo_worker_config : WorkerConfig (World Z) :=
  MkWorkerConfig (Some demo_store) None (Some demo_embedder) (Some demo_extractor) None 0 (Some running_clock)
    EmptyString 0 0 0 0.

Definition running_worker : Worker (World Z) :=
  MkWorker demo_store (pg_queue (fun _ => [])) demo_embedder (Some demo_extractor) (Some pg_facts) running_clock
    "host/1" 8 100 DefaultLeaseDuration DefaultPollInterval DefaultReclaimInterval
    [JobKindEncode; JobKindExtract].

(** [NewWorker] builds it. *)
Example demo_new_worker : NewWorker demo_clock "host/1" demo_worker_config = Ok running_worker.
Proof. reflexivity. Qed.

Lemma running_deployed : deployed (fun _ => []) 2 demo_error_text running_worker.
Proof.
  split; try reflexivity.
  - intros s. split; [reflexivity|]. cbn. lia.
  - intros x req s H. injection H as <-. reflexivity.
  - split; vm_compute; reflexivity.
Qed.

Definition demo_pending : World Z := MkWorld demo_appended 9000.

Lemma DrainOnce_settles_witness :
  exists s' n, DrainOnce demo_error_text running_worker (fun _ => None) demo_pending = (s', (n, None)) /\
    sound s' /\ retains demo_appended (w_db s').
Proof.
  assert (0 <= w_batch running_worker) as Hb by (vm_compute; discriminate).
  assert (0 <= w_lease running_worker) as Hl by (vm_compute; discriminate).
  assert (Forall (fun k => JobKind_Valid k = true) (w_kinds running_worker)) as Hk by (repeat constructor).
  destruct (DrainOnce_settles (fun _ => []) 2 demo_error_text running_worker running_deployed demo_pending
    demo_appended_ok eq_refl Hb Hl Hk) as (s' & n & t & claimed & outs & H & Hok & Hr & _).
  exists s', n. split; [exact H|]. split; [exact Hok|exact Hr].
Defined.

(** The batch of the demonstration append is encoded and read for facts in one drain. *)
Example demo_drain : (DrainOnce demo_error_text running_worker (fun _ => None) demo_pending).2 = (2, None).
Proof. vm_compute. reflexivity. Qed.

Definition demo_encode_job : Job :=
  MkJob 3%N JobKindEncode "s" [1%N; 2%N] JobStateRunning 1 5 (utc 1) (utc 2) "host/1" "" (utc 1) (utc 1).

Lemma encode_completes_witness :
  exists s', encode running_worker demo_encode_job demo_pending = (s', Ok tt) /\ sound s'.
Proof.
  destruct (encode_completes (fun _ => []) 2 demo_error_text running_worker running_deployed demo_encode_job
    (db_episodes demo_appended) [demo_vector; demo_vector] demo_pending demo_pending
    (MkWorld demo_appended 10000) (utc 9000)) as (s' & H & Hok & _).
  - exact demo_appended_ok.
  - vm_compute. reflexivity.
  - vm_compute. reflexivity.
  - vm_compute. reflexivity.
  - refine (bool_decide_unpack _ _). vm_compute. exact I.
  - reflexivity.
  - vm_compute. reflexivity.
  - vm_compute. discriminate.
  - refine (bool_decide_unpack _ _). vm_compute. exact I.
  - vm_compute. reflexivity.
  - vm_compute. reflexivity.
  - repeat constructor; vm_compute; reflexivity.
  - reflexivity.
  - exists s'. split; [exact H|exact Hok].
Defined.
