(* ===== verification/Recalling.v ===== *)
(** * What recall does not miss

    The dual of [Memory.Recall_scoped]: an episode or a fact that a valid recall
    asks for is in its answer, unless the answer says it was truncated or the
    channel that ranks it was filled to the depth it was given. Over the adapter,
    it follows that what was appended is recalled. *)

From S2P Require Import Types Validate OpsTypes Fusion Server Db PgQueue Queueing PgEpisode Appending Replaying PgFact FactWriting FactReading PgForget PgEncoding PgSearch System Ports Memory Postgres Deployment.

#[local] Open Scope Z_scope.

(** ** An answer that is not truncated *)

Section Whole.
Context {W : Type}.
Implicit Types m : Memory W.

(** A loop that did not stop took everything. *)
Lemma spend_all {A B} (mk : A -> Z -> B) cost limit mx items st out tokens :
  spend mk cost limit mx items st = (out, tokens, false) ->
  st.2 = false /\ out = st.1.1 ++ map (fun x => mk x (cost x)) items.
Proof.
  revert st. induction items as [|x items IH]; intros [[out0 tokens0] tr]; cbn [spend map].
  { intros [= -> _ ->]. by rewrite app_nil_r. }
  destruct (limit <=? _); [done|]. destruct (_ && _); [done|].
  intros [H ->]%IH. cbn in *. by rewrite <- app_assoc.
Qed.

Lemma spend_facts_all m limit mx results out tokens :
  spend_facts m limit mx results = (out, tokens, false) ->
  out = map (fun f => MkRecalledFact f (fact_cost m f)) (concat (map cr_facts results)).
Proof.
  unfold spend_facts. revert out tokens. induction results as [|r results IH] using rev_ind; intros out tokens.
  { by intros [= <- _]. }
  rewrite foldl_app, map_app, concat_app, map_app. cbn [foldl map concat]. rewrite app_nil_r.
  intros [Htr ->]%spend_all. destruct (foldl _ _ results) as [[o t] tr]. cbn in *. subst tr.
  by rewrite (IH o t).
Qed.

Lemma assemble_all m scope as_of limit fact_limit mx results :
  let out := assemble m scope as_of limit fact_limit mx results in
  rec_truncated out = false ->
  map re_episode (rec_episodes out) = map re_episode (fuse results (m_fusion m)) /\
  map rf_fact (rec_facts out) = concat (map cr_facts results).
Proof.
  unfold assemble. destruct (spend_facts m fact_limit mx results) as [[facts tokens] tr] eqn:Hf.
  destruct (spend with_tokens _ _ _ _ _) as [[eps tokens'] tr'] eqn:He. cbn [rec_truncated rec_episodes rec_facts].
  intros ->. apply spend_all in He as [Htr ->]. cbn in Htr. subst tr. apply spend_facts_all in Hf as ->.
  rewrite !map_map. cbn [fst app]. rewrite map_map. by rewrite map_id.
Qed.

Lemma assemble_channels m scope as_of limit fact_limit mx results :
  rec_channels (assemble m scope as_of limit fact_limit mx results) = map report results.
Proof.
  unfold assemble. destruct (spend_facts _ _ _ _) as [[? ?] ?]. by destruct (spend _ _ _ _ _ _) as [[? ?] ?].
Qed.

(** The slot of a channel that was run. *)
Lemma answers_elem m req elapsed w as_of ch :
  ch ∈ resolveChannels m (rr_channels req) ->
  exists i, slot m (make_plan m req as_of) elapsed w i ch ∈ answers_of m req elapsed w as_of.
Proof.
  intros (i & Hi)%list_elem_of_lookup. exists i. unfold answers_of. apply (list_elem_of_lookup_2 _ i).
  by rewrite list_lookup_imap, Hi.
Qed.

Lemma answers_slot m req elapsed w as_of r :
  r ∈ answers_of m req elapsed w as_of -> exists i ch, r = slot m (make_plan m req as_of) elapsed w i ch.
Proof.
  intros (i & Hi)%list_elem_of_lookup. unfold answers_of in Hi. rewrite list_lookup_imap in Hi.
  apply fmap_Some in Hi as (ch & _ & ->). by exists i, ch.
Qed.

(** One channel that answered makes the recall answer. *)
Lemma allFailed_one results r : r ∈ results -> cr_err r = None -> allFailed results = None.
Proof.
  intros Hr He. pose proof (allFailed_spec results) as H. destruct (allFailed results); [|done].
  destruct H as (H & _); [by destruct results; [apply not_elem_of_nil in Hr|]|]. by destruct (H r Hr).
Qed.

(** The limits of a valid request are positive. *)
Lemma valid_limits m req :
  RecallRequest_Validate req = Ok tt -> 0 < recall_depth m req /\ 0 < recall_fact_limit req.
Proof.
  unfold RecallRequest_Validate. rewrite !seq_Ok, !reject_Ok_tt, !Z.ltb_ge. intros H.
  unfold recall_depth, recall_fact_limit, DefaultCandidatesPerChannel, DefaultFactLimit.
  destruct (Z.eqb_spec (rr_candidates req) 0), (Z.eqb_spec (rr_fact_limit req) 0); lia.
Qed.
End Whole.

(** ** Completeness, against the promises of the ports *)

Section Complete.
Context {W : Type} (Inv : W -> Prop) (ts : Z -> Z) (log : W -> list Episode) (known : W -> list Fact).
Context (finds : string -> string -> bool).
Context (answerable : W -> LexicalQuery -> Prop) (queryable : W -> FactQuery -> Prop) (m : Memory W).
Context `{!SearchSpec Inv ts log (m_store m)} `{!CompleteSearch Inv ts log finds answerable (m_store m)}.
Context (Hfacts : forall f, m_facts m = Some f -> FactsSpec Inv ts known f).
Context (Hlisted : forall f, m_facts m = Some f -> CompleteFacts Inv ts known queryable f).
Context (Hclock : forall w, Inv w -> Inv (Now (m_clock m) w).1).
Context (Hreads : reads_only m).

(** What the lexical channel asks. *)
Definition lexical_query (plan : recallPlan) : LexicalQuery := MkLexicalQuery (pl_episodes plan) (pl_text plan).

(** A channel contributed as much as it was asked for: its depth was used up. *)
Definition filled (out : Recollection) (ch : Channel) (depth : Z) : Prop :=
  exists rep, rep ∈ rec_channels out /\ rep_channel rep = ch /\ rep_candidates rep = depth.

(** Shown, or accounted for. *)
Definition shown (out : Recollection) (ch : Channel) (depth : Z) (here : Prop) : Prop :=
  here \/ rec_truncated out = true \/ filled out ch depth.

(** What one channel found, of episodes an id names, fusion keeps. *)
Lemma fuse_keeps req elapsed w as_of r c :
  Inv w -> r ∈ answers_of m req elapsed w as_of -> cr_err r = None -> c ∈ cr_candidates r ->
  cand_episode c ∈ map re_episode (fuse (answers_of m req elapsed w as_of) (m_fusion m)).
Proof using All.
  intros Hw Hr He Hc. set (results := answers_of m req elapsed w as_of) in *.
  assert (forall r c, r ∈ results -> c ∈ cr_candidates r -> cand_episode c ∈ log w) as Hlog.
  { intros r0 c0 (i & ch & ->)%answers_slot Hc0.
    pose proof (slot_visible Inv ts log known m Hfacts Hclock Hreads (make_plan m req as_of) elapsed w i ch Hw)
      as [H _]. by apply H. }
  destruct (fuse_correct results (m_fusion m)) as (_ & _ & Hids).
  assert (ep_id (cand_episode c) ∈ map re_id (fuse results (m_fusion m))) as (re & Hid & Hre)%list_elem_of_fmap.
  { apply Hids. exists r. split; [done|]. split; [done|]. by apply (list_elem_of_fmap_2 cand_id). }
  apply list_elem_of_fmap. exists re. split; [|done].
  destruct (fuse_from _ _ _ Hre) as (r' & c' & Hr' & _ & Hc' & Heq). unfold re_id in Hid.
  rewrite Heq in Hid |- *.
  apply (cs_keyed w); [done|exact (Hlog r c Hr Hc)|exact (Hlog r' c' Hr' Hc')|done].
Qed.

(** The lexical channel of an answerable recall. *)
Lemma lexical_slot plan elapsed w i :
  Inv w -> answerable w (lexical_query plan) -> 0 < cq_limit (pl_episodes plan) ->
  let r := slot m plan elapsed w i ChannelLexical in
  cr_err r = None /\
  forall e, e ∈ log w -> visible ts (pl_episodes plan) e -> finds (pl_text plan) (ep_content e) = true ->
    e ∈ map cand_episode (cr_candidates r) \/ rep_candidates (report r) = cq_limit (pl_episodes plan).
Proof using All.
  intros Hw Ha Hl. destruct (cs_lexical (lexical_query plan) w Hw Ha Hl) as (cands & Hs & Hall).
  assert (slot m plan elapsed w i ChannelLexical = MkChannelResult ChannelLexical cands [] (elapsed i) None) as ->.
  { unfold slot, run_slot. change (runChannel m ChannelLexical plan)
      with (let! c := s_SearchLexical (m_store m) (lexical_query plan) in oret (c, @nil Fact)).
    unfold obind. by rewrite Hs. }
  split; [done|]. intros e He Hv Hf. cbn [cr_candidates report rep_candidates cr_facts length].
  destruct (Hall e He Hv Hf) as [?|Hn]; [by left|right]. by rewrite Z.add_0_r.
Qed.

Lemma fact_slot f plan elapsed w i :
  m_facts m = Some f -> Inv w -> queryable w (pl_facts plan) -> 0 < fq_limit (pl_facts plan) ->
  fq_predicates (pl_facts plan) = [] ->
  let r := slot m plan elapsed w i ChannelFact in
  forall x, x ∈ known w -> current ts (pl_facts plan) x -> sure (pl_facts plan) x -> 0 <= t_ns (v_from (f_valid x)) ->
    x ∈ cr_facts r \/ rep_candidates (report r) = fq_limit (pl_facts plan).
Proof using All.
  intros Hm Hw Hq Hl Hp. pose proof (Hlisted f Hm). destruct (cf_listed (pl_facts plan) w Hw Hq Hl Hp) as (facts & Hs & Hall).
  assert (slot m plan elapsed w i ChannelFact = MkChannelResult ChannelFact [] facts (elapsed i) None) as ->.
  { unfold slot, run_slot, runChannel. change (String.eqb ChannelFact ChannelSemantic) with false.
    change (String.eqb ChannelFact ChannelLexical) with false. change (String.eqb ChannelFact ChannelFact) with true.
    cbv iota. rewrite Hm. unfold obind. by rewrite Hs. }
  intros r x Hk Hc Hsu Hf. exact (Hall x Hk Hc Hsu Hf).
Qed.

(** A report of a channel that was run is in the recollection. *)
Lemma report_filled req elapsed w as_of limit fact_limit ch i depth :
  let results := answers_of m req elapsed w as_of in
  let r := slot m (make_plan m req as_of) elapsed w i ch in
  r ∈ results -> rep_candidates (report r) = depth ->
  filled (assemble m (rr_scope req) as_of limit fact_limit (rr_max_tokens req) results) ch depth.
Proof.
  intros results r Hr Hd. exists (report r). rewrite assemble_channels.
  split; [by apply list_elem_of_fmap_2|]. split; [apply slot_channel|done].
Qed.

Lemma Recall_misses_nothing sched elapsed req w :
  sched ≡ₚ seq 0 (length (resolveChannels m (rr_channels req))) -> Inv w ->
  RecallRequest_Validate req = Ok tt -> ChannelLexical ∈ resolveChannels m (rr_channels req) ->
  let w1 := (cut m req w).1 in
  let plan := make_plan m req (cut m req w).2 in
  answerable w1 (lexical_query plan) ->
  exists out, Recall m sched elapsed None req w = (w1, Ok out) /\
    (forall e, e ∈ log w1 -> visible ts (pl_episodes plan) e -> finds (rr_query req) (ep_content e) = true ->
       shown out ChannelLexical (recall_depth m req) (e ∈ map re_episode (rec_episodes out))) /\
    (forall f x, m_facts m = Some f -> ChannelFact ∈ resolveChannels m (rr_channels req) ->
       queryable w1 (pl_facts plan) -> x ∈ known w1 -> current ts (pl_facts plan) x -> sure (pl_facts plan) x ->
       0 <= t_ns (v_from (f_valid x)) ->
       shown out ChannelFact (recall_fact_limit req) (x ∈ map rf_fact (rec_facts out))).
Proof using All.
  intros Hp Hw Hv Hlex. rewrite Recall_run by done.
  assert (Inv (cut m req w).1) as Hw1 by (unfold cut; destruct (IsZero _); [by apply Hclock|done]).
  destruct (cut m req w) as [w1 as_of]. cbn [fst snd] in *. cbv zeta. intros Ha.
  set (results := answers_of m req elapsed w1 as_of). destruct (valid_limits m req Hv) as [Hd Hfl].
  destruct (answers_elem m req elapsed w1 as_of _ Hlex) as (i & Hi).
  destruct (lexical_slot (make_plan m req as_of) elapsed w1 i Hw1 Ha Hd) as [Herr Hall].
  rewrite (allFailed_one results _ Hi Herr). eexists. split; [done|].
  set (out := assemble _ _ _ _ _ _ _).
  destruct (rec_truncated out) eqn:Htr; [split; intros; right; by left|].
  destruct (assemble_all m _ _ _ _ _ _ Htr) as [Heps Hfs]. fold results out in Heps, Hfs. split.
  - intros e He Hvis Hf. destruct (Hall e He Hvis Hf) as [(c & -> & Hc)%list_elem_of_fmap|Hn].
    + left. rewrite Heps. by eapply fuse_keeps.
    + right. right. by eapply report_filled.
  - intros f x Hm Hch Hq Hk Hc Hs Hfrom. destruct (answers_elem m req elapsed w1 as_of _ Hch) as (j & Hj).
    destruct (fact_slot f (make_plan m req as_of) elapsed w1 j Hm Hw1 Hq Hfl eq_refl x Hk Hc Hs Hfrom) as [Hx|Hn].
    + left. rewrite Hfs. apply list_elem_of_In, in_concat. eexists.
      split; [apply list_elem_of_In, (list_elem_of_fmap_2 cr_facts), Hj|by apply list_elem_of_In].
    + right. right. by eapply report_filled.
Qed.
(** C15: recall misses nothing without saying so: the dual of never crossing its
    cuts. Over stores that keep the promises of their ports, a valid recall that
    runs the lexical channel with a query the store can answer is answered,
    whatever the other channels do; every episode of the log that the request may
    see and that its text finds is in the recollection, unless the recollection
    says it was truncated or the report of the channel counts as many candidates
    as the recall's depth; and every fact the request asks about is in it, unless
    it says so or the fact channel's report counts as many as the fact limit. *)
Theorem Recall_complete sched elapsed req w :
  sched ≡ₚ seq 0 (length (resolveChannels m (rr_channels req))) -> Inv w ->
  RecallRequest_Validate req = Ok tt -> ChannelLexical ∈ resolveChannels m (rr_channels req) ->
  let w1 := (cut m req w).1 in
  let plan := make_plan m req (cut m req w).2 in
  answerable w1 (lexical_query plan) ->
  exists out, Recall m sched elapsed None req w = (w1, Ok out) /\
    (forall e, e ∈ log w1 -> visible ts (pl_episodes plan) e -> finds (rr_query req) (ep_content e) = true ->
       shown out ChannelLexical (recall_depth m req) (e ∈ map re_episode (rec_episodes out))) /\
    (forall f x, m_facts m = Some f -> ChannelFact ∈ resolveChannels m (rr_channels req) ->
       queryable w1 (pl_facts plan) -> x ∈ known w1 -> current ts (pl_facts plan) x -> sure (pl_facts plan) x ->
       0 <= t_ns (v_from (f_valid x)) ->
       shown out ChannelFact (recall_fact_limit req) (x ∈ map rf_fact (rec_facts out))).
Proof using All. apply Recall_misses_nothing. Qed.
End Complete.

(** ** Over the adapter *)

Section Adapter.
Context `{Sv : Server} `{!ServerLaws Sv} {E : Type}.
Implicit Types w : World E.

(** A valid request of storable text makes a query the adapter answers. *)
Lemma recall_searchable (m : Memory (World E)) rr as_of w :
  db_ready (w_db w) = true -> RecallRequest_Validate rr = Ok tt -> t_ns as_of <> 0 ->
  pg_text (rr_query rr) = true -> query_binding_text (pl_episodes (make_plan m rr as_of)) = true ->
  pg_searchable w (lexical_query (make_plan m rr as_of)).
Proof.
  intros Hready Hv Hz Ht Hb. split; [done|]. split; [|done]. pose proof (valid_limits m rr Hv) as [Hd _].
  revert Hv. unfold RecallRequest_Validate. rewrite !seq_Ok, !reject_Ok_tt.
  intros (Hsc & Hq & _ & _ & Hroles & _ & _ & _ & _ & _ & _ & Hwin & Hbind).
  unfold validateLexical, validateChannelQuery. rewrite !seq_Ok, !reject_Ok_tt. cbn.
  rewrite Binding_Clone_id. split; [|by apply bool_decide_eq_false, is_empty_false in Hq].
  split; [done|]. split; [by apply IsZero_neq|]. split; [by apply Z.ltb_ge, Z.lt_le_incl|]. done.
Qed.

(** An episode read back is a row of the log. *)
Lemma Episode_get_row scope id d d' e :
  Episode_get scope id d = (d', Ok e) -> db_ok d ->
  exists r, r ∈ db_episodes d /\ er_scope r = scope /\ er_id r = id /\ e = episode_of r.
Proof.
  intros Hg Hok. unfold Episode_get in Hg. rewrite obind_olift in Hg.
  destruct (ScopeID_Validate scope); [|done]. rewrite obind_olift in Hg.
  destruct (reject _ _); [|done]. unfold omap_err, on_schema in Hg. destruct (db_ready _); [|done].
  rewrite query_row_find in Hg. destruct (List.find _ _) as [r|] eqn:Hf; [|done]. cbn in Hg.
  apply find_elem in Hf as [Hr [Hs%String.eqb_eq Hid%N.eqb_eq]%andb_true_iff].
  rewrite (scanEpisode_ok d r Hok Hr) in Hg. injection Hg as _ <-. by exists r.
Qed.

Lemma append_ready (now : Time) reqs jobs d d' r :
  db_ok d -> Z.of_nat (length reqs) <= MaxAppendBatch ->
  PgEpisode.Append (MkAppendCommand (map (new_episode now) reqs) jobs) d = (d', Ok r) -> db_ready d' = true.
Proof.
  intros Hok Hlen Happ.
  assert (Z.of_nat (length (ac_episodes (MkAppendCommand (map (new_episode now) reqs) jobs))) < 2 ^ 31) as Hl
    by (cbn; rewrite length_map; unfold MaxAppendBatch in Hlen; lia).
  by destruct (Append_written _ _ _ _ Hok Hl Happ) as (_ & rows & js & _ & _ & [_ _ _ _ _ _ _ _ (_ & _ & _ & ?) _] & _).
Qed.

Section Appended.
Context (locked : E -> list JobID) (dims : Z) (m : Memory (World E)).
Context (Hstore : m_store m = pg_store locked dims).
Context (Hfacts : forall f, m_facts m = Some f -> f = pg_facts).
Context (Hreads : reads_only m).
Context (Hclock : forall w, w_db (Now (m_clock m) w).1 = w_db w).

Lemma cut_db rr w : w_db (cut m rr w).1 = w_db w.
Proof using Hclock. unfold cut. by destruct (IsZero _). Qed.

(** What a recall over the adapter misses. *)
Lemma pg_misses_nothing sched elapsed rr w :
  sched ≡ₚ seq 0 (length (resolveChannels m (rr_channels rr))) -> sound w ->
  RecallRequest_Validate rr = Ok tt -> ChannelLexical ∈ resolveChannels m (rr_channels rr) ->
  let plan := make_plan m rr (cut m rr w).2 in
  pg_searchable w (lexical_query plan) ->
  exists out, Recall m sched elapsed None rr w = ((cut m rr w).1, Ok out) /\
    forall e, e ∈ pg_log w -> visible pg_ts (pl_episodes plan) e -> pg_match (rr_query rr) (ep_content e) = true ->
       shown out ChannelLexical (recall_depth m rr) (e ∈ map re_episode (rec_episodes out)).
Proof using All.
  intros Hp Hok Hv Hlex plan Ha.
  assert (SearchSpec sound pg_ts pg_log (m_store m)) by (rewrite Hstore; apply _).
  assert (CompleteSearch sound pg_ts pg_log pg_match pg_searchable (m_store m)) by (rewrite Hstore; apply _).
  destruct (Recall_misses_nothing sound pg_ts pg_log pg_known pg_match pg_searchable pg_queryable m)
    with (sched := sched) (elapsed := elapsed) (req := rr) (w := w) as (out & Hrun & He & _); try done.
  - intros f Hf. rewrite (Hfacts f Hf). apply _.
  - intros f Hf. rewrite (Hfacts f Hf). apply _.
  - intros w' Hw'. unfold sound. by rewrite Hclock.
  - unfold pg_searchable in *. by rewrite cut_db.
  - exists out. split; [done|]. intros e Hin. apply He. unfold pg_log in *. by rewrite cut_db.
Qed.

(** What a request asks of an episode, of the one an append at [now] makes of [req]. *)
Record suits (rr : RecallRequest) (now : Time) (req : AppendRequest) : Prop := {
  su_scope : rr_scope rr = ar_scope req;
  su_text : pg_match (rr_query rr) (ar_content req) = true;
  su_window : let occurred := t_ns (if IsZero (ar_occurred req) then now else ar_occurred req) in
    (t_ns (rr_occurred_from rr) <> 0 -> t_ns (rr_occurred_from rr) <= occurred) /\
    (t_ns (rr_occurred_to rr) <> 0 -> occurred <= t_ns (rr_occurred_to rr));
  su_binding : Binding_entries (rr_binding rr) ⊆ Binding_entries (ar_binding req);
  su_role : rr_roles rr = [] \/ ar_role req ∈ rr_roles rr;
}.

(** What was stored for it is in the recall's sight, from the append on. *)
Lemma suited_visible rr now req e as_of :
  suits rr now req -> ep_scope e = ar_scope req -> ep_role e = ar_role req ->
  ep_occurred e = UTC (if IsZero (ar_occurred req) then now else ar_occurred req) -> ep_ingested e = UTC now ->
  Binding_entries (ep_binding e) = Binding_entries (ar_binding req) -> t_ns now <= t_ns as_of ->
  visible pg_ts (pl_episodes (make_plan m rr as_of)) (stored e).
Proof using ServerLaws0.
  intros [Hsc _ [Hfrom Hto] Hbind Hroles] Hes Her Hocc Hing Hb Hcut.
  unfold visible, stored, make_plan. cbn [pl_episodes cq_scope cq_as_of cq_occurred_from cq_occurred_to cq_binding
    cq_roles ep_scope ep_ingested ep_occurred ep_binding ep_role]. rewrite Binding_Clone_id, Hb, Hocc, Hing, Her, Hes, Hsc.
  split; [done|]. split; [by apply pg_ts_mono|]. split; [intros ?; apply pg_ts_mono; by apply Hfrom|].
  split; [intros ?; apply pg_ts_mono; by apply Hto|]. split; [|done].
  unfold Binding_entries at 2. case_bool_decide as He; [|done]. by rewrite He in Hbind.
Qed.

(** C8: what was appended is recalled. After [AppendBatch] returned over the adapter,
    and whatever writes to the database since, so long as no erasure names the
    episode or takes its scope: every valid recall of the scope that runs the lexical
    channel, at the clock or at any cut no earlier than the append, whose text
    matches an appended content and whose window, binding and roles let it through,
    answers, whatever the other channels do, and shows that very episode; unless the
    answer says it was truncated, or the channel used up the depth it was given. *)
Theorem appended_recalled reqs i req w w1 now scope :
  sound w -> db_ready (w_db w) = true -> Now (m_clock m) w = (w1, now) -> 0 < t_ns now ->
  Z.of_nat (length reqs) <= MaxAppendBatch ->
  Forall (fun r => AppendRequest_Validate r = Ok tt /\ ar_scope r = scope) reqs ->
  batch_texts now reqs = true -> reqs !! i = Some req ->
  exists w2 eps e, AppendBatch m reqs w = (w2, Ok eps) /\ eps !! i = Some e /\
    ep_scope e = scope /\ ep_content e = ar_content req /\
    forall w3 rr sched elapsed,
      reachable (spares scope (ep_id e)) (w_db w2) (w_db w3) ->
      sched ≡ₚ seq 0 (length (resolveChannels m (rr_channels rr))) -> RecallRequest_Validate rr = Ok tt ->
      ChannelLexical ∈ resolveChannels m (rr_channels rr) -> suits rr now req ->
      pg_text (rr_query rr) = true -> query_binding_text (pl_episodes (make_plan m rr (cut m rr w3).2)) = true ->
      t_ns now <= t_ns (cut m rr w3).2 ->
      exists out, Recall m sched elapsed None rr w3 = ((cut m rr w3).1, Ok out) /\
        shown out ChannelLexical (recall_depth m rr) (stored e ∈ map re_episode (rec_episodes out)).
Proof using All.
  intros Hok Hready Hnow Hpos Hlen Hall Htexts Hi.
  assert (w_db w1 = w_db w) as Hdb by (pose proof (Hclock w) as H; by rewrite Hnow in H).
  assert (reqs <> []) as Hne by (by intros ->). assert (t_ns now <> 0) as Hnz by lia.
  destruct (AppendBatch_run locked dims m reqs w w1 now scope) as (d' & r & Hrun & Happ & Hst & _); [done..|].
  destruct Hst as [Hok' _ Heach _].
  destruct (Heach i req Hi) as (e & He & Hsc & _ & Hcon & Hrole & Hocc & Hing & Hbind & Hget).
  exists (MkWorld d' (w_env w1)), (res_episodes r), e. do 4 (split; [done|]).
  intros w3 rr sched elapsed Hreach Hp Hv Hlex Hsuits Ht Hb Hcut.
  pose proof (append_ready _ _ _ _ _ _ Hok Hlen Happ) as Hready'.
  destruct (Episode_get_row _ _ _ _ _ Hget Hok') as (row & Hrow & Hrs & Hrid & Hst).
  destruct (spared_stays scope (ep_id e) d' (w_db w3) row Hok' Hready' Hreach Hrow Hrs Hrid) as (Hok3 & Hready3 & Hrow3).
  assert (stored e ∈ pg_log w3) as Hlog by (rewrite Hst; by apply list_elem_of_fmap_2).
  assert (pg_searchable w3 (lexical_query (make_plan m rr (cut m rr w3).2))) as Ha by (apply recall_searchable; [done..|lia|done|done]).
  destruct (pg_misses_nothing sched elapsed rr w3 Hp Hok3 Hv Hlex Ha) as (out & Hrec & Hshow).
  exists out. split; [done|]. assert (ar_scope req = scope) as Hq.
  { rewrite Forall_forall in Hall. apply Hall. by eapply list_elem_of_lookup_2. }
  apply Hshow; [done| |cbn [stored ep_content]; rewrite Hcon; apply Hsuits].
  apply (suited_visible rr now req); try done. congruence.
Qed.
End Appended.
End Adapter.

(** ** A concrete recall *)

Lemma demo_lexical_run : ChannelLexical ∈ resolveChannels demo_memory (rr_channels demo_recall).
Proof. right. left. Qed.

Lemma Recall_complete_witness :
  exists out, Recall demo_memory [2; 0; 1]%nat demo_elapsed None demo_recall demo_world = (demo_world, Ok out) /\
    forall e, e ∈ pg_log demo_world -> visible pg_ts (pl_episodes (make_plan demo_memory demo_recall (utc 9000))) e ->
      pg_match "first" (ep_content e) = true ->
      shown out ChannelLexical 50 (e ∈ map re_episode (rec_episodes out)).
Proof.
  assert (forall f, m_facts demo_memory = Some f -> FactsSpec sound pg_ts pg_known f) as Hf
    by (intros f [= <-]; apply pg_facts_spec).
  assert (forall f, m_facts demo_memory = Some f -> CompleteFacts sound pg_ts pg_known pg_queryable f) as Hl
    by (intros f [= <-]; apply pg_facts_complete).
  assert (forall w, sound w -> sound (Now (m_clock demo_memory) w).1) as Hc by (intros w Hw; exact Hw).
  assert (pg_searchable demo_world (lexical_query (make_plan demo_memory demo_recall (utc 9000)))) as Ha.
  { split; [vm_compute; reflexivity|]. split; [vm_compute; reflexivity|]. split; vm_compute; reflexivity. }
  assert (RecallRequest_Validate demo_recall = Ok tt) as Hv by (vm_compute; reflexivity).
  destruct (Recall_complete sound pg_ts pg_log pg_known pg_match pg_searchable pg_queryable demo_memory
    Hf Hl Hc demo_reads [2; 0; 1]%nat demo_elapsed demo_recall demo_world demo_sched demo_world_sound Hv
    demo_lexical_run Ha) as (out & H & He & _).
  exists out. split; [exact H|exact He].
Defined.

(** A request that is bound to a project, and the one that reads it back: as of its
    ingestion, in the window of its event time, under its binding, in its role. *)
Definition demo_binding : Binding := Some {["project" := "tea"]}%string.
Definition demo_bound : AppendRequest := MkAppendRequest "s" "third" RoleUser "ada" "chat" (utc 8000) demo_binding.
Definition demo_reread : RecallRequest :=
  MkRecallRequest "s" "third" (utc 9000) (utc 7000) (utc 8000) demo_binding [RoleUser] [] 0 0 0 f_zero [] 0.

(** Since then another episode was erased, and the queue purged. *)
Definition demo_since (d : Db) : Db :=
  run_sys (SQueue (QPurge (MkPurgeRequest (utc 9500) [] 0))) (run_sys (SForget (demo_forget [2%N])) d).

Lemma demo_bound_ids : map ep_id (match (AppendBatch demo_memory [demo_bound] demo_world).2 with Ok eps => eps | Err _ => [] end) = [7%N].
Proof. vm_compute. reflexivity. Qed.

Lemma appended_recalled_witness :
  exists w2 eps e out, AppendBatch demo_memory [demo_bound] demo_world = (w2, Ok eps) /\ eps !! 0%nat = Some e /\
    ep_content e = "third"%string /\
    Recall demo_memory [2; 0; 1]%nat demo_elapsed None demo_reread (MkWorld (demo_since (w_db w2)) 9500) =
      (MkWorld (demo_since (w_db w2)) 9500, Ok out) /\
    shown out ChannelLexical 50 (stored e ∈ map re_episode (rec_episodes out)).
Proof.
  assert (forall f, m_facts demo_memory = Some f -> f = pg_facts) as Hf by (intros f [= <-]; reflexivity).
  destruct (appended_recalled (fun _ => []) 2 demo_memory eq_refl Hf demo_reads (fun w => eq_refl) [demo_bound] 0
    demo_bound demo_world (MkWorld demo_encoded 10000) (utc 9000) "s") as (w2 & eps & e & H & He & _ & Hc & Hr).
  - exact demo_world_sound.
  - vm_compute. reflexivity.
  - reflexivity.
  - vm_compute. reflexivity.
  - vm_compute. discriminate.
  - repeat constructor.
  - vm_compute. reflexivity.
  - reflexivity.
  - assert (ep_id e = 7%N) as Hid.
    { pose proof demo_bound_ids as Hids. rewrite H in Hids. cbn [snd] in Hids.
      destruct eps as [|x eps]; [discriminate He|]. injection He as ->. cbn [map] in Hids. injection Hids as Hid _. exact Hid. }
    destruct (Hr (MkWorld (demo_since (w_db w2)) 9500) demo_reread [2; 0; 1]%nat demo_elapsed) as (out & Hout & Hshown).
    + rewrite Hid. apply reach_step; [apply reach_step; [apply reach_start|exact I|]|exact I|exact I].
      intros _. split; [discriminate|]. intros Hin%list_elem_of_singleton. discriminate Hin.
    + exact demo_sched.
    + vm_compute. reflexivity.
    + right. left.
    + split; [reflexivity|vm_compute; reflexivity|split; intros _; vm_compute; discriminate|reflexivity|right; left].
    + vm_compute. reflexivity.
    + vm_compute. reflexivity.
    + vm_compute. discriminate.
    + exists w2, eps, e, out. split; [exact H|]. split; [exact He|]. split; [exact Hc|]. split; [exact Hout|exact Hshown].
Defined.

(** *** A limit that goes unreported *)

(** What Ada liked at an instant at which she liked two things. *)
Definition demo_likes (limit : Z) : RecallRequest :=
  MkRecallRequest "s" "first" (utc 9000) zeroTime (utc 3000) None [] [] 0 0 limit f_zero [] 0.

Definition fact_summary (r : result Error Recollection) : option (list string * bool) :=
  match r with Ok out => Some (map (fun f => f_object (rf_fact f)) (rec_facts out), rec_truncated out) | Err _ => None end.

(** [Recollection.Truncated] is documented as reporting that a limit cut results. A
    fact limit never does: the store is asked for that many facts and no more, so
    the loop that would notice runs out first. *)
Example fact_limit_unreported :
  fact_summary (Recall demo_memory [2; 0; 1]%nat demo_elapsed None (demo_likes 2) demo_world).2 =
    Some (["milk"; "tea"]%string, false) /\
  fact_summary (Recall demo_memory [2; 0; 1]%nat demo_elapsed None (demo_likes 1) demo_world).2 =
    Some (["milk"%string], false).
Proof. split; vm_compute; reflexivity. Qed.
