(* ===== verification/Running.v ===== *)
(** * The consolidation loop, turn after turn ([Worker.Run] over its adapter)

    A deployed worker that runs among others: the rest of the deployment acts between
    its turns. What a crashed worker left leased is released within one reclaim
    interval of its expiry, and the loop does not spin: every turn that is followed
    by another at once has taken a job off the queue for good. *)

From S2P Require Import Types OpsTypes Validate Server Db PgQueue Queueing PgEpisode Appending Replaying PgFact FactWriting FactReading PgForget PgSearch Ports Memory Worker Postgres Deployment Consolidation.

#[local] Open Scope Z_scope.

(** ** Measures of a queue *)

Definition open_jobs (d : Db) : nat := length (List.filter inflight (db_jobs d)).
Definition open_ids (d : Db) : list JobID := map jr_id (List.filter inflight (db_jobs d)).

(** No lease that had run out at [t] is still held. *)
Definition unexpired (t : Z) (d : Db) : Prop := forall r, r ∈ db_jobs d -> expired t r = false.

Lemma elem_of_open_ids d id :
  id ∈ open_ids d <-> exists r, r ∈ db_jobs d /\ inflight r = true /\ jr_id r = id.
Proof. unfold open_ids. rewrite list_elem_of_fmap. setoid_rewrite elem_of_filter_b. naive_solver. Qed.

Section Queue.
Context `{Sv : Server} `{!ServerLaws Sv}.

Lemma open_jobs_drop d d' dones :
  jobs_ok d -> jobs_ok d' -> NoDup dones ->
  (forall id, id ∈ open_ids d' -> id ∉ dones /\ id ∈ open_ids d) ->
  (forall id, id ∈ dones -> id ∈ open_ids d) ->
  (open_jobs d' + length dones <= open_jobs d)%nat.
Proof.
  intros Hok Hok' Hnd Hleft Hdone.
  assert (open_ids d' ++ dones ⊆+ open_ids d) as Hsub.
  { apply NoDup_submseteq.
    - apply NoDup_app. split; [apply NoDup_map_filter, (jo_ids d' Hok')|]. split; [|done].
      intros id Hid. by apply Hleft.
    - intros id [Hid|Hid]%elem_of_app; [by apply Hleft|by apply Hdone]. }
  apply submseteq_length in Hsub. unfold open_ids in Hsub. rewrite length_app, !length_map in Hsub. exact Hsub.
Qed.

Lemma follows_retains step d d' : follows step d d' -> db_ok d -> retains d d'.
Proof.
  intros Hf Hok. pose proof (follows_ok step d d' Hf Hok) as Hok'.
  destruct (Hf (ok_jobs d Hok)) as [_ [_ _ [Hrest _]]]. split; [done|..]; rewrite <- Hrest; by destruct d'.
Qed.

(** Reclaiming releases, and opens nothing. *)
Lemma Reclaim_turn now d :
  db_ok d -> db_ready d = true -> IsZero now = false ->
  exists d', (Reclaim now d).1 = d' /\ retains d d' /\ unexpired (pg_ts (t_ns now)) d' /\
    (open_jobs d' <= open_jobs d)%nat.
Proof.
  intros Hok Hready Hz. pose proof (follows_retains _ _ _ (keeps_Reclaim now d) Hok) as Hret.
  destruct (Reclaim_spec now d (ok_jobs d Hok) Hready Hz) as (d' & Hrun & Hclear & _). rewrite Hrun in Hret |- *.
  cbn [fst] in Hret |- *. exists d'. split; [done|]. split; [done|]. split; [exact Hclear|].
  pose proof (open_jobs_drop d d' [] (ok_jobs d Hok) (ok_jobs _ (rt_ok _ _ Hret Hok)) NoDup_nil_2) as Hdrop.
  cbn [length] in Hdrop. rewrite Nat.add_0_r in Hdrop. apply Hdrop; [|by intros id ?%not_elem_of_nil].
  intros id Hid. split; [apply not_elem_of_nil|]. apply elem_of_open_ids in Hid as (r' & Hin & Hfl & <-).
  apply elem_of_open_ids. destruct (update_jobs_step d (expired (pg_ts (t_ns now))) (reclaim_row (pg_ts (t_ns now))))
    as (Hu & _ & _); [done|apply (ok_jobs d Hok)|intros r _ He%expired_running; by constructor|].
  unfold Reclaim in Hrun. rewrite obind_olift, Hz in Hrun. cbv beta iota delta [reject] in Hrun.
  unfold omap_err, obind in Hrun. rewrite Hu in Hrun. injection Hrun as <- _. cbn [db_jobs set_jobs] in Hin.
  apply elem_of_apply_update in Hin as (r & Hr & ->). exists r. split; [done|].
  destruct (expired _ r) eqn:He; [|done]. split; [|done]. apply expired_running in He. unfold inflight. by rewrite He.
Qed.
End Queue.

(** ** One turn *)

Section Turn.
Context `{Sv : Server} `{!ServerLaws Sv} {E : Type}.
Context (locked : E -> list JobID) (dims : Z) (error_text : Error -> string) (w : Worker (World E)).
Context (Hw : deployed locked dims error_text w).
Implicit Types s : World E.

(** What [NewWorker] leaves of a configuration it accepts. *)
Record settings : Prop := {
  st_batch : 0 <= w_batch w;
  st_lease : 0 <= w_lease w;
  st_poll : 0 < w_poll w;
  st_kinds : Forall (fun k => JobKind_Valid k = true) (w_kinds w);
}.
Context (Hs : settings).

(** A settled row is held by no one. *)
Lemma drained_state d' r o :
  drained w d' r o -> o.1 ∈ db_jobs d' /\ jr_id o.1 = jr_id r /\ jr_state o.1 <> JobStateRunning /\
  (o.2 = 0 \/ o.2 = 1 /\ inflight o.1 = false).
Proof using Type.
  intros (leased & [Hid _] & _ & [Hin [Hid' _] _ _ Hst]). split; [done|]. split; [congruence|].
  destruct Hst as [(-> & Hst & _)|(-> & Hst & _)]; rewrite Hst.
  - split; [done|]. right. split; [done|]. unfold inflight. by rewrite Hst.
  - split; [by destruct (exhausted leased)|by left].
Qed.

Definition done_ids (outs : list (JobRow * Z)) : list JobID :=
  map (fun o => jr_id o.1) (List.filter (fun o => o.2 =? 1) outs).

Lemma total_done_ids d' claimed outs :
  Forall2 (drained w d') claimed outs -> total_done outs = Z.of_nat (length (done_ids outs)).
Proof using Type.
  unfold total_done, done_ids. induction 1 as [|r o claimed outs Ho _ IH]; [done|]. cbn. rewrite IH.
  apply drained_state in Ho as (_ & _ & _ & [->|[-> _]]); cbn; lia.
Qed.

Lemma elem_of_done_ids d' claimed outs id :
  Forall2 (drained w d') claimed outs -> id ∈ done_ids outs ->
  (exists r, r ∈ claimed /\ jr_id r = id) /\ exists x, x ∈ db_jobs d' /\ jr_id x = id /\ inflight x = false.
Proof using Type.
  intros HF (o & -> & [Ho Hn%Z.eqb_eq]%elem_of_filter_b)%list_elem_of_fmap.
  apply list_elem_of_lookup in Ho as [i Hi]. destruct (Forall2_lookup_r _ _ _ _ _ HF Hi) as (r & Hr & Hd).
  apply drained_state in Hd as (Hin & Hid & _ & Hst). apply list_elem_of_lookup_2 in Hr.
  split; [by exists r|]. exists o.1. destruct Hst as [|[_ ?]]; [lia|done].
Qed.

Lemma done_ids_NoDup d' claimed outs :
  Forall2 (drained w d') claimed outs -> NoDup (map jr_id claimed) -> NoDup (done_ids outs).
Proof using Type.
  intros HF Hnd. assert (map (fun o => jr_id o.1) outs = map jr_id claimed) as Heq.
  { clear Hnd. induction HF as [|r o claimed outs Ho _ IH]; [done|]. cbn. rewrite IH.
    by apply drained_state in Ho as (_ & -> & _). }
  rewrite <- Heq in Hnd. unfold done_ids. apply NoDup_map_filter. exact Hnd.
Qed.

(** A drain takes the jobs it finishes off the queue for good, and opens none. *)
Lemma drain_turn s t :
  sound s -> db_ready (w_db s) = true ->
  exists s' n, DrainOnce error_text w (fun _ => None) s = (s', (n, None)) /\ sound s' /\
    retains (w_db s) (w_db s') /\ (unexpired t (w_db s) -> unexpired t (w_db s')) /\ 0 <= n /\
    Z.of_nat (open_jobs (w_db s')) + n <= Z.of_nat (open_jobs (w_db s)).
Proof using All.
  intros Hok Hready.
  destruct (DrainOnce_run locked dims error_text w Hw s Hok Hready (st_batch Hs) (st_lease Hs) (st_kinds Hs))
    as (s' & n & t' & claimed & outs & H & [Hok' Hret Hcl Hids _ _ HF -> _ Hback]).
  exists s', (total_done outs). split; [done|]. split; [done|]. split; [done|].
  assert (forall x, x ∈ map fst outs -> x ∈ db_jobs (w_db s') /\ jr_state x <> JobStateRunning /\
    exists r, r ∈ claimed /\ jr_id r = jr_id x) as Houts.
  { intros x (o & -> & Ho)%list_elem_of_fmap. apply list_elem_of_lookup in Ho as [i Hi].
    destruct (Forall2_lookup_r _ _ _ _ _ HF Hi) as (r & Hr & (Hin & Hid & Hst & _)%drained_state).
    split; [done|]. split; [done|]. exists r. split; [by eapply list_elem_of_lookup_2|done]. }
  split; [|split; [rewrite (total_done_ids _ _ _ HF); lia|]].
  { intros Hun x [Hx|[Hx _]]%Hback; [|by apply Hun]. apply Houts in Hx as (_ & Hst & _).
    apply not_true_is_false. by intros He%expired_running. }
  rewrite (total_done_ids _ _ _ HF). enough (open_jobs (w_db s') + length (done_ids outs) <= open_jobs (w_db s))%nat by lia.
  assert (forall r, r ∈ claimed -> jr_id r ∈ open_ids (w_db s)) as Hopen.
  { intros r Hr. destruct (Hcl r Hr) as (Hin & Hst & _). apply elem_of_open_ids. exists r.
    split; [done|]. split; [unfold inflight; by rewrite Hst|done]. }
  apply open_jobs_drop; [apply (ok_jobs _ Hok)|apply (ok_jobs _ Hok')|by eapply done_ids_NoDup| |].
  - intros id (x & Hx & Hfl & <-)%elem_of_open_ids. split.
    + intros Hd. destruct (elem_of_done_ids _ _ _ _ HF Hd) as (_ & y & Hy & Hid & Hf).
      assert (y = x) as ->; [|congruence]. by apply (jobs_ok_unique (w_db s') _ _ (ok_jobs _ Hok')).
    + apply Hback in Hx as [Hx|[Hx _]]; [|by apply elem_of_open_ids; exists x].
      apply Houts in Hx as (_ & _ & r & Hr & <-). by apply Hopen.
  - intros id Hd. destruct (elem_of_done_ids _ _ _ _ HF Hd) as ((r & Hr & <-) & _). by apply Hopen.
Qed.

(** ** A clock that does not go back *)

(** What the worker's clock would read. *)
Definition reading s : Z := t_ns (Now (w_clock w) s).2.
Definition later s s' : Prop := reading s <= reading s'.

#[local] Instance later_refl : Reflexive later.
Proof. intros s. unfold later. lia. Qed.
#[local] Instance later_trans : Transitive later.
Proof. intros s1 s2 s3. unfold later. lia. Qed.

(** Nothing the worker waits for turns it back, and the database has no part in it. *)
Record steady : Prop := {
  sd_now : forall s, later s (Now (w_clock w) s).1;
  sd_embed : forall texts s, later s (e_EmbedDocuments (w_embedder w) texts s).1;
  sd_extract : forall x req s, w_extractor w = Some x -> later s (x_Extract x req s).1;
  sd_apart : forall d d' env, reading (MkWorld d env) = reading (MkWorld d' env);
}.

Lemma on_db_later {A} (m : dbop A) : steady -> keeps later (on_db m).
Proof using Type.
  intros Hsd [d env]. unfold later, on_db. cbn [w_db w_env]. destruct (m d) as [d' r]. cbn [fst].
  by rewrite (sd_apart Hsd d d' env).
Qed.

Lemma now_later : steady -> keeps later (now (w_clock w)).
Proof using Type. intros Hsd s. pose proof (sd_now Hsd s) as H. unfold now. by destruct (Now (w_clock w) s). Qed.

Lemma absorb_later {A} (m : op Error (World E) A) : keeps later m -> keeps later (absorb m).
Proof using Type. intros H s. specialize (H s). unfold absorb. by destruct (m s) as [s' [a|e]]. Qed.

Lemma drain_job_later job : steady -> keeps later (drain_job error_text w job).
Proof using Hw.
  intros Hsd s. unfold drain_job.
  assert (keeps later (runJob w job)) as Hrun.
  { apply (runJob_keeps locked dims error_text w Hw); [apply _..|by apply now_later|intros texts s0; apply (sd_embed Hsd)| | |].
    - intros x req Hx s0. by apply (sd_extract Hsd).
    - intros enc. by apply on_db_later.
    - intros cmd. by apply on_db_later. }
  specialize (Hrun s). destruct (runJob w job s) as [s1 [[]|cause]]; cbn [fst] in Hrun; (etransitivity; [exact Hrun|]).
  - apply (keeps_bind later); [by apply now_later|]. intros t. apply (keeps_bind later); [|by intros [?|] s0].
    rewrite (dp_queue _ _ _ _ Hw). by apply absorb_later, on_db_later.
  - apply (keeps_bind later); [|by intros ? s0]. unfold reportFailure. apply (keeps_bind later); [by apply now_later|].
    intros t. apply (keeps_bind later); [|by intros ? s0]. rewrite (dp_queue _ _ _ _ Hw). by apply absorb_later, on_db_later.
Qed.

Lemma DrainOnce_later ctx s : steady -> later s (DrainOnce error_text w ctx s).1.
Proof using Hw.
  intros Hsd. unfold DrainOnce. rewrite (dp_queue _ _ _ _ Hw).
  match goal with |- context [obind ?m ?k s] => assert (keeps later (obind m k)) as Hl end.
  { apply (keeps_bind later); [by apply now_later|]. intros t s0. exact (on_db_later (Lease (locked (w_env s0)) _) Hsd s0). }
  specialize (Hl s). destruct (obind _ _ s) as [s1 [jobs|e]]; cbn [fst] in Hl; [|done].
  etransitivity; [exact Hl|]. clear Hl. generalize 0%nat as i, 0 as n. revert s1.
  induction jobs as [|job jobs IH]; intros s1 i n; cbn [drain_loop]; [by cbn|]. destruct (ctx i); [by cbn|].
  pose proof (drain_job_later job Hsd s1) as Hj. destruct (drain_job error_text w job s1) as [s2 [k|e]]; cbn [fst] in Hj;
    (etransitivity; [exact Hj|]); apply IH.
Qed.

(** ** A turn *)

(** When it last reclaimed is less than one interval behind its clock, and it takes a
    job off the queue whenever another turn follows at once. *)
Lemma turn_spec s last :
  sound s -> db_ready (w_db s) = true -> 0 < w_reclaim w ->
  exists s' last' wait,
    run_turn error_text w (fun _ => None) last s = (s', (last', wait)) /\ sound s' /\
    retains (w_db s) (w_db s') /\ (last' = last \/ last' = (Now (w_clock w) s).2) /\
    (unexpired (pg_ts (t_ns last)) (w_db s) -> unexpired (pg_ts (t_ns last')) (w_db s')) /\
    Sub (Now (w_clock w) s).2 last' < w_reclaim w /\ (steady -> later s s') /\
    (open_jobs (w_db s') + (if (wait =? 0)%Z then 1 else 0) <= open_jobs (w_db s))%nat.
Proof using All.
  intros Hok Hready Hrec. unfold run_turn. destruct (dp_clock _ _ _ _ Hw s) as [Hdb Ht].
  pose proof (fun H => sd_now H s) as Hl1.
  destruct (Now (w_clock w) s) as [s1 now]. cbn [fst snd] in Hdb, Ht, Hl1 |- *.
  set (due := w_reclaim w <=? Sub now last).
  assert (exists s2, (if due then (q_Reclaim (w_queue w) now s1).1 else s1) = s2 /\ retains (w_db s) (w_db s2) /\
    (unexpired (pg_ts (t_ns last)) (w_db s) -> unexpired (pg_ts (t_ns (if due then now else last))) (w_db s2)) /\
    (open_jobs (w_db s2) <= open_jobs (w_db s))%nat /\ (steady -> later s1 s2)) as (s2 & -> & Hret & Hun2 & Hopen & Hl2).
  { destruct due; [|exists s1; by rewrite Hdb]. pose proof (on_db_later (Reclaim now)) as Hl.
    destruct (Reclaim_turn now (w_db s) Hok Hready) as (d' & Hd & ? & ? & ?); [apply IsZero_neq; lia|].
    rewrite (dp_queue _ _ _ _ Hw). cbn [q_Reclaim pg_queue]. exists (on_db (Reclaim now) s1).1. split; [done|].
    assert (w_db (on_db (Reclaim now) s1).1 = d') as ->
      by (unfold on_db; rewrite Hdb; destruct (Reclaim now (w_db s)); exact Hd).
    do 3 (split; [done|]). intros Hsd. by apply Hl. }
  assert (sound s2) as Hok2 by (by apply (rt_ok _ _ Hret)).
  pose proof (DrainOnce_later (fun _ => None) s2) as Hl3.
  destruct (drain_turn s2 (pg_ts (t_ns (if due then now else last))) Hok2) as (s3 & n & Hd3 & Hok3 & Hret3 & Hun3 & Hn & Hopen3);
    [by rewrite (rt_ready _ _ Hret)|].
  rewrite Hd3 in Hl3 |- *.
  eexists _, _, _. split; [done|]. split; [done|]. split; [by transitivity (w_db s2)|]. split; [destruct due; [by right|by left]|].
  split; [by intros ?; apply Hun3, Hun2|]. split; [|split].
  - unfold due. destruct (Z.leb_spec (w_reclaim w) (Sub now last)); [|done]. unfold Sub, maxInt64. rewrite Z.sub_diag. lia.
  - intros Hsd. specialize (Hl1 Hsd). specialize (Hl2 Hsd). specialize (Hl3 Hsd). cbn [fst] in Hl3.
    by transitivity s1; [|transitivity s2].
  - pose proof (st_poll Hs). destruct (Z.ltb_spec 0 n); [rewrite Z.eqb_refl; lia|]. replace (w_poll w =? 0) with false by lia. lia.
Qed.

(** ** The loop *)

(** The rest of the deployment, between two turns: it keeps the database well formed
    and opens at most so many jobs. *)
Record neighbours (elsewhere : nat -> Duration -> World E -> World E) (arrivals : nat -> nat) : Prop := {
  nb_sound : forall i wait s, sound s -> db_ready (w_db s) = true ->
    sound (elsewhere i wait s) /\ db_ready (w_db (elsewhere i wait s)) = true;
  nb_open : forall i wait s, sound s -> db_ready (w_db s) = true ->
    (open_jobs (w_db (elsewhere i wait s)) <= open_jobs (w_db s) + arrivals i)%nat;
}.

(** It may lease, as other workers do, and drop what it leased, as a crashed one does:
    no lease it takes is over at the time it began. *)
Record honest (elsewhere : nat -> Duration -> World E -> World E) : Prop := {
  ho_later : forall i wait s, later s (elsewhere i wait s);
  ho_leases : forall i wait s r, sound s -> db_ready (w_db s) = true ->
    r ∈ db_jobs (w_db (elsewhere i wait s)) ->
    r ∈ db_jobs (w_db s) \/ expired (pg_ts (reading s)) r = false;
}.

(** What every turn leaves. *)
Definition turn_ok (t : Turn (World E)) : Prop :=
  sound (turn_world t) /\ db_ready (w_db (turn_world t)) = true /\ Sub (turn_now t) (turn_reclaimed t) < w_reclaim w.

Definition busy (t : Turn (World E)) : bool := turn_wait t =? 0.

Definition total (arrivals : nat -> nat) (i n : nat) : nat := foldr (fun k m => arrivals k + m)%nat 0%nat (seq i n).

Lemma total_none i n : total (fun _ => 0%nat) i n = 0%nat.
Proof. unfold total. revert i. by induction n; intros; cbn. Qed.

Lemma Run_turns fuel woken elsewhere arrivals i last s :
  neighbours elsewhere arrivals -> 0 < w_reclaim w -> sound s -> db_ready (w_db s) = true ->
  exists turns e, Run error_text fuel w woken (fun _ _ => None) elsewhere i last s = (turns, e) /\
    (length turns <= fuel)%nat /\ Forall turn_ok turns /\
    (forall k, (k < length turns)%nat -> woken (i + k)%nat = None) /\
    (e = None /\ length turns = fuel \/ (length turns < fuel)%nat /\ exists err, e = Some err /\ woken (i + length turns)%nat = Some err) /\
    (length (List.filter busy turns) <= open_jobs (w_db s) + total arrivals i (length turns))%nat.
Proof using All.
  intros Hnb Hrec. revert i last s. induction fuel as [|fuel IH]; intros i last s Hok Hready; cbn [Run].
  { exists [], None. split_and!; cbn; try lia; [done|constructor|by left]. }
  destruct (woken i) as [err|] eqn:Hwk.
  { exists [], (Some err). split_and!; cbn; try lia; [done|constructor|]. right. split; [lia|]. exists err. by rewrite Nat.add_0_r. }
  destruct (turn_spec s last Hok Hready Hrec) as (s' & last' & wait & -> & Hok' & Hret & _ & _ & Hgap & _ & Hopen).
  assert (db_ready (w_db s') = true) as Hready' by (by rewrite (rt_ready _ _ Hret)).
  destruct (nb_sound _ _ Hnb i wait s' Hok' Hready') as [Hok2 Hready2].
  destruct (IH (S i) last' (elsewhere i wait s') Hok2 Hready2) as (turns & e & -> & Hlen & Hall & Hwoken & Hend & Hbusy).
  eexists _, _. split; [done|]. cbn [length]. split_and!; [lia|by constructor| | |].
  - intros [|k] Hk; [by rewrite Nat.add_0_r|]. rewrite Nat.add_succ_r. apply Hwoken. lia.
  - destruct Hend as [[-> ->]|(Hlt & err & -> & Hw')]; [by left|]. right. split; [lia|]. exists err.
    split; [done|]. by rewrite Nat.add_succ_r.
  - pose proof (nb_open _ _ Hnb i wait s' Hok' Hready'). cbn [List.filter]. unfold busy at 1. cbn [turn_wait].
    unfold total in *. cbn [seq foldr]. destruct (Z.eqb_spec wait 0); cbn [length]; lia.
Qed.

Lemma expired_later t t' r : t <= t' -> expired t' r = false -> expired t r = false.
Proof.
  unfold expired. intros Ht. rewrite !andb_false_iff. intros [?|H]; [by left|right].
  destruct (jr_leased_until r); [|done]. apply Z.ltb_ge in H. apply Z.ltb_ge. lia.
Qed.

(** No turn ends with a lease that was over when the worker last reclaimed. *)
Lemma Run_releases fuel woken elsewhere arrivals i last s :
  neighbours elsewhere arrivals -> honest elsewhere -> steady -> 0 < w_reclaim w -> sound s -> db_ready (w_db s) = true ->
  unexpired (pg_ts (t_ns last)) (w_db s) -> t_ns last <= reading s ->
  Forall (fun t => unexpired (pg_ts (t_ns (turn_reclaimed t))) (w_db (turn_world t)))
    (Run error_text fuel w woken (fun _ _ => None) elsewhere i last s).1.
Proof using All.
  intros Hnb Hho Hsd Hrec. revert i last s. induction fuel as [|fuel IH]; intros i last s Hok Hready Hun Hlast; cbn [Run]; [constructor|].
  destruct (woken i); [constructor|].
  destruct (turn_spec s last Hok Hready Hrec) as (s' & last' & wait & -> & Hok' & Hret & Hwhich & Hun' & _ & Hl & _).
  specialize (Hun' Hun). specialize (Hl Hsd).
  assert (t_ns last' <= reading s') as Hlast' by (unfold later, reading in *; destruct Hwhich as [-> | ->]; lia).
  assert (db_ready (w_db s') = true) as Hready' by (by rewrite (rt_ready _ _ Hret)).
  destruct (nb_sound _ _ Hnb i wait s' Hok' Hready') as [Hok2 Hready2].
  specialize (IH (S i) last' (elsewhere i wait s') Hok2 Hready2).
  destruct (Run _ _ _ _ _ _ _ _ _) as [turns e]. constructor; [done|]. apply IH.
  - intros r [Hr|Hr]%(ho_leases _ Hho); [by apply Hun'| |done|done]. apply (expired_later _ (pg_ts (reading s'))); [by apply pg_ts_mono|done].
  - pose proof (ho_later _ Hho i wait s') as H. unfold later in H. lia.
Qed.

(** C17: a crashed worker's jobs come back. A worker that runs among others, which may
    lease jobs, finish them or die with them, and is told to stop only between its
    turns, returns exactly when it is, with the context's error. After each of its
    turns the database is well formed, and no job is left under a lease that had run
    out by the worker's last reclaim, which is less than one reclaim interval before
    the turn's clock: each such job is pending again, dead, or was run. Of the others
    it is asked that they keep the database well formed and take no lease that is
    already over, of the clock that it does not go back, and of the database it starts
    from that no lease in it ended before time zero. *)
Theorem Run_recovers fuel woken elsewhere arrivals s :
  neighbours elsewhere arrivals -> honest elsewhere -> steady -> 0 < w_reclaim w ->
  sound s -> db_ready (w_db s) = true -> unexpired (pg_ts 0) (w_db s) ->
  exists turns e, Run error_text fuel w woken (fun _ _ => None) elsewhere 0 zeroTime s = (turns, e) /\
    Forall (fun t => sound (turn_world t) /\ db_ready (w_db (turn_world t)) = true /\
      (forall r, r ∈ db_jobs (w_db (turn_world t)) -> expired (pg_ts (t_ns (turn_reclaimed t))) r = false) /\
      Sub (turn_now t) (turn_reclaimed t) < w_reclaim w) turns /\
    (forall k, (k < length turns)%nat -> woken k = None) /\
    (e = None /\ length turns = fuel \/ exists err, e = Some err /\ woken (length turns) = Some err).
Proof using All.
  intros Hnb Hho Hsd Hrec Hok Hready Hun.
  destruct (Run_turns fuel woken elsewhere arrivals 0 zeroTime s Hnb Hrec Hok Hready)
    as (turns & e & H & _ & Hall & Hwoken & Hend & _).
  assert (t_ns zeroTime <= reading s) as Hzero by (pose proof (dp_clock _ _ _ _ Hw s) as [_ ?]; unfold reading; cbn; lia).
  pose proof (Run_releases fuel woken elsewhere arrivals 0 zeroTime s Hnb Hho Hsd Hrec Hok Hready Hun Hzero) as Hrel.
  rewrite H in Hrel. cbn [fst] in Hrel. rewrite Forall_forall in Hall, Hrel.
  exists turns, e. split_and!; [done| |exact Hwoken|destruct Hend as [?|(_ & ?)]; [by left|by right]].
  apply Forall_forall. intros t Ht. destruct (Hall t Ht) as (? & ? & ?). split; [done|]. split; [done|]. split; [by apply Hrel|done].
Qed.

(** C18: the loop does not spin. However long a worker runs, the turns it follows
    with another at once, without waiting, number at most the jobs that were open
    when it started and those the rest of the deployment opened since: each of them
    has finished a job for good. With nothing arriving, it is waiting out its poll
    interval after that many turns. *)
Theorem Run_goes_idle fuel woken elsewhere arrivals s :
  neighbours elsewhere arrivals -> 0 < w_reclaim w -> sound s -> db_ready (w_db s) = true ->
  let turns := (Run error_text fuel w woken (fun _ _ => None) elsewhere 0 zeroTime s).1 in
  (length (List.filter (fun t => (turn_wait t =? 0)%Z) turns) <= open_jobs (w_db s) + total arrivals 0 (length turns))%nat.
Proof using All.
  intros Hnb Hrec Hok Hready turns.
  destruct (Run_turns fuel woken elsewhere arrivals 0 zeroTime s Hnb Hrec Hok Hready)
    as (turns' & e & H & _ & _ & _ & _ & Hbusy).
  unfold turns. rewrite H. exact Hbusy.
Qed.
End Turn.

(** ** A concrete loop *)

Lemma running_settings : settings running_worker.
Proof. split; [vm_compute; discriminate..|vm_compute; reflexivity|repeat constructor]. Qed.

(** Nobody else. *)
Definition alone : nat -> Duration -> World Z -> World Z := fun _ _ s => s.

Lemma alone_neighbours : neighbours alone (fun _ => 0%nat).
Proof. split; intros; [done|]. unfold alone. lia. Qed.

(** The context is done before the fourth turn. *)
Definition demo_woken (i : nat) : option Error := if (i <? 3)%nat then None else Some (EOther "canceled").

Lemma demo_unexpired : unexpired (pg_ts 0) demo_appended.
Proof.
  assert (forallb (fun r => negb (expired (pg_ts 0) r)) (db_jobs demo_appended) = true) as H by (vm_compute; reflexivity).
  intros r Hr. rewrite forallb_forall in H. apply negb_true_iff, H. by apply list_elem_of_In.
Qed.

(** The first turn does the work at hand, and the next two wait. *)
Example demo_run_waits :
  let r := Run demo_error_text 10 running_worker demo_woken (fun _ _ => None) alone 0 zeroTime demo_pending in
  (map turn_wait r.1, r.2) = ([0; DefaultPollInterval; DefaultPollInterval], Some (EOther "canceled")).
Proof. vm_compute. reflexivity. Qed.

(** *** A worker that crashes *)

(** Another worker, on the same clock, that takes a lease between any two turns and is
    never heard of again; two minutes pass. *)
Definition crasher_request (s : World Z) : LeaseRequest := MkLeaseRequest [] "w2" 1 Minute (utc (Z.max 1 (w_env s))).
Definition crasher : nat -> Duration -> World Z -> World Z := fun _ _ s =>
  MkWorld (Lease [] (crasher_request s) (w_db s)).1 (w_env s + 2 * Minute).

(** What it leaves is what was there, or a lease on what was pending. *)
Lemma crasher_run s :
  sound s -> db_ready (w_db s) = true -> let d' := (Lease [] (crasher_request s) (w_db s)).1 in
  db_ready d' = true /\
  forall r, r ∈ db_jobs d' -> r ∈ db_jobs (w_db s) \/
    exists r0, r0 ∈ db_jobs (w_db s) /\ jr_state r0 = JobStatePending /\ r = claim_row (crasher_request s) r0.
Proof.
  intros Hok Hready.
  assert (validateLease (crasher_request s) = Ok tt) as Hv.
  { assert (IsZero (utc (Z.max 1 (w_env s))) = false) as Hz by (apply IsZero_neq; cbn; lia).
    unfold validateLease, crasher_request. cbn [lr_worker lr_now lr_limit lr_duration lr_kinds]. by rewrite Hz. }
  destruct (Lease_run [] (crasher_request s) (w_db s) (ok_jobs _ Hok) Hready Hv) as [-> Hcl]; [by vm_compute|].
  split; [done|]. cbn [fst db_jobs set_jobs]. intros r (r0 & Hr0 & ->)%elem_of_apply_update.
  case_bool_decide as Hin; [right|by left]. destruct (Hcl r0 Hin) as (_ & Hst & _). by exists r0.
Qed.

Lemma crasher_neighbours : neighbours crasher (fun _ => 0%nat).
Proof.
  assert (forall i wait s, sound s -> sound (crasher i wait s)) as Hsound.
  { intros i wait s Hok. unfold crasher, sound. cbn [w_db]. by eapply follows_ok; [apply keeps_Lease|]. }
  split; intros i wait s Hok Hready; [split; [by apply Hsound|by apply crasher_run]|].
  pose proof (open_jobs_drop (w_db s) (w_db (crasher i wait s)) [] (ok_jobs _ Hok) (ok_jobs _ (Hsound i wait s Hok)) NoDup_nil_2) as Hd.
  cbn [length] in Hd. rewrite Nat.add_0_r in Hd |- *. apply Hd; [|by intros id ?%not_elem_of_nil].
  intros id (x & Hx & Hfl & <-)%elem_of_open_ids. split; [apply not_elem_of_nil|]. apply elem_of_open_ids.
  destruct (crasher_run s Hok Hready) as [_ Hrows]. destruct (Hrows x Hx) as [?|(r0 & Hin & Hst & ->)]; [by exists x|].
  exists r0. split; [done|]. split; [|done]. unfold inflight. by rewrite Hst.
Qed.

(** A worker that takes one job at a time, and reads the clock the other one does. *)
Definition single_worker : Worker (World Z) :=
  MkWorker demo_store (pg_queue (fun _ => [])) demo_embedder (Some demo_extractor) (Some pg_facts) running_clock
    "host/1" 1 100 DefaultLeaseDuration DefaultPollInterval DefaultReclaimInterval
    [JobKindEncode; JobKindExtract].

Lemma single_deployed : deployed (fun _ => []) 2 demo_error_text single_worker.
Proof. destruct running_deployed. by split. Qed.
Lemma single_settings : settings single_worker.
Proof. split; [vm_compute; discriminate..|vm_compute; reflexivity|repeat constructor]. Qed.

Lemma single_steady : steady single_worker.
Proof.
  split; [intros s; unfold later, reading; cbn; lia|intros texts s; apply Z.le_refl| |done].
  intros x req s [= <-]. apply Z.le_refl.
Qed.

Lemma crasher_honest : honest single_worker crasher.
Proof.
  split.
  - intros i wait s. unfold later, reading, crasher. cbn. unfold Minute, Second, Millisecond. lia.
  - intros i wait s r Hok Hready Hr. destruct (crasher_run s Hok Hready) as [_ Hrows].
    destruct (Hrows r Hr) as [?|(r0 & _ & _ & ->)]; [by left|right]. unfold expired, claim_row. cbn [jr_state lease_row jr_leased_until].
    rewrite String.eqb_refl. cbn [andb]. apply Z.ltb_ge, pg_ts_mono. unfold reading. cbn. change (Minute =? 0) with false. unfold Minute, Second, Millisecond. lia.
Qed.

(** The first turn takes one of the two jobs; the other worker takes the second and
    dies; the second turn finds its lease over, takes the job and does it. *)
Definition job_states (d : Db) : list (JobState * option WorkerID) := map (fun r => (jr_state r, jr_leased_by r)) (db_jobs d).

Example demo_run_recovers :
  let turns := (Run demo_error_text 2 single_worker (fun _ => None) (fun _ _ => None) crasher 0 zeroTime demo_pending).1 in
  map (fun t => job_states (w_db (turn_world t))) turns =
    [[(JobStateDone, None); (JobStatePending, None)]; [(JobStateDone, None); (JobStateDone, None)]] /\
  option_map (fun t => job_states (w_db (crasher 0 0 (turn_world t)))) (head turns) =
    Some [(JobStateDone, None); (JobStateRunning, Some "w2"%string)].
Proof. split; vm_compute; reflexivity. Qed.

Lemma Run_recovers_witness :
  exists turns e,
    Run demo_error_text 10 single_worker demo_woken (fun _ _ => None) crasher 0 zeroTime demo_pending = (turns, e) /\
    Forall (fun t => sound (turn_world t)) turns.
Proof.
  assert (0 < w_reclaim single_worker) as Hrec by (vm_compute; reflexivity).
  destruct (Run_recovers (fun _ => []) 2 demo_error_text single_worker single_deployed single_settings 10 demo_woken
    crasher _ demo_pending crasher_neighbours crasher_honest single_steady Hrec demo_appended_ok eq_refl demo_unexpired)
    as (turns & e & H & Hall & _).
  exists turns, e. split; [exact H|]. eapply Forall_impl; [exact Hall|]. intros t Ht. apply Ht.
Defined.

Lemma Run_goes_idle_witness :
  (length (List.filter (fun t => (turn_wait t =? 0)%Z)
     (Run demo_error_text 10 running_worker (fun _ => None) (fun _ _ => None) alone 0 zeroTime demo_pending).1) <= 2)%nat.
Proof.
  assert (0 < w_reclaim running_worker) as Hrec by (vm_compute; reflexivity).
  pose proof (Run_goes_idle (fun _ => []) 2 demo_error_text running_worker running_deployed running_settings 10
    (fun _ => None) alone _ demo_pending alone_neighbours Hrec demo_appended_ok eq_refl) as H.
  cbv zeta in H. rewrite total_none, Nat.add_0_r in H.
  replace (open_jobs (w_db demo_pending)) with 2%nat in H by (vm_compute; reflexivity). exact H.
Defined.
