(* ===== verification/Settling.v ===== *)
(** * Every job due is run ([Worker.Run], to the end of the queue)

    The loop against a queue with other work in it. Each drain that finds a job due
    spends an attempt, and there are finitely many: so, among others that add a
    bounded amount of work and leave its jobs to it, a worker runs every job that is
    due within as many turns as there are attempts left to spend. With an embedder
    that answers, what was appended is encoded. *)

From S2P Require Import Types OpsTypes Validate Server Db PgQueue Queueing PgEpisode Appending Replaying PgFact FactWriting FactReading PgForget PgEncoding PgSearch Ports Memory Worker Postgres Deployment Consolidation Running.

#[local] Open Scope Z_scope.

(** ** The attempts a queue has left *)

Definition attempts_left (r : JobRow) : nat := Z.to_nat (jr_max_attempts r - jr_attempts r).
Definition work_left (d : Db) : nat := sum_list_with attempts_left (List.filter inflight (db_jobs d)).

(** Sums over rows that are matched by id. *)
Lemma sum_matched {A} (key : A -> N) (f g : A -> nat) l l' :
  NoDup (map key l') ->
  (forall x', x' ∈ l' -> exists x, x ∈ l /\ key x = key x' /\ (f x' <= g x)%nat) ->
  (sum_list_with f l' <= sum_list_with g l)%nat.
Proof.
  revert l. induction l' as [|x' l' IH]; intros l Hnd Hm; cbn; [lia|].
  apply NoDup_cons in Hnd as [Hx' Hnd]. destruct (Hm x') as (x & Hx & Hk & Hle); [by left|].
  apply elem_of_Permutation in Hx as [k Hp].
  enough (sum_list_with f l' <= sum_list_with g k)%nat by (rewrite Hp; cbn; lia).
  apply IH; [done|]. intros y' Hy'. destruct (Hm y') as (y & Hy & Hky & Hley); [by right|].
  exists y. split; [|done]. rewrite Hp in Hy. apply elem_of_cons in Hy as [->|Hy]; [|done].
  destruct Hx'. rewrite <- Hk, Hky. by apply list_elem_of_fmap_2.
Qed.

(** One taken from each of some rows that have one to give. *)
Lemma sum_spent (f : JobRow -> nat) l c :
  NoDup c -> (forall x, x ∈ c -> x ∈ l /\ (0 < f x)%nat) ->
  (sum_list_with (fun x => f x - if decide (x ∈ c) then 1 else 0) l + length c <= sum_list_with f l)%nat.
Proof.
  intros Hnd Hc. assert (c ⊆+ l) as [k Hp]%submseteq_Permutation by (apply NoDup_submseteq; [done|]; naive_solver).
  rewrite Hp, !sum_list_with_app.
  assert (forall h : JobRow -> nat, (forall x, h x <= f x)%nat ->
    forall l0, sum_list_with h l0 <= sum_list_with f l0)%nat as Hmono.
  { intros h Hh l0. induction l0 as [|x l0 IH]; cbn; [lia|]. specialize (Hh x). lia. }
  pose proof (Hmono (fun x => f x - if decide (x ∈ c) then 1 else 0)%nat ltac:(intros x; cbn; lia) k).
  enough (forall c0, c0 ⊆ c ->
    sum_list_with (fun x => f x - if decide (x ∈ c) then 1 else 0) c0 + length c0 = sum_list_with f c0)%nat as Heq
    by (specialize (Heq c ltac:(done)); lia).
  induction c0 as [|x c0 IH]; intros Hsub; cbn; [done|].
  rewrite decide_True by set_solver. destruct (Hc x) as [_ Hx]; [set_solver|].
  specialize (IH ltac:(set_solver)). lia.
Qed.

Section Queue.
Context `{Sv : Server} `{!ServerLaws Sv}.

Lemma work_left_matched (g : JobRow -> nat) d d' :
  jobs_ok d' ->
  (forall x', x' ∈ db_jobs d' -> inflight x' = true ->
     exists x, x ∈ db_jobs d /\ inflight x = true /\ jr_id x = jr_id x' /\ (attempts_left x' <= g x)%nat) ->
  (work_left d' <= sum_list_with g (List.filter inflight (db_jobs d)))%nat.
Proof.
  intros Hok Hm. apply (sum_matched jr_id); [by apply NoDup_map_filter, (jo_ids d' Hok)|].
  intros x' [Hx' Hf]%elem_of_filter_b. destruct (Hm x' Hx' Hf) as (x & Hx & Hfx & ? & ?).
  exists x. rewrite elem_of_filter_b. done.
Qed.

(** Reclaiming gives no attempt back. *)
Lemma Reclaim_work now d :
  db_ok d -> db_ready d = true -> IsZero now = false -> (work_left (Reclaim now d).1 <= work_left d)%nat.
Proof.
  intros Hok Hready Hz. pose proof (follows_retains _ _ _ (keeps_Reclaim now d) Hok) as Hret.
  apply (work_left_matched attempts_left); [apply (ok_jobs _ (rt_ok _ _ Hret Hok))|].
  destruct (update_jobs_step d (expired (pg_ts (t_ns now))) (reclaim_row (pg_ts (t_ns now))))
    as (Hu & _ & _); [done|apply (ok_jobs d Hok)|intros r _ He%expired_running; by constructor|].
  unfold Reclaim. rewrite obind_olift, Hz. cbv beta iota delta [reject]. unfold omap_err, obind. rewrite Hu.
  cbn [fst db_jobs set_jobs]. intros x' (x & Hx & ->)%elem_of_apply_update Hf. exists x. split; [done|].
  destruct (expired _ x) eqn:He; [|done]. apply expired_running in He. unfold inflight. by rewrite He.
Qed.
End Queue.

(** ** What never goes away *)

(** The log and the encodings only grow, in a database of the same shape. *)
Record grows `{Sv : Server} (d d' : Db) : Prop := {
  gw_ok : db_ok d -> db_ok d';
  gw_ready : db_ready d' = db_ready d;
  gw_dims : db_dims d' = db_dims d;
  gw_episodes : db_episodes d ⊆ db_episodes d';
  gw_encodings : map encoding_key (db_encodings d) ⊆ map encoding_key (db_encodings d');
}.

#[export] Instance grows_refl `{Sv : Server} : Reflexive grows.
Proof. intros d. by split. Qed.
#[export] Instance grows_trans `{Sv : Server} : Transitive grows.
Proof. intros x y z [] []. split; try congruence; [auto|set_solver|set_solver]. Qed.

Lemma retains_grows `{Sv : Server} d d' : retains d d' -> grows d d'.
Proof. intros [? He ? ? ? _]. split; try done. by rewrite He. Qed.

(** ** One drain, one turn *)

Section Turns.
Context `{Sv : Server} `{!ServerLaws Sv} {E : Type}.
Context (locked : E -> list JobID) (dims : Z) (error_text : Error -> string) (w : Worker (World E)).
Context (Hw : deployed locked dims error_text w) (Hs : settings w).
Implicit Types s : World E.

(** No other transaction holds a row when the worker claims, and its clock has
    reached [T]. *)
Context (Hfree : forall env, locked env = []).
Context (T : Z) (Hlate : forall s, T <= pg_ts (t_ns (Now (w_clock w) s).2)).

(** A job that may be claimed from [T] on. *)
Definition due (d : Db) (r : JobRow) : Prop := r ∈ db_jobs d /\ leasable (w_kinds w) T r = true.

(** It was claimed once, and either what it stands for exists or its body failed. *)
Definition ran (r : JobRow) (d' : Db) : Prop :=
  exists x, x ∈ db_jobs d' /\ same_job r x /\ jr_attempts x = jr_attempts r + 1 /\
    (jr_state x = JobStateDone /\ work_done w (job_of r) d' \/
     jr_state x = (if exhausted x then JobStateDead else JobStatePending) /\
     exists leased, same_job r leased /\ body_failed w (job_of leased) d').

Lemma leasable_later kinds t t' r : t <= t' -> leasable kinds t r = true -> leasable kinds t' r = true.
Proof using Type.
  unfold leasable. rewrite !andb_true_iff, !Z.leb_le. intros Ht [[[? ?] ?] ?]. split_and!; [done|lia|done|done].
Qed.

Lemma leasable_pending kinds t r :
  leasable kinds t r = true -> jr_state r = JobStatePending /\ (0 < attempts_left r)%nat.
Proof using Type.
  unfold leasable, attempts_left. rewrite !andb_true_iff, String.eqb_eq, Z.ltb_lt. intros [[[? ?] ?] ?].
  split; [done|lia].
Qed.

Lemma pending_inflight r : jr_state r = JobStatePending -> inflight r = true.
Proof. unfold inflight. by intros ->. Qed.

Lemma same_job_trans r r1 r2 : same_job r r1 -> same_job r1 r2 -> same_job r r2.
Proof using Type. intros (?&?&?&?) (?&?&?&?). split_and!; congruence. Qed.

Lemma work_done_same r r' d : same_job r r' -> work_done w (job_of r') d -> work_done w (job_of r) d.
Proof using Type.
  intros (_ & Hk & _) H. unfold job_key in Hk. injection Hk as Hk _ He.
  unfold work_done, job_of in *. cbn [job_kind job_episodes] in *. by rewrite <- Hk, <- He.
Qed.

Lemma drained_ran d' r o : drained w d' r o -> ran r d'.
Proof using Type.
  intros (leased & Hsame & Ha & [Hin Hsame' Ha' _ Hst]). exists o.1. split; [done|].
  assert (same_job r o.1) as Hro by (by eapply same_job_trans). split; [done|]. split; [congruence|].
  destruct Hst as [(_ & Hst & Hwd)|(_ & Hst & Hf)]; [left|right].
  - split; [done|]. by eapply work_done_same.
  - split; [|by exists leased]. rewrite Hst. destruct Hsame' as (_ & _ & Hm & _).
    unfold exhausted. by rewrite Ha', Hm.
Qed.

(** A drain spends an attempt on each job it claims. *)
Lemma drain_work s s' n t claimed outs :
  sound s -> drain_post locked w s s' n t claimed outs ->
  (work_left (w_db s') + length claimed <= work_left (w_db s))%nat.
Proof using ServerLaws0.
  intros Hok [Hok' _ Hcl Hids _ _ HF _ _ Hback].
  assert (forall r, r ∈ claimed ->
    r ∈ List.filter inflight (db_jobs (w_db s)) /\ (0 < attempts_left r)%nat) as Hgive.
  { intros r Hr. destruct (Hcl r Hr) as (Hin & Hst & _ & Ha). rewrite elem_of_filter_b.
    split; [split; [done|by apply pending_inflight]|unfold attempts_left; lia]. }
  etransitivity; [|apply (sum_spent attempts_left _ claimed); [by eapply NoDup_fmap_1|exact Hgive]].
  apply Nat.add_le_mono_r, work_left_matched; [apply (ok_jobs _ Hok')|].
  intros x' Hx' Hf. apply Hback in Hx' as [Hx'|[Hx' Hn]].
  - apply list_elem_of_fmap in Hx' as (o & -> & Ho). apply list_elem_of_lookup in Ho as [i Hi].
    destruct (Forall2_lookup_r _ _ _ _ _ HF Hi) as (r & Hr & Hd). apply list_elem_of_lookup_2 in Hr.
    destruct Hd as (leased & (Hid & _ & Hm & _) & Ha & [_ (Hid' & _ & Hm' & _) Ha' _ _]).
    destruct (Hgive r Hr) as [[Hin Hfl]%elem_of_filter_b Hpos]. exists r. split; [done|]. split; [done|].
    split; [congruence|]. rewrite decide_True by done. unfold attempts_left in *. rewrite Ha', Ha, Hm', Hm. lia.
  - exists x'. do 3 (split; [done|]). rewrite decide_False by done. lia.
Qed.

(** A drain runs a job that is due, or has spent attempts on others. *)
Lemma drain_runs s :
  sound s -> db_ready (w_db s) = true ->
  exists s' n, DrainOnce error_text w (fun _ => None) s = (s', (n, None)) /\ sound s' /\
    retains (w_db s) (w_db s') /\
    forall r, due (w_db s) r -> ran r (w_db s') \/ due (w_db s') r /\ (work_left (w_db s') < work_left (w_db s))%nat.
Proof using All.
  intros Hok Hready.
  destruct (DrainOnce_run locked dims error_text w Hw s Hok Hready (st_batch _ Hs) (st_lease _ Hs) (st_kinds _ Hs))
    as (s' & n & t & claimed & outs & H & Hpost).
  pose proof (drain_work _ _ _ _ _ _ Hok Hpost) as Hwork.
  destruct Hpost as [Hok' Hret _ _ -> [env Hlen] HF _ Hothers _].
  exists s', n. do 3 (split; [done|]). intros r [Hin Hl]. destruct (decide (r ∈ claimed)) as [Hr|Hr].
  - left. apply list_elem_of_lookup in Hr as [i Hi]. destruct (Forall2_lookup_l _ _ _ _ _ HF Hi) as (o & _ & Ho).
    by eapply drained_ran.
  - right. split; [split; [by apply Hothers|done]|]. rewrite Hfree in Hlen.
    assert (r ∈ eligible [] (w_kinds w) (pg_ts (t_ns (Now (w_clock w) s).2)) (db_jobs (w_db s))) as Hel.
    { apply elem_of_filter_b. split; [done|]. apply andb_true_iff. split; [by apply (leasable_later _ T); [apply Hlate|]|].
      rewrite bool_decide_false; [done|apply not_elem_of_nil]. }
    assert (0 < length (eligible [] (w_kinds w) (pg_ts (t_ns (Now (w_clock w) s).2)) (db_jobs (w_db s))))%nat
      by (apply list_elem_of_lookup in Hel as [i Hi%lookup_lt_Some]; lia).
    pose proof (st_batch _ Hs). unfold or_default in Hlen. destruct (Z.eqb_spec (w_batch w) 0); lia.
Qed.

Lemma turn_runs s last :
  sound s -> db_ready (w_db s) = true ->
  exists s' last' wait, run_turn error_text w (fun _ => None) last s = (s', (last', wait)) /\ sound s' /\
    retains (w_db s) (w_db s') /\
    forall r, due (w_db s) r -> ran r (w_db s') \/ due (w_db s') r /\ (work_left (w_db s') < work_left (w_db s))%nat.
Proof using All.
  intros Hok Hready. unfold run_turn. destruct (dp_clock _ _ _ _ Hw s) as [Hdb Ht].
  destruct (Now (w_clock w) s) as [s1 now]. cbn [fst snd] in Hdb, Ht.
  set (overdue := w_reclaim w <=? Sub now last).
  assert (exists s2, (if overdue then (q_Reclaim (w_queue w) now s1).1 else s1) = s2 /\ retains (w_db s) (w_db s2) /\
    (work_left (w_db s2) <= work_left (w_db s))%nat /\ forall r, due (w_db s) r -> due (w_db s2) r)
    as (s2 & -> & Hret & Hwork & Hdue).
  { destruct overdue; [|exists s1; by rewrite Hdb]. assert (IsZero now = false) as Hz by (apply IsZero_neq; lia).
    pose proof (follows_retains _ _ _ (keeps_Reclaim now (w_db s)) Hok) as Hr.
    pose proof (Reclaim_work now (w_db s) Hok Hready Hz) as Hle.
    assert (forall r, expired (pg_ts (t_ns now)) r = false -> r ∈ db_jobs (w_db s) ->
      r ∈ db_jobs (Reclaim now (w_db s)).1) as Hkeep by (intros r He; by apply (Reclaim_keeps_row now r He (w_db s))).
    rewrite (dp_queue _ _ _ _ Hw). cbn [q_Reclaim pg_queue]. unfold on_db. rewrite Hdb.
    destruct (Reclaim now (w_db s)) as [d r]. exists (MkWorld d (w_env s1)). do 3 (split; [done|]).
    intros x [Hx Hl]. split; [|done]. apply Hkeep; [|done]. apply not_true_is_false. intros He%expired_running.
    apply leasable_pending in Hl as [Hst _]. by rewrite Hst in He. }
  assert (sound s2) as Hok2 by (by apply (rt_ok _ _ Hret)).
  destruct (drain_runs s2 Hok2) as (s3 & n & -> & Hok3 & Hret3 & Hrun); [by rewrite (rt_ready _ _ Hret)|].
  eexists _, _, _. split; [done|]. split; [done|]. split; [by transitivity (w_db s2)|].
  intros r Hr. destruct (Hrun r (Hdue r Hr)) as [?|[? ?]]; [by left|right]. split; [done|lia].
Qed.

(** ** The loop *)

(** The rest of the deployment: it only adds to the log and the encodings, leaves the
    jobs that wait to this worker, and adds at most so many attempts of work. *)
Record bystanders (elsewhere : nat -> Duration -> World E -> World E) (arrivals : nat -> nat) : Prop := {
  by_grows : forall i wait s, grows (w_db s) (w_db (elsewhere i wait s));
  by_pending : forall i wait s r, r ∈ db_jobs (w_db s) -> jr_state r = JobStatePending ->
    r ∈ db_jobs (w_db (elsewhere i wait s));
  by_work : forall i wait s, (work_left (w_db (elsewhere i wait s)) <= work_left (w_db s) + arrivals i)%nat;
}.

Lemma Run_grows fuel woken elsewhere arrivals i last s :
  bystanders elsewhere arrivals -> sound s -> db_ready (w_db s) = true ->
  Forall (fun u => grows (w_db s) (w_db (turn_world u)))
    (Run error_text fuel w woken (fun _ _ => None) elsewhere i last s).1.
Proof using All.
  intros Hby. revert i last s. induction fuel as [|fuel IH]; intros i last s Hok Hready; cbn [Run]; [constructor|].
  destruct (woken i); [constructor|].
  destruct (turn_runs s last Hok Hready) as (s' & last' & wait & -> & Hok' & Hret%retains_grows & _).
  pose proof (by_grows _ _ Hby i wait s') as Hg.
  specialize (IH (S i) last' (elsewhere i wait s') (gw_ok _ _ Hg Hok')).
  destruct (Run _ _ _ _ _ _ _ _ _) as [turns e]. constructor; [done|].
  eapply Forall_impl; [apply IH; by rewrite (gw_ready _ _ Hg), (gw_ready _ _ Hret)|].
  intros u Hu. transitivity (w_db s'); [done|]. by transitivity (w_db (elsewhere i wait s')).
Qed.

Lemma total_S arrivals i n : total arrivals i (S n) = (arrivals i + total arrivals (S i) n)%nat.
Proof. done. Qed.

Lemma Run_reaches fuel woken elsewhere arrivals i last s r :
  bystanders elsewhere arrivals -> sound s -> db_ready (w_db s) = true -> due (w_db s) r ->
  (forall k, (i <= k < i + fuel)%nat -> woken k = None) ->
  (work_left (w_db s) + total arrivals i fuel <= fuel)%nat ->
  exists before t after,
    (Run error_text fuel w woken (fun _ _ => None) elsewhere i last s).1 = before ++ t :: after /\
    grows (w_db s) (w_db (turn_world t)) /\ ran r (w_db (turn_world t)) /\
    Forall (fun u => grows (w_db (turn_world t)) (w_db (turn_world u))) after.
Proof using All.
  intros Hby. revert i last s. induction fuel as [|fuel IH]; intros i last s Hok Hready Hdue Hwk Hfuel.
  { destruct Hdue as [Hin [Hst Hpos]%leasable_pending].
    assert (r ∈ List.filter inflight (db_jobs (w_db s))) as Hr
      by (apply elem_of_filter_b; split; [done|by apply pending_inflight]).
    apply (sum_list_with_in _ attempts_left) in Hr. unfold work_left in Hfuel. lia. }
  cbn [Run]. rewrite Hwk by lia.
  destruct (turn_runs s last Hok Hready) as (s' & last' & wait & -> & Hok' & Hret%retains_grows & Hrun).
  pose proof (by_grows _ _ Hby i wait s') as Hg. pose proof (by_work _ _ Hby i wait s') as Hwork.
  assert (sound (elsewhere i wait s')) as Hok2 by (by apply (gw_ok _ _ Hg)).
  assert (db_ready (w_db (elsewhere i wait s')) = true) as Hready2
    by (by rewrite (gw_ready _ _ Hg), (gw_ready _ _ Hret)).
  destruct (Hrun r Hdue) as [Hran|[[Hin Hl] Hlt]].
  - pose proof (Run_grows fuel woken elsewhere arrivals (S i) last' _ Hby Hok2 Hready2) as Hafter.
    destruct (Run _ _ _ _ _ _ _ _ _) as [turns e]. eexists [], _, turns. split; [done|]. split; [done|].
    split; [done|]. eapply Forall_impl; [exact Hafter|]. intros u Hu. by transitivity (w_db (elsewhere i wait s')).
  - rewrite total_S in Hfuel.
    destruct (IH (S i) last' (elsewhere i wait s')) as (before & t & after & Heq & Hgt & Hran & Hafter); [done..| | | |].
    + split; [|done]. apply (by_pending _ _ Hby); [done|]. by apply leasable_pending in Hl as [? _].
    + intros k Hk. apply Hwk. lia.
    + lia.
    + destruct (Run _ _ _ _ _ _ _ _ _) as [turns e]. cbn [fst] in Heq |- *. subst turns.
      eexists (_ :: before), t, after. split; [done|]. split; [|done].
      transitivity (w_db s'); [done|]. by transitivity (w_db (elsewhere i wait s')).
Qed.

Lemma Run_unwoken fuel woken elsewhere i last s :
  (forall k, (i <= k < i + fuel)%nat -> woken k = None) ->
  exists turns, Run error_text fuel w woken (fun _ _ => None) elsewhere i last s = (turns, None) /\ length turns = fuel.
Proof using Type.
  revert i last s. induction fuel as [|fuel IH]; intros i last s Hwk; cbn [Run]; [by exists []|].
  rewrite Hwk by lia. destruct (run_turn _ _ _ _ _) as [s' [last' wait]].
  destruct (IH (S i) last' (elsewhere i wait s')) as (turns & -> & Hlen); [intros k Hk; apply Hwk; lia|].
  eexists. split; [done|]. cbn. by rewrite Hlen.
Qed.

(** ** Encoding *)

(** An embedder that answers, with vectors the store takes, under a name it takes. *)
Record dependable : Prop := {
  de_model : is_empty (e_Model (w_embedder w)) = false /\ pg_text (e_Model (w_embedder w)) = true /\
    pg_length (e_Model (w_embedder w)) <= 200;
  de_answers : forall texts s, exists s1 vs, e_EmbedDocuments (w_embedder w) texts s = (s1, Ok vs) /\
    length vs = length texts /\
    Forall (fun v => Dimensions v = dims /\ Forall (fun f => is_nan f = false /\ is_inf f = false) v) vs;
}.

(** A job over episodes of the log. *)
Record encodable (d : Db) (r : JobRow) : Prop := {
  ec_kind : jr_kind r = JobKindEncode;
  ec_scope : ScopeID_Validate (jr_scope r) = Ok tt;
  ec_nodup : NoDup (jr_episodes r);
  ec_rows : exists rows, Forall2 (fun id row => row ∈ db_episodes d /\ er_scope row = jr_scope r /\ er_id row = id /\
    id <> 0%N) (jr_episodes r) rows;
}.

Lemma encode_answers d d' r leased :
  dependable -> dims = db_dims d -> db_ready d = true -> encodable d r -> grows d d' -> same_job r leased ->
  ~ body_failed w (job_of leased) d'.
Proof using All.
  intros [(Hm1 & Hm2 & Hm3) Hde] Hdims Hready [Hk Hsc Hnd [rows Hrows]] Hg (_ & Hkey & _) (s0 & s1 & cause & Hok & Hr & Hrun).
  unfold job_key in Hkey. injection Hkey as Hkey Hscope Heps.
  destruct (Hde (map er_content rows) s0) as (s2 & vs & Hemb & Hlen & Hvs). rewrite length_map in Hlen.
  destruct (Now (w_clock w) s2) as [s3 t] eqn:Hnow.
  assert (dims = db_dims (w_db s0)) as Hd0 by (by rewrite <- (rt_dims _ _ Hr), (gw_dims _ _ Hg)).
  assert (forall f, runJob w (job_of leased) s0 = f -> encode w (job_of leased) s0 = f) as Henc.
  { unfold runJob, job_of. cbn [job_kind]. rewrite Hkey, Hk. by rewrite String.eqb_refl. }
  apply Henc in Hrun.
  destruct (encode_completes locked dims error_text w Hw (job_of leased) rows vs s0 s2 s3 t) as (s4 & Heq & _);
    try done; cbn [job_of job_scope job_episodes]; rewrite ?Heps, ?Hscope; try done.
  - by rewrite <- (rt_ready _ _ Hr), (gw_ready _ _ Hg).
  - eapply Forall2_impl; [exact Hrows|]. intros id row (Hin & ?). split; [|done].
    rewrite <- (rt_episodes _ _ Hr). by apply (gw_episodes _ _ Hg).
  - unfold usable. by rewrite <- Hd0.
  - rewrite Heq in Hrun. done.
Qed.

(** A due encode job is done by the last turn. *)
Lemma Run_encodes fuel woken elsewhere arrivals s r :
  bystanders elsewhere arrivals -> sound s -> db_ready (w_db s) = true -> dims = db_dims (w_db s) -> dependable ->
  due (w_db s) r -> encodable (w_db s) r -> (forall k, (k < fuel)%nat -> woken k = None) ->
  (work_left (w_db s) + total arrivals 0 fuel <= fuel)%nat ->
  exists turns u, Run error_text fuel w woken (fun _ _ => None) elsewhere 0 zeroTime s = (turns, None) /\
    last turns = Some u /\
    forall id, id ∈ jr_episodes r -> (id, e_Model (w_embedder w)) ∈ map encoding_key (db_encodings (w_db (turn_world u))).
Proof using All.
  intros Hby Hok Hready Hdims Hde Hdue Henc Hwk Hfuel.
  assert (forall k, (0 <= k < 0 + fuel)%nat -> woken k = None) as Hwk0 by (intros k Hk; apply Hwk; lia).
  destruct (Run_unwoken fuel woken elsewhere 0 zeroTime s Hwk0) as (turns & Heq & _).
  destruct (Run_reaches fuel woken elsewhere arrivals 0 zeroTime s r Hby Hok Hready Hdue Hwk0 Hfuel)
    as (before & t & after & Hturns & Hg & (x & _ & _ & _ & Hx) & Hafter).
  rewrite Heq in Hturns. cbn [fst] in Hturns. subst turns.
  assert (work_done w (job_of r) (w_db (turn_world t))) as [Hwd _].
  { destruct Hx as [[_ ?]|(_ & leased & Hl & Hf)]; [done|]. by destruct (encode_answers (w_db s) (w_db (turn_world t)) r leased). }
  specialize (Hwd (ec_kind _ _ Henc)). eexists.
  destruct (last (t :: after)) as [u|] eqn:Hu; [|by apply last_None in Hu].
  exists u. split; [exact Heq|]. split; [by rewrite last_app, Hu|]. intros id Hid.
  apply last_Some_elem_of, elem_of_cons in Hu as [->|Hu]; [by apply Hwd|].
  rewrite Forall_forall in Hafter. apply (gw_encodings _ _ (Hafter u Hu)). by apply Hwd.
Qed.

(** ** What was appended *)

(** Every job names an episode of the log. *)
Definition jobs_grounded (d : Db) : Prop :=
  forall r, r ∈ db_jobs d -> exists id, id ∈ jr_episodes r /\ id ∈ map er_id (db_episodes d).

(** A job just appended may be claimed at once. *)
Lemma fresh_leasable (m : Memory (World E)) scope ids at_ now r :
  fresh_job scope ids at_ (map (job_spec now) (jobsFor m scope)) r -> jr_kind r = JobKindEncode ->
  JobKindEncode ∈ w_kinds w -> pg_ts (t_ns now) <= T -> leasable (w_kinds w) T r = true.
Proof using Type.
  intros (_ & _ & Hst & Ha & _ & spec & Hspec & _ & Hra & Hmx) Hk Hkind HT.
  apply list_elem_of_fmap in Hspec as (j & -> & Hj).
  assert (nj_run_after j = zeroTime /\ nj_max_attempts j = 0) as [Hz Hm].
  { unfold jobsFor in Hj. apply elem_of_cons in Hj as [->|Hj]; [done|].
    destruct (m_facts m); [by apply list_elem_of_singleton in Hj as ->|by apply not_elem_of_nil in Hj]. }
  unfold leasable. rewrite Hst, Ha, Hra, Hmx, Hk. cbn [job_spec fst snd]. rewrite Hz, Hm.
  change (IsZero zeroTime) with true. change (int32 0 =? 0) with true. cbv iota.
  rewrite (proj2 (Z.leb_le _ _) HT). change (JobStatePending =? "pending")%string with true.
  change (0 <? DefaultMaxAttempts) with true. cbn [andb]. destruct (w_kinds w) eqn:Hkinds; [done|].
  by apply one_of_spec.
Qed.

(** The job an append leaves for a batch waits from the append on. *)
Lemma appended_due (m : Memory (World E)) reqs now scope d d' res :
  db_ok d -> jobs_grounded d -> t_ns now <> 0 -> Z.of_nat (length reqs) <= MaxAppendBatch -> reqs <> [] ->
  PgEpisode.Append (MkAppendCommand (map (new_episode now) reqs) (jobsFor m scope)) d = (d', Ok res) ->
  covered JobKindEncode scope (map ep_id (res_episodes res)) d' ->
  ScopeID_Validate scope = Ok tt -> Forall (fun q => ar_scope q = scope) reqs ->
  JobKindEncode ∈ w_kinds w -> pg_ts (t_ns now) <= T ->
  exists r, due d' r /\ encodable d' r /\ jr_episodes r = map ep_id (res_episodes res).
Proof using ServerLaws0.
  intros Hok Hground Hnow Hlen Hne Happ (r & Hin & Hfl & Hkey) Hsc Hall Hkind HT.
  set (cmd := MkAppendCommand _ _) in *. set (ids := map ep_id (res_episodes res)) in *.
  assert (Z.of_nat (length (ac_episodes cmd)) < 2 ^ 31) as Hl by (cbn; rewrite length_map; unfold MaxAppendBatch in Hlen; lia).
  destruct (Append_written cmd d d' res Hok Hl Happ) as (? & rows & jobs & _ & -> & Hpost & _ & Hids & _).
  destruct (Append_allocates cmd d d' res Hok Hl Happ) as (_ & _ & _ & _ & Hepids & Hnd & _). fold ids in Hids, Hepids, Hnd.
  destruct Hpost as [Hok' (mint & _ & Hrows) Heps _ _ Hjobs Hnew _ _ _].
  unfold job_key in Hkey. injection Hkey as Hk Hscope He.
  assert (cmd_scope cmd = scope /\ cmd_at cmd = now) as [Hcs Hat].
  { unfold cmd_scope, cmd_at, cmd. cbn [ac_episodes]. destruct reqs as [|q reqs']; [done|]. cbn.
    apply Forall_cons in Hall as [-> _]. done. }
  exists r. split; [|split; [|done]].
  - split; [done|]. rewrite Hjobs in Hin. apply elem_of_app in Hin as [Hin|Hin].
    { exfalso. destruct (Hground r Hin) as (id & Hid & Hlog). rewrite He in Hid.
      pose proof (eo_ids d' (ok_episodes d' Hok')) as Hall'. rewrite Hepids in Hall'.
      apply NoDup_app in Hall' as (_ & Hx & _). by apply (Hx id). }
    rewrite Forall_forall in Hnew. apply (fresh_leasable m scope (map er_id rows) (pg_ts (t_ns (cmd_at cmd))) now); [|done..].
    unfold cmd_specs in Hnew. rewrite Hat, Hcs in Hnew. rewrite Hat. apply (Hnew r Hin).
  - split; [done|by rewrite Hscope|by rewrite He|]. exists rows. rewrite He, Hscope, Hids.
    apply Forall2_fmap_l, Forall2_same_length_lookup_2; [done|]. intros i row row' Hi Hi'.
    rewrite Hi in Hi'. injection Hi' as <-. apply list_elem_of_lookup_2 in Hi.
    split; [rewrite Heps; apply elem_of_app; by right|]. rewrite Hrows in Hi.
    apply elem_of_episode_rows in Hi as (Hsc' & _ & k & _ & _ & Hid & _). rewrite Hsc', Hcs. do 2 (split; [done|]).
    rewrite Hid. apply uuidv7_nonzero.
Qed.

(** C19: no due job starves. A worker alone with the waiting jobs, whose clock has
    reached [T] and which no other transaction keeps from a row, runs every job due
    at [T], however much else is in its queue: within as many turns as there are
    attempts left in the queue and in what the others add meanwhile, each such job
    has been claimed exactly once more, and then is done with its projection
    stored, or its body failed and it is pending again, or dead when that attempt
    was its last. *)
Theorem due_jobs_run fuel woken elsewhere arrivals s :
  bystanders elsewhere arrivals -> sound s -> db_ready (w_db s) = true ->
  (forall k, (k < fuel)%nat -> woken k = None) ->
  (work_left (w_db s) + total arrivals 0 fuel <= fuel)%nat ->
  exists turns, Run error_text fuel w woken (fun _ _ => None) elsewhere 0 zeroTime s = (turns, None) /\
    length turns = fuel /\
    forall r, due (w_db s) r -> exists t, t ∈ turns /\ ran r (w_db (turn_world t)).
Proof using All.
  intros Hby Hok Hready Hwk Hfuel.
  assert (forall k, (0 <= k < 0 + fuel)%nat -> woken k = None) as Hwk0 by (intros k Hk; apply Hwk; lia).
  destruct (Run_unwoken fuel woken elsewhere 0 zeroTime s Hwk0) as (turns & Heq & Hlen).
  exists turns. do 2 (split; [done|]). intros r Hr.
  destruct (Run_reaches fuel woken elsewhere arrivals 0 zeroTime s r Hby Hok Hready Hr Hwk0 Hfuel)
    as (before & t & after & Hturns & _ & Hran & _).
  rewrite Heq in Hturns. cbn [fst] in Hturns. subst turns. exists t. split; [|done].
  apply elem_of_app. right. by left.
Qed.

(** C9: what was appended is encoded. After [AppendBatch] returned over the adapter, a
    worker whose clock has reached the append and whose embedder answers, running
    among others that leave the waiting jobs to it, has stored an encoding of every
    episode of the batch under its model by the last of as many turns as there were
    attempts to spend, whatever else was queued before or is added meanwhile. *)
Theorem appended_encoded (m : Memory (World E)) reqs s s1 now scope :
  m_store m = pg_store locked dims -> sound s -> db_ready (w_db s) = true -> dims = db_dims (w_db s) ->
  jobs_grounded (w_db s) -> Now (m_clock m) s = (s1, now) -> w_db s1 = w_db s -> t_ns now <> 0 ->
  reqs <> [] -> Z.of_nat (length reqs) <= MaxAppendBatch ->
  Forall (fun q => AppendRequest_Validate q = Ok tt /\ ar_scope q = scope) reqs -> batch_texts now reqs = true ->
  JobKindEncode ∈ w_kinds w -> dependable -> pg_ts (t_ns now) <= T ->
  exists s2 eps, AppendBatch m reqs s = (s2, Ok eps) /\ length eps = length reqs /\
    forall fuel woken elsewhere arrivals,
      bystanders elsewhere arrivals -> (forall k, (k < fuel)%nat -> woken k = None) ->
      (work_left (w_db s2) + total arrivals 0 fuel <= fuel)%nat ->
      exists turns u, Run error_text fuel w woken (fun _ _ => None) elsewhere 0 zeroTime s2 = (turns, None) /\
        last turns = Some u /\
        forall e, e ∈ eps -> (ep_id e, e_Model (w_embedder w)) ∈ map encoding_key (db_encodings (w_db (turn_world u))).
Proof using All.
  intros Hm Hok Hready Hdims Hground Hnow Hdb Hnz Hne Hlen Hall Ht Hkind Hde HT.
  destruct (AppendBatch_run locked dims m reqs s s1 now scope) as (d' & res & Hrun & Happ & Hst & _); [done..|].
  exists (MkWorld d' (w_env s1)), (res_episodes res). split; [done|]. split; [apply Hst|].
  intros fuel woken elsewhere arrivals Hby Hwk Hfuel.
  assert (ScopeID_Validate scope = Ok tt) as Hsc.
  { destruct reqs as [|q reqs']; [done|]. apply Forall_cons in Hall as [[Hv <-] _].
    apply AppendRequest_Validate_spec in Hv as (Hv & _). by apply ScopeID_Validate_spec. }
  assert (Forall (fun q => ar_scope q = scope) reqs) as Hscopes by (eapply Forall_impl; [exact Hall|]; naive_solver).
  destruct (appended_due m reqs now scope (w_db s) d' res Hok Hground Hnz Hlen Hne Happ (bs_encode _ _ _ _ _ _ Hst)
    Hsc Hscopes Hkind HT) as (r & Hdue & Henc & Hids).
  assert (db_ready d' = true /\ db_dims d' = db_dims (w_db s)) as [Hready' Hdims'].
  { assert (Z.of_nat (length (map (new_episode now) reqs)) < 2 ^ 31) as Hl
      by (rewrite length_map; unfold MaxAppendBatch in Hlen; lia).
    destruct ((fun H => Append_written _ _ _ _ Hok H Happ) Hl) as (? & rows & jobs & _ & _ & Hpost & _).
    split; [apply Hpost|apply (ap_dims _ _ _ _ _ _ _ _ Hpost)]. }
  destruct (Run_encodes fuel woken elsewhere arrivals (MkWorld d' (w_env s1)) r) as (turns & u & H & Hu & Hx); try done.
  { apply (bs_ok _ _ _ _ _ _ Hst). }
  { by rewrite Hdims, <- Hdims'. }
  exists turns, u. do 2 (split; [done|]). intros e He. apply Hx. rewrite Hids. by apply list_elem_of_fmap_2.
Qed.
End Turns.

(** ** A concrete deployment *)

(** Nobody else, once the append is past. *)
Lemma alone_bystanders : bystanders alone (fun _ => 0%nat).
Proof. split; intros; unfold alone; try done. lia. Qed.

(** A worker whose clock has reached the demonstration batch. *)
Definition late_clock : Clock (World Z) :=
  MkClock (fun w => (MkWorld (w_db w) (w_env w + 1000), utc (Z.max 9000 (w_env w)))).

Definition late_worker : Worker (World Z) :=
  MkWorker demo_store (pg_queue (fun _ => [])) demo_embedder (Some demo_extractor) (Some pg_facts) late_clock
    "host/1" 8 100 DefaultLeaseDuration DefaultPollInterval DefaultReclaimInterval
    [JobKindEncode; JobKindExtract].

Lemma late_deployed : deployed (fun _ => []) 2 demo_error_text late_worker.
Proof.
  split; try reflexivity.
  - intros s. split; [reflexivity|]. cbn. lia.
  - intros x req s H. injection H as <-. reflexivity.
  - split; vm_compute; reflexivity.
Qed.

Lemma late_settings : settings late_worker.
Proof. split; [vm_compute; discriminate..|vm_compute; reflexivity|repeat constructor]. Qed.

Lemma late_reads s : pg_ts 9000 <= pg_ts (t_ns (Now (w_clock late_worker) s).2).
Proof. apply pg_ts_mono. cbn. lia. Qed.

Lemma late_dependable : dependable 2 late_worker.
Proof.
  split; [split; [reflexivity|]; split; [vm_compute; reflexivity|vm_compute; discriminate]|].
  intros texts s. exists s, (map (fun _ => demo_vector) texts). split; [reflexivity|].
  split; [apply length_map|]. apply Forall_map, Forall_true. intros _. split; [reflexivity|].
  repeat constructor; vm_compute; reflexivity.
Qed.

Lemma demo_grounded : jobs_grounded demo_encoded.
Proof.
  assert (forallb (fun r => existsb (fun id => bool_decide (id ∈ map er_id (db_episodes demo_encoded))) (jr_episodes r))
    (db_jobs demo_encoded) = true) as H by (vm_compute; reflexivity).
  intros r Hr. rewrite forallb_forall in H. apply list_elem_of_In in Hr. specialize (H r Hr).
  apply existsb_exists in H as (id & Hid & Hlog%bool_decide_eq_true). exists id. split; [apply list_elem_of_In; exact Hid|exact Hlog].
Qed.

(** The jobs of the first append are due, with eight attempts between them. *)
Example demo_due : forallb (leasable (w_kinds late_worker) (pg_ts 9000)) (db_jobs demo_appended) = true.
Proof. vm_compute. reflexivity. Qed.

Example demo_work : (length (db_jobs demo_appended), work_left demo_appended) = (2, 8)%nat.
Proof. vm_compute. reflexivity. Qed.

Lemma due_jobs_run_witness :
  exists turns, Run demo_error_text 8 late_worker (fun _ => None) (fun _ _ => None) alone 0 zeroTime demo_pending = (turns, None) /\
    forall r, r ∈ db_jobs demo_appended -> exists t, t ∈ turns /\ ran late_worker r (w_db (turn_world t)).
Proof.
  assert (work_left (w_db demo_pending) + total (fun _ => 0%nat) 0 8 <= 8)%nat as Hfuel by (vm_compute; lia).
  destruct (due_jobs_run (fun _ => []) 2 demo_error_text late_worker late_deployed late_settings (fun _ => eq_refl)
    (pg_ts 9000) late_reads 8 (fun _ => None) alone (fun _ => 0%nat) demo_pending alone_bystanders demo_appended_ok
    eq_refl (fun _ _ => eq_refl) Hfuel) as (turns & H & _ & Hran).
  exists turns. split; [exact H|]. intros r Hr. apply Hran. split; [exact Hr|].
  pose proof demo_due as Hd. rewrite forallb_forall in Hd. apply Hd. by apply list_elem_of_In.
Defined.

Lemma appended_encoded_witness :
  exists s2 eps turns u, AppendBatch demo_memory demo_batch demo_world = (s2, Ok eps) /\ length eps = 2%nat /\
    Run demo_error_text 20 late_worker (fun _ => None) (fun _ _ => None) alone 0 zeroTime s2 = (turns, None) /\
    last turns = Some u /\
    forall e, e ∈ eps -> (ep_id e, e_Model demo_embedder) ∈ map encoding_key (db_encodings (w_db (turn_world u))).
Proof.
  destruct (appended_encoded (fun _ => []) 2 demo_error_text late_worker late_deployed late_settings (fun _ => eq_refl)
    (pg_ts 9000) late_reads demo_memory demo_batch demo_world (MkWorld demo_encoded 10000) (utc 9000) "s")
    as (s2 & eps & H & Hlen & Hrun).
  - reflexivity.
  - exact demo_world_sound.
  - vm_compute. reflexivity.
  - vm_compute. reflexivity.
  - exact demo_grounded.
  - reflexivity.
  - reflexivity.
  - discriminate.
  - discriminate.
  - vm_compute. discriminate.
  - repeat constructor.
  - vm_compute. reflexivity.
  - left.
  - exact late_dependable.
  - vm_compute. discriminate.
  - assert (work_left (w_db s2) + total (fun _ => 0%nat) 0 20 <= 20)%nat as Hfuel.
    { assert (work_left (w_db (AppendBatch demo_memory demo_batch demo_world).1) <= 20)%nat as Hle by (vm_compute; lia).
      rewrite H in Hle. rewrite total_none. cbn [fst] in Hle. lia. }
    destruct (Hrun 20%nat (fun _ => None) alone (fun _ => 0%nat) alone_bystanders (fun _ _ => eq_refl) Hfuel)
      as (turns & u & Hr & Hu & Hx).
    exists s2, eps, turns, u. split; [exact H|]. split; [exact Hlen|]. split; [exact Hr|]. split; [exact Hu|exact Hx].
Defined.
