(* ===== verification/Ops.v ===== *)
(** * Operating a deployment ([ops/ops.go], [ops/backfill.go])

    [ops.New], the operations that forward to the store, and [Ops.Backfill] with
    its cursors. Go's [for] loops that run until the store answers with nothing
    become functions with fuel; [Backfilling] shows how much is enough. A counter
    the code bumps through a pointer is a field of the state a loop threads. *)

From S2P Require Import Types OpsTypes Validate Ports.

#[local] Open Scope Z_scope.

Definition DefaultBackfillBatch : Z := 16.
Definition DefaultBackfillLimit : Z := 1000.
Definition backfillScopePage : Z := 100.

Section Ops.
Context {W : Type}.

Record OpsConfig : Type := MkOpsConfig {
  oc_store : option (OpsStore W);
  oc_facts : option (OpsFactStore W);
  oc_embedder : option (Embedder W);
  oc_extractor : option (Extractor W);
  oc_clock : option (Clock W);
}.

Record Ops : Type := MkOps {
  op_store : OpsStore W;
  op_facts : option (OpsFactStore W);
  op_embedder : option (Embedder W);
  op_extractor : option (Extractor W);
  op_clock : Clock W;
  op_kinds : list JobKind;
}.

(** The clause of [New] for each optional port: its name, and the kind it adds. *)
Definition embedder_kinds (e : option (Embedder W)) : res (list JobKind) :=
  match e with
  | Some e => reject (is_empty (e_Model e)) (EWrap ErrInvalidConfig) ;;? Ok [JobKindEncode]
  | None => Ok []
  end.
Definition extractor_kinds (x : option (Extractor W)) (facts : option (OpsFactStore W))
    : res (list JobKind) :=
  match x with
  | Some x =>
      reject (is_empty (x_Model x)) (EWrap ErrInvalidConfig) ;;?
      match facts with
      | None => Err (EWrap ErrInvalidConfig)
      | Some _ => Ok [JobKindExtract]
      end
  | None => Ok []
  end.

(** [ops.New]. *)
Definition New (SystemClock : Clock W) (cfg : OpsConfig) : res Ops :=
  match oc_store cfg with
  | None => Err (EWrap ErrInvalidConfig)
  | Some store =>
      let facts := match oc_facts cfg with Some f => Some f | None => o_as_facts store end in
      let? encode := embedder_kinds (oc_embedder cfg) in
      let? extract := extractor_kinds (oc_extractor cfg) facts in
      Ok (MkOps store facts (oc_embedder cfg) (oc_extractor cfg) (default SystemClock (oc_clock cfg))
            (encode ++ extract))
  end.

(** The operations that only forward. *)
Definition Scopes (o : Ops) (q : ScopeQuery) : op Error W (list OpsScope) := o_Scopes (op_store o) q.
Definition Jobs (o : Ops) (q : JobQuery) : op Error W (list Job) := o_Jobs (op_store o) q.
Definition Stats (o : Ops) (scope : ScopeID) : op Error W (list JobCount) := o_Stats (op_store o) scope.
Definition Retry (o : Ops) (id : JobID) : op Error W Job :=
  let! t := now (op_clock o) in o_Retry (op_store o) id t.
Definition Purge (o : Ops) (req : PurgeRequest) : op Error W Z := o_Purge (op_store o) req.

(** ** Backfilling *)

Record backfillCursor : Type := MkCursor {
  cu_kind : JobKind;
  cu_seq : Z;
  cu_remaining : Z;
  cu_exhausted : bool;
}.

(** [backfillKinds]. *)
Definition backfillKinds (o : Ops) (requested : list JobKind) : res (list JobKind) :=
  match requested with
  | [] => Ok (op_kinds o)
  | _ =>
      foldl (fun acc kind =>
        let? out := acc in
        if negb (one_of kind (op_kinds o)) then Err (EWrap ErrInvalidConfig)
        else Ok (if one_of kind out then out else out ++ [kind])) (Ok []) requested
  end.

(** [countFor], and what one page adds to the tally. *)
Definition add_count (c : BackfillCount) (episodes jobs collapsed : Z) : BackfillCount :=
  MkBackfillCount (bc_episodes c + episodes) (bc_jobs c + jobs) (bc_collapsed c + collapsed).
Definition countFor (out : BackfillResult) (kind : JobKind) (episodes jobs collapsed : Z)
    : BackfillResult :=
  if String.eqb kind JobKindExtract
  then MkBackfillResult (bf_encode out) (add_count (bf_extract out) episodes jobs collapsed)
         (bf_next_scope out) (bf_next_seq out) (bf_done out)
  else MkBackfillResult (add_count (bf_encode out) episodes jobs collapsed) (bf_extract out)
         (bf_next_scope out) (bf_next_seq out) (bf_done out).

(** [spentBudget]. *)
Definition spentBudget (cursors : list backfillCursor) : bool :=
  existsb (fun c => cu_remaining c =? 0) cursors.

(** [resumeSeq]. *)
Definition resumeSeq (cursors : list backfillCursor) : Z :=
  let next := foldl (fun next c =>
    if cu_exhausted c then next
    else if (next <? 0) || (cu_seq c <? next) then cu_seq c else next) (-1) cursors in
  if next <? 0 then 0 else next.

(** [pending]; a kind without its port is a nil dereference. *)
Definition pending (o : Ops) (kind : JobKind) (scope : ScopeID) (afterSeq limit : Z)
    : op Error W (list EpisodeID) :=
  if String.eqb kind JobKindEncode then
    match op_embedder o with
    | Some e => o_PendingEncodings (op_store o) (MkPendingEncodings scope (e_Model e) afterSeq limit)
    | None => ofail (EOther "nil pointer dereference")
    end
  else if String.eqb kind JobKindExtract then
    match op_extractor o, op_facts o with
    | Some x, Some f => of_PendingExtractions f (MkPendingExtractions scope (x_Model x) afterSeq limit)
    | _, _ => ofail (EOther "nil pointer dereference")
    end
  else ofail (EWrap ErrInvalidJobKind).

(** The slices [ids[start:min(start+batch, len(ids))]]; the length of [ids] is
    enough fuel for a positive [batch], see [Backfilling.concat_batches]. *)
Fixpoint batches (fuel batch : nat) (ids : list EpisodeID) : list (list EpisodeID) :=
  match fuel, ids with
  | S fuel', _ :: _ => take batch ids :: batches fuel' batch (drop batch ids)
  | _, _ => []
  end.

(** The loop of [enqueueBatches]: jobs and collapsed so far, and the error. *)
Fixpoint enqueue_loop (o : Ops) (kind : JobKind) (scope : ScopeID) (now runAfter : Time)
    (chunks : list (list EpisodeID)) (jobs collapsed : Z) (w : W) : W * (Z * Z * option Error) :=
  match chunks with
  | [] => (w, (jobs, collapsed, None))
  | ids :: rest =>
      match o_Enqueue (op_store o) (MkNewJob kind scope ids runAfter 0) now w with
      | (w', Err e) => (w', (jobs, collapsed, Some e))
      | (w', Ok job) =>
          enqueue_loop o kind scope now runAfter rest (jobs + 1)
            (if Before (job_created job) now then collapsed + 1 else collapsed) w'
      end
  end.

(** [enqueueBatches]. *)
Definition enqueueBatches (o : Ops) (kind : JobKind) (scope : ScopeID) (ids : list EpisodeID) (batch : Z)
    (now runAfter : Time) : W -> W * (Z * Z * option Error) :=
  enqueue_loop o kind scope now runAfter (batches (length ids) (Z.to_nat batch) ids) 0 0.

(** What one cursor's turn comes to. *)
Inductive turn : Type :=
  | Skipped (c : backfillCursor)
  | Progressed (c : backfillCursor)
  | Failed (e : Error).

(** The body of [backfillScope]'s inner loop. *)
Definition cursor_turn (o : Ops) (scope : ScopeID) (req : BackfillRequest) (batch : Z) (now : Time)
    (c : backfillCursor) (out : BackfillResult) (w : W) : W * (turn * BackfillResult) :=
  if cu_exhausted c || (cu_remaining c =? 0) then (w, (Skipped c, out)) else
  match pending o (cu_kind c) scope (cu_seq c) (cu_remaining c) w with
  | (w1, Err e) => (w1, (Failed e, out))
  | (w1, Ok []) => (w1, (Skipped (MkCursor (cu_kind c) (cu_seq c) (cu_remaining c) true), out))
  | (w1, Ok ids) =>
      let '(w2, (jobs, collapsed, err)) :=
        enqueueBatches o (cu_kind c) scope ids batch now (br_run_after req) w1 in
      let out := countFor out (cu_kind c) (Z.of_nat (length ids)) jobs collapsed in
      match err with
      | Some e => (w2, (Failed e, out))
      | None =>
          match o_Episode (op_store o) scope (default 0%N (last ids)) w2 with
          | (w3, Err e) => (w3, (Failed e, out))
          | (w3, Ok ep) =>
              (w3, (Progressed (MkCursor (cu_kind c) (ep_seq ep) (cu_remaining c - Z.of_nat (length ids))
                                  (cu_exhausted c)), out))
          end
      end
  end.

(** The inner loop: the cursors after it, whether any progressed, the tally and
    the error. *)
Fixpoint backfill_pass (o : Ops) (scope : ScopeID) (req : BackfillRequest) (batch : Z) (now : Time)
    (cursors : list backfillCursor) (out : BackfillResult) (w : W)
    : W * (list backfillCursor * bool * BackfillResult * option Error) :=
  match cursors with
  | [] => (w, ([], false, out, None))
  | c :: rest =>
      match cursor_turn o scope req batch now c out w with
      | (w1, (Failed e, out1)) => (w1, (c :: rest, false, out1, Some e))
      | (w1, (Skipped c', out1)) =>
          let '(w2, (cs, progressed, out2, err)) := backfill_pass o scope req batch now rest out1 w1 in
          (w2, (c' :: cs, progressed, out2, err))
      | (w1, (Progressed c', out1)) =>
          let '(w2, (cs, _, out2, err)) := backfill_pass o scope req batch now rest out1 w1 in
          (w2, (c' :: cs, true, out2, err))
      end
  end.

(** Out of fuel. *)
Definition ENoFuel : Error := EOther "fuel".

(** [backfillScope]. *)
Fixpoint backfillScope (fuel : nat) (o : Ops) (scope : ScopeID) (req : BackfillRequest) (batch : Z)
    (now : Time) (cursors : list backfillCursor) (out : BackfillResult) (w : W)
    : W * (list backfillCursor * BackfillResult * option Error) :=
  match fuel with
  | O => (w, (cursors, out, Some ENoFuel))
  | S fuel' =>
      let '(w1, (cs, progressed, out1, err)) := backfill_pass o scope req batch now cursors out w in
      match err with
      | Some e => (w1, (cs, out1, Some e))
      | None =>
          if negb progressed || spentBudget cs then (w1, (cs, out1, None))
          else backfillScope fuel' o scope req batch now cs out1 w1
      end
  end.

(** A scope begins with its cursors rewound. *)
Definition rewind (seed : Z) (c : backfillCursor) : backfillCursor :=
  MkCursor (cu_kind c) seed (cu_remaining c) false.

Definition stopped_at (out : BackfillResult) (scope : ScopeID) (seq : Z) : BackfillResult :=
  MkBackfillResult (bf_encode out) (bf_extract out) scope seq (bf_done out).
Definition finished (out : BackfillResult) : BackfillResult :=
  MkBackfillResult (bf_encode out) (bf_extract out) (bf_next_scope out) (bf_next_seq out) true.

(** The loop over one page of scopes: [true] when the call returns from it. *)
Fixpoint backfill_scopes (fuel : nat) (o : Ops) (req : BackfillRequest) (batch : Z) (now : Time)
    (scopes : list ScopeID) (cursors : list backfillCursor) (out : BackfillResult) (w : W)
    : W * (bool * list backfillCursor * BackfillResult * option Error) :=
  match scopes with
  | [] => (w, (false, cursors, out, None))
  | scope :: rest =>
      let seed := if String.eqb scope (br_scope req) then br_after_seq req else 0 in
      let '(w1, (cs, out1, err)) :=
        backfillScope fuel o scope req batch now (map (rewind seed) cursors) out w in
      match err with
      | Some e => (w1, (true, cs, out1, Some e))
      | None =>
          if spentBudget cs then (w1, (true, cs, stopped_at out1 scope (resumeSeq cs), None))
          else backfill_scopes fuel o req batch now rest cs out1 w1
      end
  end.

(** The outer loop over the catalogue, a page a turn. *)
Fixpoint backfill_walk (pages fuel : nat) (o : Ops) (req : BackfillRequest) (batch : Z) (now : Time)
    (after : ScopeID) (cursors : list backfillCursor) (out : BackfillResult) (w : W)
    : W * (BackfillResult * option Error) :=
  match pages with
  | O => (w, (out, Some ENoFuel))
  | S pages' =>
      match o_Scopes (op_store o) (MkScopeQuery EmptyString after backfillScopePage) w with
      | (w1, Err e) => (w1, (out, Some e))
      | (w1, Ok []) => (w1, (finished out, None))
      | (w1, Ok (s :: l)) =>
          let scopes := map os_id (s :: l) in
          let '(w2, (returned, cs, out1, err)) := backfill_scopes fuel o req batch now scopes cursors out w1 in
          if returned then (w2, (out1, err))
          else backfill_walk pages' fuel o req batch now (default EmptyString (last scopes)) cs out1 w2
      end
  end.

Definition no_result : BackfillResult :=
  MkBackfillResult (MkBackfillCount 0 0 0) (MkBackfillCount 0 0 0) EmptyString 0 false.

Definition backfill_batch (req : BackfillRequest) : Z :=
  if br_batch req =? 0 then DefaultBackfillBatch else br_batch req.
Definition backfill_limit (req : BackfillRequest) : Z :=
  if br_limit req =? 0 then DefaultBackfillLimit else br_limit req.

Definition new_cursors (kinds : list JobKind) (limit : Z) : list backfillCursor :=
  map (fun kind => MkCursor kind 0 limit false) kinds.

(** [Ops.Backfill]: the result so far, and the error. *)
Definition Backfill (pages fuel : nat) (o : Ops) (req : BackfillRequest) (w : W)
    : W * (BackfillResult * option Error) :=
  match BackfillRequest_Validate req ;;? backfillKinds o (br_kinds req) with
  | Err e => (w, (no_result, Some e))
  | Ok kinds =>
      let (w1, now) := Now (op_clock o) w in
      let batch := backfill_batch req in
      let cursors := new_cursors kinds (backfill_limit req) in
      if is_empty (br_scope req)
      then backfill_walk pages fuel o req batch now EmptyString cursors no_result w1
      else
        let '(w2, (returned, _, out, err)) :=
          backfill_scopes fuel o req batch now [br_scope req] cursors no_result w1 in
        (w2, (if returned then out else finished out, err))
  end.
End Ops.
Arguments OpsConfig : clear implicits.
Arguments Ops : clear implicits.

(** ** What an [Ops] is given *)

Section New.
Context {W : Type}.

(** [New] makes an [Ops] that can enqueue a kind of work exactly when it holds a
    named model for it, and for extractions a store that says what is missing. *)
Lemma New_Ok clk (cfg : OpsConfig W) o :
  New clk cfg = Ok o ->
  (exists s, oc_store cfg = Some s /\ op_store o = s /\
     op_facts o = match oc_facts cfg with Some f => Some f | None => o_as_facts s end) /\
  op_clock o = default clk (oc_clock cfg) /\
  (JobKindEncode ∈ op_kinds o <->
     exists e, oc_embedder cfg = Some e /\ op_embedder o = Some e /\ e_Model e <> EmptyString) /\
  (JobKindExtract ∈ op_kinds o <->
     exists x f, oc_extractor cfg = Some x /\ op_extractor o = Some x /\ x_Model x <> EmptyString /\
       op_facts o = Some f) /\
  forall kind, kind ∈ op_kinds o -> kind = JobKindEncode \/ kind = JobKindExtract.
Proof.
  unfold New. destruct (oc_store cfg) as [s|]; [|done]. set (facts := match oc_facts cfg with Some _ => _ | None => _ end).
  intros (ek & He & (xk & Hx & [= <-])%rbind_Ok)%rbind_Ok. cbn.
  assert (ek = [] /\ oc_embedder cfg = None \/
    ek = [JobKindEncode] /\ exists e, oc_embedder cfg = Some e /\ e_Model e <> EmptyString) as Hek.
  { unfold embedder_kinds in He. destruct (oc_embedder cfg) as [e|]; [|left; by injection He as <-].
    apply rbind_Ok in He as ([] & Hr & [= <-]). right. split; [done|]. exists e. split; [done|].
    intros Hnil. by rewrite Hnil in Hr. }
  assert (xk = [] /\ oc_extractor cfg = None \/
    xk = [JobKindExtract] /\ exists x f, oc_extractor cfg = Some x /\ x_Model x <> EmptyString /\ facts = Some f) as Hxk.
  { unfold extractor_kinds in Hx. destruct (oc_extractor cfg) as [x|]; [|left; by injection Hx as <-].
    apply rbind_Ok in Hx as ([] & Hr & Hx). destruct facts as [f|]; [|done]. injection Hx as <-. right.
    split; [done|]. exists x, f. split_and!; [done| |done]. intros Hnil. by rewrite Hnil in Hr. }
  split_and!; [by exists s|done| | |].
  all: destruct Hek as [(-> & ?)|(-> & e & ? & ?)], Hxk as [(-> & ?)|(-> & x & f & ? & ? & ?)];
    unfold JobKindEncode, JobKindExtract; cbn; set_solver.
Qed.
End New.
