(* ===== verification/Backfilling.v ===== *)
(** * What a backfill covers ([ops/backfill.go])

    [Ops.Backfill] against the promises of its store: a view of what the store
    holds, the laws its operations keep of that view, and, from these alone, that
    a backfill finds all the missing work, queues it, comes to an end and says
    truly where it stopped. *)

From S2P Require Import Types OpsTypes Validate Ports Ops.

#[local] Open Scope Z_scope.

(** ** Slices *)

Lemma concat_batches fuel batch ids :
  (0 < batch)%nat -> (length ids <= fuel)%nat -> concat (batches fuel batch ids) = ids.
Proof.
  intros Hb. revert ids. induction fuel as [|fuel IH]; intros ids Hl.
  { by destruct ids; [|simpl in Hl; lia]. }
  destruct ids as [|x ids]; [done|]. cbn [batches concat]. rewrite IH; [apply take_drop|].
  rewrite length_drop. cbn [length] in *. lia.
Qed.

Lemma batches_nonempty fuel batch ids c : (0 < batch)%nat -> c ∈ batches fuel batch ids -> c <> [].
Proof.
  intros Hb. revert ids. induction fuel as [|fuel IH]; intros [|x ids]; cbn; try by intros ?%not_elem_of_nil.
  intros [->|Hc]%elem_of_cons; [by destruct batch; [lia|]|by eapply IH].
Qed.

(** ** The store, seen from a backfill *)

Record View (W : Type) : Type := MkView {
  v_log : W -> ScopeID -> list (Z * EpisodeID);
  v_lacks : W -> JobKind -> ScopeID -> EpisodeID -> bool;
  v_owed : W -> JobKind -> ScopeID -> EpisodeID -> Prop;
  v_catalogue : W -> list OpsScope;
}.
Arguments MkView {W}.
Arguments v_log {W}.
Arguments v_lacks {W}.
Arguments v_owed {W}.
Arguments v_catalogue {W}.

(** The episodes of a scope past a cursor that lack one kind's projection. *)
Definition missing {W} (v : View W) (w : W) (kind : JobKind) (scope : ScopeID) (after : Z)
    : list (Z * EpisodeID) :=
  List.filter (fun p => (after <? p.1) && v_lacks v w kind scope p.2) (v_log v w scope).

(** A step that queues work and changes nothing else a backfill looks at. *)
Record queues {W} (Inv : W -> Prop) (v : View W) (w w' : W) : Prop := {
  qs_inv : Inv w -> Inv w';
  qs_log : forall scope, v_log v w' scope = v_log v w scope;
  qs_lacks : forall kind scope id, v_lacks v w' kind scope id = v_lacks v w kind scope id;
  qs_owed : forall kind scope id, v_owed v w kind scope id -> v_owed v w' kind scope id;
  qs_catalogue : v_catalogue v w' = v_catalogue v w;
}.

(** What a store promises the backfills of one [Ops] that queue at [t]. *)
Class BackfillSpec {W} (Inv : W -> Prop) (v : View W) (o : Ops W) (t runAfter : Time) : Prop := {
  bs_sorted : forall w scope, Inv w -> StronglySorted (fun p q => p.1 < q.1) (v_log v w scope);
  bs_positive : forall w scope p, Inv w -> p ∈ v_log v w scope -> 0 < p.1;
  bs_pending : forall w kind scope after limit,
    Inv w -> kind ∈ op_kinds o -> ScopeID_Validate scope = Ok tt -> 0 <= after -> 0 < limit ->
    pending o kind scope after limit w =
      (w, Ok (map snd (take (Z.to_nat limit) (missing v w kind scope after))));
  bs_episode : forall w scope p, Inv w -> ScopeID_Validate scope = Ok tt -> p ∈ v_log v w scope ->
    exists e, o_Episode (op_store o) scope p.2 w = (w, Ok e) /\ ep_seq e = p.1;
  bs_enqueue : forall w kind scope ids,
    Inv w -> kind ∈ op_kinds o -> ScopeID_Validate scope = Ok tt -> ids <> [] ->
    (forall id, id ∈ ids -> id ∈ map snd (v_log v w scope)) ->
    exists w' job, o_Enqueue (op_store o) (MkNewJob kind scope ids runAfter 0) t w = (w', Ok job) /\
      queues Inv v w w' /\ forall id, id ∈ ids -> v_owed v w' kind scope id;
  bs_scopes : forall w after rest, Inv w ->
    (after = EmptyString /\ rest = v_catalogue v w \/
     exists pre a, v_catalogue v w = pre ++ a :: rest /\ os_id a = after) ->
    o_Scopes (op_store o) (MkScopeQuery EmptyString after backfillScopePage) w =
      (w, Ok (take (Z.to_nat backfillScopePage) rest));
  bs_catalogue : forall w s, Inv w -> s ∈ v_catalogue v w -> ScopeID_Validate (os_id s) = Ok tt;
}.

(** Only the tallies differ. *)
Definition same_place (out out' : BackfillResult) : Prop :=
  (bf_next_scope out', bf_next_seq out', bf_done out') = (bf_next_scope out, bf_next_seq out, bf_done out).

Lemma countFor_place out kind e j c : same_place out (countFor out kind e j c).
Proof. unfold same_place, countFor. by destruct (_ =? _)%string. Qed.
Lemma same_place_trans out out1 out2 : same_place out out1 -> same_place out1 out2 -> same_place out out2.
Proof. unfold same_place. congruence. Qed.
Lemma same_place_refl out : same_place out out.
Proof. done. Qed.
#[local] Hint Resolve countFor_place same_place_trans same_place_refl : core.

Section Covering.
Context {W : Type} (Inv : W -> Prop) (v : View W) (o : Ops W) (req : BackfillRequest) (t : Time).
Context `{!BackfillSpec Inv v o t (br_run_after req)}.

#[local] Instance queues_refl : Reflexive (queues Inv v).
Proof. intros w. by split. Qed.
#[local] Instance queues_trans : Transitive (queues Inv v).
Proof.
  intros x y z [] []. split; [auto| | |auto|congruence].
  - intros scope. by rewrite qs_log1.
  - intros kind scope id. by rewrite qs_lacks1.
Qed.

Lemma missing_queues w w' kind scope after :
  queues Inv v w w' -> missing v w' kind scope after = missing v w kind scope after.
Proof.
  intros [_ Hl Hk _ _]. unfold missing. rewrite Hl. apply List.filter_ext. intros p. by rewrite Hk.
Qed.

Lemma elem_of_missing w kind scope after p :
  p ∈ missing v w kind scope after <->
  p ∈ v_log v w scope /\ after < p.1 /\ v_lacks v w kind scope p.2 = true.
Proof. unfold missing. rewrite elem_of_filter_b, andb_true_iff, Z.ltb_lt. tauto. Qed.

(** *** One page *)

Lemma enqueue_loop_spec kind scope chunks jobs collapsed w :
  Inv w -> kind ∈ op_kinds o -> ScopeID_Validate scope = Ok tt ->
  (forall c, c ∈ chunks -> c <> [] /\ forall id, id ∈ c -> id ∈ map snd (v_log v w scope)) ->
  exists w' collapsed',
    enqueue_loop o kind scope t (br_run_after req) chunks jobs collapsed w =
      (w', (jobs + Z.of_nat (length chunks), collapsed', None)) /\
    queues Inv v w w' /\ forall id, id ∈ concat chunks -> v_owed v w' kind scope id.
Proof using All.
  intros Hi Hk Hs. revert jobs collapsed w Hi.
  induction chunks as [|c chunks IH]; intros jobs collapsed w Hi Hc.
  { exists w, collapsed. cbn. rewrite Z.add_0_r. split; [done|]. split; [done|]. by intros id ?%not_elem_of_nil. }
  destruct (Hc c) as [Hne Hin]; [by left|].
  destruct (bs_enqueue w kind scope c Hi Hk Hs Hne Hin) as (w1 & job & Henq & Hq & Howed).
  destruct (IH (jobs + 1) (if Before (job_created job) t then collapsed + 1 else collapsed) w1)
    as (w' & collapsed' & Hl & Hq' & Ho).
  { by apply Hq. }
  { intros c' Hc'. rewrite (qs_log _ _ _ _ Hq). apply Hc. by right. }
  exists w', collapsed'. cbn [enqueue_loop length concat]. rewrite Henq, Hl.
  split; [f_equal; f_equal; f_equal; lia|]. split; [by transitivity w1|].
  intros id [Hid|Hid]%elem_of_app; [|by apply Ho]. apply (qs_owed _ _ _ _ Hq'). by apply Howed.
Qed.

(** *** Cursors *)

(** The work of one kind between [after] and [upto] is queued. *)
Definition covered (w : W) (kind : JobKind) (scope : ScopeID) (after : Z) (upto : option Z) : Prop :=
  forall p, p ∈ missing v w kind scope after ->
    match upto with Some q => p.1 <= q | None => True end -> v_owed v w kind scope p.2.

(** A cursor that set out from [after] in this scope. *)
Record cursor_ok (w : W) (scope : ScopeID) (after : Z) (c : backfillCursor) : Prop := {
  co_kind : cu_kind c ∈ op_kinds o;
  co_budget : 0 <= cu_remaining c;
  co_seq : after <= cu_seq c;
  co_covered : covered w (cu_kind c) scope after (if cu_exhausted c then None else Some (cu_seq c));
  co_exhausted : cu_exhausted c = true -> 0 < cu_remaining c;
  co_spent : cu_remaining c = 0 -> after < cu_seq c;
  co_place : after < cu_seq c -> cu_seq c ∈ map fst (v_log v w scope);
}.

Lemma covered_queues w w' kind scope after upto :
  queues Inv v w w' -> covered w kind scope after upto -> covered w' kind scope after upto.
Proof.
  intros Hq Hc p Hp Hu. rewrite (missing_queues w w') in Hp by done. apply (qs_owed _ _ _ _ Hq). by apply Hc.
Qed.

Lemma cursor_queues w w' scope after c : queues Inv v w w' -> cursor_ok w scope after c -> cursor_ok w' scope after c.
Proof.
  intros Hq []. split; try done; [by eapply covered_queues|]. intros Hlt. rewrite (qs_log _ _ _ _ Hq). by apply co_place0.
Qed.

(** The page a cursor is given reaches as far as its last episode. *)
Lemma page_reach w kind scope after n p last_ :
  Inv w -> p ∈ missing v w kind scope after ->
  last (take n (missing v w kind scope after)) = Some last_ -> p.1 <= last_.1 ->
  p ∈ take n (missing v w kind scope after).
Proof using All.
  intros Hi Hp Hl Hle. set (l := missing v w kind scope after) in *.
  assert (StronglySorted (fun p q => p.1 < q.1) l) as Hs.
  { pose proof (bs_sorted w scope Hi) as Hs. unfold l, missing. clear -Hs.
    induction Hs as [|x l Hs IH Hx]; cbn; [constructor|]. destruct (_ && _); [|done].
    constructor; [done|]. apply Forall_forall. intros y [Hy _]%elem_of_filter_b. rewrite Forall_forall in Hx. by apply Hx. }
  rewrite <- (take_drop n l) in Hp. apply elem_of_app in Hp as [|Hp]; [done|]. exfalso.
  rewrite <- (take_drop n l) in Hs. apply StronglySorted_app in Hs as (Hcross & _ & _).
  assert (last_ ∈ take n l) as Hin.
  { apply last_Some in Hl as [l' ->]. apply elem_of_app. right. by apply list_elem_of_singleton. }
  specialize (Hcross last_ p Hin Hp). cbn in Hcross. lia.
Qed.

(** *** A turn, a pass, a scope *)

(** A cursor with nothing to do in this scope. *)
Definition at_rest (c : backfillCursor) : Prop := cu_exhausted c = true \/ cu_remaining c = 0.

(** What a turn leaves of a cursor. *)
Record advanced (w : W) (scope : ScopeID) (after : Z) (c c' : backfillCursor) : Prop := {
  ad_ok : cursor_ok w scope after c';
  ad_kind : cu_kind c' = cu_kind c;
  ad_budget : cu_remaining c' <= cu_remaining c;
  ad_moved : cu_exhausted c' = true \/ after < cu_seq c';
}.

(** The page of a cursor, once it is queued and its last episode is read. *)
Lemma page_covered w w' scope after c last_ :
  Inv w -> cursor_ok w scope after c -> cu_exhausted c = false -> queues Inv v w w' ->
  let page := take (Z.to_nat (cu_remaining c)) (missing v w (cu_kind c) scope (cu_seq c)) in
  last page = Some last_ -> (forall id, id ∈ map snd page -> v_owed v w' (cu_kind c) scope id) ->
  covered w' (cu_kind c) scope after (Some last_.1).
Proof using All.
  intros Hi Hc Hx Hq page Hl Ho p Hp Hle. rewrite (missing_queues w w') in Hp by done.
  destruct (Z.leb_spec p.1 (cu_seq c)) as [Hold|Hnew].
  - apply (qs_owed _ _ _ _ Hq). apply (co_covered _ _ _ _ Hc); [done|]. by rewrite Hx.
  - apply Ho, (list_elem_of_fmap_2 snd). apply elem_of_missing in Hp as (Hlog & _ & Hk).
    eapply page_reach; [done|by apply elem_of_missing|done|done].
Qed.

(** The work queued for a page names what the page holds. *)
Lemma page_batches (page : list (Z * EpisodeID)) batch ch :
  0 < batch -> ch ∈ batches (length (map snd page)) (Z.to_nat batch) (map snd page) ->
  ch <> [] /\ forall id, id ∈ ch -> exists q, q ∈ page /\ q.2 = id.
Proof using Type.
  intros Hb Hch. split; [eapply batches_nonempty, Hch; lia|]. intros id Hid.
  assert (id ∈ map snd page) as (q & -> & Hin)%list_elem_of_fmap; [|by exists q].
  rewrite <- (concat_batches (length (map snd page)) (Z.to_nat batch)) by lia.
  rewrite list_elem_of_In, in_concat. exists ch. by rewrite <- !list_elem_of_In.
Qed.

(** A page with nothing on it ends its cursor. *)
Lemma empty_page w scope after c :
  cursor_ok w scope after c -> cu_exhausted c = false -> 0 < cu_remaining c ->
  take (Z.to_nat (cu_remaining c)) (missing v w (cu_kind c) scope (cu_seq c)) = [] ->
  cursor_ok w scope after (MkCursor (cu_kind c) (cu_seq c) (cu_remaining c) true).
Proof using All.
  intros Hc Hx Hr Hl. pose proof (co_seq _ _ _ _ Hc) as Hseq. split; cbn; try done; [apply Hc|lia| |lia|apply Hc].
  intros q Hq _. destruct (Z.leb_spec q.1 (cu_seq c)).
  - apply (co_covered _ _ _ _ Hc); [done|]. by rewrite Hx.
  - apply elem_of_missing in Hq as (Hlog & _ & Hk). exfalso.
    assert (q ∈ missing v w (cu_kind c) scope (cu_seq c)) as Hq by by apply elem_of_missing.
    destruct (missing v w (cu_kind c) scope (cu_seq c)); [by apply not_elem_of_nil in Hq|].
    destruct (Z.to_nat (cu_remaining c)) eqn:?; [lia|done].
Qed.

Lemma cursor_turn_spec scope after batch c out w :
  Inv w -> ScopeID_Validate scope = Ok tt -> 0 <= after -> 0 < batch -> cursor_ok w scope after c ->
  exists w' r c' out', cursor_turn o scope req batch t c out w = (w', (r, out')) /\
    queues Inv v w w' /\ advanced w' scope after c c' /\ same_place out out' /\
    (r = Skipped c' /\ at_rest c' \/ r = Progressed c' /\ cu_remaining c' < cu_remaining c).
Proof using All.
  intros Hi Hs Ha Hb Hc. unfold cursor_turn.
  destruct (cu_exhausted c || (cu_remaining c =? 0)) eqn:Hrest.
  { assert (at_rest c) as Hat by (apply orb_true_iff in Hrest as [|]; [by left|right; lia]).
    exists w, (Skipped c), c, out. split_and!; [done..| |done|by left]. split; [done..|].
    destruct Hat as [|Hz]; [by left|right; by apply (co_spent _ _ _ _ Hc)]. }
  apply orb_false_iff in Hrest as [Hx Hr]. apply Z.eqb_neq in Hr.
  pose proof (co_budget _ _ _ _ Hc) as Hr0. pose proof (co_seq _ _ _ _ Hc) as Hseq.
  rewrite bs_pending by (done || lia || apply Hc).
  set (page := take _ _). destruct (last page) as [p|] eqn:Hl.
  - assert (map snd page <> []) as Hne by (intros [=->%map_eq_nil]; done).
    assert (forall q, q ∈ page -> q ∈ missing v w (cu_kind c) scope (cu_seq c)) as Hpage.
    { intros q Hq. rewrite <- (take_drop (Z.to_nat (cu_remaining c)) (missing v w (cu_kind c) scope (cu_seq c))). apply elem_of_app. by left. }
    destruct (enqueue_loop_spec (cu_kind c) scope
      (batches (length (map snd page)) (Z.to_nat batch) (map snd page)) 0 0 w) as (w1 & col & Henq & Hq & Ho).
    { done. } { apply Hc. } { done. }
    { intros ch Hch. apply page_batches in Hch as [Hne' Hin]; [|done]. split; [done|]. intros id (q & Hq & <-)%Hin.
      apply (list_elem_of_fmap_2 snd). by apply Hpage, elem_of_missing in Hq as [? _]. }
    rewrite concat_batches in Ho by lia.
    assert (p ∈ page) as Hp by by apply last_Some_elem_of.
    apply Hpage, elem_of_missing in Hp as (Hlog & Hlt & _).
    destruct (bs_episode w1 scope p) as (e & He & Hes); [by apply Hq|done|by rewrite (qs_log _ _ _ _ Hq)|].
    destruct (map snd page) as [|i ids] eqn:Hids; [done|]. rewrite <- Hids in *. unfold enqueueBatches.
    rewrite Henq. rewrite (fmap_last snd page : last (map snd page) = _), Hl. 
    change (default 0%N (snd <$> Some p)) with p.2. rewrite He, length_map, Hes.
    assert (0 < Z.of_nat (length page) <= cu_remaining c) as Hlen.
    { apply (f_equal length) in Hids. rewrite length_map in Hids. cbn in Hids.
      split; [lia|]. unfold page. rewrite length_take. lia. }
    eexists w1, _, (MkCursor (cu_kind c) p.1 (cu_remaining c - Z.of_nat (length page)) (cu_exhausted c)), _.
    split_and!; [done|done| |apply countFor_place|right; cbn; split; [done|lia]].
    split; cbn; [|done|lia|right; lia]. split; cbn; rewrite ?Hx; try done; [apply Hc|lia|lia| |lia|].
    { eapply page_covered; done. }
    intros _. rewrite (qs_log _ _ _ _ Hq). by apply (list_elem_of_fmap_2 fst).
  - apply last_None in Hl. rewrite Hl. cbn [map].
    eexists w, _, (MkCursor (cu_kind c) (cu_seq c) (cu_remaining c) true), _.
    split_and!; [done|done| |done|by left; split; [|left]].
    split; cbn; [|done|lia|by left]. apply empty_page; [done|done|lia|done].
Qed.

Lemma advanced_queues w w' scope after c c' :
  queues Inv v w w' -> advanced w scope after c c' -> advanced w' scope after c c'.
Proof. intros Hq []. split; try done. by eapply cursor_queues. Qed.

(** The episodes the cursors may still find work for. *)
Definition budget (cursors : list backfillCursor) : Z := foldr (fun c n => cu_remaining c + n) 0 cursors.

Lemma budget_advanced w scope after cs cs' : Forall2 (advanced w scope after) cs cs' -> budget cs' <= budget cs.
Proof. unfold budget. induction 1 as [|c c' cs cs' H _ IH]; cbn; [lia|]. destruct H. lia. Qed.

Lemma backfill_pass_spec scope after batch cs out w :
  Inv w -> ScopeID_Validate scope = Ok tt -> 0 <= after -> 0 < batch -> Forall (cursor_ok w scope after) cs ->
  exists w' cs' progressed out',
    backfill_pass o scope req batch t cs out w = (w', (cs', progressed, out', None)) /\
    queues Inv v w w' /\ Forall2 (advanced w' scope after) cs cs' /\ same_place out out' /\
    if progressed then budget cs' < budget cs else Forall at_rest cs'.
Proof using All.
  intros Hi Hs Ha Hb Hc. revert out w Hi Hc. induction cs as [|c cs IH]; intros out w Hi Hc.
  { exists w, [], false, out. split_and!; by constructor. }
  apply Forall_cons in Hc as [Hc Hcs].
  destruct (cursor_turn_spec scope after batch c out w) as (w1 & r & c' & out1 & Ht & Hq & Had & Hpl & Hr); [done..|].
  destruct (IH out1 w1) as (w' & cs' & pr & out' & Hp & Hq' & Had' & Hpl' & Hpr).
  { by apply Hq. } { eapply Forall_impl; [done|]. intros c0. by apply cursor_queues. }
  pose proof (budget_advanced _ _ _ _ _ Had') as Hle. cbn [backfill_pass]. rewrite Ht.
  exists w', (c' :: cs'). destruct Hr as [[-> Hrest]|[-> Hlt]]; rewrite Hp; eexists _, out'.
  all: split_and!; [done|by transitivity w1|constructor; [by eapply advanced_queues|done]|eauto|].
  all: unfold budget in *; cbn [foldr].
  - destruct pr; [destruct Had; lia|by constructor].
  - lia.
Qed.
Lemma advanced_trans w w' scope after cs cs1 cs2 :
  Forall2 (advanced w scope after) cs cs1 -> Forall2 (advanced w' scope after) cs1 cs2 ->
  Forall2 (advanced w' scope after) cs cs2.
Proof.
  intros H1. revert cs2. induction H1 as [|c c1 cs cs1 [] _ IH]; intros cs2 H2; inversion H2 as [|? c2 ? cs2' [] Htl]; subst.
  - constructor.
  - constructor; [|by apply IH]. split; [done|congruence|lia|done].
Qed.

Lemma advanced_ok w scope after cs cs' :
  Forall2 (advanced w scope after) cs cs' -> Forall (cursor_ok w scope after) cs'.
Proof. intros H. eapply Forall2_Forall_r; [done|]. apply Forall_true. by intros c c' []. Qed.

Lemma budget_nonneg w scope after cs : Forall (cursor_ok w scope after) cs -> 0 <= budget cs.
Proof. unfold budget. induction 1 as [|c cs H _ IH]; cbn; [lia|]. destruct H. lia. Qed.

(** With more fuel than budget a scope is walked until a kind has spent its
    budget or every kind is exhausted. *)
Lemma backfillScope_spec fuel scope after batch cs out w :
  Inv w -> ScopeID_Validate scope = Ok tt -> 0 <= after -> 0 < batch -> Forall (cursor_ok w scope after) cs ->
  budget cs < Z.of_nat fuel ->
  exists w' cs' out',
    backfillScope fuel o scope req batch t cs out w = (w', (cs', out', None)) /\
    queues Inv v w w' /\ Forall2 (advanced w' scope after) cs cs' /\ same_place out out' /\
    (spentBudget cs' = false -> Forall (fun c => cu_exhausted c = true) cs').
Proof using All.
  intros Hi Hs Ha Hb. revert cs out w Hi. induction fuel as [|fuel IH]; intros cs out w Hi Hc Hf.
  { pose proof (budget_nonneg _ _ _ _ Hc). lia. }
  destruct (backfill_pass_spec scope after batch cs out w) as (w1 & cs1 & pr & out1 & Hp & Hq & Had & Hpl & Hpr); [done..|].
  cbn [backfillScope]. rewrite Hp. destruct (negb pr || spentBudget cs1) eqn:Hstop.
  - exists w1, cs1, out1. split_and!; [done..|]. intros Hsp. rewrite Hsp, orb_false_r in Hstop.
    destruct pr; [done|]. apply Forall_forall. intros c Hin. rewrite Forall_forall in Hpr.
    destruct (Hpr c Hin) as [|Hz]; [done|]. exfalso. apply not_true_iff_false in Hsp. apply Hsp.
    apply existsb_exists. exists c. rewrite <- list_elem_of_In. split; [done|lia].
  - apply orb_false_iff in Hstop as [Hpr' _]. destruct pr; [|done].
    destruct (IH cs1 out1 w1) as (w' & cs' & out' & Hr & Hq' & Had' & Hpl' & Hd); [by apply Hq|by eapply advanced_ok|lia|].
    exists w', cs', out'. split_and!; [done|by transitivity w1|by eapply advanced_trans|eauto|done].
Qed.

(** *** Where to resume *)

(** The least progress of a kind that still has work. *)
Lemma resumeSeq_spec cs :
  (forall c, c ∈ cs -> 0 <= cu_seq c) -> (exists c, c ∈ cs /\ cu_exhausted c = false) ->
  (exists c, c ∈ cs /\ cu_exhausted c = false /\ resumeSeq cs = cu_seq c) /\
  forall c, c ∈ cs -> cu_exhausted c = false -> resumeSeq cs <= cu_seq c.
Proof.
  unfold resumeSeq. set (step := fun next c => _).
  assert (forall cs next, (forall c, c ∈ cs -> 0 <= cu_seq c) ->
    let r := foldl step next cs in
    (r = next \/ exists c, c ∈ cs /\ cu_exhausted c = false /\ r = cu_seq c) /\
    (0 <= next -> 0 <= r <= next) /\
    forall c, c ∈ cs -> cu_exhausted c = false -> 0 <= r <= cu_seq c) as Hgen.
  { clear cs. induction cs as [|c cs IH]; intros next Hpos; cbn [foldl].
    { split_and!; [by left|lia|by intros c ?%not_elem_of_nil]. }
    destruct (IH (step next c)) as (Hr & Hle & Hcs); [intros; apply Hpos; by right|].
    pose proof (Hpos c ltac:(by left)) as Hc. set (r := foldl step (step next c) cs) in *. clearbody r.
    assert (step next c = next /\ (cu_exhausted c = true \/ 0 <= next <= cu_seq c) \/
            cu_exhausted c = false /\ step next c = cu_seq c /\ (0 <= next -> cu_seq c <= next)) as Hstep.
    { unfold step. destruct (cu_exhausted c); [tauto|].
      destruct (Z.ltb_spec next 0), (Z.ltb_spec (cu_seq c) next); cbn; lia. }
    split_and!.
    - destruct Hr as [->|(c' & ? & ?)]; [|right; exists c'; split; [by right|done]].
      destruct Hstep as [[-> _]|(? & -> & _)]; [by left|right; exists c; split; [by left|done]].
    - intros Hn. destruct Hstep as [[Heq _]|(? & Heq & ?)]; rewrite Heq in *; lia.
    - intros c' [->|Hin]%elem_of_cons Hx; [|by apply Hcs].
      destruct Hstep as [[Heq [|]]|(? & Heq & ?)]; [congruence|rewrite Heq in *; lia..]. }
  intros Hpos (c0 & Hc0 & Hx0). destruct (Hgen cs (-1) Hpos) as (Hr & _ & Hcs).
  pose proof (Hcs c0 Hc0 Hx0). set (r := foldl step (-1) cs) in *.
  destruct (Z.ltb_spec r 0); [lia|]. destruct Hr as [|Hr]; [lia|]. split; [done|]. intros c Hc Hx. by apply Hcs.
Qed.

(** *** Scope after scope *)

(** The work of these kinds in a scope, from [after], is queued. *)
Definition scope_covered (w : W) (kinds : list JobKind) (scope : ScopeID) (after : Z) (upto : option Z) : Prop :=
  forall kind, kind ∈ kinds -> covered w kind scope after upto.

Lemma scope_covered_queues w w' kinds scope after upto :
  queues Inv v w w' -> scope_covered w kinds scope after upto -> scope_covered w' kinds scope after upto.
Proof. intros Hq Hc kind Hk. eapply covered_queues; eauto. Qed.

(** Cursors with budget left for each of these kinds. *)
Record ready (kinds : list JobKind) (cs : list backfillCursor) : Prop := {
  rd_kinds : map cu_kind cs = kinds;
  rd_budget : Forall (fun c => 0 < cu_remaining c) cs;
  rd_known : forall kind, kind ∈ kinds -> kind ∈ op_kinds o;
}.

Lemma rewind_ok w scope seed kinds cs :
  0 <= seed -> ready kinds cs -> Forall (cursor_ok w scope seed) (map (rewind seed) cs).
Proof.
  intros Hseed [Hk Hb Hin]. apply Forall_forall. intros c' (c & -> & Hc)%list_elem_of_fmap.
  rewrite Forall_forall in Hb. specialize (Hb c Hc).
  split; cbn; try lia; try done.
  - apply Hin. rewrite <- Hk. by apply (list_elem_of_fmap_2 cu_kind).
  - intros p (_ & Hlt & _)%elem_of_missing. lia.
Qed.

Lemma budget_rewind seed cs : budget (map (rewind seed) cs) = budget cs.
Proof. unfold budget. induction cs as [|c cs IH]; cbn; lia. Qed.

Lemma advanced_kinds w scope after cs cs' : Forall2 (advanced w scope after) cs cs' -> map cu_kind cs' = map cu_kind cs.
Proof. induction 1 as [|c c' cs cs' [] _ IH]; cbn; congruence. Qed.

(** What the walk of one scope leaves when its budget held. *)
Lemma unspent w scope seed kinds cs cs' :
  ready kinds cs -> Forall2 (advanced w scope seed) (map (rewind seed) cs) cs' -> spentBudget cs' = false ->
  Forall (fun c => cu_exhausted c = true) cs' ->
  ready kinds cs' /\ scope_covered w kinds scope seed None.
Proof.
  intros [Hk Hb Hin] Had Hsp Hx. pose proof (advanced_ok _ _ _ _ _ Had) as Hok.
  pose proof (advanced_kinds _ _ _ _ _ Had) as Hk'. rewrite map_map in Hk'. cbn in Hk'.
  rewrite Forall_forall in Hok, Hx. assert (map cu_kind cs' = kinds) as Hks by by rewrite Hk', <- Hk.
  split; [split; [done| |done]|].
  - apply Forall_forall. intros c Hc. by apply (co_exhausted _ _ _ _ (Hok c Hc)), Hx.
  - intros kind Hkind. rewrite <- Hks in Hkind. apply list_elem_of_fmap in Hkind as (c & -> & Hc).
    pose proof (co_covered _ _ _ _ (Hok c Hc)) as Hcov. by rewrite (Hx c Hc) in Hcov.
Qed.

(** Where the walk of one scope stops when a kind has spent its budget. *)
Lemma spent w scope seed kinds cs cs' :
  0 <= seed -> ready kinds cs -> Forall2 (advanced w scope seed) (map (rewind seed) cs) cs' ->
  spentBudget cs' = true ->
  seed < resumeSeq cs' /\ resumeSeq cs' ∈ map fst (v_log v w scope) /\
  scope_covered w kinds scope seed (Some (resumeSeq cs')).
Proof.
  intros Hseed [Hk Hb Hin] Had Hsp. pose proof (advanced_ok _ _ _ _ _ Had) as Hok.
  pose proof (advanced_kinds _ _ _ _ _ Had) as Hk'. rewrite map_map in Hk'. cbn in Hk'.
  assert (forall c, c ∈ cs' -> cu_exhausted c = true \/ seed < cu_seq c) as Hmoved.
  { clear -Had. induction Had as [|? ? ? ? [] _ IH]; [by intros c ?%not_elem_of_nil|].
    intros c [->|Hc]%elem_of_cons; auto. }
  rewrite Forall_forall in Hok. assert (map cu_kind cs' = kinds) as Hks by by rewrite Hk', <- Hk.
  destruct (resumeSeq_spec cs') as ((c & Hc & Hx & ->) & Hmin).
  { intros c Hc. pose proof (co_seq _ _ _ _ (Hok c Hc)). lia. }
  { apply existsb_exists in Hsp as (c & Hc%list_elem_of_In & Hz). exists c. split; [done|].
    destruct (cu_exhausted c) eqn:Hx; [|done]. pose proof (co_exhausted _ _ _ _ (Hok c Hc) Hx). lia. }
  assert (seed < cu_seq c) as Hlt by (destruct (Hmoved c Hc); congruence).
  split_and!; [done|by apply (co_place _ _ _ _ (Hok c Hc))|].
  intros kind Hkind. rewrite <- Hks in Hkind. apply list_elem_of_fmap in Hkind as (c' & -> & Hc').
  intros p Hp Hle. apply (co_covered _ _ _ _ (Hok c' Hc')); [done|].
  destruct (cu_exhausted c') eqn:Hx'; [done|]. specialize (Hmin c' Hc' Hx'). lia.
Qed.

(** Where the walk of a scope sets out. *)
Definition seed_of (scope : ScopeID) : Z := if String.eqb scope (br_scope req) then br_after_seq req else 0.

(** The walk stopped in a scope, after those before it. *)
Definition stopped_in (w : W) (kinds : list JobKind) (scopes : list ScopeID) (out : BackfillResult) : Prop :=
  exists pre scope post, scopes = pre ++ scope :: post /\
    (forall s, s ∈ pre -> scope_covered w kinds s (seed_of s) None) /\
    bf_next_scope out = scope /\ seed_of scope < bf_next_seq out /\
    bf_next_seq out ∈ map fst (v_log v w scope) /\
    scope_covered w kinds scope (seed_of scope) (Some (bf_next_seq out)).

Lemma stopped_in_cons w kinds s scopes out :
  scope_covered w kinds s (seed_of s) None -> stopped_in w kinds scopes out -> stopped_in w kinds (s :: scopes) out.
Proof.
  intros Hs (pre & scope & post & -> & Hpre & H). exists (s :: pre), scope, post. split; [done|]. split; [|done].
  intros s' [->|Hin]%elem_of_cons; [done|by apply Hpre].
Qed.

Lemma backfill_scopes_spec fuel batch kinds scopes cs out w :
  Inv w -> (forall s, s ∈ scopes -> ScopeID_Validate s = Ok tt) -> 0 <= br_after_seq req -> 0 < batch ->
  ready kinds cs -> budget cs < Z.of_nat fuel ->
  exists w' returned cs' out',
    backfill_scopes fuel o req batch t scopes cs out w = (w', (returned, cs', out', None)) /\
    queues Inv v w w' /\ bf_done out' = bf_done out /\
    if returned then stopped_in w' kinds scopes out'
    else (forall s, s ∈ scopes -> scope_covered w' kinds s (seed_of s) None) /\
      ready kinds cs' /\ budget cs' <= budget cs.
Proof using All.
  intros Hi Hv Ha Hb. revert cs out w Hi. induction scopes as [|s scopes IH]; intros cs out w Hi Hr Hf.
  { exists w, false, cs, out. split_and!; [done..| |done|lia]. by intros s ?%not_elem_of_nil. }
  assert (0 <= seed_of s) as Hseed by (unfold seed_of; destruct (_ =? _)%string; lia).
  destruct (backfillScope_spec fuel s (seed_of s) batch (map (rewind (seed_of s)) cs) out w)
    as (w1 & cs1 & out1 & Hrun & Hq & Had & Hpl & Hd); [done|by apply Hv; left|done|done| |by rewrite budget_rewind|].
  { by eapply rewind_ok. }
  assert (bf_done out1 = bf_done out) as Hdone by by injection Hpl.
  cbn [backfill_scopes]. fold (seed_of s). rewrite Hrun. destruct (spentBudget cs1) eqn:Hsp.
  - destruct (spent w1 s (seed_of s) kinds cs cs1) as (Hlt & Hin & Hcov); [done..|].
    eexists w1, true, cs1, _. split_and!; [done..|]. exists [], s, scopes. split_and!; [done| |done..].
    by intros s' ?%not_elem_of_nil.
  - destruct (unspent w1 s (seed_of s) kinds cs cs1) as (Hr1 & Hcov); [done..|by apply Hd|].
    pose proof (budget_advanced _ _ _ _ _ Had) as Hle. rewrite budget_rewind in Hle.
    destruct (IH ltac:(intros; apply Hv; by right) cs1 out1 w1) as (w' & ret & cs' & out' & Hrun' & Hq' & Hdone' & Hret).
    { by apply Hq. } { done. } { lia. }
    exists w', ret, cs', out'. split_and!; [done|by transitivity w1|congruence|].
    pose proof (scope_covered_queues _ _ _ _ _ _ Hq' Hcov) as Hcov'. destruct ret; [by apply stopped_in_cons|].
    destruct Hret as (Hall & Hr' & Hle'). split_and!; [|done|lia].
    intros s' [->|Hin]%elem_of_cons; [done|by apply Hall].
Qed.

Lemma stopped_in_app w kinds pre scopes post out :
  (forall s, s ∈ pre -> scope_covered w kinds s (seed_of s) None) ->
  stopped_in w kinds scopes out -> stopped_in w kinds (pre ++ scopes ++ post) out.
Proof.
  intros Hpre. induction pre as [|s pre IH]; cbn.
  - intros (pre' & scope & post' & -> & H). exists pre', scope, (post' ++ post). by rewrite <- app_assoc.
  - intros Hst. apply stopped_in_cons; [apply Hpre; by left|]. apply IH; [|done]. intros. apply Hpre. by right.
Qed.

(** The walk over the catalogue from [rest] on, the scopes [pre] behind it. *)
Lemma backfill_walk_spec pages fuel batch kinds pre rest after cs out w :
  Inv w -> is_empty (br_scope req) = true -> 0 <= br_after_seq req -> 0 < batch -> ready kinds cs ->
  budget cs < Z.of_nat fuel -> (length rest < pages)%nat -> bf_done out = false ->
  v_catalogue v w = pre ++ rest -> (after = EmptyString /\ pre = [] \/ exists pre' a, pre = pre' ++ [a] /\ os_id a = after) ->
  (forall s, s ∈ map os_id pre -> scope_covered w kinds s (seed_of s) None) ->
  exists w' out',
    backfill_walk pages fuel o req batch t after cs out w = (w', (out', None)) /\ queues Inv v w w' /\
    (bf_done out' = true /\ (forall s, s ∈ map os_id (pre ++ rest) -> scope_covered w' kinds s (seed_of s) None) \/
     bf_done out' = false /\ stopped_in w' kinds (map os_id (pre ++ rest)) out').
Proof using All.
  intros Hi He Ha Hb. revert pre rest after cs out w Hi.
  induction pages as [|pages IH]; intros pre rest after cs out w Hi Hr Hf Hp Hdone Hcat Hafter Hpre; [lia|].
  cbn [backfill_walk]. rewrite (bs_scopes w after rest) by
    (done || (destruct Hafter as [[-> ->]|(p' & a & -> & Ha')];
      [by left|right; exists p', a; by rewrite Hcat, <- app_assoc])).
  destruct (take _ rest) as [|a l] eqn:Htake.
  { destruct rest; [|done]. eexists w, (finished out). split_and!; [done..|]. left. split; [done|]. by rewrite app_nil_r. }
  set (n := Z.to_nat backfillScopePage) in *. pose proof (take_drop n rest) as Hrest. rewrite Htake in Hrest.
  set (page := a :: l) in *. clearbody n.
  destruct (backfill_scopes_spec fuel batch kinds (map os_id page) cs out w)
    as (w1 & ret & cs1 & out1 & Hrun & Hq & Hdone1 & Hret); [done| |done..|].
  { intros s (x & -> & Hx)%list_elem_of_fmap. apply bs_catalogue with w; [done|].
    rewrite Hcat, <- Hrest, !elem_of_app. auto. }
  rewrite Hrun.
  assert (forall s, s ∈ map os_id pre -> scope_covered w1 kinds s (seed_of s) None) as Hpre1.
  { intros s Hs. eapply scope_covered_queues; eauto. }
  destruct ret.
  { exists w1, out1. split_and!; [done..|]. right. split; [congruence|]. rewrite <- Hrest, !map_app.
    by apply stopped_in_app. }
  destruct Hret as (Hall & Hr1 & Hle).
  destruct (IH (pre ++ page) (drop n rest) (default EmptyString (last (map os_id page))) cs1 out1 w1)
    as (w' & out' & Hrun' & Hq' & Hout'); rewrite ?(qs_catalogue _ _ _ _ Hq), <- ?app_assoc, ?Hrest; try done.
  { by apply Hq. } { lia. }
  { rewrite <- Hrest, length_app in Hp. cbn in Hp. lia. } { congruence. }
  { right. destruct (exists_last (l := page)) as (l' & z & Hz); [done|]. rewrite Hz. exists (pre ++ l'), z.
    rewrite app_assoc. split; [done|]. rewrite map_app. cbn. by rewrite last_snoc. }
  { intros s. rewrite map_app, elem_of_app. intros [|]; auto. }
  rewrite <- app_assoc, Hrest in Hout'. exists w', out'. split_and!; [done|by transitivity w1|done].
Qed.
End Covering.

(** ** The whole call *)

(** A request's kinds are among those its [Ops] can enqueue. *)
Lemma backfillKinds_known {W} (o : Ops W) requested kinds :
  backfillKinds o requested = Ok kinds -> forall kind, kind ∈ kinds -> kind ∈ op_kinds o.
Proof.
  unfold backfillKinds. destruct requested as [|k l]; [intros [= <-]; done|]. revert kinds. generalize (k :: l). clear k l.
  intros l. set (step := fun acc kind => _).
  assert (forall acc kinds, (forall out, acc = Ok out -> forall kind, kind ∈ out -> kind ∈ op_kinds o) ->
    foldl step acc l = Ok kinds -> forall kind, kind ∈ kinds -> kind ∈ op_kinds o) as Hgen.
  { induction l as [|k l IH]; intros acc kinds Hacc; cbn [foldl]; [intros ->; eauto|].
    apply IH. intros out. unfold step. destruct acc as [out0|]; [|done].
    destruct (one_of k (op_kinds o)) eqn:Hk; [|done]. cbn. intros [= <-] kind Hin.
    destruct (one_of k out0); [by apply (Hacc out0)|].
    apply elem_of_app in Hin as [| ->%list_elem_of_singleton]; [by apply (Hacc out0)|by apply one_of_spec]. }
  intros kinds. apply Hgen. by intros out [= <-] kind ?%not_elem_of_nil.
Qed.

(** What a valid request is known to be. *)
Lemma BackfillRequest_Validate_Ok r :
  BackfillRequest_Validate r = Ok tt ->
  (br_scope r = EmptyString \/ ScopeID_Validate (br_scope r) = Ok tt) /\ 0 <= br_after_seq r /\
  (0 < br_after_seq r -> br_scope r <> EmptyString) /\ 0 < backfill_batch r /\ 0 < backfill_limit r.
Proof.
  unfold BackfillRequest_Validate, backfill_batch, backfill_limit. rewrite !seq_Ok, !reject_Ok_tt.
  intros (Hs & _ & Ha & Has & Hb & Hl). rewrite andb_false_iff, Z.ltb_ge in Has.
  apply Z.ltb_ge in Ha, Hb, Hl. unfold DefaultBackfillBatch, DefaultBackfillLimit.
  split_and!; [|done| |destruct (Z.eqb_spec (br_batch r) 0); lia|destruct (Z.eqb_spec (br_limit r) 0); lia].
  - unfold opt_scope_Validate in Hs. destruct (is_empty (br_scope r)) eqn:He; [left; by apply is_empty_spec|by right].
  - intros Hpos Hnil. destruct Has as [|Hne]; [lia|]. by rewrite Hnil in Hne.
Qed.

Section Backfills.
Context {W : Type} (Inv : W -> Prop) (v : View W) (o : Ops W) (req : BackfillRequest) (t : Time).
Context `{!BackfillSpec Inv v o t (br_run_after req)}.

Lemma new_cursors_ready kinds :
  BackfillRequest_Validate req = Ok tt -> backfillKinds o (br_kinds req) = Ok kinds ->
  ready o kinds (new_cursors kinds (backfill_limit req)) /\
  budget (new_cursors kinds (backfill_limit req)) = Z.of_nat (length kinds) * backfill_limit req.
Proof.
  intros (_ & _ & _ & _ & Hl)%BackfillRequest_Validate_Ok Hk. unfold new_cursors. split; [split|].
  - rewrite map_map. apply map_id.
  - apply Forall_forall. by intros c (k & -> & _)%list_elem_of_fmap.
  - by apply backfillKinds_known with (br_kinds req).
  - unfold budget. clear Hk. induction kinds as [|k kinds IH]; cbn [map foldr length]; [done|].
    rewrite IH. cbn. lia.
Qed.

(** A call in one scope: where it ends, and that all is queued up to there. *)
Definition scope_run (w1 : W) (kinds : list JobKind) (w' : W) (out : BackfillResult) : Prop :=
  queues Inv v w1 w' /\
  if bf_done out then scope_covered v w' kinds (br_scope req) (br_after_seq req) None
  else bf_next_scope out = br_scope req /\ br_after_seq req < bf_next_seq out /\
    bf_next_seq out ∈ map fst (v_log v w' (br_scope req)) /\
    scope_covered v w' kinds (br_scope req) (br_after_seq req) (Some (bf_next_seq out)).

Lemma Backfill_scope_run pages fuel w w1 kinds :
  BackfillRequest_Validate req = Ok tt -> backfillKinds o (br_kinds req) = Ok kinds ->
  br_scope req <> EmptyString -> Now (op_clock o) w = (w1, t) -> Inv w1 ->
  Z.of_nat (length kinds) * backfill_limit req < Z.of_nat fuel ->
  exists w' out, Backfill pages fuel o req w = (w', (out, None)) /\ scope_run w1 kinds w' out.
Proof using All.
  intros Hv Hk Hne Hnow Hi Hf. unfold Backfill. rewrite Hv. cbn [rbind]. rewrite Hk, Hnow.
  destruct (new_cursors_ready kinds Hv Hk) as [Hr Hb].
  apply BackfillRequest_Validate_Ok in Hv as ([|Hs] & Ha & _ & Hbatch & _); [done|].
  replace (is_empty (br_scope req)) with false by (symmetry; by apply String.eqb_neq).
  destruct (backfill_scopes_spec Inv v o req t fuel (backfill_batch req) kinds [br_scope req]
    (new_cursors kinds (backfill_limit req)) no_result w1) as (w' & ret & cs' & out & -> & Hq & Hdone & Hret);
    [done|by intros s ->%list_elem_of_singleton|done|done|done|by rewrite Hb|].
  assert (seed_of req (br_scope req) = br_after_seq req) as Hseed by (unfold seed_of; by rewrite String.eqb_refl).
  destruct ret.
  - exists w', out. split; [done|]. split; [done|]. rewrite Hdone. cbn.
    destruct Hret as ([|x pre] & scope & post & Heq & _ & Hrest); [|by destruct pre].
    injection Heq as <- _. by rewrite Hseed in Hrest.
  - exists w', (finished out). split; [done|]. split; [done|]. cbn. destruct Hret as [Hall _]. rewrite <- Hseed.
    apply Hall. by apply list_elem_of_singleton.
Qed.

(** a [Backfill] of one scope finds all the missing work. With fuel for the
    budget of its kinds it returns without an error and changes only the queue;
    when it reports [Done], every episode past [AfterSeq] without the projection
    of one of its kinds has a job on the queue, and otherwise [NextSeq] is an
    episode of the scope past [AfterSeq] up to which the work of every kind is
    queued, so that resuming there skips nothing and a caller that resumes comes
    to the end of the log. *)
Theorem Backfill_covers_scope pages fuel w w1 kinds :
  BackfillRequest_Validate req = Ok tt -> backfillKinds o (br_kinds req) = Ok kinds ->
  br_scope req <> EmptyString -> Now (op_clock o) w = (w1, t) -> Inv w1 ->
  Z.of_nat (length kinds) * backfill_limit req < Z.of_nat fuel ->
  exists w' out,
    Backfill pages fuel o req w = (w', (out, None)) /\ queues Inv v w1 w' /\
    if bf_done out then scope_covered v w' kinds (br_scope req) (br_after_seq req) None
    else bf_next_scope out = br_scope req /\ br_after_seq req < bf_next_seq out /\
      bf_next_seq out ∈ map fst (v_log v w' (br_scope req)) /\
      scope_covered v w' kinds (br_scope req) (br_after_seq req) (Some (bf_next_seq out)).
Proof using All.
  intros Hv Hk Hne Hnow Hi Hf. destruct (Backfill_scope_run pages fuel w w1 kinds) as (w' & out & H & Hq & Hr); [done..|].
  by exists w', out.
Qed.

(** C22: a [Backfill] without a scope walks the whole catalogue. With fuel for the
    budget and a page for every scope it returns without an error and changes only
    the queue; when it reports [Done], every episode of every scope without the
    projection of one of its kinds has a job on the queue, and otherwise the scopes
    before [NextScope] are covered whole and [NextScope] up to [NextSeq]. *)
Theorem Backfill_covers_all pages fuel w w1 kinds :
  BackfillRequest_Validate req = Ok tt -> backfillKinds o (br_kinds req) = Ok kinds ->
  br_scope req = EmptyString -> Now (op_clock o) w = (w1, t) -> Inv w1 ->
  Z.of_nat (length kinds) * backfill_limit req < Z.of_nat fuel ->
  (length (v_catalogue v w1) < pages)%nat ->
  exists w' out,
    Backfill pages fuel o req w = (w', (out, None)) /\ queues Inv v w1 w' /\
    if bf_done out then forall s, s ∈ v_catalogue v w1 -> scope_covered v w' kinds (os_id s) 0 None
    else exists pre s post, v_catalogue v w1 = pre ++ s :: post /\ bf_next_scope out = os_id s /\
      (forall s', s' ∈ pre -> scope_covered v w' kinds (os_id s') 0 None) /\
      0 < bf_next_seq out /\ bf_next_seq out ∈ map fst (v_log v w' (os_id s)) /\
      scope_covered v w' kinds (os_id s) 0 (Some (bf_next_seq out)).
Proof using All.
  intros Hv Hk Hnil Hnow Hi Hf Hp. unfold Backfill. rewrite Hv. cbn [rbind]. rewrite Hk, Hnow.
  destruct (new_cursors_ready kinds Hv Hk) as [Hr Hb].
  apply BackfillRequest_Validate_Ok in Hv as (_ & Ha & _ & Hbatch & _).
  assert (is_empty (br_scope req) = true) as He by by apply is_empty_spec. rewrite He.
  assert (forall s, s ∈ v_catalogue v w1 -> seed_of req (os_id s) = 0) as Hseed.
  { intros s Hs. unfold seed_of. rewrite Hnil. pose proof (bs_catalogue w1 s Hi Hs) as Hvs.
    by destruct (os_id s). }
  destruct (backfill_walk_spec Inv v o req t pages fuel (backfill_batch req) kinds [] (v_catalogue v w1) EmptyString
    (new_cursors kinds (backfill_limit req)) no_result w1) as (w' & out & -> & Hq & Hout);
    [done|done|done|done|done|by rewrite Hb|done|done|done|by left|by intros s ?%not_elem_of_nil|].
  exists w', out. split_and!; [done..|]. cbn [app] in Hout.
  destruct Hout as [[-> Hall]|[-> (pre & scope & post & Hcat & Hpre & Hrest)]].
  - intros s Hs. rewrite <- (Hseed s Hs). by apply Hall, list_elem_of_fmap_2.
  - apply map_eq_app in Hcat as (pre' & tl & Hcat & <- & Htl).
    apply map_eq_cons in Htl as (s & post' & -> & <- & <-).
    rewrite (Hseed s) in Hrest by (rewrite Hcat, elem_of_app, elem_of_cons; auto).
    destruct Hrest as (Hn & Hlt & Hin & Hcov). exists pre', s, post'. split_and!; try done.
    intros s' Hs'. rewrite <- (Hseed s') by (rewrite Hcat, elem_of_app; auto). by apply Hpre, list_elem_of_fmap_2.
Qed.
End Backfills.

(** ** Resuming *)

(** The loop its documentation asks of a caller: call, and call again from where
    the last call stopped, until it is [Done]. *)
Definition resumed (req : BackfillRequest) (out : BackfillResult) : BackfillRequest :=
  MkBackfillRequest (bf_next_scope out) (br_kinds req) (bf_next_seq out) (br_batch req) (br_limit req) (br_run_after req).

Fixpoint backfill_until_done {W} (calls pages fuel : nat) (o : Ops W) (req : BackfillRequest) (w : W)
    : W * (BackfillResult * option Error) :=
  match calls with
  | O => (w, (no_result, Some ENoFuel))
  | S calls' =>
      match Backfill pages fuel o req w with
      | (w', (out, Some e)) => (w', (out, Some e))
      | (w', (out, None)) =>
          if bf_done out then (w', (out, None)) else backfill_until_done calls' pages fuel o (resumed req out) w'
      end
  end.

(** How much of a scope's log is past a cursor. *)
Definition log_past {W} (v : View W) (w : W) (scope : ScopeID) (after : Z) : nat :=
  length (List.filter (fun p => after <? p.1) (v_log v w scope)).

Lemma log_past_falls {W} (v : View W) w scope after next :
  after < next -> next ∈ map fst (v_log v w scope) -> (log_past v w scope next < log_past v w scope after)%nat.
Proof.
  unfold log_past. intros Hlt (p & -> & Hp)%list_elem_of_fmap. revert Hp. generalize (v_log v w scope). intros l Hp.
  induction l as [|q l IH]; [by apply not_elem_of_nil in Hp|].
  assert (forall l : list (Z * EpisodeID), length (List.filter (fun q => (p.1 <? q.1)%Z) l) <=
    length (List.filter (fun q => (after <? q.1)%Z) l))%nat as Hle.
  { clear -Hlt. induction l as [|x l IH]; cbn; [lia|].
    destruct (Z.ltb_spec p.1 x.1), (Z.ltb_spec after x.1); cbn; lia. }
  apply elem_of_cons in Hp as [<-|Hp]; cbn.
  - replace (p.1 <? p.1) with false by lia. replace (after <? p.1) with true by lia. cbn. specialize (Hle l). lia.
  - specialize (IH Hp). destruct (Z.ltb_spec p.1 q.1), (Z.ltb_spec after q.1); cbn; lia.
Qed.

Section Resuming.
Context {W : Type} (Inv : W -> Prop) (v : View W) (o : Ops W) (runAfter : Time).
(** Reading the clock leaves the store as it is, and at any of its readings the
    store keeps its promises. *)
Context (Hclock : forall w, Inv w -> queues Inv v w (Now (op_clock o) w).1 /\
  BackfillSpec Inv v o (Now (op_clock o) w).2 runAfter).

Lemma scope_covered_join w kinds scope after next :
  scope_covered v w kinds scope after (Some next) -> scope_covered v w kinds scope next None ->
  scope_covered v w kinds scope after None.
Proof.
  intros H1 H2 kind Hk p Hp _. destruct (Z.leb_spec p.1 next).
  - by apply H1.
  - apply H2; [done| |done]. apply elem_of_missing in Hp as (? & _ & ?). by apply elem_of_missing.
Qed.

(** C23: a backfill that is resumed comes to an end. Looping on [Done] within one
    scope, with [NextScope] and [NextSeq] passed back, takes at most one call more
    than there are episodes past [AfterSeq]; it never fails, and at its end every
    episode past the first [AfterSeq] that lacks a projection has a job. *)
Theorem backfill_until_done_ends calls pages fuel req w kinds :
  br_run_after req = runAfter -> BackfillRequest_Validate req = Ok tt -> backfillKinds o (br_kinds req) = Ok kinds ->
  br_scope req <> EmptyString -> Inv w -> Z.of_nat (length kinds) * backfill_limit req < Z.of_nat fuel ->
  (log_past v w (br_scope req) (br_after_seq req) < calls)%nat ->
  exists w' out,
    backfill_until_done calls pages fuel o req w = (w', (out, None)) /\ bf_done out = true /\
    queues Inv v w w' /\ scope_covered v w' kinds (br_scope req) (br_after_seq req) None.
Proof using All.
  revert req w. induction calls as [|calls IH]; intros req w Hra Hv Hk Hne Hi Hf Hc; [lia|].
  destruct (Hclock w Hi) as [Hq0 Hspec]. rewrite <- Hra in Hspec.
  destruct (Now (op_clock o) w) as [w1 t] eqn:Hnow. cbn [fst snd] in *.
  destruct (Backfill_scope_run Inv v o req t pages fuel w w1 kinds) as (w2 & out & Hrun & Hq & Hout); [done..|by apply Hq0|done|].
  assert (queues Inv v w w2) as Hq2 by (by eapply queues_trans).
  cbn [backfill_until_done]. rewrite Hrun. destruct (bf_done out) eqn:Hdone; [by exists w2, out|].
  destruct Hout as (Hs & Hlt & Hin & Hcov).
  pose proof (BackfillRequest_Validate_Ok _ Hv) as ([|Hsv] & Ha & _ & Hb & Hl); [done|].
  destruct (IH (resumed req out) w2) as (w' & out' & Hrun' & Hdone' & Hq' & Hcov'); cbn [resumed br_scope br_after_seq];
    rewrite ?Hs; try done.
  - unfold BackfillRequest_Validate in *. cbn [resumed br_scope br_kinds br_after_seq br_batch br_limit]. rewrite Hs.
    rewrite !seq_Ok, !reject_Ok_tt in *. replace (is_empty (br_scope req)) with false by
      (symmetry; by apply String.eqb_neq). rewrite andb_false_r, Z.ltb_ge. destruct Hv as (? & ? & ? & ? & ? & ?).
    split_and!; (done || lia).
  - by apply Hq2.
  - assert (log_past v w2 (br_scope req) (bf_next_seq out) < log_past v w2 (br_scope req) (br_after_seq req))%nat
      as Hfall by by apply log_past_falls.
    unfold log_past in *. rewrite !(qs_log _ _ _ _ Hq2) in Hfall. rewrite (qs_log _ _ _ _ Hq2). lia.
  - exists w', out'. split_and!; [done|done|by eapply queues_trans|].
    cbn [resumed br_scope br_after_seq] in Hcov'. rewrite Hs in Hcov'.
    eapply scope_covered_join; [|done]. by eapply scope_covered_queues.
Qed.
End Resuming.
