(* ===== verification/BackfillPg.v ===== *)
(** * Backfilling over PostgreSQL ([ops/backfill.go] on [postgres])

    The view a backfill has of the PostgreSQL store, the proof that the store keeps
    the promises [Backfilling] asks for, and the deployment of [Deployment] being
    backfilled: scope by scope, over the whole catalogue, and resumed. *)

From S2P Require Import Types OpsTypes Validate Server Db PgQueue Queueing PgEpisode Appending Replaying PgFact FactWriting FactReading PgEncoding Ports System Postgres Deployment Ops Backfilling.

#[local] Open Scope Z_scope.

Section Deployed.
Context `{Sv : Server} `{!ServerLaws Sv} {E : Type} (P : E -> Prop).

(** An [Ops] over one pool, with the models whose work it can enqueue. *)
Record pg_operated (cfg : OpsConfig (World E)) : Prop := {
  po_store : oc_store cfg = Some pg_ops;
  po_facts : oc_facts cfg = None;
  po_embedder : forall e, oc_embedder cfg = Some e -> pg_text (e_Model e) = true;
  po_extractor : forall x, oc_extractor cfg = Some x -> pg_text (x_Model x) = true;
}.

Implicit Types (w : World E) (o : Ops (World E)) (d : Db).

(** What lacks a projection of a kind: [has_encoding] and [has_extraction] by id. *)
Definition lacking o d (kind : JobKind) (id : EpisodeID) : bool :=
  if String.eqb kind JobKindEncode then
    match op_embedder o with
    | Some e => negb (bool_decide ((id, e_Model e) ∈ map encoding_key (db_encodings d)))
    | None => false
    end
  else
    match op_extractor o with
    | Some x => negb (has_extraction d id (x_Model x))
    | None => false
    end.

(** An episode some outstanding job names. *)
Definition owed d (kind : JobKind) (scope : ScopeID) (id : EpisodeID) : Prop :=
  exists r, r ∈ db_jobs d /\ inflight r = true /\ jr_kind r = kind /\ jr_scope r = scope /\ id ∈ jr_episodes r.

Definition place (r : EpisodeRow) : Z * EpisodeID := (er_seq r, er_id r).

Definition pg_view o : View (World E) :=
  MkView (fun w scope => map place (history scope 0 (w_db w)))
    (fun w kind _ id => lacking o (w_db w) kind id)
    (fun w kind scope id => owed (w_db w) kind scope id)
    (fun w => map scanScope (sort_func (cmp_on sr_id pg_collate) (db_scopes (w_db w)))).

(** A well-formed, migrated database whose scopes the application wrote; [P] is
    what is known of the rest of the world. *)
Record operable w : Prop := {
  op_ok : db_ok (w_db w);
  op_ready : db_ready (w_db w) = true;
  op_scopes : Forall (fun s => ScopeID_Validate (sr_id s) = Ok tt) (db_scopes (w_db w));
  op_env : P (w_env w);
}.

(** *** Reading *)

Lemma seq_injective scope d x y :
  db_ok d -> x ∈ db_episodes d -> y ∈ db_episodes d -> er_scope x = scope -> er_scope y = scope ->
  er_seq x = er_seq y -> x = y.
Proof.
  intros Hok Hx Hy Hsx Hsy Heq.
  apply (NoDup_key (fun r => (er_scope r, er_seq r)) (db_episodes d)); [apply (eo_seqs d (ok_episodes d Hok))|done|done|].
  congruence.
Qed.

(** The anti-join within a scope is the history without what is done. *)
Lemma pending_rows_history scope after limit done_ d :
  db_ok d -> scope <> EmptyString -> 0 <= after ->
  pending_rows scope after limit done_ d =
  take (Z.to_nat limit) (List.filter (fun r => (after <? er_seq r) && negb (done_ r)) (history scope 0 d)).
Proof.
  intros Hok Hne Ha. unfold pending_rows, sql_limit, history.
  replace (is_empty scope) with false by (symmetry; by apply String.eqb_neq).
  rewrite <- (sort_func_filter (cmp_on er_seq Z.compare)).
  - f_equal. f_equal. rewrite filter_and. apply List.filter_ext_in. intros r _.
    destruct (String.eqb _ _); [|done]. destruct (Z.ltb_spec after (er_seq r)), (Z.ltb_spec 0 (er_seq r)); try done. lia.
  - intros x y [Hx [Hsx%String.eqb_eq _]%andb_true_iff]%elem_of_filter_b
      [Hy [Hsy%String.eqb_eq _]%andb_true_iff]%elem_of_filter_b Heq.
    apply Z.compare_eq in Heq. by apply (seq_injective scope d).
Qed.

(** The ids a pending query answers with. *)
Lemma pending_ids o kind scope after limit done_ w :
  db_ok (w_db w) -> scope <> EmptyString -> 0 <= after ->
  (forall r, done_ r = negb (lacking o (w_db w) kind (er_id r))) ->
  map er_id (pending_rows scope after limit done_ (w_db w)) =
  map snd (take (Z.to_nat limit) (missing (pg_view o) w kind scope after)).
Proof.
  intros Hok Hne Ha Hd. rewrite pending_rows_history by done. unfold missing. cbn [v_log v_lacks pg_view].
  rewrite filter_map, firstn_map, map_map. f_equal. f_equal. apply List.filter_ext. intros r.
  cbn. by rewrite Hd, negb_involutive.
Qed.

Lemma valid_nonempty s : ScopeID_Validate s = Ok tt -> s <> EmptyString.
Proof. by intros H ->. Qed.

Lemma validate_pending_scope name scope after limit :
  name <> EmptyString -> ScopeID_Validate scope = Ok tt -> 0 <= after -> 0 < limit ->
  validate_pending name scope after limit = Ok tt.
Proof.
  intros Hn Hs Ha Hl. pose proof (valid_nonempty _ Hs) as Hne. unfold validate_pending, opt_scope_Validate.
  rewrite !seq_Ok, !reject_Ok_tt. replace (is_empty scope) with false by (symmetry; by apply String.eqb_neq).
  replace (is_empty name) with false by (symmetry; by apply String.eqb_neq).
  rewrite andb_false_r, !Z.ltb_ge. split_and!; (done || lia).
Qed.

Lemma pending_encodings o e scope after limit w :
  db_ok (w_db w) -> db_ready (w_db w) = true -> op_store o = pg_ops -> op_embedder o = Some e ->
  e_Model e <> EmptyString -> pg_text (e_Model e) = true ->
  ScopeID_Validate scope = Ok tt -> 0 <= after -> 0 < limit ->
  pending o JobKindEncode scope after limit w =
    (w, Ok (map snd (take (Z.to_nat limit) (missing (pg_view o) w JobKindEncode scope after)))).
Proof.
  intros Hok Hready Ho He Hne Ht Hs Ha Hl. unfold pending. rewrite String.eqb_refl, He, Ho.
  cbn [o_PendingEncodings pg_ops]. unfold on_db, PendingEncodings_get, pending_encoding_rows. rewrite obind_olift.
  cbn [pe_model pe_scope pe_after_seq pe_limit]. rewrite validate_pending_scope by done. cbv beta iota zeta.
  unfold omap_err, with_text, on_schema. cbn [forallb]. rewrite Ht, Hready. cbn [andb].
  replace (limit =? 0) with false by lia. rewrite (pending_ids o JobKindEncode); [by destruct w|done|by apply valid_nonempty|done|].
  intros r. unfold lacking, has_encoding. cbn. by rewrite He, negb_involutive.
Qed.

Lemma pending_extractions o x scope after limit w :
  db_ok (w_db w) -> db_ready (w_db w) = true -> op_facts o = Some pg_ops_facts -> op_extractor o = Some x ->
  x_Model x <> EmptyString -> pg_text (x_Model x) = true ->
  ScopeID_Validate scope = Ok tt -> 0 <= after -> 0 < limit ->
  pending o JobKindExtract scope after limit w =
    (w, Ok (map snd (take (Z.to_nat limit) (missing (pg_view o) w JobKindExtract scope after)))).
Proof.
  intros Hok Hready Ho He Hne Ht Hs Ha Hl. unfold pending. rewrite String.eqb_refl, He, Ho.
  change (String.eqb JobKindExtract JobKindEncode) with false.
  cbn [of_PendingExtractions pg_ops_facts]. unfold on_db, PendingExtractions_get. rewrite obind_olift.
  cbn [px_extractor px_scope px_after_seq px_limit]. rewrite validate_pending_scope by done. cbv beta iota zeta.
  unfold omap_err, with_text, on_schema. cbn [forallb]. rewrite Ht, Hready. cbn [andb].
  replace (limit =? 0) with false by lia. rewrite (pending_ids o JobKindExtract); [by destruct w|done|by apply valid_nonempty|done|].
  intros r. unfold lacking. cbn. by rewrite He, negb_involutive.
Qed.

Lemma in_log scope id w :
  id ∈ map snd (map place (history scope 0 (w_db w))) ->
  exists r, r ∈ db_episodes (w_db w) /\ er_scope r = scope /\ er_id r = id.
Proof.
  rewrite map_map. intros (r & -> & Hr)%list_elem_of_fmap.
  apply elem_of_history in Hr as (? & ? & _). by exists r.
Qed.

(** *** Queueing *)

Lemma owed_grows d d' kind scope id :
  (forall r, r ∈ db_jobs d -> r ∈ db_jobs d') -> owed d kind scope id -> owed d' kind scope id.
Proof. intros Hr (r & Hin & ?). exists r. split; [by apply Hr|done]. Qed.

(** Rows are added to the queue and ids minted. *)
Lemma queued_view o w d' :
  let d := w_db w in
  operable w -> set_jobs (db_jobs d) (set_minted (db_minted d) d') = d -> (db_minted d <= db_minted d')%nat ->
  jobs_ok d' -> (forall r, r ∈ db_jobs d -> r ∈ db_jobs d') ->
  queues operable (pg_view o) w (MkWorld d' (w_env w)).
Proof.
  intros d [Hok Hready Hsc Henv] Hrest Hm Hj Hr.
  assert (d' = set_jobs (db_jobs d') (set_minted (db_minted d') d)) as Hd by (rewrite <- Hrest; by destruct d').
  split; cbn [v_log v_lacks v_owed v_catalogue pg_view w_db].
  - intros _. rewrite Hd. split; cbn [w_db w_env]; [|done|done|done]. apply set_jobs_ok; [done|done|]. by rewrite <- Hd.
  - intros scope. by rewrite Hd.
  - intros kind scope id. by rewrite Hd.
  - intros kind scope id. by apply owed_grows.
  - by rewrite Hd.
Qed.

Lemma enqueue_owes o kind scope ids t runAfter w :
  operable w -> op_store o = pg_ops -> JobKind_Valid kind = true -> ScopeID_Validate scope = Ok tt ->
  ids <> [] -> IsZero t = false -> (forall id, id ∈ ids -> id ∈ map snd (map place (history scope 0 (w_db w)))) ->
  exists w' job, o_Enqueue (op_store o) (MkNewJob kind scope ids runAfter 0) t w = (w', Ok job) /\
    queues operable (pg_view o) w w' /\ forall id, id ∈ ids -> v_owed (pg_view o) w' kind scope id.
Proof.
  intros Hw Ho Hk Hs Hne Ht Hlog. pose proof Hw as [Hok Hready Hsc Henv].
  assert (validateNewJob (MkNewJob kind scope ids runAfter 0) t = Ok tt) as Hv.
  { unfold validateNewJob. cbn. rewrite !seq_Ok, !reject_Ok_tt, Hk, Ht. split_and!; try done.
    - by destruct ids.
    - apply check_all_Ok, Forall_forall. intros id Hid. apply reject_Ok_tt, IsZeroID_false.
      destruct (in_log scope id w (Hlog id Hid)) as (r & Hr & _ & <-).
      pose proof (eo_rows _ (ok_episodes _ Hok)) as Hrows. rewrite Forall_forall in Hrows.
      destruct (Hrows r Hr) as (_ & (k & _ & ->) & _). apply uuidv7_nonzero. }
  pose proof (keeps_Enqueue (MkNewJob kind scope ids runAfter 0) t (w_db w) (ok_jobs _ Hok)) as [Hj [_ _ [Hrest Hm]]].
  rewrite Enqueue_spec in Hj, Hrest, Hm by (done || apply Hok).
  rewrite Ho. cbn. unfold on_db. rewrite Enqueue_spec by (done || apply Hok). cbn [nj_kind nj_scope nj_episodes] in *.
  destruct (outstanding kind scope ids (w_db w)) as [r|] eqn:Hf.
  - eexists _, _. split; [done|]. split; [by apply queued_view|]. intros id Hid. cbn.
    apply find_elem in Hf as [Hr [Hi Hkey%bool_decide_eq_true]%andb_true_iff].
    injection Hkey as <- <- <-. by exists r.
  - assert (has_scope (w_db w) scope = true) as Hhas.
    { destruct ids as [|id ids]; [done|]. destruct (in_log scope id w) as (r & Hr & <- & _); [apply Hlog; by left|].
      pose proof (eo_rows _ (ok_episodes _ Hok)) as Hrows. rewrite Forall_forall in Hrows.
      destruct (Hrows r Hr) as (_ & _ & s & Hsin & <- & _). apply bool_decide_eq_true. by apply list_elem_of_fmap_2. }
    rewrite Hhas in *. eexists _, _. split; [done|]. split.
    + apply queued_view; try done. intros r Hr. cbn. apply elem_of_app. by left.
    + intros id Hid. cbn. eexists. split; [apply elem_of_app; right; by apply list_elem_of_singleton|]. done.
Qed.

(** *** The catalogue *)

Definition by_id := cmp_on sr_id pg_collate.

Lemma scope_ids_injective d x y :
  db_ok d -> x ∈ db_scopes d -> y ∈ db_scopes d -> by_id x y = Eq -> x = y.
Proof.
  intros Hok Hx Hy Heq. apply (NoDup_key sr_id (db_scopes d)); [apply (ok_scopes d Hok)|done|done|].
  by apply pg_collate_eq.
Qed.

#[local] Instance by_id_total : TotalCmp by_id.
Proof. apply cmp_on_total, pg_collate_total. Qed.

Lemma catalogue_strict d :
  db_ok d -> StronglySorted (fun x y => by_id x y = Lt) (sort_func by_id (db_scopes d)).
Proof.
  intros Hok. pose proof (page_strict by_id (fun _ => true) (length (sort_func by_id (db_scopes d))) (db_scopes d)) as H.
  unfold page in H. rewrite filter_all, firstn_all in H by done. apply H; [eapply NoDup_fmap_1, (ok_scopes d Hok)|].
  intros x y. by apply scope_ids_injective.
Qed.

(** What is past a row of a strictly sorted list is what follows it. *)
Lemma filter_past pre a rest :
  StronglySorted (fun x y => by_id x y = Lt) (pre ++ a :: rest) ->
  List.filter (fun r => match by_id r a with Gt => true | _ => false end) (pre ++ a :: rest) = rest.
Proof.
  intros Hs. apply StronglySorted_app in Hs as (Hcross & _ & Hs). rewrite List.filter_app. cbn [List.filter].
  rewrite (cmp_refl by_id). apply StronglySorted_inv in Hs as [_ Ha]. rewrite Forall_forall in Ha.
  rewrite (proj2 (filter_none _ pre)), filter_all; [done| |].
  - intros r Hr. by rewrite (cmp_flip a r), (Ha r Hr).
  - intros r Hr. by rewrite (Hcross r a Hr) by by left.
Qed.

Lemma catalogue_page o w after rest :
  operable w -> op_store o = pg_ops ->
  (after = EmptyString /\ rest = v_catalogue (pg_view o) w \/
   exists pre a, v_catalogue (pg_view o) w = pre ++ a :: rest /\ os_id a = after) ->
  o_Scopes (op_store o) (MkScopeQuery EmptyString after backfillScopePage) w =
    (w, Ok (take (Z.to_nat backfillScopePage) rest)).
Proof.
  intros [Hok Hready Hsc Henv] Ho Hcase. cbn [v_catalogue pg_view] in Hcase. fold by_id in Hcase.
  assert (forall x, x ∈ sort_func by_id (db_scopes (w_db w)) -> ScopeID_Validate (sr_id x) = Ok tt) as Hv.
  { intros x Hx. unfold sort_func in Hx. rewrite elem_of_sort_by in Hx. rewrite Forall_forall in Hsc. by apply Hsc. }
  assert (after = EmptyString \/ ScopeID_Validate after = Ok tt) as Hafter.
  { destruct Hcase as [[-> _]|(pre & a & Hcat & <-)]; [by left|right].
    apply map_eq_app in Hcat as (pre' & tl & Hcat & _ & Htl). apply map_eq_cons in Htl as (a' & rest' & -> & <- & _).
    apply Hv. rewrite Hcat. apply elem_of_app. right. by left. }
  assert (ScopeQuery_Validate (MkScopeQuery EmptyString after backfillScopePage) = Ok tt) as Hq.
  { unfold ScopeQuery_Validate, opt_scope_Validate. cbn [scq_prefix scq_after scq_limit is_empty].
    destruct Hafter as [-> | ->]; [done|by destruct (is_empty after)]. }
  rewrite Ho. cbn [o_Scopes pg_ops]. unfold on_db, PgEncoding.Scopes. rewrite obind_olift, Hq.
  unfold omap_err, on_schema. rewrite Hready. fold by_id. rewrite (sort_func_filter by_id) by
    (intros x y; by apply scope_ids_injective).
  replace (MkWorld (w_db w) (w_env w)) with w by by destruct w.
  unfold sql_limit. rewrite <- firstn_map. do 3 f_equal. pose proof (catalogue_strict (w_db w) Hok) as Hs.
  revert Hcase Hv Hs.
  generalize (sort_func by_id (db_scopes (w_db w))). intros cat [[-> ->]|(pre & a & Hcat & <-)] Hv Hs.
  - by rewrite filter_all.
  - apply map_eq_app in Hcat as (pre' & tl & -> & <- & Htl). apply map_eq_cons in Htl as (a' & rest' & -> & <- & <-).
    f_equal. rewrite <- (filter_past _ _ _ Hs) at 2. apply List.filter_ext. intros r. unfold scopes_filter.
    cbn [scq_after scq_prefix]. change (is_empty EmptyString) with true. cbn [orb]. rewrite andb_true_r.
    replace (is_empty (os_id (scanScope a'))) with false; [done|].
    symmetry. apply String.eqb_neq, valid_nonempty, Hv. apply elem_of_app. right. by left.
Qed.

(** *** The promises *)

#[export] Instance pg_backfill clk cfg o t runAfter :
  pg_operated cfg -> Ops.New clk cfg = Ok o -> IsZero t = false ->
  BackfillSpec operable (pg_view o) o t runAfter.
Proof.
  intros [Hst Hfa He Hx] Hnew Ht.
  destruct (New_Ok _ _ _ Hnew) as ((s & Hs & Hos & Hfs) & _ & Hek & Hxk & Hkinds).
  rewrite Hst in Hs. injection Hs as <-. rewrite Hfa in Hfs. cbn in Hfs.
  split.
  - intros w scope [Hok _ _ _]. cbn. pose proof (history_sorted scope 0 (w_db w) Hok) as Hs.
    induction Hs as [|x l Hl IH Hx']; cbn; constructor; [done|].
    apply Forall_forall. intros p (r & -> & Hr)%list_elem_of_fmap. rewrite Forall_forall in Hx'. by apply Hx'.
  - intros w scope p _ (r & -> & Hr)%list_elem_of_fmap. by apply elem_of_history in Hr as (_ & _ & ?).
  - intros w kind scope after limit [Hok Hready _ _] Hk Hv Ha Hl. destruct (Hkinds kind Hk) as [-> | ->].
    + apply Hek in Hk as (e & Hce & Hoe & Hne). eapply pending_encodings; eauto.
    + apply Hxk in Hk as (x & f & Hcx & Hox & Hne & _). eapply pending_extractions; eauto.
  - intros w scope p [Hok Hready _ _] Hv (r & -> & Hr)%list_elem_of_fmap. apply elem_of_history in Hr as (Hr & Hsc & _).
    exists (episode_of r). split; [|done]. rewrite Hos. cbn [o_Episode pg_ops place snd]. unfold on_db.
    pose proof (eo_rows _ (ok_episodes _ Hok)) as Hrows. rewrite Forall_forall in Hrows.
    destruct (Hrows r Hr) as (_ & (k & _ & Hid) & _).
    destruct (Episode_get_spec scope (er_id r) (w_db w)) as [Hget _]; [done|done|done|by rewrite Hid; apply uuidv7_nonzero|].
    rewrite (Hget r) by done. by destruct w.
  - intros w kind scope ids Hw Hk Hv Hne Hlog. apply enqueue_owes; try done. by destruct (Hkinds kind Hk) as [-> | ->].
  - intros w after rest Hw. by apply catalogue_page.
  - intros w s [_ _ Hsc _] (r & -> & Hr)%list_elem_of_fmap. unfold sort_func in Hr. rewrite elem_of_sort_by in Hr.
    rewrite Forall_forall in Hsc. by apply Hsc.
Qed.

(** The clock of the deployment reads no database. *)
Definition clock_apart (c : Clock (World E)) : Prop :=
  forall w, P (w_env w) -> w_db (Now c w).1 = w_db w /\ P (w_env (Now c w).1) /\ IsZero (Now c w).2 = false.

Lemma clock_queues o c w : clock_apart c -> operable w -> queues operable (pg_view o) w (Now c w).1.
Proof.
  intros Hc [Hok Hready Hsc Henv]. destruct (Hc w Henv) as (Hdb & He & _).
  split; cbn; rewrite ?Hdb; try done. intros _. by split; rewrite ?Hdb.
Qed.
End Deployed.

(** ** Two scopes whose work was never queued *)

Definition quiet_command (scope content : string) : AppendCommand :=
  MkAppendCommand [MkNewEpisode scope content RoleUser "ada" "chat" (utc 3000) (utc 5000) None;
    MkNewEpisode scope content RoleUser "ada" "chat" (utc 4000) (utc 6000) None] [].
Definition quiet_one : Db := (Append (quiet_command "a" "first") (empty_db 2)).1.
Definition quiet_db : Db := (Append (quiet_command "b" "second") quiet_one).1.
Definition quiet_world : World Z := MkWorld quiet_db 9000.

Lemma quiet_ok : db_ok quiet_db.
Proof.
  apply (run_sys_ok (SAppend (quiet_command "b" "second")) quiet_one); [reflexivity|].
  apply (run_sys_ok (SAppend (quiet_command "a" "first")) (empty_db 2)); [reflexivity|apply empty_db_ok].
Qed.

Definition demo_ops_config : OpsConfig (World Z) :=
  MkOpsConfig (Some pg_ops) None (Some demo_embedder) (Some demo_extractor) None.
Definition demo_ops : Ops (World Z) :=
  MkOps pg_ops (Some pg_ops_facts) (Some demo_embedder) (Some demo_extractor) demo_clock
    [JobKindEncode; JobKindExtract].

(** [ops.New] builds it. *)
Example demo_ops_new : Ops.New demo_clock demo_ops_config = Ok demo_ops.
Proof. reflexivity. Qed.

Lemma demo_operated : pg_operated demo_ops_config.
Proof. split; try reflexivity; intros ? [= <-]; reflexivity. Qed.

Definition later (e : Z) : Prop := 0 < e.

Lemma quiet_operable : operable later quiet_world.
Proof.
  split; [apply quiet_ok|vm_compute; reflexivity| |vm_compute; reflexivity].
  cbn. repeat constructor; vm_compute; reflexivity.
Qed.

Definition backfill_of (scope : ScopeID) (limit : Z) : BackfillRequest :=
  MkBackfillRequest scope [] 0 1 limit zeroTime.

(** One scope, one page: the work of the first episode is queued, and the call
    says to resume after it. *)
Lemma Backfill_covers_scope_witness :
  exists w' out, Backfill 0 4 demo_ops (backfill_of "a" 1) quiet_world = (w', (out, None)) /\
    bf_done out = false /\ bf_next_seq out = 1 /\
    forall kind, kind ∈ [JobKindEncode; JobKindExtract] ->
      covered (pg_view demo_ops) w' kind "a" 0 (Some (bf_next_seq out)).
Proof.
  pose proof (pg_backfill later demo_clock demo_ops_config demo_ops (utc 9000) zeroTime demo_operated eq_refl eq_refl)
    as Hspec.
  destruct (Backfill_covers_scope (operable later) (pg_view demo_ops) demo_ops (backfill_of "a" 1) (utc 9000)
    0 4 quiet_world (MkWorld quiet_db 10000) [JobKindEncode; JobKindExtract]) as (w' & out & H & _ & Hout).
  1-4: vm_compute; (reflexivity || discriminate).
  { split; [apply quiet_ok|vm_compute; reflexivity| |vm_compute; reflexivity].
    cbn. repeat constructor; vm_compute; reflexivity. }
  { vm_compute. reflexivity. }
  assert ((Backfill 0 4 demo_ops (backfill_of "a" 1) quiet_world).2 = (out, None)) as Hres by (by rewrite H).
  vm_compute in Hres. injection Hres as <-. exists w'. eexists. split; [exact H|]. split; [reflexivity|].
  split; [reflexivity|]. exact (proj2 (proj2 (proj2 Hout))).
Defined.

(** The whole catalogue: the first scope is done, the second has its first episode
    queued. *)
Lemma Backfill_covers_all_witness :
  exists w' out, Backfill 3 7 demo_ops (backfill_of EmptyString 3) quiet_world = (w', (out, None)) /\
    bf_done out = false /\
    exists pre s post, v_catalogue (pg_view demo_ops) quiet_world = pre ++ s :: post /\ bf_next_scope out = os_id s /\
      0 < bf_next_seq out.
Proof.
  pose proof (pg_backfill later demo_clock demo_ops_config demo_ops (utc 9000) zeroTime demo_operated eq_refl eq_refl)
    as Hspec.
  destruct (Backfill_covers_all (operable later) (pg_view demo_ops) demo_ops (backfill_of EmptyString 3) (utc 9000)
    3 7 quiet_world (MkWorld quiet_db 10000) [JobKindEncode; JobKindExtract]) as (w' & out & H & _ & Hout).
  1-4: vm_compute; reflexivity.
  { split; [apply quiet_ok|vm_compute; reflexivity| |vm_compute; reflexivity].
    cbn. repeat constructor; vm_compute; reflexivity. }
  1-2: vm_compute; repeat constructor.
  assert (bf_done (Backfill 3 7 demo_ops (backfill_of EmptyString 3) quiet_world).2.1 = false) as Hd by
    (vm_compute; reflexivity).
  rewrite H in Hd. cbn [fst snd] in Hd. rewrite Hd in Hout. exists w', out. split; [exact H|]. split; [exact Hd|].
  destruct Hout as (pre & s & post & Hcat & Hns & _ & Hpos & _). exists pre, s, post. exact (conj Hcat (conj Hns Hpos)).
Defined.

Lemma demo_clock_apart : clock_apart later demo_clock.
Proof.
  intros w Hw. unfold later in *. cbn. split_and!; [done|lia|]. apply IsZero_neq. cbn. lia.
Qed.

(** Two pages of one episode each, and a third call that finds nothing. *)
Lemma backfill_until_done_ends_witness :
  exists w' out, backfill_until_done 3 0 4 demo_ops (backfill_of "a" 1) quiet_world = (w', (out, None)) /\
    bf_done out = true.
Proof.
  destruct (backfill_until_done_ends (operable later) (pg_view demo_ops) demo_ops zeroTime) with
    (calls := 3%nat) (pages := 0%nat) (fuel := 4%nat) (req := backfill_of "a" 1) (w := quiet_world)
    (kinds := [JobKindEncode; JobKindExtract]) as (w' & out & H & Hd & _).
  - intros w Hw. split; [by apply (clock_queues later demo_ops); [apply demo_clock_apart|]|].
    apply (pg_backfill later demo_clock demo_ops_config demo_ops); [apply demo_operated|reflexivity|].
    apply demo_clock_apart, Hw.
  - reflexivity.
  - vm_compute. reflexivity.
  - reflexivity.
  - vm_compute. discriminate.
  - apply quiet_operable.
  - vm_compute. reflexivity.
  - vm_compute. repeat constructor.
  - exists w', out. split; [exact H|exact Hd].
Defined.

(** What the resumption does not do. A walk of every scope that stops in the first
    one is resumed, as [BackfillResult] says to, with that scope and sequence
    number; the request is then one for that scope alone, and [Done] is reported
    without any job for the second. *)
Definition jobs_of (scope : ScopeID) (d : Db) : list JobRow :=
  List.filter (fun r => String.eqb (jr_scope r) scope) (db_jobs d).

Example resumed_walk_skips_scopes :
  let '(w', (out, err)) := backfill_until_done 5 3 4 demo_ops (backfill_of EmptyString 1) quiet_world in
  err = None /\ bf_done out = true /\ length (jobs_of "a" (w_db w')) = 4%nat /\ jobs_of "b" (w_db w') = [].
Proof. vm_compute. split_and!; reflexivity. Qed.
