(* ===== verification/Migrations.v ===== *)
(** * The embedded schema and the server it needs
      ([postgres/migrations.go], [postgres/inspect.go])

    Discovering, fingerprinting and rendering the embedded migrations; what is
    read of the server before anything else; the identifiers that go into SQL
    where no parameter can. *)

From S2P Require Import Types OpsTypes Sha256 Strconv.

#[local] Open Scope Z_scope.

(** ** Names *)

Definition is_lower (b : N) : bool := in_range 97 b 122.

(** [identifierPattern]: [^[a-z_][a-z0-9_$]{0,62}$]. *)
Definition identifierPattern (s : string) : bool :=
  match bytes_of s with
  | b :: l =>
      (is_lower b || N.eqb b 95) &&
      forallb (fun b => is_lower b || is_digit b || N.eqb b 95 || N.eqb b 36) l && (length l <=? 62)%nat
  | [] => false
  end.

(** [validateIdentifier]. *)
Definition validateIdentifier (name : string) : res unit :=
  reject (is_empty name) (EOther "identifier is empty") ;;?
  reject (negb (identifierPattern name)) (EOther "identifier must match").

Definition quote : N := 34.

(** [quoteIdentifier]: in double quotes, those inside doubled. *)
Definition quoteIdentifier (name : string) : string :=
  of_bytes (quote :: concat (map (fun b => if N.eqb b quote then [quote; quote] else [b]) (bytes_of name)) ++ [quote]).

(** ** What the server is *)

Definition MinServerVersionNum : Z := 180000.
Definition requiredExtensions : list string := ["vector"; "btree_gin"; "btree_gist"].

Record serverInfo : Type := MkServerInfo {
  si_versionNum : Z;
  si_extensionSchema : string;
  si_vectorVersion : string;
  si_missing : list string;
}.

(** A row of the catalogue of extensions. *)
Record ExtensionRow : Type := MkExtensionRow { xr_name : string; xr_schema : string; xr_version : string }.

(** A Go map filled from these rows: a name's last row wins. *)
Definition installed (rows : list ExtensionRow) (name : string) : option ExtensionRow :=
  List.find (fun r => String.eqb (xr_name r) name) (rev rows).

(** [inspect], from the server's version and the rows of [pg_extension]. *)
Definition inspect (versionNum : Z) (extensions : list ExtensionRow) : serverInfo :=
  let rows := List.filter (fun r => one_of (xr_name r) requiredExtensions) extensions in
  MkServerInfo versionNum
    (match installed rows "vector" with Some r => xr_schema r | None => EmptyString end)
    (match installed rows "vector" with Some r => xr_version r | None => EmptyString end)
    (List.filter (fun name => match installed rows name with Some _ => false | None => true end) requiredExtensions).

(** [checkVersion]. *)
Definition checkVersion (info : serverInfo) : res unit :=
  reject (si_versionNum info <? MinServerVersionNum) (EWrapPg ErrUnsupportedServer).

(** What is before the first dot, and after it. *)
Fixpoint cut_dot (l : list N) : option (list N * list N) :=
  match l with
  | [] => None
  | b :: l' =>
      if N.eqb b 46 then Some ([], l')
      else match cut_dot l' with Some (x, y) => Some (b :: x, y) | None => None end
  end.

(** [parseVersion]. *)
Definition parseVersion (version : string) : option (Z * Z) :=
  match cut_dot (bytes_of version) with
  | None => None
  | Some (p0, rest) =>
      let p1 := match cut_dot rest with Some (p1, _) => p1 | None => rest end in
      match Atoi (of_bytes p0), Atoi (of_bytes p1) with
      | Some major, Some minor => Some (major, minor)
      | _, _ => None
      end
  end.

(** [checkVectorVersion]. *)
Definition checkVectorVersion (info : serverInfo) : res unit :=
  match parseVersion (si_vectorVersion info) with
  | None => Err (EWrapPg ErrUnsupportedExtension)
  | Some (major, minor) => reject ((major =? 0) && (minor <? 8)) (EWrapPg ErrUnsupportedExtension)
  end.

(** ** The embedded set *)

Record migration : Type := MkMigration {
  mg_version : Z;
  mg_name : string;
  mg_source : string;
  mg_checksum : string;
}.

(** [fmt.Sprintf("%04d", version)], of a version that is not negative. *)
Definition four_digits (version : Z) : string :=
  let digits := bytes_of (Itoa version) in of_bytes (repeat 48%N (4 - length digits) ++ digits).

(** [migration.filename]. *)
Definition filename (m : migration) : string := (four_digits (mg_version m) ++ "_" ++ mg_name m ++ ".sql")%string.

(** An entry of the embedded directory: a file's contents, or a directory. *)
Record DirEntry : Type := MkDirEntry { de_name : string; de_content : option string }.

Definition is_slug (b : N) : bool := is_lower b || is_digit b || N.eqb b 95.
Definition sql_suffix : list N := bytes_of ".sql".

(** [migrationNamePattern]: [^(\d{4})_([a-z0-9_]+)\.sql$], its two groups. *)
Definition migrationNamePattern (s : string) : option (string * string) :=
  let l := bytes_of s in
  let tail := drop 5 l in
  let slug := take (length tail - 4) tail in
  if (10 <=? length l)%nat && forallb is_digit (take 4 l) && bool_decide (l !! 4%nat = Some 95%N) &&
     forallb is_slug slug && bool_decide (drop (length tail - 4) tail = sql_suffix)
  then Some (of_bytes (take 4 l), of_bytes slug) else None.

(** One turn of [loadMigrations]'s loop over the directory. *)
Definition load_entry (out : list migration) (e : DirEntry) : res (list migration) :=
  match de_content e with
  | None => Err (EOther "unexpected directory")
  | Some source =>
      match migrationNamePattern (de_name e) with
      | None => Err (EOther "does not match NNNN_name.sql")
      | Some (number, name) =>
          match Atoi number with
          | None => Err (EOther "parse version")
          | Some version =>
              reject (version <? 1) (EOther "version must be positive") ;;?
              reject (existsb (fun m => mg_version m =? version) out) (EOther "migrations share a version") ;;?
              Ok (out ++ [MkMigration version name source (sha256_hex source)])
          end
      end
  end.

Fixpoint load_entries (out : list migration) (entries : list DirEntry) : res (list migration) :=
  match entries with
  | [] => Ok out
  | e :: rest => let? out := load_entry out e in load_entries out rest
  end.

(** The contiguity check: versions from [want] on. *)
Fixpoint contiguous (want : Z) (l : list migration) : res unit :=
  match l with
  | [] => Ok tt
  | m :: l' => reject (negb (mg_version m =? want)) (EOther "versions must be contiguous from 1") ;;? contiguous (want + 1) l'
  end.

(** [loadMigrations]. *)
Definition loadMigrations (entries : list DirEntry) : res (list migration) :=
  let? out := load_entries [] entries in
  reject (match out with [] => true | _ => false end) (EOther "no migrations embedded") ;;?
  let out := sort_func (cmp_on mg_version Z.compare) out in
  contiguous 1 out ;;? Ok out.

(** ** Rendering *)

(** [text/template], for what the embedded files use of it: text, and the actions
    [{{.VectorDimensions}}] and [{{.TextSearchConfig}}]. A field the data does not
    have, and an action left open, are errors; no other form of action is
    modelled, and it is an error here. *)
Fixpoint find_close (l : list N) : option (list N * list N) :=
  match l with
  | [] => None
  | b :: l' =>
      match b, l' with
      | 125%N, 125%N :: rest => Some ([], rest)
      | _, _ => match find_close l' with Some (x, y) => Some (b :: x, y) | None => None end
      end
  end.

Record templateData : Type := MkTemplateData { td_dimensions : Z; td_config : string }.

Definition field_value (d : templateData) (field : list N) : option (list N) :=
  if bool_decide (field = bytes_of ".VectorDimensions") then Some (bytes_of (Itoa (td_dimensions d)))
  else if bool_decide (field = bytes_of ".TextSearchConfig") then Some (bytes_of (td_config d))
  else None.

(** The length of the template is enough fuel. *)
Fixpoint execute (fuel : nat) (d : templateData) (l : list N) : option (list N) :=
  match fuel, l with
  | S fuel', 123%N :: 123%N :: l' =>
      match find_close l' with
      | None => None
      | Some (field, rest) =>
          match field_value d field, execute fuel' d rest with
          | Some v, Some out => Some (v ++ out)
          | _, _ => None
          end
      end
  | S fuel', b :: l' => match execute fuel' d l' with Some out => Some (b :: out) | None => None end
  | _, _ => Some []
  end.

(** [migration.render]. *)
Definition render (m : migration) (d : templateData) : res string :=
  match execute (String.length (mg_source m)) d (bytes_of (mg_source m)) with
  | Some out => Ok (of_bytes out)
  | None => Err (EOther "render migration")
  end.
