(* ===== verification/Migrate.v ===== *)
(** * Bringing a database up to the embedded schema
      ([postgres/migrate.go], [New] of [postgres/store.go])

    [Migrate] over a session with a database: the options, the advisory lock, the
    ledger, one transaction per migration, and the final check of the options the
    schema was built for. What DDL does to a database is the server's, and so a
    parameter; that DDL is transactional, and that each statement of the ledger
    succeeds or fails whole, is PostgreSQL's contract. A ledger row keeps the
    columns that are read back; the time and duration beside them are not. *)

From S2P Require Import Types OpsTypes Db PgQueue Queueing Postgres Migrations.

#[local] Open Scope Z_scope.

Definition Schema : string := "mempher".
Definition DefaultTextSearchConfig : string := "english".
Definition DefaultExtensionSchema : string := "public".
Definition DefaultMigrateLockTimeout : Duration := Minute.
Definition MaxVectorDimensions : Z := 2000.
Definition lockPollInterval : Duration := 50 * Millisecond.
Definition lockPollMax : Duration := 500 * Millisecond.
Definition pgerrcodeInsufficientPrivilege : string := "42501".

(** ** Options *)

Record MigrateOptions : Type := MkMigrateOptions {
  mo_dimensions : Z;
  mo_config : string;
  mo_extension_schema : string;
  mo_lock_timeout : Duration;
}.

Definition template_data (o : MigrateOptions) : templateData := MkTemplateData (mo_dimensions o) (mo_config o).

(** [fmt.Errorf("%w: %w", err, mempher.ErrInvalidConfig)]. *)
Definition as_config {A} (r : res A) : res A :=
  match r with Ok a => Ok a | Err e => Err (EJoin e (EWrap ErrInvalidConfig)) end.

(** [MigrateOptions.validate]. *)
Definition MigrateOptions_validate (o : MigrateOptions) : res MigrateOptions :=
  reject (mo_dimensions o <=? 0) (EWrap ErrInvalidConfig) ;;?
  reject (mo_dimensions o >? MaxVectorDimensions) (EWrap ErrInvalidConfig) ;;?
  let config := if is_empty (mo_config o) then DefaultTextSearchConfig else mo_config o in
  as_config (validateIdentifier config) ;;?
  (if is_empty (mo_extension_schema o) then Ok tt else as_config (validateIdentifier (mo_extension_schema o))) ;;?
  reject (mo_lock_timeout o <? 0) (EWrap ErrInvalidConfig) ;;?
  Ok (MkMigrateOptions (mo_dimensions o) config (mo_extension_schema o)
        (if mo_lock_timeout o =? 0 then DefaultMigrateLockTimeout else mo_lock_timeout o)).

Definition with_extension_schema (s : string) (o : MigrateOptions) : MigrateOptions :=
  MkMigrateOptions (mo_dimensions o) (mo_config o) s (mo_lock_timeout o).

(** [resolveExtensionSchema]. *)
Definition resolveExtensionSchema (o : MigrateOptions) (info : serverInfo) : res MigrateOptions :=
  let? o :=
    (if is_empty (si_extensionSchema info) then
       Ok (if is_empty (mo_extension_schema o) then with_extension_schema DefaultExtensionSchema o else o)
     else if is_empty (mo_extension_schema o) then Ok (with_extension_schema (si_extensionSchema info) o)
     else if negb (String.eqb (mo_extension_schema o) (si_extensionSchema info))
     then Err (EWrapPg ErrSchemaConfigMismatch)
     else Ok o) in
  as_config (validateIdentifier (mo_extension_schema o)) ;;? Ok o.

(** ** History *)

(** A row of the ledger: [appliedMigration]. *)
Record appliedMigration : Type := MkApplied { am_version : Z; am_name : string; am_checksum : string }.

(** The map [appliedMigrations] fills, looked up: versions are the ledger's key. *)
Definition applied_at (ledger : list appliedMigration) (version : Z) : option appliedMigration :=
  List.find (fun a => am_version a =? version) ledger.

Definition embeds (migrations : list migration) (version : Z) : bool :=
  existsb (fun m => mg_version m =? version) migrations.

(** [checkHistory]. *)
Definition checkHistory (migrations : list migration) (ledger : list appliedMigration) : res unit :=
  check_all (fun a => reject (negb (embeds migrations (am_version a))) (EWrapPg ErrDatabaseAhead))
    (sort_func (cmp_on am_version Z.compare) ledger) ;;?
  check_all (fun m =>
      match applied_at ledger (mg_version m) with
      | None => Ok tt
      | Some a => reject (negb (String.eqb (am_checksum a) (mg_checksum m))) (EWrapPg ErrChecksumMismatch)
      end) migrations.

(** [annotateMigrationError]. *)
Definition annotateMigrationError (e : Error) (info : serverInfo) : Error :=
  match e with
  | EPg code =>
      if String.eqb code pgerrcodeInsufficientPrivilege && (0 <? Z.of_nat (length (si_missing info)))
      then EJoin e (EWrapPg ErrMissingExtension) else e
  | _ => e
  end.

(** ** A session *)

(** What DDL makes of a database, and what is read of it; [D] is everything but
    the ledger. *)
Class MigrationServer (D : Type) : Type := {
  sql_version : D -> Z;
  sql_extensions : D -> list ExtensionRow;
  sql_ts_config : D -> string -> bool;
  (** A script run after this [SET LOCAL search_path]. *)
  sql_exec : string -> string -> D -> result Error D;
  (** The row of [schema_config]. *)
  sql_config : D -> result Error (Z * string);
}.

Record Session (D : Type) : Type := MkSession {
  ss_db : D;
  (** [schema_migrations], once the schema is there. *)
  ss_ledger : option (list appliedMigration);
  (** Whether this session holds the advisory lock. *)
  ss_locked : bool;
}.
Arguments MkSession {D}.
Arguments ss_db {D}.
Arguments ss_ledger {D}.
Arguments ss_locked {D}.

(** How the wait for the lock goes: the answer of each poll, the clock, the
    context's error should it end during a wait, and what the sessions that held
    the lock meanwhile made of the database and its ledger; and the error of the query
    that gives the lock back, should it fail. *)
Record LockWait (D : Type) : Type := MkLockWait {
  lw_started : Z;
  lw_poll : nat -> res bool;
  lw_now : nat -> Z;
  lw_ctx : nat -> option Error;
  lw_others : D -> option (list appliedMigration) -> D * option (list appliedMigration);
  lw_unlock : option Error;
}.
Arguments MkLockWait {D}.
Arguments lw_started {D}.
Arguments lw_poll {D}.
Arguments lw_now {D}.
Arguments lw_ctx {D}.
Arguments lw_others {D}.
Arguments lw_unlock {D}.

Section Migrating.
Context {D : Type} `{MS : MigrationServer D}.
Abbreviation step A := (op Error (Session D) A).

(** The loop of [acquireMigrationLock], from poll [i] on. *)
Fixpoint lock_loop (fuel : nat) (lw : LockWait D) (deadline : Z) (i : nat) (backoff : Duration) : res unit :=
  match fuel with
  | O => Err (EOther "fuel")
  | S fuel' =>
      let? got := lw_poll lw i in
      if (got : bool) then Ok tt
      else if negb (lw_now lw i + backoff <? deadline) then Err (EWrapPg ErrLockTimeout)
      else
        match lw_ctx lw i with
        | Some e => Err e
        | None =>
            lock_loop fuel' lw deadline (S i)
              (if backoff <? lockPollMax then Z.min (backoff * 2) lockPollMax else backoff)
        end
  end.

(** [acquireMigrationLock]; the fuel is one poll for each interval of the wait. *)
Definition lock_fuel (timeout : Duration) : nat := Z.to_nat (timeout / lockPollInterval + 2).
Definition acquireMigrationLock (lw : LockWait D) (timeout : Duration) : step unit := fun s =>
  match lock_loop (lock_fuel timeout) lw (lw_started lw + timeout) 0 lockPollInterval with
  | Ok _ =>
      let (d, l) := lw_others lw (ss_db s) (ss_ledger s) in (MkSession d l true, Ok tt)
  | Err e => (s, Err e)
  end.

(** [checkTextSearchConfig]. *)
Definition checkTextSearchConfig (name : string) : step unit := fun s =>
  (s, reject (negb (sql_ts_config (ss_db s) name)) (EWrap ErrInvalidConfig)).

(** [bootstrap]. *)
Definition bootstrap : step unit := fun s =>
  (MkSession (ss_db s) (Some (default [] (ss_ledger s))) (ss_locked s), Ok tt).

(** [appliedMigrations]. *)
Definition appliedMigrations : step (list appliedMigration) := fun s =>
  match ss_ledger s with
  | Some l => (s, Ok l)
  | None => (s, Err (EPg pgerrcodeUndefinedTable))
  end.

(** The ledger's INSERT, with its key and its CHECK. *)
Definition record_migration (m : migration) : step unit := fun s =>
  match ss_ledger s with
  | None => (s, Err (EPg pgerrcodeUndefinedTable))
  | Some l =>
      if negb (0 <? mg_version m) then (s, Err (EPg pgerrcodeCheckViolation))
      else if existsb (fun a => am_version a =? mg_version m) l then (s, Err (EPg pgerrcodeUniqueViolation))
      else (MkSession (ss_db s) (Some (l ++ [MkApplied (mg_version m) (mg_name m) (mg_checksum m)])) (ss_locked s), Ok tt)
  end.

Definition exec_script (set_path sql : string) (info : serverInfo) : step unit := fun s =>
  match sql_exec set_path sql (ss_db s) with
  | Ok d => (MkSession d (ss_ledger s) (ss_locked s), Ok tt)
  | Err e => (s, Err (annotateMigrationError e info))
  end.

(** [applyMigration]; its [setPath]. *)
Definition setPath (extension_schema : string) : string :=
  ("SET LOCAL search_path TO " ++ quoteIdentifier extension_schema ++ ", " ++ quoteIdentifier Schema)%string.
Definition applyMigration (m : migration) (o : MigrateOptions) (info : serverInfo) : step unit :=
  let! sql := olift (render m (template_data o)) in
  atomically
    (exec_script (setPath (mo_extension_schema o)) sql info ;;;
     record_migration m).

Record MigrateResult : Type := MkMigrateResult {
  mr_applied : list Z;
  mr_version : Z;
  mr_extension_schema : string;
}.

(** The loop of [Migrate] over the embedded set. *)
Fixpoint apply_pending (applied : list appliedMigration) (o : MigrateOptions) (info : serverInfo)
    (migrations : list migration) (out : MigrateResult) : step MigrateResult :=
  match migrations with
  | [] => oret out
  | m :: rest =>
      match applied_at applied (mg_version m) with
      | Some _ => apply_pending applied o info rest (MkMigrateResult (mr_applied out) (mg_version m) (mr_extension_schema out))
      | None =>
          applyMigration m o info ;;;
          apply_pending applied o info rest
            (MkMigrateResult (mr_applied out ++ [mg_version m]) (mg_version m) (mr_extension_schema out))
      end
  end.

(** [checkSchemaConfig]. *)
Definition checkSchemaConfig (o : MigrateOptions) : step unit := fun s =>
  (s, match sql_config (ss_db s) with
      | Err ENoRows => Err (EWrapPg ErrSchemaNotReady)
      | Err e => Err e
      | Ok (dims, config) =>
          reject (negb (dims =? mo_dimensions o) || negb (String.eqb config (mo_config o))) (EWrapPg ErrSchemaConfigMismatch)
      end).

(** Closing the connection ends the session, and with it the locks it held. *)
Definition discard (s : Session D) : Session D := MkSession (ss_db s) (ss_ledger s) false.

(** [finishMigrationSession]; [unlock] is the error of its query. *)
Definition finishMigrationSession (unlock : option Error) (locked : bool) : step unit := fun s =>
  if locked then
    match unlock with
    | Some e => (discard s, Err e)
    | None =>
        if ss_locked s then (MkSession (ss_db s) (ss_ledger s) false, Ok tt)
        else (discard s, Err (EOther "migration lock was not held at release"))
    end
  else (s, Ok tt).

(** [m] and then, whatever came of it, the deferred release of the lock. *)
Definition released {A} (unlock : option Error) (m : step A) : step A := fun s =>
  let '(s1, r) := m s in
  match r, finishMigrationSession unlock true s1 with
  | r, (s2, Ok _) => (s2, r)
  | Ok _, (s2, Err e) => (s2, Err e)
  | Err e, (s2, Err e') => (s2, Err (EJoin e e'))
  end.

(** What [Migrate] does under the lock. *)
Definition migrate_locked (migrations : list migration) (o : MigrateOptions) (info : serverInfo) : step MigrateResult :=
  bootstrap ;;;
  let! applied := appliedMigrations in
  olift (checkHistory migrations applied) ;;;
  let! out := apply_pending applied o info migrations (MkMigrateResult [] 0 (mo_extension_schema o)) in
  checkSchemaConfig o ;;; oret out.

(** What it checks before taking the lock: the options as resolved. *)
Definition preflight (o : MigrateOptions) : step (MigrateOptions * serverInfo) := fun s =>
  let info := inspect (sql_version (ss_db s)) (sql_extensions (ss_db s)) in
  (olift (checkVersion info) ;;;
   let! o := olift (resolveExtensionSchema o info) in
   checkTextSearchConfig (mo_config o) ;;; oret (o, info)) s.

(** [Migrate]. Until it holds the lock, the deferred call only hands the connection
    back. *)
Definition Migrate (entries : list DirEntry) (lw : LockWait D) (pool : bool) (opts : MigrateOptions) : step MigrateResult :=
  let! o := olift (MigrateOptions_validate opts) in
  let! migrations := olift (loadMigrations entries) in
  olift (reject (negb pool) (EWrap ErrInvalidConfig)) ;;;
  let! oi := preflight o in
  acquireMigrationLock lw (mo_lock_timeout oi.1) ;;;
  released (lw_unlock lw) (migrate_locked migrations oi.1 oi.2).

(** ** Connecting to what was migrated *)

Record PgConfig : Type := MkPgConfig { pc_extension_schema : string; pc_dimensions : Z; pc_config : string }.

(** [New]: the store's fixed properties. *)
Definition New (pool : bool) (d : D) : res PgConfig :=
  reject (negb pool) (EWrap ErrInvalidConfig) ;;?
  let info := inspect (sql_version d) (sql_extensions d) in
  checkVersion info ;;?
  reject (0 <? Z.of_nat (length (si_missing info))) (EWrapPg ErrMissingExtension) ;;?
  checkVectorVersion info ;;?
  validateIdentifier (si_extensionSchema info) ;;?
  let? dc := readSchemaConfig validateIdentifier (sql_config d) in
  Ok (MkPgConfig (si_extensionSchema info) dc.1 dc.2).
End Migrating.
