(* ===== verification/Migrating.v ===== *)
(** * What a migration leaves ([Migrations], [Migrate])

    The embedded set a build accepts; which histories a database may have; that
    [Migrate] runs exactly the scripts that are missing, each with its ledger row
    or not at all, gives the lock back whatever happens, changes nothing the second
    time, and leaves a database that [New] accepts. *)

From S2P Require Import Types OpsTypes Validate Db Postgres Sha256 Utf8 Strconv Migrations Migrate.

#[local] Open Scope Z_scope.

(** ** The embedded set *)

(** The migration an entry of the directory is, if its name is one. *)
Definition entry_migration (e : DirEntry) : option migration :=
  match de_content e, migrationNamePattern (de_name e) with
  | Some source, Some (number, name) =>
      match Atoi number with
      | Some version => Some (MkMigration version name source (sha256_hex source))
      | None => None
      end
  | _, _ => None
  end.

(** Four digits are read as the number that is written with them. *)
Lemma four_digits_read l v :
  length l = 4%nat -> forallb is_digit l = true -> Atoi (of_bytes l) = Some v -> bytes_of (four_digits v) = l.
Proof.
  intros Hlen Hd Hv. assert (Forall (fun b => (48 <= b <= 57)%N) l) as Hl.
  { apply Forall_forall. intros b Hb%list_elem_of_In. rewrite forallb_forall in Hd. specialize (Hd b Hb).
    unfold is_digit, in_range in Hd. rewrite andb_true_iff, !N.leb_le in Hd. lia. }
  assert (v = digits_value l /\ 0 <= v < 10000) as [Hval Hb].
  { unfold Atoi in Hv. rewrite bytes_of_bytes in Hv by (eapply Forall_impl; [exact Hl|]; cbv beta; lia).
    destruct l as [|a [|b [|c [|d [|]]]]]; try done. rewrite !Forall_cons in Hl. destruct Hl as (Ha & Hb & Hc & Hdd & _).
    rewrite (proj2 (N.eqb_neq a 45)), (proj2 (N.eqb_neq a 43)) in Hv by lia. cbn [fst snd] in Hv.
    destruct (_ && _ && _); [|done]. injection Hv as <-. rewrite Z.mul_1_l. split; [done|]. unfold digits_value. cbn [foldl]. lia. }
  unfold four_digits. rewrite bytes_of_Itoa by lia. destruct (digits_of_spec (Z.to_N v)) as (Hd' & Hv' & Hne').
  assert (length (digits_of (Z.to_N v)) <= 4)%nat as Hlen' by (apply (digits_upto_length _ _ 3); change (10 ^ N.of_nat 4)%N with 10000%N; lia).
  set (ds := digits_of _) in *.
  assert (Forall (fun b => (48 <= b <= 57)%N) (repeat 48%N (4 - length ds) ++ ds)) as Hdig by (apply Forall_app; split; [apply zeros_digits|done]).
  rewrite bytes_of_bytes by (eapply Forall_impl; [exact Hdig|]; cbv beta; lia).
  assert (digits_value (repeat 48%N (4 - length ds) ++ ds) = digits_value l) as Hsame by (rewrite digits_value_zeros; lia).
  assert (length (repeat 48%N (4 - length ds) ++ ds) = 4%nat) as Hl4 by (rewrite length_app, repeat_length; lia).
  clear -Hsame Hl4 Hdig Hlen Hl. set (l' := _ ++ ds) in *. clearbody l'.
  destruct l as [|a [|b [|c [|d [|]]]]]; try done. destruct l' as [|a' [|b' [|c' [|d' [|]]]]]; try done.
  rewrite !Forall_cons in Hl, Hdig. unfold digits_value in Hsame. cbn [foldl] in Hsame. 
  assert (a = a') as <- by lia. assert (b = b') as <- by lia. assert (c = c') as <- by lia. by assert (d = d') as <- by lia.
Qed.

(** A migration's file name is the entry it was read from. *)
Lemma entry_filename e m : entry_migration e = Some m -> filename m = de_name e.
Proof.
  unfold entry_migration, migrationNamePattern. destruct (de_content e) as [source|]; [|done].
  set (l := bytes_of (de_name e)). set (rest := drop 5 l). destruct (_ && _) eqn:Hm; [|done].
  rewrite !andb_true_iff, !bool_decide_eq_true, Nat.leb_le in Hm. destruct Hm as ((((Hlen & Hd) & H5) & Hslug) & Hsuf).
  destruct (Atoi _) as [v|] eqn:Hv; [|done]. intros [= <-]. apply bytes_of_inj. unfold filename. cbn [mg_version mg_name].
  rewrite !bytes_of_app, (four_digits_read (take 4 l)); [|rewrite length_take; lia|done|done].
  rewrite bytes_of_bytes; [|apply Forall_take, Forall_drop, bytes_below].
  change (bytes_of ".sql") with sql_suffix. rewrite <- Hsuf. change (bytes_of "_") with [95%N].
  fold l. rewrite (take_drop (length rest - 4) rest). unfold rest. cbn [app].
  rewrite <- (take_drop_middle l 4 95%N) at 3 by done. done.
Qed.

Definition version_seq (n : nat) : list Z := map Z.of_nat (seq 1 n).

Lemma load_entries_Ok out entries ms :
  NoDup (map mg_version out) ->
  load_entries out entries = Ok ms <->
  exists loaded, map entry_migration entries = map Some loaded /\ ms = out ++ loaded /\
    Forall (fun m => 1 <= mg_version m) loaded /\ NoDup (map mg_version ms).
Proof.
  revert out. induction entries as [|e entries IH]; intros out Hnd; cbn [load_entries map].
  { split.
    - intros [= <-]. exists []. by rewrite app_nil_r.
    - intros ([|] & [=] & -> & _). by rewrite app_nil_r. }
  unfold load_entry, entry_migration at 1.
  destruct (de_content e) as [source|]; [|split; [done|by intros ([|] & [=] & _)]].
  destruct (migrationNamePattern (de_name e)) as [[number name]|]; [|split; [done|by intros ([|] & [=] & _)]].
  destruct (Atoi number) as [version|]; [|split; [done|by intros ([|] & [=] & _)]].
  set (m := MkMigration version name source _). rewrite rbind_Ok. split.
  - intros (out' & ([] & Hv & ([] & Hdup & [= <-])%rbind_Ok)%rbind_Ok & Hl). apply reject_Ok in Hv, Hdup.
    assert (NoDup (map mg_version (out ++ [m]))) as Hnd'.
    { rewrite map_app. apply NoDup_app_fresh; [done|apply NoDup_singleton|].
      intros x Hx ->%list_elem_of_singleton. apply list_elem_of_fmap in Hx as (m' & Heq & Hm').
      apply not_true_iff_false in Hdup. apply Hdup, existsb_exists. exists m'.
      rewrite <- list_elem_of_In. split; [done|]. cbn in Heq. lia. }
    apply (IH _ Hnd') in Hl as (loaded & Hmap & -> & Hpos & Hnd'').
    exists (m :: loaded). cbn [map]. rewrite Hmap. split; [done|]. rewrite <- app_assoc in *. cbn in *.
    split; [done|]. split; [|done]. constructor; [cbn; lia|done].
  - intros ([|m' loaded] & [= Hm Hmap] & -> & Hpos & Hnd'). fold m in Hm. subst m'.
    apply Forall_cons in Hpos as [Hp Hpos]. exists (out ++ [m]). cbn in Hp.
    assert (existsb (fun m0 => mg_version m0 =? version) out = false) as Hdup.
    { apply not_true_iff_false. intros (m' & Hm'%list_elem_of_In & Heq)%existsb_exists.
      rewrite map_app in Hnd'. apply NoDup_app in Hnd' as (_ & Hnot & _).
      apply (Hnot (mg_version m')); [by apply list_elem_of_fmap_2|].
      apply Z.eqb_eq in Heq. cbn. rewrite Heq. by left. }
    rewrite Hdup. replace (version <? 1) with false by lia. split; [done|].
    rewrite (cons_middle m out loaded) in Hnd' |- *. apply IH; [|by exists loaded; rewrite <- app_assoc].
    rewrite app_assoc, map_app in Hnd'. by apply NoDup_app in Hnd' as (? & _ & _).
Qed.

Lemma contiguous_Ok want l :
  contiguous want l = Ok tt <-> map mg_version l = map (fun k => want + Z.of_nat k) (seq 0 (length l)).
Proof.
  revert want. induction l as [|m l IH]; intros want; cbn [contiguous map length seq]; [done|].
  rewrite seq_Ok, reject_Ok_tt, negb_false_iff, Z.eqb_eq, IH, <- seq_shift, map_map.
  assert (map (fun k => want + 1 + Z.of_nat k) (seq 0 (length l)) =
          map (fun k => want + Z.of_nat (S k)) (seq 0 (length l))) as -> by (apply map_ext; intros; lia).
  rewrite Z.add_0_r. split; [by intros [-> ->]|by intros [= -> ->]].
Qed.

Lemma version_seq_from n : map (fun k => 1 + Z.of_nat k) (seq 0 n) = version_seq n.
Proof. unfold version_seq. rewrite <- seq_shift, map_map. apply map_ext. intros. lia. Qed.

Lemma NoDup_version_seq n : NoDup (version_seq n).
Proof. apply NoDup_fmap_2; [intros ? ?; lia|apply NoDup_seq]. Qed.

(** Numbered from one, and so in order already. *)
Lemma numbered_sorted a l :
  map mg_version l = map (fun k => a + Z.of_nat k) (seq 0 (length l)) ->
  StronglySorted (fun x y => cmp_on mg_version Z.compare x y <> Gt) l.
Proof.
  revert a. induction l as [|m l IH]; intros a Hl; [constructor|].
  cbn [map length seq] in Hl. injection Hl as Hm Hl. rewrite <- seq_shift, map_map in Hl.
  constructor; [apply (IH (a + 1)); rewrite Hl; apply map_ext; lia|].
  apply Forall_forall. intros m' Hm'. unfold cmp_on. rewrite Z.compare_le_iff.
  assert (mg_version m' ∈ map mg_version l) as Hin by by apply list_elem_of_fmap_2.
  rewrite Hl in Hin. apply list_elem_of_fmap in Hin as (k & -> & _). lia.
Qed.

Lemma sort_numbered ms loaded :
  map mg_version ms = version_seq (length ms) -> ms ≡ₚ loaded ->
  sort_func (cmp_on mg_version Z.compare) loaded = ms.
Proof.
  intros Hseq Hp. rewrite <- (sort_func_unique _ ms); [| |done].
  - apply sort_func_sorted_id, (numbered_sorted 1). by rewrite version_seq_from.
  - intros x y Hx Hy Heq. unfold cmp_on in Heq. apply Z.compare_eq in Heq.
    apply (NoDup_key mg_version ms); [rewrite Hseq; apply NoDup_version_seq|done..].
Qed.

(** [loadMigrations] accepts a directory exactly when every entry is a file
    named as a migration and their versions are 1 to n without gap or repetition,
    n not zero; it answers with them in version order, each fingerprinted by the
    digest of its own source. *)
Theorem loadMigrations_spec entries ms :
  loadMigrations entries = Ok ms <->
  exists loaded, map entry_migration entries = map Some loaded /\ ms ≡ₚ loaded /\
    map mg_version ms = version_seq (length ms) /\ ms <> [].
Proof.
  unfold loadMigrations. rewrite rbind_Ok. split.
  - intros (out & Hl & ([] & Hne & ([] & Hc & [= <-])%rbind_Ok)%rbind_Ok).
    apply load_entries_Ok in Hl as (loaded & Hmap & -> & _); [|constructor]. cbn in *.
    exists loaded. split; [done|]. split; [apply sort_by_Permutation|].
    apply contiguous_Ok in Hc. rewrite version_seq_from in Hc. split; [done|].
    intros Hnil%(f_equal length). unfold sort_func in Hnil. rewrite length_sort_by in Hnil.
    apply reject_Ok in Hne. by destruct loaded.
  - intros (loaded & Hmap & Hp & Hseq & Hne). exists loaded.
    assert (map mg_version ms ≡ₚ map mg_version loaded) as Hpv by by apply Permutation_map.
    pose proof (sort_numbered ms loaded Hseq Hp) as Hsort.
    assert (NoDup (map mg_version loaded)) as Hnd by (rewrite <- Hpv, Hseq; apply NoDup_version_seq).
    split.
    + apply load_entries_Ok; [constructor|]. exists loaded. split_and!; [done|done| |done].
      apply Forall_forall. intros m Hm. assert (mg_version m ∈ map mg_version ms) as Hin.
      { rewrite Hpv. by apply list_elem_of_fmap_2. }
      rewrite Hseq in Hin. apply list_elem_of_fmap in Hin as (k & -> & Hk%elem_of_seq). lia.
    + apply seq_Ok. split; [destruct loaded; [by apply Permutation_sym, Permutation_nil in Hp|done]|].
      rewrite Hsort. apply seq_Ok. split; [|done]. apply contiguous_Ok. by rewrite version_seq_from.
Qed.

(** ** Histories *)

Lemma applied_at_None ledger v : applied_at ledger v = None <-> v ∉ map am_version ledger.
Proof.
  split.
  - intros Hf (a & -> & Ha)%list_elem_of_fmap. eapply find_absent in Hf; [|done]. by rewrite Z.eqb_refl in Hf.
  - intros Hn. destruct (applied_at ledger v) as [a|] eqn:Hf; [|done].
    apply find_elem in Hf as [Ha <-%Z.eqb_eq]. destruct Hn. by apply list_elem_of_fmap_2.
Qed.

Lemma applied_at_Some ledger a :
  NoDup (map am_version ledger) -> a ∈ ledger -> applied_at ledger (am_version a) = Some a.
Proof.
  intros Hnd Ha. destruct (applied_at ledger (am_version a)) as [b|] eqn:Hf.
  - apply find_elem in Hf as [Hb Heq%Z.eqb_eq]. f_equal. by apply (NoDup_key am_version ledger).
  - apply applied_at_None in Hf. destruct Hf. by apply list_elem_of_fmap_2.
Qed.

Lemma embeds_spec ms v : embeds ms v = true <-> v ∈ map mg_version ms.
Proof.
  unfold embeds. rewrite existsb_exists. split.
  - intros (m & Hm%list_elem_of_In & <-%Z.eqb_eq). by apply list_elem_of_fmap_2.
  - intros (m & -> & Hm)%list_elem_of_fmap. exists m. rewrite <- list_elem_of_In. split; [done|]. lia.
Qed.

(** Every row of the ledger is an embedded migration, unedited. *)
Definition history_agrees (ms : list migration) (ledger : list appliedMigration) : Prop :=
  forall a, a ∈ ledger -> exists m, m ∈ ms /\ mg_version m = am_version a /\ mg_checksum m = am_checksum a.

Definition newer_than (ms : list migration) (ledger : list appliedMigration) : Prop :=
  exists a, a ∈ ledger /\ forall m, m ∈ ms -> mg_version m <> am_version a.

Lemma checkHistory_cases ms ledger :
  NoDup (map mg_version ms) -> NoDup (map am_version ledger) ->
  (checkHistory ms ledger = Ok tt /\ history_agrees ms ledger) \/
  (checkHistory ms ledger = Err (EWrapPg ErrDatabaseAhead) /\ newer_than ms ledger) \/
  (checkHistory ms ledger = Err (EWrapPg ErrChecksumMismatch) /\ ~ newer_than ms ledger /\
   ~ history_agrees ms ledger).
Proof.
  intros Hms Hl. unfold checkHistory. set (known := check_all _ (sort_func _ ledger)). set (same := check_all _ ms).
  destruct known as [[]|e] eqn:Hk; cbn [rbind].
  - apply check_all_Ok in Hk. rewrite Forall_forall in Hk.
    assert (forall a, a ∈ ledger -> exists m, m ∈ ms /\ mg_version m = am_version a) as Hin.
    { intros a Ha. specialize (Hk a). unfold sort_func in Hk. rewrite elem_of_sort_by in Hk.
      specialize (Hk Ha). apply reject_Ok, negb_false_iff, embeds_spec, list_elem_of_fmap in Hk as (m & ? & ?). by exists m. }
    assert (~ newer_than ms ledger) as Hold by (intros (a & Ha & Hno); destruct (Hin a Ha) as (m & Hm & Heq); by apply (Hno m)).
    destruct same as [[]|e] eqn:Hsame.
    + left. split; [done|]. apply check_all_Ok in Hsame. rewrite Forall_forall in Hsame. intros a Ha.
      destruct (Hin a Ha) as (m & Hm & Heq). exists m. split_and!; [done..|]. specialize (Hsame m Hm).
      rewrite Heq, (applied_at_Some ledger a Hl Ha) in Hsame.
      apply reject_Ok, negb_false_iff, String.eqb_eq in Hsame. done.
    + right. right. apply check_all_Err in Hsame as (pre & m & post & -> & Hm & _).
      destruct (applied_at ledger (mg_version m)) as [a|] eqn:Ha; [|done].
      unfold reject in Hm. destruct (negb _) eqn:Hne; [|done]. injection Hm as <-. split_and!; [done..|].
      apply find_elem in Ha as [Ha Hav%Z.eqb_eq]. intros Hag. destruct (Hag a Ha) as (m' & Hm' & Hv & Hc).
      assert (m' = m) as ->.
      { apply (NoDup_key mg_version (pre ++ m :: post)); [done|done| |congruence]. apply elem_of_app. right. by left. }
      by rewrite Hc, String.eqb_refl in Hne.
  - right. left. apply check_all_Err in Hk as (pre & a & post & Hs & Ha & _).
    unfold reject in Ha. destruct (negb _) eqn:Hne; [|done]. injection Ha as <-. split; [done|].
    exists a. split.
    + rewrite <- (elem_of_sort_by (leb_of (cmp_on am_version Z.compare))). unfold sort_func in Hs. rewrite Hs.
      apply elem_of_app. right. by left.
    + intros m Hm Heq. apply negb_true_iff, not_true_iff_false in Hne. apply Hne, embeds_spec.
      rewrite <- Heq. by apply list_elem_of_fmap_2.
Qed.

(** [checkHistory] lets a ledger pass exactly when every row of it is a migration
    of this build with the checksum it was applied with; a row this build does not
    have is [ErrDatabaseAhead], and only without one a changed checksum is
    [ErrChecksumMismatch]. *)
Theorem checkHistory_spec ms ledger :
  NoDup (map mg_version ms) -> NoDup (map am_version ledger) ->
  (checkHistory ms ledger = Ok tt <-> history_agrees ms ledger) /\
  (checkHistory ms ledger = Err (EWrapPg ErrDatabaseAhead) <-> newer_than ms ledger) /\
  (checkHistory ms ledger = Err (EWrapPg ErrChecksumMismatch) <->
     ~ newer_than ms ledger /\ ~ history_agrees ms ledger).
Proof.
  intros Hms Hl.
  assert (history_agrees ms ledger -> ~ newer_than ms ledger) as Hex.
  { intros Hag (a & Ha & Hno). destruct (Hag a Ha) as (m & Hm & Heq & _). by apply (Hno m). }
  destruct (checkHistory_cases ms ledger Hms Hl) as [[-> ?]|[[-> ?]|(-> & ? & ?)]]; naive_solver.
Qed.

(** ** Running what is pending *)

Section Running.
Context {D : Type} `{MS : MigrationServer D}.
Implicit Types (s : Session D) (d : D) (o : MigrateOptions) (ms : list migration).

Definition row_of (m : migration) : appliedMigration := MkApplied (mg_version m) (mg_name m) (mg_checksum m).

(** The script of one migration, rendered and run; and those of several. *)
Definition script o (m : migration) d : res D :=
  let? sql := render m (template_data o) in sql_exec (setPath (mo_extension_schema o)) sql d.
Fixpoint scripts o ms d : res D :=
  match ms with
  | [] => Ok d
  | m :: rest => let? d := script o m d in scripts o rest d
  end.

Definition pending (ledger : list appliedMigration) ms : list migration :=
  List.filter (fun m => match applied_at ledger (mg_version m) with Some _ => false | None => true end) ms.

Record ledger_ok (ledger : list appliedMigration) : Prop := {
  lo_versions : NoDup (map am_version ledger);
  lo_positive : Forall (fun a => 0 < am_version a) ledger;
}.

(** One migration: its script and its row, or neither. *)
Lemma applyMigration_run o info m d l b :
  0 < mg_version m -> mg_version m ∉ map am_version l ->
  applyMigration m o info (MkSession d (Some l) b) =
  match script o m d with
  | Ok d' => (MkSession d' (Some (l ++ [row_of m])) b, Ok tt)
  | Err e =>
      (MkSession d (Some l) b,
       Err (match render m (template_data o) with Ok _ => annotateMigrationError e info | Err _ => e end))
  end.
Proof.
  intros Hpos Hfresh. unfold applyMigration, script. rewrite obind_olift.
  destruct (render m (template_data o)) as [sql|e]; [|done]. cbn [rbind].
  unfold atomically, obind, exec_script. cbn [ss_db ss_ledger ss_locked].
  destruct (sql_exec _ sql d) as [d'|e]; [|done]. unfold record_migration. cbn [ss_db ss_ledger ss_locked].
  replace (0 <? mg_version m) with true by lia. cbn [negb].
  replace (existsb _ l) with false; [done|]. symmetry. apply not_true_iff_false.
  intros (a & Ha%list_elem_of_In & Heq%Z.eqb_eq)%existsb_exists. apply Hfresh. rewrite <- Heq. by apply list_elem_of_fmap_2.
Qed.

(** How far a run over the pending migrations [todo] came: those done and their
    rows, and either all of them or the first that failed. *)
Definition ran o info (todo : list migration) d (l : list appliedMigration) (b : bool) (s' : Session D)
    (r : res MigrateResult) (good : MigrateResult -> list migration -> Prop) : Prop :=
  exists done_ rest d',
    todo = done_ ++ rest /\ scripts o done_ d = Ok d' /\ s' = MkSession d' (Some (l ++ map row_of done_)) b /\
    match r with
    | Ok out => rest = [] /\ good out done_
    | Err e => exists m rest' e', rest = m :: rest' /\ script o m d' = Err e' /\
        (e = e' \/ e = annotateMigrationError e' info)
    end.

Lemma apply_pending_run applied o info ms out d l b :
  NoDup (map mg_version ms) -> Forall (fun m => 0 < mg_version m) ms ->
  (forall m, m ∈ pending applied ms -> mg_version m ∉ map am_version l) ->
  let r := apply_pending applied o info ms out (MkSession d (Some l) b) in
  ran o info (pending applied ms) d l b r.1 r.2
    (fun out' done_ => out' = MkMigrateResult (mr_applied out ++ map mg_version done_)
       (default (mr_version out) (last (map mg_version ms))) (mr_extension_schema out)).
Proof.
  revert out d l. induction ms as [|m ms IH]; intros out d l Hnd Hpos Hfresh.
  { exists [], [], d. cbn. rewrite !app_nil_r. split_and!; try done. by destruct out. }
  apply Forall_cons in Hpos as [Hp Hpos]. cbn [map] in Hnd. apply NoDup_cons in Hnd as [Hnin Hnd].
  assert (forall v, default v (last (map mg_version (m :: ms))) = default (mg_version m) (last (map mg_version ms))) as Hlast.
  { intros v. cbn [map]. rewrite last_cons. by destruct (last _). }
  cbn [apply_pending]. unfold pending in *. cbn [List.filter] in *.
  destruct (applied_at applied (mg_version m)) as [a|] eqn:Hap.
  - destruct (IH (MkMigrateResult (mr_applied out) (mg_version m) (mr_extension_schema out)) d l) as
      (dn & rest & d' & Htodo & Hs & Hst & Hr); [done..|].
    exists dn, rest, d'. split_and!; [done..|]. destruct (apply_pending _ _ _ _ _ _).2; [|done].
    by rewrite Hlast.
  - unfold obind. rewrite applyMigration_run by (done || apply Hfresh; by left).
    destruct (script o m d) as [d1|e] eqn:Hscript.
    + destruct (IH (MkMigrateResult (mr_applied out ++ [mg_version m]) (mg_version m) (mr_extension_schema out)) d1
        (l ++ [row_of m])) as (dn & rest & d' & Htodo & Hs & Hst & Hr); [done|done| |].
      { intros m' Hm'. rewrite map_app, elem_of_app. intros [Hin|Heq%list_elem_of_singleton].
        - by apply (Hfresh m'); [right|].
        - apply Hnin. cbn in Heq. rewrite <- Heq.
          apply list_elem_of_fmap_2. by apply elem_of_filter_b in Hm' as [? _]. }
      exists (m :: dn), rest, d'. split_and!.
      * by rewrite Htodo.
      * cbn [scripts]. by rewrite Hscript.
      * by rewrite Hst, <- app_assoc.
      * destruct (apply_pending _ _ _ _ _ _).2; [|done]. destruct Hr as [-> ->]. split; [done|].
        cbn [mr_applied mr_version mr_extension_schema]. rewrite Hlast, <- app_assoc. done.
    + eexists [], _, d. cbn. rewrite app_nil_r. split_and!; try reflexivity. eexists m, _, e. split_and!; [done..|].
      destruct (render m (template_data o)); [by right|by left].
Qed.

(** ** The whole run *)

Lemma preflight_reads o s s' r : preflight o s = (s', r) -> s' = s.
Proof.
  unfold preflight. rewrite obind_olift. destruct (checkVersion _); [|by intros [= <- _]].
  rewrite obind_olift. destruct (resolveExtensionSchema _ _); [|by intros [= <- _]].
  unfold obind, checkTextSearchConfig. destruct (reject _ _); by intros [= <- _].
Qed.

(** The options, as resolved: what a caller chose is kept, and each name is an
    identifier. *)
Lemma preflight_Ok o s s' o' info :
  preflight o s = (s', Ok (o', info)) ->
  mo_dimensions o' = mo_dimensions o /\ mo_config o' = mo_config o /\
  validateIdentifier (mo_extension_schema o') = Ok tt.
Proof.
  unfold preflight. rewrite obind_olift. destruct (checkVersion _); [|done]. rewrite obind_olift.
  destruct (resolveExtensionSchema _ _) as [o1|] eqn:Hres; [|done]. unfold obind, checkTextSearchConfig.
  destruct (reject _ _); [|done]. intros [= _ -> _].
  unfold resolveExtensionSchema in Hres. apply rbind_Ok in Hres as (o2 & Ho2 & ([] & Hid & [= ->])%rbind_Ok).
  assert (validateIdentifier (mo_extension_schema o') = Ok tt) as Hv.
  { unfold as_config in Hid. by destruct (validateIdentifier _) as [[]|]. }
  repeat match type of Ho2 with context [if ?c then _ else _] => destruct c end; try discriminate Ho2;
    by injection Ho2 as <-.
Qed.

Lemma validate_Ok o v :
  MigrateOptions_validate o = Ok v ->
  0 < mo_dimensions v <= MaxVectorDimensions /\ mo_dimensions v = mo_dimensions o /\
  mo_config v = (if is_empty (mo_config o) then DefaultTextSearchConfig else mo_config o) /\
  validateIdentifier (mo_config v) = Ok tt /\ 0 < mo_lock_timeout v.
Proof.
  unfold MigrateOptions_validate.
  intros ([] & Hd & ([] & Hmax & ([] & Hc & ([] & _ & ([] & Hlt & [= <-])%rbind_Ok)%rbind_Ok)%rbind_Ok)%rbind_Ok)%rbind_Ok.
  apply reject_Ok in Hd, Hmax, Hlt. cbn [mo_dimensions mo_config mo_lock_timeout].
  assert (validateIdentifier (if is_empty (mo_config o) then DefaultTextSearchConfig else mo_config o) = Ok tt) as Hv.
  { unfold as_config in Hc. by destruct (validateIdentifier _) as [[]|]. }
  split_and!; [lia|lia|done|done|done|]. destruct (Z.eqb_spec (mo_lock_timeout o) 0); [done|lia].
Qed.

(** Under the lock: the history is judged first, then what is missing is run, then
    the recorded options are compared. *)
Lemma migrate_locked_run ms o info d ol b s' r :
  NoDup (map mg_version ms) -> Forall (fun m => 0 < mg_version m) ms ->
  let l := default [] ol in
  migrate_locked ms o info (MkSession d ol b) = (s', r) ->
  exists done_ rest,
    pending l ms = done_ ++ rest /\ scripts o done_ d = Ok (ss_db s') /\
    s' = MkSession (ss_db s') (Some (l ++ map row_of done_)) b /\
    match r with
    | Ok out => rest = [] /\ checkHistory ms l = Ok tt /\
        out = MkMigrateResult (map mg_version done_) (default 0 (last (map mg_version ms))) (mo_extension_schema o) /\
        sql_config (ss_db s') = Ok (mo_dimensions o, mo_config o)
    | Err _ => True
    end.
Proof.
  intros Hnd Hpos l. unfold migrate_locked, bootstrap, appliedMigrations. unfold obind at 1 2. cbn [ss_ledger ss_db ss_locked].
  rewrite obind_olift. fold l. destruct (checkHistory ms l) as [[]|e] eqn:Hh.
  2: { intros [= <- <-]. exists [], (pending l ms). cbn. by rewrite app_nil_r. }
  unfold obind at 1. destruct (apply_pending_run l o info ms (MkMigrateResult [] 0 (mo_extension_schema o)) d l b)
    as (dn & rest & d' & Htodo & Hs & Hst & Hr); [done|done| |].
  { intros m Hm. apply elem_of_filter_b in Hm as [_ Hm]. apply applied_at_None. by destruct (applied_at l _). }
  destruct (apply_pending _ _ _ _ _ _) as [s1 [out|e]]; cbn [fst snd] in *; subst s1.
  2: { intros [= <- <-]. by exists dn, rest. }
  destruct Hr as [-> Hout]. unfold obind, checkSchemaConfig, oret. cbn [ss_db].
  destruct (sql_config d') as [[dims config]|e] eqn:Hc.
  - destruct (reject _ _) as [[]|e] eqn:Hrej; intros [= <- <-]; exists dn, []; split_and!; try done.
    unfold reject in Hrej. destruct (negb (dims =? _) || _) eqn:Hne; [done|].
    apply orb_false_iff in Hne as [Hd Hcf]. apply negb_false_iff in Hd, Hcf.
    apply Z.eqb_eq in Hd. apply String.eqb_eq in Hcf. cbn [ss_db]. by rewrite Hc, Hd, Hcf.
  - destruct e; intros [= <- <-]; by exists dn, [].
Qed.

(** An accepted set is numbered one to n. *)
Lemma loaded_versions entries ms :
  loadMigrations entries = Ok ms ->
  NoDup (map mg_version ms) /\ Forall (fun m => 0 < mg_version m) ms /\
  default 0 (last (map mg_version ms)) = Z.of_nat (length ms).
Proof.
  unfold loadMigrations. intros (out & _ & ([] & _ & ([] & Hc & [= <-])%rbind_Ok)%rbind_Ok)%rbind_Ok.
  set (ms := sort_func _ out) in *. apply contiguous_Ok in Hc. rewrite version_seq_from in Hc.
  rewrite Hc. split_and!; [apply NoDup_version_seq| |].
  - apply Forall_forall. intros m Hm. assert (mg_version m ∈ map mg_version ms) as Hin by by apply list_elem_of_fmap_2.
    rewrite Hc in Hin. apply list_elem_of_fmap in Hin as (k & -> & Hk%elem_of_seq). lia.
  - unfold version_seq. destruct (length ms) as [|n]; [done|].
    rewrite seq_S, map_app. cbn. by rewrite last_snoc.
Qed.

Lemma Migrate_loads entries lw opts s s' out :
  Migrate entries lw true opts s = (s', Ok out) -> exists ms, loadMigrations entries = Ok ms.
Proof.
  unfold Migrate. rewrite obind_olift. destruct (MigrateOptions_validate opts); [|done].
  rewrite obind_olift. destruct (loadMigrations entries) as [ms|]; [by exists ms|done].
Qed.

(** A run that got as far as the lock. *)
Lemma Migrate_run entries lw opts s s' r ms :
  loadMigrations entries = Ok ms -> ss_locked s = false -> Migrate entries lw true opts s = (s', r) ->
  (s' = s /\ is_ok r = false) \/
  exists v o info d ol,
    MigrateOptions_validate opts = Ok v /\ preflight v s = (s, Ok (o, info)) /\
    acquireMigrationLock lw (mo_lock_timeout o) s = (MkSession d ol true, Ok tt) /\
    ss_locked s' = false /\
    exists r0, migrate_locked ms o info (MkSession d ol true) = (MkSession (ss_db s') (ss_ledger s') true, r0) /\
      r = match lw_unlock lw, r0 with
          | None, _ => r0
          | Some e, Ok _ => Err e
          | Some e, Err e0 => Err (EJoin e0 e)
          end.
Proof.
  intros Hload Hfree. unfold Migrate. rewrite obind_olift.
  destruct (MigrateOptions_validate opts) as [v|] eqn:Hv; [|intros [= <- <-]; by left].
  rewrite obind_olift, Hload, obind_olift. cbn [reject negb]. unfold obind at 1.
  destruct (preflight v s) as [s1 [[o info]|e]] eqn:Hpre; pose proof (preflight_reads _ _ _ _ Hpre) as ->;
    [|intros [= <- <-]; by left]. cbn [fst snd]. unfold obind at 1.
  destruct (acquireMigrationLock lw (mo_lock_timeout o) s) as [s1 [[]|e]] eqn:Hacq.
  2: { unfold acquireMigrationLock in Hacq. destruct (lock_loop _ _ _ _ _); [by destruct (lw_others _ _ _)|].
    injection Hacq as <- <-. intros [= <- <-]. by left. }
  assert (exists d ol, s1 = MkSession d ol true) as (d & ol & ->).
  { unfold acquireMigrationLock in Hacq. destruct (lock_loop _ _ _ _ _); [|done].
    destruct (lw_others _ _ _) as [d ol]. injection Hacq as <-. by exists d, ol. }
  intros Hrun. right. exists v, o, info, d, ol. unfold released in Hrun.
  destruct (migrate_locked ms o info (MkSession d ol true)) as [s2 r2] eqn:Hlocked.
  pose proof (loaded_versions _ _ Hload) as (H1 & H2 & _).
  destruct (migrate_locked_run ms o info d ol true s2 r2 H1 H2 Hlocked) as (dn & rest & _ & _ & Hst & _).
  rewrite Hst in Hrun |- *. unfold finishMigrationSession, discard in Hrun. cbn [ss_locked ss_db ss_ledger] in *.
  destruct (lw_unlock lw), r2; injection Hrun as <- <-; do 4 (split; [done|]); eexists; done.
Qed.

(** C36: [Migrate] runs exactly what is missing and leaves nothing half done. Until
    it holds the lock it changes nothing. From the database and ledger it finds
    under the lock, it leaves the scripts of the first so many pending migrations
    run, in version order, and a row for each of those and no other; it ends well
    only with all of them run, a history that agrees with the build, and the
    schema recording the options asked for. However it ends, the lock is free, also
    when giving it back fails: the connection is then closed, and the call an error. *)
Theorem Migrate_spec entries lw opts s s' r ms :
  loadMigrations entries = Ok ms -> ss_locked s = false -> Migrate entries lw true opts s = (s', r) ->
  ss_locked s' = false /\
  ((s' = s /\ is_ok r = false) \/
   exists v o info d ol done_ rest,
     MigrateOptions_validate opts = Ok v /\ preflight v s = (s, Ok (o, info)) /\
     lw_others lw (ss_db s) (ss_ledger s) = (d, ol) /\
     let l := default [] ol in
     pending l ms = done_ ++ rest /\ scripts o done_ d = Ok (ss_db s') /\
     ss_ledger s' = Some (l ++ map row_of done_) /\
     match r with
     | Ok out => rest = [] /\ checkHistory ms l = Ok tt /\
         out = MkMigrateResult (map mg_version done_) (Z.of_nat (length ms)) (mo_extension_schema o) /\
         sql_config (ss_db s') = Ok (mo_dimensions o, mo_config o)
     | Err _ => True
     end).
Proof.
  intros Hload Hfree Hrun. destruct (Migrate_run _ _ _ _ _ _ _ Hload Hfree Hrun) as
    [[-> Hr]|(v & o & info & d & ol & Hv & Hpre & Hacq & Hl & r0 & Hlocked & ->)]; [split; [done|by left]|].
  split; [done|]. right. destruct (loaded_versions _ _ Hload) as (Hnd & Hpos & Hlast).
  destruct (migrate_locked_run ms o info d ol true _ _ Hnd Hpos Hlocked) as (dn & rest & Htodo & Hs & Hst & Hr).
  injection Hst as Hledger. exists v, o, info, d, ol, dn, rest. cbv zeta. split_and!; [done|done| |done|done|done|].
  - unfold acquireMigrationLock in Hacq. destruct (lock_loop _ _ _ _ _); [|done].
    destruct (lw_others lw _ _) as [d1 ol1]. by injection Hacq as -> ->.
  - destruct (lw_unlock lw), r0; try done. by rewrite <- Hlast.
Qed.

(** *** The second time *)

Lemma applied_after l ms m : m ∈ ms -> is_Some (applied_at (l ++ map row_of (pending l ms)) (mg_version m)).
Proof.
  intros Hm. destruct (applied_at (l ++ map row_of (pending l ms)) (mg_version m)) eqn:Hap; [by eexists|].
  apply applied_at_None in Hap. rewrite map_app, elem_of_app in Hap. destruct Hap.
  destruct (applied_at l (mg_version m)) as [a|] eqn:Hal.
  - left. apply find_elem in Hal as [Ha <-%Z.eqb_eq]. by apply list_elem_of_fmap_2.
  - right. rewrite map_map. apply (list_elem_of_fmap_2 mg_version). apply elem_of_filter_b. by rewrite Hal.
Qed.

Lemma pending_after l ms : pending (l ++ map row_of (pending l ms)) ms = [].
Proof.
  apply filter_none. intros m Hm. by destruct (applied_after l ms m Hm) as [a ->].
Qed.

Lemma ledger_after l ms :
  ledger_ok l -> NoDup (map mg_version ms) -> Forall (fun m => 0 < mg_version m) ms ->
  ledger_ok (l ++ map row_of (pending l ms)).
Proof.
  intros [Hnd Hpos] Hms Hmpos. split.
  - rewrite map_app, map_map. apply NoDup_app_fresh; [done|by apply NoDup_map_filter|].
    intros v Hv (m & -> & [Hm Hp]%elem_of_filter_b)%list_elem_of_fmap. revert Hv. apply applied_at_None.
    cbn. by destruct (applied_at l _).
  - apply Forall_app. split; [done|]. apply Forall_forall. intros a (m & -> & [Hm _]%elem_of_filter_b)%list_elem_of_fmap.
    rewrite Forall_forall in Hmpos. by apply Hmpos.
Qed.

Lemma history_after l ms :
  ledger_ok l -> NoDup (map mg_version ms) -> Forall (fun m => 0 < mg_version m) ms -> checkHistory ms l = Ok tt ->
  checkHistory ms (l ++ map row_of (pending l ms)) = Ok tt.
Proof.
  intros Hl Hms Hmpos Hok. pose proof (lo_versions _ (ledger_after l ms Hl Hms Hmpos)) as Hnd.
  assert (history_agrees ms (l ++ map row_of (pending l ms))) as Hag.
  { intros a [Ha|(m & -> & [Hm _]%elem_of_filter_b)%list_elem_of_fmap]%elem_of_app; [|by exists m].
    destruct (checkHistory_cases ms l Hms (lo_versions _ Hl)) as [[_ H]|[[H _]|[H _]]]; [by apply H|congruence..]. }
  destruct (checkHistory_cases ms _ Hms Hnd) as [[H _]|[[_ (a & Ha & Hno)]|(_ & _ & Hno)]]; [done| |done].
  destruct (Hag a Ha) as (m & Hm & Heq & _). by destruct (Hno m Hm).
Qed.

(** A run over a history that is complete does nothing. *)
Lemma apply_pending_idle applied o info ms out s :
  (forall m, m ∈ ms -> is_Some (applied_at applied (mg_version m))) ->
  apply_pending applied o info ms out s =
    (s, Ok (MkMigrateResult (mr_applied out) (default (mr_version out) (last (map mg_version ms))) (mr_extension_schema out))).
Proof.
  revert out. induction ms as [|m ms IH]; intros out Hall; [by destruct out|].
  cbn [apply_pending]. destruct (Hall m) as [a ->]; [by left|]. rewrite IH by (intros; apply Hall; by right).
  cbn [map]. rewrite last_cons. by destruct (last (map mg_version ms)).
Qed.

(** migrating again changes nothing. After a run of this build with these
    options has ended well, any process that gets the lock next, with what that
    run left under it and its own checks of the server passed, whether they were
    made after the run or while it waited, applies no migration, leaves database
    and ledger as they are, and reports the same version. *)
Theorem Migrate_again entries lw opts s s1 out lw2 s2 v2 o2 info2 :
  ss_locked s = false -> ledger_ok (default [] (lw_others lw (ss_db s) (ss_ledger s)).2) ->
  Migrate entries lw true opts s = (s1, Ok out) ->
  MigrateOptions_validate opts = Ok v2 -> preflight v2 s2 = (s2, Ok (o2, info2)) -> lw_unlock lw2 = None ->
  acquireMigrationLock lw2 (mo_lock_timeout o2) s2 = (MkSession (ss_db s1) (ss_ledger s1) true, Ok tt) ->
  Migrate entries lw2 true opts s2 = (s1, Ok (MkMigrateResult [] (mr_version out) (mo_extension_schema o2))).
Proof.
  intros Hfree Hlok Hrun Hv2 Hpre2 Hul2 Hacq2.
  destruct (Migrate_loads _ _ _ _ _ _ Hrun) as [ms Hload].
  destruct (loaded_versions _ _ Hload) as (Hnd & Hpos & Hlast).
  destruct (Migrate_run _ _ _ _ _ _ _ Hload Hfree Hrun) as
    [[_ Hr]|(v & o & info & d & ol & Hv & Hpre & Hacq & Hl & r0 & Hlocked & Hr0)]; [done|].
  assert (r0 = Ok out) as -> by (by destruct (lw_unlock lw), r0).
  assert (v2 = v) as -> by congruence.
  assert (lw_others lw (ss_db s) (ss_ledger s) = (d, ol)) as Hoth.
  { unfold acquireMigrationLock in Hacq. destruct (lock_loop _ _ _ _ _); [|done].
    destruct (lw_others lw _ _) as [d1 ol1]. by injection Hacq as -> ->. }
  rewrite Hoth in Hlok. cbn [snd] in Hlok.
  destruct (migrate_locked_run ms o info d ol true _ _ Hnd Hpos Hlocked) as (dn & rest & Htodo & _ & Hst & -> & Hh & Hout & Hcfg).
  rewrite app_nil_r in Htodo. set (l := default [] ol) in *. clearbody l. rewrite <- Htodo in *. injection Hst as Hledger. cbn [ss_db] in Hcfg.
  unfold Migrate. rewrite obind_olift, Hv, obind_olift, Hload, obind_olift. cbn [reject negb].
  unfold obind at 1. rewrite Hpre2. cbn [fst snd]. unfold obind at 1. rewrite Hacq2. rewrite Hul2. unfold released, migrate_locked.
  unfold obind at 1 2, bootstrap, appliedMigrations. cbn [ss_db ss_ledger ss_locked]. rewrite Hledger. cbn [default from_option].
  rewrite obind_olift. unfold id. rewrite (history_after _ ms Hlok Hnd Hpos Hh). unfold obind at 1.
  rewrite apply_pending_idle by (intros; by apply applied_after). unfold obind, checkSchemaConfig. cbn [ss_db].
  destruct (preflight_Ok _ _ _ _ _ Hpre) as (Hd & Hc & _). destruct (preflight_Ok _ _ _ _ _ Hpre2) as (Hd2 & Hc2 & _).
  rewrite Hcfg, Hd, Hd2, Hc, Hc2, Z.eqb_refl, String.eqb_refl. cbn. rewrite Hout. cbn [mr_version].
  rewrite <- Hl, <- Hledger. by destruct s1.
Qed.

(** a migrated database is one [New] accepts. When [Migrate] has ended well and
    the server reports the extensions it was to create, [New] connects, with the
    width and the text search configuration that were asked for. *)
Theorem Migrate_then_New entries lw opts s s1 out :
  ss_locked s = false -> Migrate entries lw true opts s = (s1, Ok out) ->
  let info := inspect (sql_version (ss_db s1)) (sql_extensions (ss_db s1)) in
  checkVersion info = Ok tt -> si_missing info = [] -> checkVectorVersion info = Ok tt ->
  si_extensionSchema info = mr_extension_schema out ->
  New true (ss_db s1) = Ok (MkPgConfig (mr_extension_schema out) (mo_dimensions opts)
    (if is_empty (mo_config opts) then DefaultTextSearchConfig else mo_config opts)).
Proof.
  intros Hfree Hrun info Hver Hmis Hvec Hext.
  destruct (Migrate_loads _ _ _ _ _ _ Hrun) as [ms Hload].
  destruct (loaded_versions _ _ Hload) as (Hnd & Hpos & _).
  destruct (Migrate_run _ _ _ _ _ _ _ Hload Hfree Hrun) as
    [[_ Hr]|(v & o & info' & d & ol & Hv & Hpre & _ & _ & r0 & Hlocked & Hr0)]; [done|].
  assert (r0 = Ok out) as -> by (by destruct (lw_unlock lw), r0).
  destruct (migrate_locked_run ms o info' d ol true _ _ Hnd Hpos Hlocked) as (dn & rest & _ & _ & _ & _ & _ & -> & Hcfg).
  cbn [ss_db mr_extension_schema] in *.
  destruct (preflight_Ok _ _ _ _ _ Hpre) as (Hd & Hc & Hid). destruct (validate_Ok _ _ Hv) as (Hdims & Hdo & Hco & Hcid & _).
  unfold New. cbn [reject negb rbind]. fold info. rewrite Hver, Hmis, Hvec, Hext, Hid. cbn [rbind length reject].
  unfold readSchemaConfig. rewrite Hcfg, Hd, Hc. replace (mo_dimensions v <=? 0) with false by lia.
  cbn [reject rbind]. rewrite Hcid. cbn. by rewrite Hdo, <- Hco.
Qed.

(** *** The wait for the lock *)

Lemma lock_loop_spec fuel (lw : LockWait D) timeout i b :
  lw_started lw <= lw_now lw 0 -> (forall j, lw_now lw j + lockPollInterval <= lw_now lw (S j)) ->
  0 <= timeout -> lockPollInterval <= b <= lockPollMax -> (Z.to_nat (timeout / lockPollInterval + 2) <= fuel + i)%nat ->
  (0 < fuel)%nat ->
  let r := lock_loop fuel lw (lw_started lw + timeout) i b in
  exists j, (i <= j)%nat /\ (forall k, (i <= k < j)%nat -> lw_poll lw k = Ok false) /\
    match lw_poll lw j with
    | Ok true => r = Ok tt
    | Err e => r = Err e
    | Ok false =>
        (r = Err (EWrapPg ErrLockTimeout) /\
         exists b, lockPollInterval <= b <= lockPollMax /\ lw_started lw + timeout <= lw_now lw j + b) \/
        exists e, lw_ctx lw j = Some e /\ r = Err e
    end.
Proof.
  intros Hstart Hclock Ht. assert (forall j, lw_started lw + lockPollInterval * Z.of_nat j <= lw_now lw j) as Hnow.
  { induction j as [|j IH]; [lia|]. specialize (Hclock j). lia. }
  revert i b. induction fuel as [|fuel IH]; intros i b Hb Hfuel Hpos r; [lia|].
  unfold r. cbn [lock_loop]. destruct (lw_poll lw i) as [[|]|e] eqn:Hpoll.
  1,3: exists i; rewrite Hpoll; split_and!; [lia|intros; lia|done].
  cbn [rbind]. destruct (Z.ltb_spec (lw_now lw i + b) (lw_started lw + timeout)) as [Hlt|Hge]; cbn [negb].
  2: { exists i. rewrite Hpoll. split_and!; [lia|intros; lia|]. left. split; [done|]. by exists b. }
  destruct (lw_ctx lw i) as [e|] eqn:Hctx.
  { exists i. rewrite Hpoll. split_and!; [lia|intros; lia|]. right. by exists e. }
  set (b' := if b <? lockPollMax then Z.min (b * 2) lockPollMax else b).
  change lockPollMax with 500000000 in *. change lockPollInterval with 50000000 in *.
  assert (50000000 <= b' <= 500000000) as Hb' by (unfold b'; destruct (Z.ltb_spec b 500000000); lia).
  assert (Z.of_nat (S i) <= timeout / 50000000) as Hi by (specialize (Hnow i); apply Z.div_le_lower_bound; lia).
  destruct (IH (S i) b') as (j & Hj & Hfalse & Hr); [done|lia|lia|].
  exists j. split_and!; [lia| |done]. intros k Hk. destruct (decide (k = i)) as [->|]; [done|]. apply Hfalse. lia.
Qed.
End Running.

(** the wait for the migration lock ends. While each wait lasts at least the
    poll interval, [acquireMigrationLock] comes to an answer within its timeout's
    worth of polls: it holds the lock at the first poll that gets it, stops at the
    first that fails, and otherwise gives up with [ErrLockTimeout], at most one
    backoff early, or with the context's error. *)
Theorem acquireMigrationLock_ends {D} (lw : LockWait D) timeout (s : Session D) :
  lw_started lw <= lw_now lw 0 -> (forall j, lw_now lw j + lockPollInterval <= lw_now lw (S j)) -> 0 <= timeout ->
  let r := acquireMigrationLock lw timeout s in
  exists j, (forall k, (k < j)%nat -> lw_poll lw k = Ok false) /\
    match lw_poll lw j with
    | Ok true => r.2 = Ok tt /\ ss_locked r.1 = true
    | Err e => r = (s, Err e)
    | Ok false =>
        (r = (s, Err (EWrapPg ErrLockTimeout)) /\ lw_started lw + timeout <= lw_now lw j + lockPollMax) \/
        exists e, lw_ctx lw j = Some e /\ r = (s, Err e)
    end.
Proof.
  intros Hstart Hclock Ht. assert (0 <= timeout / lockPollInterval) by (apply Z.div_pos; [done|vm_compute; done]).
  destruct (lock_loop_spec (lock_fuel timeout) lw timeout 0 lockPollInterval) as (j & _ & Hfalse & Hr);
    [done|done|done|vm_compute; split; discriminate|unfold lock_fuel; lia|unfold lock_fuel; lia|].
  exists j. split; [intros k Hk; apply Hfalse; lia|]. unfold acquireMigrationLock.
  destruct (lw_poll lw j) as [[|]|e].
  - rewrite Hr. by destruct (lw_others _ _ _).
  - destruct Hr as [[-> (b & Hb & Hw)]|(e & He & ->)]; [left; split; [done|lia]|right; by exists e].
  - by rewrite Hr.
Qed.

(** ** Identifiers in SQL *)

(** PostgreSQL's reading of a delimited identifier after its opening quote: up to
    the first quote that is not doubled, and what follows it. *)
Fixpoint read_delimited (l : list N) : option (list N * list N) :=
  match l with
  | [] => None
  | b :: l' =>
      if N.eqb b quote then
        match l' with
        | b' :: l'' =>
            if N.eqb b' quote
            then match read_delimited l'' with Some (x, y) => Some (quote :: x, y) | None => None end
            else Some ([], l')
        | [] => Some ([], [])
        end
      else match read_delimited l' with Some (x, y) => Some (b :: x, y) | None => None end
  end.

Definition quoted_body (l : list N) : list N := concat (map (fun b => if N.eqb b quote then [quote; quote] else [b]) l).

Lemma read_quoted_body l rest :
  hd_error rest <> Some quote -> read_delimited (quoted_body l ++ quote :: rest) = Some (l, rest).
Proof.
  intros Hrest. unfold quoted_body. induction l as [|b l IH]; cbn [map concat app].
  - cbn. destruct rest as [|b rest]; [done|]. destruct (N.eqb_spec b quote) as [->|]; [done|done].
  - destruct (N.eqb_spec b quote) as [->|Hb]; cbn [app read_delimited].
    + rewrite N.eqb_refl. by rewrite IH.
    + apply N.eqb_neq in Hb. rewrite Hb. by rewrite IH.
Qed.

(** a quoted identifier is read back as it was. Whatever the name holds, quotes
    included, and whatever SQL follows, the server reads [quoteIdentifier name] as
    that one name and carries on after it. *)
Theorem quoteIdentifier_roundtrip name rest :
  hd_error (bytes_of rest) <> Some quote ->
  exists body, bytes_of (quoteIdentifier name) = quote :: body /\
    read_delimited (body ++ bytes_of rest) = Some (bytes_of name, bytes_of rest).
Proof.
  intros Hrest. exists (quoted_body (bytes_of name) ++ [quote]). split.
  - unfold quoteIdentifier. apply bytes_of_bytes. constructor; [done|]. apply Forall_app. split; [|by repeat constructor].
    pose proof (bytes_below name) as Hb. induction Hb as [|b l Hb _ IH]; cbn; [constructor|].
    apply Forall_app. split; [|done]. destruct (N.eqb b quote); by repeat constructor.
  - rewrite <- app_assoc. by apply read_quoted_body.
Qed.

(** ** A concrete server *)

(** A database that is the list of the scripts run on it, each with its path; the first creates the
    extensions, and records the options by what its text says. *)
Definition demo_extensions (schema : string) : list ExtensionRow :=
  [MkExtensionRow "vector" schema "0.8.1"; MkExtensionRow "btree_gin" schema "1.3"; MkExtensionRow "btree_gist" schema "1.7"].

Definition demo_path_schema (path : string) : string :=
  if String.eqb path (setPath "ext") then "ext" else "public".

#[export] Instance demo_migration_server : MigrationServer (list (string * string)) := {
  sql_version _ := 180001;
  sql_extensions d := match d with (path, _) :: _ => demo_extensions (demo_path_schema path) | [] => [] end;
  sql_ts_config _ name := one_of name ["english"; "simple"];
  sql_exec path sql d := Ok (d ++ [(path, sql)]);
  sql_config d :=
    match d with
    | (_, sql) :: _ => if String.eqb sql "dims 3 config english" then Ok (3, "english"%string) else Err ENoRows
    | [] => Err (EPg pgerrcodeUndefinedTable)
    end;
}.

Definition demo_entries : list DirEntry :=
  [MkDirEntry "0001_init.sql" (Some "dims {{.VectorDimensions}} config {{.TextSearchConfig}}"%string);
   MkDirEntry "0002_facts.sql" (Some "facts {{.TextSearchConfig}}"%string)].
Definition demo_options : MigrateOptions := MkMigrateOptions 3 EmptyString EmptyString 0.
Definition demo_fresh : Session (list (string * string)) := MkSession [] None false.
Definition demo_wait : LockWait (list (string * string)) :=
  MkLockWait 0 (fun i => Ok (Nat.eqb i 2)) (fun i => Z.of_nat i * Second) (fun _ => None) (fun d l => (d, l)) None.
Definition demo_migrated : Session (list (string * string)) := (Migrate demo_entries demo_wait true demo_options demo_fresh).1.

Example demo_migrate :
  Migrate demo_entries demo_wait true demo_options demo_fresh = (demo_migrated, Ok (MkMigrateResult [1; 2] 2 "public")) /\
  ss_db demo_migrated = [(setPath "public", "dims 3 config english"); (setPath "public", "facts english")]%string.
Proof. split; vm_compute; reflexivity. Qed.

Definition demo_set : list migration := match loadMigrations demo_entries with Ok ms => ms | Err _ => [] end.

Lemma checkHistory_spec_witness :
  checkHistory demo_set [MkApplied 3 "later" "x"] = Err (EWrapPg ErrDatabaseAhead).
Proof.
  assert (NoDup (map mg_version demo_set)) as Hms by (refine (bool_decide_unpack _ _); vm_compute; exact I).
  apply (checkHistory_spec demo_set [MkApplied 3 "later" "x"] Hms); [apply NoDup_singleton|].
  exists (MkApplied 3 "later" "x"). split; [by left|]. refine (proj1 (Forall_forall _ _) _).
  vm_compute. repeat constructor; discriminate.
Defined.

Lemma Migrate_spec_witness :
  ss_locked demo_migrated = false /\ is_Some (ss_ledger demo_migrated).
Proof.
  destruct (Migrate_spec demo_entries demo_wait demo_options demo_fresh demo_migrated
    (Ok (MkMigrateResult [1; 2] 2 "public")) demo_set) as [Hfree Hcase].
  - vm_compute. reflexivity.
  - reflexivity.
  - exact (proj1 demo_migrate).
  - split; [exact Hfree|]. destruct Hcase as [[_ H]|(v & o & info & d & ol & dn & rest & _ & _ & _ & _ & _ & Hl & _)].
    + discriminate H.
    + rewrite Hl. eexists. reflexivity.
Defined.

(** A second process that asked the server first, waited while the first migrated,
    and got the lock after it. *)
Definition demo_late : LockWait (list (string * string)) :=
  MkLockWait 0 (fun _ => Ok true) (fun _ => 0) (fun _ => None) (fun _ _ => (ss_db demo_migrated, ss_ledger demo_migrated)) None.

(** A lock that cannot be given back goes with its connection. *)
Example demo_unlock_fails :
  Migrate demo_entries (MkLockWait 0 (fun _ => Ok true) (fun _ => 0) (fun _ => None) (fun d l => (d, l)) (Some (EOther "lost")))
    true demo_options demo_fresh = (demo_migrated, Err (EOther "lost")).
Proof. vm_compute. reflexivity. Qed.

Lemma Migrate_again_witness :
  Migrate demo_entries demo_late true demo_options demo_fresh = (demo_migrated, Ok (MkMigrateResult [] 2 "public")).
Proof.
  refine (Migrate_again demo_entries demo_wait demo_options demo_fresh demo_migrated (MkMigrateResult [1; 2] 2 "public")
    demo_late demo_fresh (MkMigrateOptions 3 "english" EmptyString Minute)
    (MkMigrateOptions 3 "english" "public" Minute) (inspect 180001 []) _ _ _ _ _ _ _).
  - reflexivity.
  - split; constructor.
  - exact (proj1 demo_migrate).
  - vm_compute. reflexivity.
  - vm_compute. reflexivity.
  - reflexivity.
  - vm_compute. reflexivity.
Defined.

Lemma Migrate_then_New_witness :
  New true (ss_db demo_migrated) = Ok (MkPgConfig "public" 3 "english").
Proof.
  refine (Migrate_then_New demo_entries demo_wait demo_options demo_fresh demo_migrated
    (MkMigrateResult [1; 2] 2 "public") _ _ _ _ _ _).
  - reflexivity.
  - exact (proj1 demo_migrate).
  - vm_compute. reflexivity.
  - vm_compute. reflexivity.
  - vm_compute. reflexivity.
  - vm_compute. reflexivity.
Defined.

Lemma acquireMigrationLock_ends_witness :
  exists j, (forall k, (k < j)%nat -> lw_poll demo_wait k = Ok false) /\ lw_poll demo_wait j = Ok true.
Proof.
  destruct (acquireMigrationLock_ends demo_wait Minute demo_fresh) as (j & Hj & Hr).
  - vm_compute. discriminate.
  - intros j. unfold demo_wait, lw_now. change lockPollInterval with 50000000. change Second with 1000000000. lia.
  - vm_compute. discriminate.
  - exists j. split; [exact Hj|]. destruct (lw_poll demo_wait j) as [[|]|e]; [reflexivity| |].
    + exfalso. destruct Hr as [[Hr _]|(e & _ & Hr)]; vm_compute in Hr; discriminate Hr.
    + exfalso. vm_compute in Hr. discriminate Hr.
Defined.

Lemma quoteIdentifier_roundtrip_witness :
  exists body, bytes_of (quoteIdentifier "public") = quote :: body /\
    read_delimited (body ++ bytes_of ", x") = Some (bytes_of "public", bytes_of ", x").
Proof. apply (quoteIdentifier_roundtrip "public" ", x"). vm_compute. discriminate. Defined.

(** What the checks before the lock miss. A process that asked the server where the
    extensions are before another created them in [ext] asks for [public], waits
    for the lock, finds nothing to apply, and reports [public]: the mismatch is
    neither an error nor in the result. *)
Definition demo_elsewhere : MigrateOptions := MkMigrateOptions 3 EmptyString "ext" 0.
Definition demo_ext : Session (list (string * string)) := (Migrate demo_entries demo_wait true demo_elsewhere demo_fresh).1.

Example stale_extension_schema :
  let late := MkLockWait 0 (fun _ => Ok true) (fun _ => 0) (fun _ => None) (fun _ _ => (ss_db demo_ext, ss_ledger demo_ext)) None in
  let asked := MkMigrateOptions 3 EmptyString "public" 0 in
  Migrate demo_entries late true asked demo_fresh = (demo_ext, Ok (MkMigrateResult [] 2 "public")) /\
  map xr_schema (sql_extensions (ss_db demo_ext)) = ["ext"; "ext"; "ext"]%string /\
  (Migrate demo_entries demo_wait true asked demo_ext).2 = Err (EWrapPg ErrSchemaConfigMismatch).
Proof. split_and!; vm_compute; reflexivity. Qed.
