(* ===== verification/Json.v ===== *)
(** * JSON documents and response schemas ([extract/schema.go], [strictify] of [extract/openai/openai.go])

    A decoded document, as [encoding/json] gives it for [any]; the response schemas
    as the structs the code builds and the documents they marshal to; and their
    rewriting for an endpoint's strict mode. The text of a document and its parsing
    are [encoding/json]'s, and so parameters of the files that send one. *)

From S2P Require Import Types OpsTypes GoNum Validate.

#[local] Open Scope Z_scope.

(** ** Documents *)

(** An object is a Go map: its keys are distinct, and their order means nothing. *)
Inductive json : Type :=
  | JNull
  | JBool (b : bool)
  | JNumber (f : float64)
  | JString (s : string)
  | JArray (l : list json)
  | JObject (fields : list (string * json)).

Section JsonInd.
Variable P : json -> Prop.
Hypothesis HNull : P JNull.
Hypothesis HBool : forall b, P (JBool b).
Hypothesis HNumber : forall f, P (JNumber f).
Hypothesis HString : forall s, P (JString s).
Hypothesis HArray : forall l, Forall P l -> P (JArray l).
Hypothesis HObject : forall fields, Forall (fun f => P f.2) fields -> P (JObject fields).

(** Induction through arrays and objects. *)
Fixpoint json_deep_ind (j : json) : P j :=
  match j with
  | JNull => HNull
  | JBool b => HBool b
  | JNumber f => HNumber f
  | JString s => HString s
  | JArray l =>
      HArray l ((fix go l := match l return Forall P l with
                             | [] => Forall_nil_2 P
                             | j :: l' => Forall_cons_2 P j l' (json_deep_ind j) (go l')
                             end) l)
  | JObject fields =>
      HObject fields ((fix go l := match l return Forall (fun f => P f.2) l with
                                   | [] => Forall_nil_2 _
                                   | f :: l' => Forall_cons_2 _ f l' (json_deep_ind f.2) (go l')
                                   end) fields)
  end.
End JsonInd.

Definition field (name : string) (fields : list (string * json)) : option json :=
  match List.find (fun f => String.eqb f.1 name) fields with Some f => Some f.2 | None => None end.

(** [m[name] = value]. *)
Fixpoint set_field (name : string) (value : json) (fields : list (string * json)) : list (string * json) :=
  match fields with
  | [] => [(name, value)]
  | f :: fields' => if String.eqb f.1 name then (name, value) :: fields' else f :: set_field name value fields'
  end.

Definition as_object (j : option json) : option (list (string * json)) :=
  match j with Some (JObject fields) => Some fields | _ => None end.

(** ** Schemas *)

(** [jsonSchema]; a field [omitempty] leaves out is empty or [None]. *)
Inductive jsonSchema : Type := MkJsonSchema {
  js_type : string;
  js_description : string;
  js_properties : list (string * jsonSchema);
  js_required : list string;
  js_additional : option bool;
  js_items : option jsonSchema;
  js_enum : list string;
  js_max_items : option Z;
  js_max_length : option Z;
  js_minimum : option float64;
  js_maximum : option float64;
}.

(** The literals of [schema.go]: a string, a list, an object that allows no other
    properties. *)
Definition text_schema (max_length : option Z) (description : string) : jsonSchema :=
  MkJsonSchema "string" description [] [] None None [] None max_length None None.
Definition list_schema (items : jsonSchema) (max_items : option Z) (description : string) : jsonSchema :=
  MkJsonSchema "array" description [] [] None (Some items) [] max_items None None None.
Definition object_schema (required : list string) (properties : list (string * jsonSchema)) : jsonSchema :=
  MkJsonSchema "object" "" properties required (Some false) None [] None None None None.

Definition predicate_schema (predicates : list Predicate) : jsonSchema :=
  match predicates with
  | [] =>
      text_schema (Some MaxPredicateLen)
        "The relation, as a lowercase snake_case slug with no spaces. Reuse one that already appears in the known facts before inventing one."
  | _ =>
      MkJsonSchema "string"
        "The relation. Use one of the listed values, or omit the assertion entirely if none of them fits."
        [] [] None None predicates None (Some MaxPredicateLen) None None
  end.

Definition assertion_schema (predicates : list Predicate) : jsonSchema :=
  object_schema ["subject"; "predicate"; "object"; "statement"; "valid_from"; "confidence"]
    [("subject", text_schema (Some MaxSubjectLen)
        "What the claim is about, spelled identically in every assertion about the same entity.");
     ("predicate", predicate_schema predicates);
     ("object", text_schema (Some MaxObjectLen) "The value of the relation. One value per assertion.");
     ("statement", text_schema (Some MaxStatementLen)
        "The claim as one plain sentence. This is what a model is later shown and what full-text search matches.");
     ("valid_from", text_schema None
        "When the claim became true in the world, as YYYY-MM-DD or RFC 3339. Not when it was mentioned.");
     ("valid_to", text_schema None
        "When the claim stopped being true, as YYYY-MM-DD or RFC 3339. Omit it unless one episode describes a span that has already ended.");
     ("confidence", MkJsonSchema "number" "How sure you are, from 0 to 1. Required."
        [] [] None None [] None None (Some (f64_of_Z 0)) (Some (f64_of_Z 1)))]%string.

Definition retraction_schema : jsonSchema :=
  object_schema ["fact_id"; "at"]
    [("fact_id", text_schema None "The id of a known fact, copied exactly from the list you were shown.");
     ("at", text_schema None
        "When the fact stopped being true, as YYYY-MM-DD or RFC 3339. The moment the world changed, not the moment it was mentioned.")]%string.

(** [extractionSchema] and [topicsSchema]. *)
Definition extractionSchema (predicates : list Predicate) (max_assertions : Z) : jsonSchema :=
  object_schema ["assertions"; "retractions"]
    [("assertions", list_schema (assertion_schema predicates) (Some max_assertions)
        "Durable claims to record. An empty array is a good, common answer.");
     ("retractions", list_schema retraction_schema (Some MaxRetractionsPerExtraction)
        "Known facts these episodes contradict. An empty array is a good, common answer.")]%string.

Definition topicsSchema : jsonSchema :=
  object_schema ["subjects"; "predicates"]
    [("subjects", list_schema (text_schema None "") None
        "Every subject these episodes say anything about, whether or not they make a new claim about it.");
     ("predicates", list_schema (text_schema None "") None
        "Every relation these episodes touch, as lowercase snake_case slugs, whether or not they make a new claim.")]%string.

(** The document a schema marshals to. *)
Definition optional {A} (name : string) (value : option A) (write : A -> json) : list (string * json) :=
  match value with Some a => [(name, write a)] | None => [] end.
Definition nonempty {A} (l : list A) : option (list A) := match l with [] => None | _ => Some l end.
Definition nonblank (s : string) : option string := if is_empty s then None else Some s.
Definition JStrings (l : list string) : json := JArray (map JString l).
Definition JInt (z : Z) : json := JNumber (f64_of_Z z).

Fixpoint marshal (s : jsonSchema) : json :=
  JObject
    ([("type"%string, JString (js_type s))] ++
     optional "description" (nonblank (js_description s)) JString ++
     (match js_properties s with
      | [] => []
      | _ => [("properties"%string, JObject (map (fun p => (p.1, marshal p.2)) (js_properties s)))]
      end) ++
     optional "required" (nonempty (js_required s)) JStrings ++
     optional "additionalProperties" (js_additional s) JBool ++
     (match js_items s with Some items => [("items"%string, marshal items)] | None => [] end) ++
     optional "enum" (nonempty (js_enum s)) JStrings ++
     optional "maxItems" (js_max_items s) JInt ++
     optional "maxLength" (js_max_length s) JInt ++
     optional "minimum" (js_minimum s) JNumber ++
     optional "maximum" (js_maximum s) JNumber).

(** ** Strict mode *)

(** [allowNull]: a named type also allows null. *)
Definition allowNull (node : json) : json :=
  match node with
  | JObject fields =>
      match field "type" fields with
      | Some (JString name) =>
          if String.eqb name "null" then node
          else JObject (set_field "type" (JStrings [name; "null"%string]) fields)
      | _ => node
      end
  | _ => node
  end.

(** The names a node lists as required. *)
Definition listed (fields : list (string * json)) : list string :=
  match field "required" fields with
  | Some (JArray names) => omap (fun n => match n with JString s => Some s | _ => None end) names
  | _ => []
  end.

(** One object of [requireEverything], given the same object with its parts done:
    each property it does not require is made nullable, and all are required. *)
Definition require_node (fields done_ : list (string * json)) : json :=
  match as_object (field "properties" fields), as_object (field "properties" done_) with
  | Some properties, Some properties' =>
      let already := listed fields in
      JObject
        (set_field "required" (JStrings (sort_func String.compare (map fst properties)))
          (set_field "properties"
            (JObject (map (fun p => (p.1, if one_of p.1 already then p.2 else allowNull p.2)) properties'))
            done_))
  | _, _ => JObject done_
  end.

(** [requireEverything]. The code makes a property nullable before it descends into
    it, and here it is after: [requireEverything_allowNull] says they agree. *)
Fixpoint requireEverything (node : json) : json :=
  match node with
  | JArray l => JArray (map requireEverything l)
  | JObject fields =>
      require_node fields
        (map (fun f => (f.1, if String.eqb f.1 "required" then f.2 else requireEverything f.2)) fields)
  | _ => node
  end.

(** ** Fields *)

Lemma field_set name name' value fields :
  field name (set_field name' value fields) = if String.eqb name' name then Some value else field name fields.
Proof.
  unfold field. induction fields as [|[n v] fields IH]; cbn; [by destruct (String.eqb name' name)|].
  destruct (String.eqb_spec n name') as [->|Hn]; cbn.
  - by destruct (String.eqb name' name).
  - destruct (String.eqb_spec n name) as [->|Hn']; cbn; [|done].
    destruct (String.eqb_spec name' name) as [->|]; [done|done].
Qed.

Lemma set_field_names name value fields v :
  field name fields = Some v -> map fst (set_field name value fields) = map fst fields.
Proof.
  unfold field. induction fields as [|[n x] fields IH]; cbn; [done|].
  destruct (String.eqb_spec n name) as [->|Hn]; cbn; [done|]. intros H. by rewrite IH.
Qed.

Lemma field_map (f : string -> json -> json) name fields :
  field name (map (fun p => (p.1, f p.1 p.2)) fields) = f name <$> field name fields.
Proof.
  unfold field. induction fields as [|[n v] fields IH]; cbn; [done|].
  destruct (String.eqb_spec n name) as [->|]; cbn; [done|]. apply IH.
Qed.

Lemma elem_set_field p name value fields :
  p ∈ set_field name value fields -> p = (name, value) \/ p ∈ fields.
Proof.
  induction fields as [|f fields IH]; cbn; [intros ->%list_elem_of_singleton; by left|].
  destruct (String.eqb _ _); rewrite !elem_of_cons; [naive_solver|]. intros [->|Hp]; [naive_solver|].
  destruct (IH Hp); naive_solver.
Qed.

Lemma field_elem name fields v : field name fields = Some v -> (name, v) ∈ fields.
Proof.
  unfold field. destruct (List.find _ fields) as [[n x]|] eqn:H; [|done]. intros [= <-].
  apply find_elem in H as [H Hn%String.eqb_eq]. cbn in *. by subst.
Qed.

(** ** The order of descending and of allowing null *)

Lemma requireEverything_strings l : requireEverything (JStrings l) = JStrings l.
Proof. unfold JStrings. cbn. f_equal. rewrite map_map. by apply map_ext. Qed.

Lemma set_field_comm a b x y fields v :
  a <> b -> field a fields = Some v ->
  set_field a x (set_field b y fields) = set_field b y (set_field a x fields).
Proof.
  intros Hab. unfold field. induction fields as [|[n w] fields IH]; cbn; [done|].
  destruct (String.eqb_spec n a) as [->|Ha]; cbn.
  - intros _. apply String.eqb_neq in Hab as Hb. rewrite Hb. cbn. by rewrite ?String.eqb_refl.
  - intros H. destruct (String.eqb_spec n b) as [->|Hb]; cbn.
    + assert (String.eqb b a = false) as -> by by apply String.eqb_neq. by rewrite ?String.eqb_refl.
    + apply String.eqb_neq in Ha, Hb. rewrite ?Ha, ?Hb. f_equal. by apply IH.
Qed.

Definition descend (name : string) (v : json) : json := if String.eqb name "required" then v else requireEverything v.

Lemma requireEverything_object fields :
  requireEverything (JObject fields) = require_node fields (map (fun f => (f.1, descend f.1 f.2)) fields).
Proof. done. Qed.

Lemma require_node_field fields done_ :
  exists out, require_node fields done_ = JObject out /\
    forall name, name <> "properties"%string -> name <> "required"%string -> field name out = field name done_.
Proof.
  unfold require_node. destruct (as_object (field _ fields)); [|by exists done_].
  destruct (as_object (field _ done_)); [|by exists done_]. eexists. split; [reflexivity|].
  intros name Hp Hr. rewrite !field_set. apply not_eq_sym, String.eqb_neq in Hp, Hr. by rewrite Hp, Hr.
Qed.

Lemma requireEverything_string j s : requireEverything j = JString s <-> j = JString s.
Proof.
  destruct j as [| | | | |fields]; try done. rewrite requireEverything_object.
  by destruct (require_node_field fields (map (fun f => (f.1, descend f.1 f.2)) fields)) as (out & -> & _).
Qed.

Lemma map_set_field (f : string -> json -> json) name value fields :
  map (fun p => (p.1, f p.1 p.2)) (set_field name value fields) =
  set_field name (f name value) (map (fun p => (p.1, f p.1 p.2)) fields).
Proof.
  induction fields as [|[n v] fields IH]; cbn; [done|]. destruct (String.eqb_spec n name) as [->|]; cbn; [done|].
  by rewrite IH.
Qed.

Lemma listed_set name value fields : name <> "required"%string -> listed (set_field name value fields) = listed fields.
Proof. intros Hn%String.eqb_neq. unfold listed. by rewrite field_set, Hn. Qed.

(** Allowing null first or last makes no difference. *)
Lemma requireEverything_allowNull node : requireEverything (allowNull node) = allowNull (requireEverything node).
Proof.
  destruct node as [| | | | |fields]; [done..|]. rewrite (requireEverything_object fields).
  set (done_ := map _ fields). assert (field "type" done_ = descend "type" <$> field "type" fields) as Ht by apply field_map.
  destruct (require_node_field fields done_) as (out & Hout & Hf).
  cbn [allowNull]. destruct (field "type" fields) as [ty|] eqn:Hty; cbn in Ht.
  2: { rewrite requireEverything_object. fold done_. rewrite Hout. cbn. by rewrite Hf, Ht by done. }
  assert ((exists name, ty = JString name /\ name <> "null"%string) \/ ~ (exists name, ty = JString name /\ name <> "null"%string))
    as [(name & -> & Hn)|Hother].
  { destruct ty as [| | |name| |]; try (right; intros (? & ? & _); discriminate).
    destruct (String.eqb_spec name "null") as [->|]; [right; by intros (? & [= <-] & ?)|left; eauto]. }
  - apply String.eqb_neq in Hn as Hnb. rewrite Hnb, requireEverything_object, map_set_field. fold done_.
    unfold descend at 1. cbn [String.eqb]. rewrite requireEverything_strings.
    unfold require_node. rewrite !field_set, listed_set by done. cbn.
    destruct (as_object (field "properties" fields)); cbn; [|rewrite Ht; cbn; by rewrite Hnb].
    destruct (as_object (field "properties" done_)); cbn; [|rewrite Ht; cbn; by rewrite Hnb].
    rewrite !field_set. cbn. rewrite Ht. cbn. rewrite Hnb. f_equal.
    rewrite (set_field_comm "type" "required" _ _ _ (JString name)) by (done || by rewrite field_set).
    by rewrite (set_field_comm "type" "properties" _ _ _ (JString name)) by done.
  - assert (match ty with JString name => if String.eqb name "null" then JObject fields
              else JObject (set_field "type" (JStrings [name; "null"%string]) fields) | _ => JObject fields end = JObject fields) as ->.
    { destruct ty as [| | |name| |]; try done. destruct (String.eqb_spec name "null"); [done|]. destruct Hother. eauto. }
    rewrite requireEverything_object. fold done_. rewrite Hout. cbn. rewrite Hf, Ht by done.
    unfold descend. cbn [String.eqb]. destruct (requireEverything ty) as [| | |name| |] eqn:Hr; try done.
    apply requireEverything_string in Hr as ->. destruct (String.eqb_spec name "null"); [done|]. destruct Hother. eauto.
Qed.

(** ** What strict mode is given *)

Definition keyword (name : string) : bool := one_of name ["properties"; "items"; "required"]%string.

(** Nothing to descend into. *)
Definition flat (j : json) : Prop := requireEverything j = j.

(** A schema in which the traversal cannot mistake a property for a keyword: no
    property is called [properties] or [required], and beside [properties] and
    [items] there is nothing with a schema in it. *)
Inductive plain : json -> Prop :=
  | plain_object fields :
      (forall properties, field "properties" fields = Some (JObject properties) ->
         field "properties" properties = None /\ field "required" properties = None /\
         Forall (fun p => plain p.2) properties) ->
      (forall items, field "items" fields = Some items -> plain items) ->
      (forall name v, field name fields = Some v -> keyword name = false -> flat v) ->
      plain (JObject fields)
  | plain_flat j : (forall fields, j <> JObject fields) -> flat j -> plain j.

(** [strict_for j j']: [j'] is the schema [j] as strict mode wants it. Every object
    schema requires all its properties, and those [j] did not require admit null;
    each property and item is again such a schema; all else is as it was. *)
Inductive strict_for : json -> json -> Prop :=
  | strict_object fields fields' :
      (forall properties, field "properties" fields = Some (JObject properties) ->
         exists properties' names,
           field "properties" fields' = Some (JObject properties') /\
           field "required" fields' = Some (JStrings names) /\ names ≡ₚ map fst properties /\
           Forall2 (fun p p' => p'.1 = p.1 /\ exists s, strict_for p.2 s /\
             p'.2 = if one_of p.1 (listed fields) then s else allowNull s) properties properties') ->
      (forall items, field "items" fields = Some items ->
         exists items', field "items" fields' = Some items' /\ strict_for items items') ->
      (forall name, keyword name = false -> field name fields' = field name fields) ->
      strict_for (JObject fields) (JObject fields')
  | strict_flat j : (forall fields, j <> JObject fields) -> strict_for j j.

Lemma keyword_false name :
  keyword name = false <-> name <> "properties"%string /\ name <> "items"%string /\ name <> "required"%string.
Proof.
  unfold keyword. rewrite <- not_true_iff_false, one_of_spec, !not_elem_of_cons.
  pose proof (not_elem_of_nil name). tauto.
Qed.

Lemma field_None_map (f : string -> json -> json) name fields :
  field name fields = None -> field name (map (fun p => (p.1, f p.1 p.2)) fields) = None.
Proof. intros H. by rewrite field_map, H. Qed.

(** Where no property is called [required], all of them are descended into. *)
Lemma descend_all fields :
  field "required" fields = None -> map (fun f => (f.1, descend f.1 f.2)) fields = map (fun f => (f.1, requireEverything f.2)) fields.
Proof.
  unfold field. induction fields as [|[n v] fields IH]; cbn; [done|].
  unfold descend at 1. destruct (String.eqb n "required"); [done|]. intros H. f_equal. by apply IH.
Qed.

Lemma strict_node fields :
  Forall (fun f => plain f.2 -> strict_for f.2 (requireEverything f.2)) fields ->
  Forall (fun f => forall ps, f.2 = JObject ps -> Forall (fun p => plain p.2 -> strict_for p.2 (requireEverything p.2)) ps) fields ->
  plain (JObject fields) -> strict_for (JObject fields) (requireEverything (JObject fields)).
Proof.
  intros Hsub Hsubsub Hplain. inversion Hplain as [f Hprops Hitems Hrest|j Hno]; subst; [|by destruct (Hno fields)].
  rewrite requireEverything_object. set (done_ := map _ fields).
  assert (forall name, field name done_ = descend name <$> field name fields) as Hd by (intros; apply field_map).
  destruct (require_node_field fields done_) as (out & Hout & Hf). rewrite Hout. constructor.
  - intros ps Hps. destruct (Hprops ps Hps) as (Hno & Hnr & Hpl). apply field_elem in Hps as Hel.
    rewrite Forall_forall in Hsubsub. specialize (Hsubsub _ Hel ps eq_refl).
    assert (requireEverything (JObject ps) = JObject (map (fun f => (f.1, requireEverything f.2)) ps)) as Hrec.
    { rewrite requireEverything_object, descend_all by done. unfold require_node. by rewrite Hno. }
    specialize (Hd "properties"%string). rewrite Hps in Hd.
    change (descend "properties" <$> Some (JObject ps)) with (Some (requireEverything (JObject ps))) in Hd.
    rewrite Hrec in Hd. unfold require_node in Hout. rewrite Hps, Hd in Hout.
    cbn [as_object] in Hout. injection Hout as <-. eexists _, _. rewrite !field_set. cbn.
    split; [done|]. split; [done|]. split; [apply sort_by_Permutation|].
    rewrite map_map. apply Forall2_fmap_r, Forall_Forall2_diag, Forall_forall. intros p Hp. cbn. split; [done|].
    rewrite Forall_forall in Hsubsub, Hpl. exists (requireEverything p.2). split; [by apply Hsubsub, Hpl|done].
  - intros items Hit. exists (requireEverything items). rewrite Hf, Hd, Hit by done. split; [done|].
    rewrite Forall_forall in Hsub. apply field_elem in Hit as Hel. by apply (Hsub _ Hel), Hitems.
  - intros name Hk. apply keyword_false in Hk as Hk'. destruct Hk' as (Hp & Hi & Hr). rewrite Hf, Hd by done.
    destruct (field name fields) as [v|] eqn:Hv; [|done]. cbn. f_equal. unfold descend.
    apply String.eqb_neq in Hr. rewrite Hr. by apply (Hrest name v).
Qed.

(** [strictify] does to a schema what strict mode needs and nothing else: in every
    object schema, at any depth, all properties become required, those that were
    optional admit null, and everything else stays. *)
Theorem requireEverything_strict j : plain j -> strict_for j (requireEverything j).
Proof.
  enough ((plain j -> strict_for j (requireEverything j)) /\
    forall fields, j = JObject fields -> Forall (fun f => plain f.2 -> strict_for f.2 (requireEverything f.2)) fields) by tauto.
  induction j as [| | | |l _|fields IH] using json_deep_ind;
    try (split; [|done]; intros Hp; inversion Hp as [|j0 Hno Hflat]; subst; unfold flat in Hflat; rewrite ?Hflat; by constructor).
  split; [|intros fs [= <-]; eapply Forall_impl; [exact IH|]; by intros f [H _]].
  apply strict_node; (eapply Forall_impl; [exact IH|]); intros f [H1 H2]; [done|]. intros ps Hps. by apply H2.
Qed.

(** ** The schemas of this package *)

Lemma flat_strings l : flat (JStrings l).
Proof. apply requireEverything_strings. Qed.

Lemma field_app name l1 l2 : field name (l1 ++ l2) = match field name l1 with Some v => Some v | None => field name l2 end.
Proof.
  unfold field. induction l1 as [|[n v] l1 IH]; cbn; [done|]. by destruct (String.eqb n name).
Qed.
Lemma field_optional {A} name n (value : option A) write :
  field name (optional n value write) = if String.eqb n name then write <$> value else None.
Proof. unfold field. destruct value; cbn; by destruct (String.eqb n name). Qed.

(** The properties and items of a built schema. *)
Lemma marshal_fields s : exists fields, marshal s = JObject fields /\
  field "properties" fields = match js_properties s with
                              | [] => None
                              | ps => Some (JObject (map (fun p => (p.1, marshal p.2)) ps))
                              end /\
  field "items" fields = marshal <$> js_items s /\
  forall name v, field name fields = Some v -> keyword name = false -> flat v.
Proof.
  destruct s as [ty desc props req add items enum mi ml mn mx]. eexists. split; [reflexivity|].
  cbn [js_type js_description js_properties js_required js_additional js_items js_enum js_max_items js_max_length js_minimum js_maximum].
  split; [|split].
  - rewrite !field_app, !field_optional. by destruct props, items.
  - rewrite !field_app, !field_optional. by destruct props, items.
  - intros name v Hv Hk. apply keyword_false in Hk as (Hp & Hi & Hr). apply field_elem in Hv.
    repeat setoid_rewrite elem_of_app in Hv. unfold optional in Hv.
    repeat match goal with
    | H : _ \/ _ |- _ => destruct H as [H|H]
    | H : _ ∈ match ?x with _ => _ end |- _ => destruct x
    | H : _ ∈ [] |- _ => by apply not_elem_of_nil in H
    | H : _ ∈ [_] |- _ => apply list_elem_of_singleton in H; injection H as -> ->
    end; try done; apply flat_strings.
Qed.

Fixpoint good_names (s : jsonSchema) : bool :=
  forallb (fun p => negb (one_of p.1 ["properties"; "required"]%string) && good_names p.2) (js_properties s) &&
  match js_items s with Some items => good_names items | None => true end.

Lemma field_absent name (fields : list (string * json)) : name ∉ map fst fields -> field name fields = None.
Proof.
  unfold field. induction fields as [|[n v] fields IH]; cbn; [done|]. rewrite not_elem_of_cons. intros [Hn Hin].
  apply not_eq_sym, String.eqb_neq in Hn. rewrite Hn. by apply IH.
Qed.

Lemma marshal_plain s : good_names s = true -> plain (marshal s).
Proof.
  revert s. fix IH 1. intros s Hs. destruct (marshal_fields s) as (fields & Heq & Hp & Hi & Hflat). rewrite Heq.
  destruct s as [ty desc props req add items enum mi ml mn mx]. cbn in Hs, Hp, Hi. clear Heq.
  apply andb_true_iff in Hs as [Hprops Hitems].
  assert (Forall (fun p => plain p.2) (map (fun p => (p.1, marshal p.2)) props)) as Hplain.
  { clear Hp. induction props as [|p props IHp]; cbn; [constructor|]. cbn in Hprops.
    apply andb_true_iff in Hprops as [[_ Hg]%andb_true_iff Hprops]. constructor; [by apply IH|by apply IHp]. }
  assert (forall name, one_of name ["properties"; "required"]%string = true -> name ∉ map fst (map (fun p => (p.1, marshal p.2)) props)) as Hno.
  { intros name Hn. rewrite map_map. cbn. intros (p & -> & Hin)%list_elem_of_fmap. rewrite forallb_forall in Hprops.
    apply list_elem_of_In, Hprops, andb_true_iff in Hin as [Hin _]. by rewrite Hn in Hin. }
  constructor; [| |done].
  - intros ps Hps. rewrite Hp in Hps. destruct props as [|p props]; [done|]. injection Hps as <-.
    split; [|split; [|done]]; apply field_absent, Hno; reflexivity.
  - intros j Hj. rewrite Hi in Hj. destruct items as [items|]; [|done]. injection Hj as <-. by apply IH.
Qed.

Lemma extractionSchema_good predicates n : good_names (extractionSchema predicates n) = true.
Proof. by destruct predicates. Qed.

Lemma requireEverything_strict_witness :
  strict_for (marshal (extractionSchema ["drinks"%string] 16)) (requireEverything (marshal (extractionSchema ["drinks"%string] 16))).
Proof. apply requireEverything_strict, marshal_plain. vm_compute. reflexivity. Defined.

Fixpoint at_path (path : list string) (j : json) : option json :=
  match path, j with
  | [], _ => Some j
  | name :: path', JObject fields => match field name fields with Some v => at_path path' v | None => None end
  | _, _ => None
  end.

(** A claim's optional end, as strict mode is given it. *)
Example strict_valid_to :
  at_path ["properties"; "valid_to"; "type"]%string (requireEverything (marshal (assertion_schema []))) =
  Some (JStrings ["string"; "null"]%string).
Proof. vm_compute. reflexivity. Qed.
