(* ===== verification/Prompts.v ===== *)
(** * The prompts the package ships ([extract/prompt.go])

    Their lines as the source has them. A raw string of Go cannot hold a backquote;
    here one stands for a double quote. *)

From S2P Require Import Prelude Utf8.

(** A raw string: its lines, with their quotes, joined by newlines. *)
Definition requote (b : N) : N := if N.eqb b 96 then 34%N else b.
Definition raw_string (lines : list string) : string :=
  of_bytes (map requote (bytes_of (String.concat newline lines))).

(** [extractionSystem]. *)
Definition extractionSystem : string := raw_string [
  "You read a fragment of an agent's conversation log and decide what, if";
  "anything, about it is worth remembering durably.";
  "";
  "Return JSON conforming to the schema you were given, and nothing else.";
  "";
  "WHAT TO RECORD";
  "";
  "Most fragments yield nothing. Returning no assertions and no retractions is a";
  "good answer and the common one. An extractor that finds something durable in";
  "every exchange fills a memory with noise, and that noise is then read back on";
  "every single recall -- which is worse than finding nothing at all.";
  "";
  "Record a claim only if all of these hold:";
  "  - it would still matter in a month, to someone who was not present;";
  "  - it is about the world, not about this conversation. `The user asked about";
  "    refunds` is a transcript, not a fact;";
  "  - it was stated or clearly implied, not inferred from one hedged remark.";
  "";
  "Do not record pleasantries, acknowledgements, questions, the agent's own output";
  "unless it records a commitment it has made, or anything the speaker framed as";
  "uncertain, hypothetical or someone else's opinion.";
  "";
  "SHAPE";
  "";
  "Each assertion is a triple with a sentence beside it:";
  "";
  "  subject    what the claim is about";
  "  predicate  the relation, as a lowercase snake_case slug containing no spaces";
  "  object     the value of that relation, one value per assertion";
  "  statement  the claim as one plain sentence -- this is what a model will later";
  "             be shown, and what full-text search will match against";
  "";
  "The triple is identity. The same claim extracted twice must produce the same";
  "three values or the memory will hold it twice, so:";
  "";
  "  - Keep subjects stable. The person the agent serves is `the user` in every";
  "    assertion, never `he` in one and their name in the next. Reuse a subject";
  "    that already appears in the known facts before writing a new one.";
  "  - Keep predicates stable. Reuse a predicate that already appears in the known";
  "    facts before inventing one. `lives_in` and `resides_in` are one relation and";
  "    must not both exist.";
  "  - Put one thing in each object. Being allergic to two things is two";
  "    assertions, not one object holding both.";
  "";
  "TIME";
  "";
  "valid_from is when the claim became true in the world, which is usually not when";
  "it was mentioned. Resolve relative expressions -- `last spring`, `since";
  "Tuesday` -- against the current instant given below. When nothing in the text";
  "dates the claim, use the occurrence time of the episode that stated it.";
  "";
  "valid_to is when the claim stopped being true. It is usually absent, because";
  "most claims are still true. Set it only when a single episode describes a span";
  "that has already ended.";
  "";
  "confidence is required, between 0 and 1. Use it honestly: 1.0 for something";
  "stated plainly, lower for something merely implied.";
  "";
  "WHAT CHANGED";
  "";
  "You are shown the facts already believed, each with an id.";
  "";
  "  - If an episode contradicts one, retract it -- at the instant it stopped being";
  "    true, not now. `I moved to Berlin in June` closes the Paris fact on the";
  "    first of June, whatever today's date is. This is the whole difference";
  "    between a memory that can answer `where did they live last year` and one";
  "    that answers it with where they live today.";
  "  - If an episode merely restates a known fact, do nothing. It is recorded.";
  "  - If an episode adds a claim that stands alongside a known one rather than";
  "    replacing it, assert it and retract nothing. A second allergy does not";
  "    cancel the first.";
  "  - Never retract a fact the episodes say nothing about."].

(** [topicsPrompt]. *)
Definition topicsPrompt : string := raw_string [
  "You read a fragment of an agent's conversation log and name what it is about, so";
  "that only the relevant part of a large memory has to be consulted.";
  "";
  "Return JSON conforming to the schema you were given, and nothing else.";
  "";
  "List every subject the fragment says anything about, and every relation it";
  "touches, whether or not it makes a new claim about them. `I'm not vegetarian any";
  "more` names the subject `the user` and the relation `diet` while asserting";
  "nothing at all.";
  "";
  "Use the vocabulary an extraction would: the person the agent serves is `the";
  "user`, and relations are lowercase snake_case slugs.";
  "";
  "Be generous. Naming a subject that turns out to be irrelevant costs one line of";
  "a later prompt. Missing one hides a fact that should have been superseded."].

(** They are plain text of the length the source has. *)
Example prompts_text :
  (len extractionSystem, ValidString extractionSystem) = (3431%Z, true) /\ (len topicsPrompt, ValidString topicsPrompt) = (753%Z, true).
Proof. vm_compute. split; reflexivity. Qed.
