(* ===== verification/Extract.v ===== *)
(** * Extraction by a model ([extract/extract.go], [extract/parse.go], [extract/prompt.go])

    [extract.New], [Extract] with its optional first pass, what is rendered for the
    model, and the reading of its answer: every claim and every closing is held to
    what a fact store accepts, or dropped. The model is a port; logging is not
    modelled; the shipped prompts are in [Prompts]. *)

From S2P Require Import Types OpsTypes Validate Windows Sha256 Strconv Ports Json Prompts.

#[local] Open Scope Z_scope.

Definition PromptVersion : Z := 1.
Definition DefaultMaxAssertions : Z := 16.
Definition DefaultMaxPromptBytes : Z := 256 * 1024.

(** ** Texts *)

(** What is used of [encoding/json], [time], [strings], [fmt] and the uuid package:
    reading the two replies, dates and ids, and writing times, ids, quoted strings,
    a confidence and the response schema. *)
Record jsonAssertion : Type := MkJsonAssertion {
  ja_subject : string;
  ja_predicate : string;
  ja_object : string;
  ja_statement : string;
  ja_valid_from : string;
  ja_valid_to : string;
  ja_confidence : option float64;
}.
Record jsonRetraction : Type := MkJsonRetraction { jr_fact_id : string; jr_at : string }.

(** [extraction] and [topics]: a field a reply leaves out is [None]. *)
Record extraction : Type := MkExtraction {
  ex_assertions : option (list jsonAssertion);
  ex_retractions : option (list jsonRetraction);
}.
Record topics : Type := MkTopics {
  to_subjects : option (list string);
  to_predicates : option (list string);
}.

Class Texts : Type := {
  unmarshal_extraction : string -> res extraction;
  unmarshal_topics : string -> res topics;
  (** [time.Parse(time.RFC3339, s)]; [time.ParseInLocation(time.DateOnly, s, loc)]. *)
  parse_RFC3339 : string -> option Time;
  parse_DateOnly : string -> N -> option Time;
  format_RFC3339 : Time -> string;
  ToLower : string -> string;
  uuid_Parse : string -> option N;
  uuid_String : N -> string;
  (** [%q] and [%.2f]. *)
  quoted : string -> string;
  two_decimals : float32 -> string;
  (** [json.Marshal] of a schema's document. *)
  json_text : json -> string;
}.

(** ** Options *)

Record Options : Type := MkOptions {
  opt_predicates : list Predicate;
  opt_instructions : string;
  opt_max_assertions : Z;
  opt_reconcile : bool;
  opt_max_prompt : Z;
}.

(** [slices.Compact]. *)
Fixpoint Compact (l : list string) : list string :=
  match l with
  | x :: l' =>
      match l' with
      | y :: _ => if String.eqb x y then Compact l' else x :: Compact l'
      | [] => [x]
      end
  | [] => []
  end.

(** One [write] of [digest]: the value behind its length. *)
Definition digest_entry (e : string * string) : string :=
  (e.1 ++ ":" ++ Itoa (len e.2) ++ ":" ++ e.2 ++ newline)%string.
Definition digest_entries (o : Options) : list (string * string) :=
  [("prompt", Itoa PromptVersion); ("instructions", opt_instructions o);
   ("assertions", Itoa (opt_max_assertions o)); ("reconcile", if opt_reconcile o then "true" else "false")]%string ++
  map (fun p => ("predicate"%string, p)) (opt_predicates o).
Definition digest_input (o : Options) : string := String.concat EmptyString (map digest_entry (digest_entries o)).

(** [digest]. *)
Definition digest (o : Options) : string := slice_to (sha256_hex (digest_input o)) 8.

Section Extract.
Context `{Tx : Texts} {W : Type}.

(** ** Prompts *)

Record Prompt : Type := MkPrompt { pr_system : string; pr_user : string; pr_schema : string }.

(** [extractionPrompt]. *)
Definition extractionPrompt (o : Options) : string :=
  (extractionSystem ++
   (if is_empty (TrimSpace (opt_instructions o)) then EmptyString
    else newline ++ newline ++ "WHAT THIS DEPLOYMENT CARES ABOUT" ++ newline ++ newline ++ TrimSpace (opt_instructions o)) ++
   (match opt_predicates o with
    | [] => EmptyString
    | ps =>
        newline ++ newline ++ "VOCABULARY" ++ newline ++ newline ++ "Use only these predicates, and no others:" ++ newline ++
        String.concat EmptyString (map (fun p => "  " ++ p ++ newline) ps) ++
        newline ++ "A claim that fits none of them is a claim not to record."
    end) ++
   newline ++ newline ++ "Return at most " ++ Itoa (opt_max_assertions o) ++
   " assertions. If more seem to qualify, return the " ++ Itoa (opt_max_assertions o) ++ " that" ++ newline ++
   "would matter most in a month.")%string.

(** [renderNow]. *)
Definition renderNow (now : Time) : string := ("The current instant is " ++ format_RFC3339 now ++ "." ++ newline)%string.

Definition render_fact (f : Fact) : string :=
  ("[" ++ uuid_String (f_id f) ++ "] " ++ f_statement f ++ newline ++
   "    " ++ f_subject f ++ " " ++ f_predicate f ++ " " ++ quoted (f_object f) ++
   " | since " ++ format_RFC3339 (v_from (f_valid f)) ++ ", " ++
   (if IsOpen (f_valid f) then "still true" else "ended " ++ format_RFC3339 (v_to (f_valid f))) ++
   " | confidence " ++ two_decimals (f_confidence f) ++ newline)%string.

(** [renderKnown]. *)
Definition renderKnown (known : list Fact) : string :=
  (newline ++ "KNOWN FACTS" ++ newline ++ newline ++
   match known with
   | [] => "Nothing is believed about this subject yet." ++ newline
   | _ => String.concat EmptyString (map render_fact known)
   end)%string.

Definition render_episode (ep : Episode) : string :=
  ("#" ++ Itoa (ep_seq ep) ++ " " ++ format_RFC3339 (ep_occurred ep) ++ " " ++
   (if is_empty (ep_actor ep) then ep_role ep else ep_role ep ++ " (" ++ ep_actor ep ++ ")") ++ ":" ++ newline ++
   ep_content ep ++ newline ++ newline)%string.

(** [renderEpisodes]. *)
Definition renderEpisodes (episodes : list Episode) : string :=
  (newline ++ "NEW EPISODES" ++ newline ++ newline ++ String.concat EmptyString (map render_episode episodes))%string.

(** The last step of [extractionSchema] and of [topicsSchema]. *)
Definition schema_text (s : jsonSchema) : string := json_text (marshal s).

(** ** The extractor *)

(** [Completer]. *)
Record Completer : Type := MkCompleter {
  c_Complete : Prompt -> op Error W string;
  c_Model : string;
}.

(** [Extractor]; its [predicates] are the options', a set once there is one. *)
Record ModelExtractor : Type := MkModelExtractor {
  me_completer : Completer;
  me_id : ExtractorID;
  me_opts : Options;
  me_system : string;
  me_schema : string;
}.

(** [New]. *)
Definition New (c : option Completer) (opts : Options) : res ModelExtractor :=
  match c with
  | None => Err (EWrap ErrInvalidConfig)
  | Some c =>
      reject (is_empty (c_Model c)) (EWrap ErrInvalidConfig) ;;?
      reject (opt_max_assertions opts <? 0) (EWrap ErrInvalidConfig) ;;?
      reject (opt_max_assertions opts >? MaxAssertionsPerExtraction) (EWrap ErrInvalidConfig) ;;?
      reject (opt_max_prompt opts <? 0) (EWrap ErrInvalidConfig) ;;?
      let predicates := Compact (sort_func String.compare (opt_predicates opts)) in
      check_all (fun p => match Predicate_Validate p with
                          | Ok _ => Ok tt
                          | Err e => Err (EJoin e (EWrap ErrInvalidConfig))
                          end) predicates ;;?
      let opts :=
        MkOptions predicates (opt_instructions opts)
          (if opt_max_assertions opts =? 0 then DefaultMaxAssertions else opt_max_assertions opts)
          (opt_reconcile opts)
          (if opt_max_prompt opts =? 0 then DefaultMaxPromptBytes else opt_max_prompt opts) in
      let id := ("mempher-extract/v" ++ Itoa PromptVersion ++ "+" ++ c_Model c ++ "+" ++ digest opts)%string in
      reject (len id >? MaxExtractorLen) (EWrap ErrInvalidConfig) ;;?
      Ok (MkModelExtractor c id opts (extractionPrompt opts)
            (schema_text (extractionSchema predicates (opt_max_assertions opts))))
  end.

(** ** Reading the answer *)

(** [decode]. *)
Definition decode {A} (unmarshal : string -> res A) (raw : string) : res A :=
  match unmarshal raw with
  | Ok a => Ok a
  | Err e => Err (EJoin e (EWrapX ErrMalformedResponse))
  end.

Definition is_some {A} (o : option A) : bool := match o with Some _ => true | None => false end.

(** [extraction.answered] and [topics.answered]. *)
Definition extraction_answered (e : extraction) : bool := is_some (ex_assertions e) || is_some (ex_retractions e).
Definition topics_answered (t : topics) : bool := is_some (to_subjects t) || is_some (to_predicates t).

(** [instant]. *)
Definition instant (s : string) (now : Time) : res Time :=
  let s := TrimSpace s in
  reject (is_empty s) (EWrap ErrInvalidValidity) ;;?
  match parse_RFC3339 s with
  | Some t => Ok t
  | None =>
      match parse_DateOnly s (t_loc now) with
      | Some t => Ok t
      | None => Err (EWrap ErrInvalidValidity)
      end
  end.

(** [assertion]. *)
Definition assertion (e : ModelExtractor) (raw : jsonAssertion) (now : Time) : res Assertion :=
  match ja_confidence raw with
  | None => Err (EWrap ErrInvalidFact)
  | Some confidence =>
      let? from := instant (ja_valid_from raw) now in
      let? to := if is_empty (TrimSpace (ja_valid_to raw)) then Ok zeroTime else instant (ja_valid_to raw) now in
      let a := MkAssertion (TrimSpace (ja_subject raw)) (TrimSpace (ja_predicate raw)) (TrimSpace (ja_object raw))
                 (TrimSpace (ja_statement raw)) (MkValidity from to) (f32_of_f64 confidence) in
      reject (negb (bool_decide (opt_predicates (me_opts e) = [])) && negb (one_of (a_predicate a) (opt_predicates (me_opts e))))
        (EWrap ErrInvalidFact) ;;?
      Assertion_Validate a ;;?
      Ok a
  end.

(** The loop of [assertions] and of [retractions]: what is read of each item, up to
    a cap, the refused ones left out. *)
Fixpoint read_capped {A B} (cap : Z) (read : A -> res B) (raws : list A) (out : list B) : list B :=
  match raws with
  | [] => out
  | raw :: rest =>
      if cap <=? Z.of_nat (length out) then out
      else
        match read raw with
        | Err _ => read_capped cap read rest out
        | Ok b => read_capped cap read rest (out ++ [b])
        end
  end.

(** [assertions]. *)
Definition assertions (e : ModelExtractor) (raws : list jsonAssertion) (now : Time) : list Assertion :=
  read_capped (opt_max_assertions (me_opts e)) (fun raw => assertion e raw now) raws [].

(** The map [known]: the last fact of an id. *)
Definition known_fact (known : list Fact) (id : FactID) : option Fact :=
  List.find (fun f => N.eqb (f_id f) id) (rev known).

(** [retraction]. *)
Definition retraction (raw : jsonRetraction) (known : list Fact) (now : Time) : res Retraction :=
  match uuid_Parse (TrimSpace (jr_fact_id raw)) with
  | None => Err (EWrap ErrInvalidExtraction)
  | Some id =>
      match known_fact known id with
      | None => Err (EWrap ErrInvalidExtraction)
      | Some fact =>
          let? at_ := instant (jr_at raw) now in
          reject (Before at_ (v_from (f_valid fact))) (EWrap ErrInvalidValidity) ;;?
          Retraction_Validate (MkRetraction id at_) ;;?
          Ok (MkRetraction id at_)
      end
  end.

(** [retractions]. *)
Definition retractions (raws : list jsonRetraction) (req : ExtractRequest) : list Retraction :=
  read_capped MaxRetractionsPerExtraction (fun raw => retraction raw (xr_known req) (xr_now req)) raws [].

(** [validate]. *)
Definition validate (e : ModelExtractor) (body : extraction) (req : ExtractRequest) : ExtractResult :=
  MkExtractResult (assertions e (default [] (ex_assertions body)) (xr_now req))
    (retractions (default [] (ex_retractions body)) req).

(** ** Extracting *)

(** [budget]. *)
Definition budget (e : ModelExtractor) (episodes : list Episode) : res unit :=
  reject (foldr (fun ep n => len (ep_content ep) + n) 0 episodes >? opt_max_prompt (me_opts e)) (EWrapX ErrPromptTooLarge).

(** Membership in [lowerSet]. *)
Definition in_lowerSet (values : list string) (s : string) : bool :=
  one_of (ToLower s) (map (fun v => ToLower (TrimSpace v)) values).

(** What [narrow] keeps of the known facts. *)
Definition narrowed (body : topics) (known : list Fact) : list Fact :=
  let named := default [] (to_subjects body) in
  let related := default [] (to_predicates body) in
  if Nat.eqb (length named) 0 && Nat.eqb (length related) 0 then known
  else List.filter (fun f => in_lowerSet named (f_subject f) || in_lowerSet related (f_predicate f)) known.

(** [narrow]. *)
Definition narrow (e : ModelExtractor) (req : ExtractRequest) : op Error W (list Fact) :=
  let! raw := c_Complete (me_completer e)
                (MkPrompt topicsPrompt (renderNow (xr_now req) ++ renderEpisodes (xr_episodes req))%string
                   (schema_text topicsSchema)) in
  let! body := olift (decode unmarshal_topics raw) in
  olift (reject (negb (topics_answered body)) (EWrapX ErrMalformedResponse)) ;;;
  oret (narrowed body (xr_known req)).

(** [extract]. *)
Definition extract (e : ModelExtractor) (req : ExtractRequest) (known : list Fact) : op Error W ExtractResult :=
  let! raw := c_Complete (me_completer e)
                (MkPrompt (me_system e)
                   (renderNow (xr_now req) ++ renderKnown known ++ renderEpisodes (xr_episodes req))%string
                   (me_schema e)) in
  let! body := olift (decode unmarshal_extraction raw) in
  olift (reject (negb (extraction_answered body)) (EWrapX ErrMalformedResponse)) ;;;
  oret (validate e body req).

(** [Extract]. *)
Definition Extract (e : ModelExtractor) (req : ExtractRequest) : op Error W ExtractResult :=
  match xr_episodes req with
  | [] => oret (MkExtractResult [] [])
  | _ =>
      olift (budget e (xr_episodes req)) ;;;
      let! known :=
        if opt_reconcile (me_opts e) && negb (Nat.eqb (length (xr_known req)) 0) then narrow e req
        else oret (xr_known req) in
      extract e req known
  end.

(** [*Extractor] as the port a worker is given. *)
Definition as_extractor (e : ModelExtractor) : Extractor W := MkExtractor (Extract e) (me_id e).
End Extract.
Arguments Completer : clear implicits.
Arguments ModelExtractor : clear implicits.
