(* ===== verification/Doubles.v ===== *)
(** * The test doubles ([memphertest])

    A clock that only moves when it is moved, an embedder that hashes words and an
    extractor that applies rules: what a test wires in where a deployment has the
    system clock and the services of a model. Each is a state and operations on it;
    a port is such operations on the part of the world that holds the state. *)

From stdpp Require Import gmap.
From S2P Require Import Prelude Utf8 GoNum FloatInt Strconv Types OpsTypes Ports Extract.

#[local] Open Scope Z_scope.

(** ** The part of a world a double lives in *)

Record Part (W S : Type) : Type := MkPart { held : W -> S; put : S -> W -> W }.
Arguments MkPart {W S} held put.
Arguments held {W S} _ _.
Arguments put {W S} _ _ _.

Definition on_part {W S A} (p : Part W S) (m : op Error S A) : op Error W A := fun w =>
  let (s, r) := m (held p w) in (put p s w, r).

(** ** [clock.go] *)

Record ClockDouble : Type := MkClockDouble { cd_now : Time }.

Definition NewClock (start : Time) : ClockDouble := MkClockDouble start.

(** [Clock.Now], [Clock.Advance], [Clock.Set]. *)
Definition Clock_Now (c : ClockDouble) : ClockDouble * Time := (c, cd_now c).
Definition Advance (d : Duration) (c : ClockDouble) : ClockDouble * Time :=
  let c' := MkClockDouble (Add (cd_now c) d) in (c', cd_now c').
Definition Clock_Set (t : Time) (c : ClockDouble) : ClockDouble := MkClockDouble t.

Definition clock_double {W} (p : Part W ClockDouble) : Clock W :=
  MkClock (fun w => let (c, t) := Clock_Now (held p w) in (put p c w, t)).

(** ** [embedder.go] *)

Record EmbedderDouble : Type := MkEmbedderDouble {
  ed_dims : Z;
  ed_model : ModelID;
  ed_failure : option Error;
  ed_calls : Z;
}.

(** [NewEmbedder]; it panics unless there is a dimension. *)
Definition NewEmbedderDouble (dims : Z) : option EmbedderDouble :=
  if dims <=? 0 then None
  else Some (MkEmbedderDouble dims ("memphertest/hashed-bow@" ++ Itoa dims)%string None 0).

(** [Embedder.Fail], [Embedder.Calls]. *)
Definition Embedder_Fail (err : option Error) (e : EmbedderDouble) : EmbedderDouble :=
  MkEmbedderDouble (ed_dims e) (ed_model e) err (ed_calls e).
Definition Embedder_Calls (e : EmbedderDouble) : Z := ed_calls e.

(** [hash/fnv]: the 64-bit FNV-1a sum. *)
Definition fnv_offset : Z := 14695981039346656037.
Definition fnv_prime : Z := 1099511628211.
Definition fnv_step (h : Z) (b : N) : Z := (Z.lxor h (Z.of_N b) * fnv_prime) mod 2 ^ 64.
Definition Sum64 (token : string) : Z := foldl fnv_step fnv_offset (bytes_of token).

Definition f32_one : float32 := f32_of_Z 1.
Definition f32_inc (x : float32) : float32 := SFadd 24 128 x f32_one.
Definition f32_dec (x : float32) : float32 := SFsub 24 128 x f32_one.

Section Embedding.
Context `{Tx : Texts} (IsLetter IsDigit : N -> bool).

Definition tokenize (text : string) : list string :=
  FieldsFunc (fun r => negb (IsLetter r) && negb (IsDigit r)) (ToLower text).

(** The dimension a token falls into, and whether it is taken away there. *)
Definition dimension_of (dims : Z) (token : string) : nat := Z.to_nat (Sum64 token mod dims).
Definition negative (token : string) : bool := negb (Z.land (Sum64 token) (2 ^ 63) =? 0).

(** One turn of the loop over the tokens; the index is in range. *)
Definition hash_token (dims : Z) (vec : Vector) (token : string) : Vector :=
  let idx := dimension_of dims token in
  match vec !! idx with
  | Some x => <[idx := if negative token then f32_dec x else f32_inc x]> vec
  | None => vec
  end.

Definition square_norm (vec : Vector) : float64 :=
  foldl (fun norm v => f64_add norm (f64_mul (f64_of_f32 v) (f64_of_f32 v))) f_zero vec.

(** [Embedder.embed]. *)
Definition embed (dims : Z) (text : string) : Vector :=
  let vec := foldl (hash_token dims) (replicate (Z.to_nat dims) f_zero) (tokenize text) in
  let norm := square_norm vec in
  if f_eqb norm f_zero then vec
  else map (fun v => f32_of_f64 (f64_div (f64_of_f32 v) (f64_sqrt norm))) vec.

(** [Embedder.begin]; [ctx] is what the context says. *)
Definition begin (ctx : option Error) : op Error EmbedderDouble unit := fun e =>
  match ctx with
  | Some err => (e, Err err)
  | None =>
      let e' := MkEmbedderDouble (ed_dims e) (ed_model e) (ed_failure e) (ed_calls e + 1) in
      match ed_failure e' with
      | Some err => (e', Err err)
      | None => (e', Ok tt)
      end
  end.

Definition dims_of : op Error EmbedderDouble Z := fun e => (e, Ok (ed_dims e)).

(** [Embedder.EmbedDocuments], [Embedder.EmbedQuery]. *)
Definition Double_EmbedDocuments (ctx : option Error) (texts : list string) : op Error EmbedderDouble (list Vector) :=
  begin ctx ;;; let! dims := dims_of in oret (map (embed dims) texts).
Definition Double_EmbedQuery (ctx : option Error) (text : string) : op Error EmbedderDouble Vector :=
  begin ctx ;;; let! dims := dims_of in oret (embed dims text).

(** The port; the width and the model are the double's for good. *)
Definition embedder_double {W} (p : Part W EmbedderDouble) (ctx : W -> option Error) (e : EmbedderDouble) : Embedder W :=
  MkEmbedder (fun texts w => on_part p (Double_EmbedDocuments (ctx w) texts) w)
    (fun text w => on_part p (Double_EmbedQuery (ctx w) text) w) (ed_dims e) (ed_model e).
End Embedding.

(** ** [extractor.go] *)

Record Rule : Type := MkRule {
  ru_match : string;
  ru_assert : Assertion;
  ru_replaces : bool;
}.

Record ExtractorDouble : Type := MkExtractorDouble {
  xd_id : ExtractorID;
  xd_rules : list Rule;
  xd_failure : option Error;
  xd_calls : Z;
}.

Definition NewExtractor : ExtractorDouble := MkExtractorDouble "memphertest/rules" [] None 0.

(** [Extractor.WithID]; it panics on the empty identifier. *)
Definition WithID (id : ExtractorID) (e : ExtractorDouble) : option ExtractorDouble :=
  if is_empty id then None else Some (MkExtractorDouble id (xd_rules e) None 0).

(** [Extractor.On], [Extractor.Fail], [Extractor.Calls]. *)
Definition On (rules : list Rule) (e : ExtractorDouble) : ExtractorDouble :=
  MkExtractorDouble (xd_id e) (xd_rules e ++ rules) (xd_failure e) (xd_calls e).
Definition Extractor_Fail (err : option Error) (e : ExtractorDouble) : ExtractorDouble :=
  MkExtractorDouble (xd_id e) (xd_rules e) err (xd_calls e).
Definition Extractor_Calls (e : ExtractorDouble) : Z := xd_calls e.

Section Extracting.
Context `{Tx : Texts}.

(** [rule] fires on the lowered [content]. *)
Definition fires (content : string) (rule : Rule) : bool := ContainsString content (ToLower (ru_match rule)).

(** The rule's claim, from when the episode happened unless the rule says. *)
Definition claimed (episode : Episode) (rule : Rule) : Assertion :=
  let a := ru_assert rule in
  if IsZero (v_from (a_valid a))
  then MkAssertion (a_subject a) (a_predicate a) (a_object a) (a_statement a)
         (MkValidity (ep_occurred episode) (v_to (a_valid a))) (a_confidence a)
  else a.

(** Only a different object contradicts. *)
Definition contradicts (a : Assertion) (known : Fact) : bool :=
  String.eqb (f_subject known) (a_subject a) && String.eqb (f_predicate known) (a_predicate a) &&
  negb (String.eqb (f_object known) (a_object a)).

(** One turn of the loop over what is known; [retracted] is the map. *)
Definition retract_known (a : Assertion) (st : gset FactID * list Retraction) (known : Fact) : gset FactID * list Retraction :=
  if negb (contradicts a known) then st
  else if bool_decide (f_id known ∈ st.1) then st
  else (st.1 ∪ {[f_id known]}, st.2 ++ [MkRetraction (f_id known) (v_from (a_valid a))]).

(** One turn of the loop over the rules. *)
Definition apply_rule (known : list Fact) (episode : Episode) (content : string)
    (st : list Assertion * (gset FactID * list Retraction)) (rule : Rule) : list Assertion * (gset FactID * list Retraction) :=
  if negb (fires content rule) then st
  else
    let a := claimed episode rule in
    (st.1 ++ [a], if negb (ru_replaces rule) then st.2 else foldl (retract_known a) st.2 known).

Definition apply_rules (rules : list Rule) (known : list Fact) (st : list Assertion * (gset FactID * list Retraction))
    (episode : Episode) : list Assertion * (gset FactID * list Retraction) :=
  foldl (apply_rule known episode (ToLower (ep_content episode))) st rules.

(** [Extractor.Extract]. *)
Definition Double_Extract (ctx : option Error) (req : ExtractRequest) : op Error ExtractorDouble ExtractResult := fun e =>
  match ctx with
  | Some err => (e, Err err)
  | None =>
      let e' := MkExtractorDouble (xd_id e) (xd_rules e) (xd_failure e) (xd_calls e + 1) in
      match xd_failure e' with
      | Some err => (e', Err err)
      | None =>
          let st := foldl (apply_rules (xd_rules e') (xr_known req)) ([], (∅, [])) (xr_episodes req) in
          (e', Ok (MkExtractResult st.1 st.2.2))
      end
  end.

Definition extractor_double {W} (p : Part W ExtractorDouble) (ctx : W -> option Error) (e : ExtractorDouble) : Extractor W :=
  MkExtractor (fun req w => on_part p (Double_Extract (ctx w) req) w) (xd_id e).
End Extracting.
