(* ===== verification/Doubling.v ===== *)
(** * What the test doubles promise

    The embedder's vectors depend on the words of a text alone, are numbers a store
    accepts, and keep the order of the texts; the extractor's claims and retractions
    are those of its rules, each known fact retracted once. Wired to the adapter
    through [Worker], an encode job with these doubles is always done. *)

From stdpp Require Import gmap.
From S2P Require Import Prelude Utf8 GoNum FloatInt Strconv Types OpsTypes Validate Server Db PgEpisode Appending Replaying PgFact FactWriting FactReading PgEncoding Ports Memory Worker Postgres Deployment Consolidation Extract Doubles.

#[local] Open Scope Z_scope.

(** ** Counting words with floats *)

Definition total_abs (zs : list Z) : Z := foldr (fun z n => Z.abs z + n) 0 zs.
Definition total_square (zs : list Z) : Z := foldr (fun z n => z * z + n) 0 zs.

Lemma total_abs_nonneg zs : 0 <= total_abs zs.
Proof. unfold total_abs. induction zs; cbn; lia. Qed.

Lemma total_square_bound zs : 0 <= total_square zs <= total_abs zs * total_abs zs.
Proof.
  unfold total_square, total_abs. induction zs as [|z zs IH]; cbn; [lia|]. pose proof (total_abs_nonneg zs) as H.
  unfold total_abs in H. nia.
Qed.

Lemma total_abs_lookup zs i z : zs !! i = Some z -> Z.abs z <= total_abs zs.
Proof.
  revert i. unfold total_abs. induction zs as [|y zs IH]; intros [|i] H; cbn in *; try done.
  - injection H as ->. pose proof (total_abs_nonneg zs). unfold total_abs in *. lia.
  - apply IH in H. lia.
Qed.

Lemma total_abs_alter f zs i : (forall z, Z.abs (f z) <= Z.abs z + 1) -> total_abs (alter f i zs) <= total_abs zs + 1.
Proof.
  intros Hf. revert i. unfold total_abs. induction zs as [|z zs IH]; intros [|i]; cbn; try lia.
  - specialize (Hf z). lia.
  - change (list_alter f i zs) with (alter f i zs). specialize (IH i). lia.
Qed.

Lemma f32_inc_int z : Z.abs z + 1 < 2 ^ 24 -> f32_inc (f32_of_Z z) = f32_of_Z (z + 1).
Proof. intros Hz. apply (SFadd_int 24 128); unfold exact; cbn; lia. Qed.
Lemma f32_dec_int z : Z.abs z + 1 < 2 ^ 24 -> f32_dec (f32_of_Z z) = f32_of_Z (z - 1).
Proof. intros Hz. apply (SFsub_int 24 128); unfold exact; cbn; lia. Qed.

Section Embedding.
Context `{Tx : Texts} (IsLetter IsDigit : N -> bool).
Local Notation tokenize := (tokenize IsLetter IsDigit).
Local Notation embed := (embed IsLetter IsDigit).

(** The vector in integers: each token adds its sign where it falls. *)
Definition sign (token : string) (z : Z) : Z := if negative token then z - 1 else z + 1.
Definition add_token (dims : Z) (zs : list Z) (token : string) : list Z :=
  alter (sign token) (dimension_of dims token) zs.

Lemma total_abs_add dims zs token : total_abs (add_token dims zs token) <= total_abs zs + 1.
Proof. apply total_abs_alter. intros z. unfold sign. destruct (negative token); lia. Qed.

Lemma hash_token_int dims zs token : total_abs zs + 1 < 2 ^ 24 ->
  hash_token dims (map f32_of_Z zs) token = map f32_of_Z (add_token dims zs token).
Proof.
  intros Hb. unfold hash_token, add_token, Vector. set (i := dimension_of dims token).
  assert (map f32_of_Z zs !! i = f32_of_Z <$> zs !! i) as -> by apply list_lookup_fmap. destruct (zs !! i) as [z|] eqn:Hz; cbn [fmap option_fmap option_map].
  - pose proof (total_abs_lookup zs i z Hz) as Ha. apply list_eq. intros j. rewrite list_lookup_fmap.
    destruct (decide (i = j)) as [<-|Hij].
    + rewrite list_lookup_insert_eq by (rewrite length_fmap; by eapply lookup_lt_Some).
      rewrite list_lookup_alter_eq, Hz. cbn. unfold sign. destruct (negative token); [rewrite f32_dec_int|rewrite f32_inc_int]; by lia || done.
    + by rewrite list_lookup_insert_ne, list_lookup_fmap, list_lookup_alter_ne by done.
  - f_equal. apply list_eq. intros j. destruct (decide (i = j)) as [<-|Hij].
    + by rewrite list_lookup_alter_eq, Hz.
    + by rewrite list_lookup_alter_ne.
Qed.

Lemma hash_tokens_int dims tokens zs : total_abs zs + Z.of_nat (length tokens) < 2 ^ 24 ->
  foldl (hash_token dims) (map f32_of_Z zs) tokens = map f32_of_Z (foldl (add_token dims) zs tokens) /\
  total_abs (foldl (add_token dims) zs tokens) <= total_abs zs + Z.of_nat (length tokens).
Proof.
  revert zs. induction tokens as [|t tokens IH]; intros zs Hb; cbn [foldl length] in *; [split; [done|lia]|].
  pose proof (total_abs_add dims zs t). rewrite hash_token_int by lia.
  destruct (IH (add_token dims zs t)) as [-> ?]; [lia|]. split; [done|lia].
Qed.

(** Tokens may come in any order. *)
Lemma add_token_comm dims zs t1 t2 : add_token dims (add_token dims zs t1) t2 = add_token dims (add_token dims zs t2) t1.
Proof.
  unfold add_token. set (i := dimension_of dims t1). set (k := dimension_of dims t2). apply list_eq. intros j.
  destruct (decide (i = j)) as [->|Hi], (decide (k = j)) as [->|Hk];
    rewrite ?list_lookup_alter_eq, ?list_lookup_alter_ne, ?list_lookup_alter_eq by done;
    rewrite ?list_lookup_alter_ne, ?list_lookup_alter_eq by done; try done.
  destruct (zs !! j) as [z|]; cbn; [|done]. f_equal. unfold sign. destruct (negative t1), (negative t2); lia.
Qed.

Lemma add_tokens_bag dims l1 l2 zs : l1 ≡ₚ l2 -> foldl (add_token dims) zs l1 = foldl (add_token dims) zs l2.
Proof.
  intros Hp. revert zs. induction Hp as [|t l1 l2 _ IH|t1 t2 l|l1 l2 l3 _ IH1 _ IH2]; intros zs; cbn; [done|done| |].
  - by rewrite add_token_comm.
  - by rewrite IH1.
Qed.

Lemma length_add_tokens dims l zs : length (foldl (add_token dims) zs l) = length zs.
Proof. revert zs. induction l as [|t l IH]; intros zs; cbn; [done|]. rewrite IH. apply length_alter. Qed.

Lemma f64_mul_square z : Z.abs z < 2 ^ 24 -> f64_mul (f64_of_Z z) (f64_of_Z z) = f64_of_Z (z * z).
Proof.
  change (2 ^ 24) with 16777216. intros Hz.
  apply (SFmul_square 53 1024); unfold exact; change (2 ^ 53) with 9007199254740992; nia.
Qed.

Lemma f64_add_int x y : 0 <= x -> 0 <= y -> x + y < 2 ^ 48 -> f64_add (f64_of_Z x) (f64_of_Z y) = f64_of_Z (x + y).
Proof.
  change (2 ^ 48) with 281474976710656. intros Hx Hy Hs.
  apply (SFadd_int 53 1024); unfold exact; change (2 ^ 53) with 9007199254740992; lia.
Qed.

Lemma square_norm_from zs s : 0 <= s -> s + total_square zs < 2 ^ 48 -> total_abs zs < 2 ^ 24 ->
  foldl (fun norm v => f64_add norm (f64_mul (f64_of_f32 v) (f64_of_f32 v))) (f64_of_Z s) (map f32_of_Z zs) =
  f64_of_Z (s + total_square zs).
Proof.
  revert s. induction zs as [|z zs IH]; intros s Hs Hsum Hab; [by rewrite Z.add_0_r|].
  cbn [map foldl total_square total_abs foldr] in *. fold (total_square zs) in *. fold (total_abs zs) in *.
  pose proof (total_abs_nonneg zs). pose proof (total_square_bound zs). change (2 ^ 48) with 281474976710656 in *. change (2 ^ 24) with 16777216 in *.
  rewrite f64_of_f32_int by (unfold exact; change (2 ^ 24) with 16777216; lia).
  rewrite f64_mul_square by (change (2 ^ 24) with 16777216; lia).
  rewrite f64_add_int by (change (2 ^ 48) with 281474976710656; nia).
  etransitivity; [apply (IH (s + z * z)); nia|]. f_equal. lia.
Qed.

Lemma square_norm_int zs : total_abs zs < 2 ^ 24 -> square_norm (map f32_of_Z zs) = f64_of_Z (total_square zs).
Proof.
  intros Hab. unfold square_norm. change f_zero with (f64_of_Z 0). rewrite square_norm_from; [done|lia| |done].
  pose proof (total_square_bound zs). pose proof (total_abs_nonneg zs). change (2 ^ 48) with (2 ^ 24 * 2 ^ 24). nia.
Qed.

(** What the tokens of a text add up to, in integers. *)
Definition counts (dims : Z) (tokens : list string) : list Z :=
  foldl (add_token dims) (replicate (Z.to_nat dims) 0) tokens.

Definition few (text : string) : Prop := Z.of_nat (length (tokenize text)) < 2 ^ 24.

Lemma total_abs_replicate n : total_abs (replicate n 0) = 0.
Proof. unfold total_abs. induction n; cbn; lia. Qed.

Lemma embed_counts dims text : few text ->
  let zs := counts dims (tokenize text) in
  total_abs zs < 2 ^ 24 /\ embed dims text =
    if f_eqb (f64_of_Z (total_square zs)) f_zero then map f32_of_Z zs
    else map (fun z => f32_of_f64 (f64_div (f64_of_Z z) (f64_sqrt (f64_of_Z (total_square zs))))) zs.
Proof.
  intros Hf zs. unfold few in Hf. unfold embed. replace (replicate (Z.to_nat dims) f_zero) with (map f32_of_Z (replicate (Z.to_nat dims) 0))
    by apply (fmap_replicate f32_of_Z).
  destruct (hash_tokens_int dims (tokenize text) (replicate (Z.to_nat dims) 0)) as [-> Hb]; [by rewrite total_abs_replicate|].
  rewrite total_abs_replicate in Hb. fold (counts dims (tokenize text)) in Hb |- *. fold zs in Hb |- *.
  assert (total_abs zs < 2 ^ 24) as Hab by lia. split; [done|]. rewrite square_norm_int by done.
  destruct (f_eqb _ _); [done|]. rewrite map_map. apply map_ext_in. intros z [i Hz]%list_elem_of_In%list_elem_of_lookup.
  apply total_abs_lookup in Hz. by rewrite f64_of_f32_int by (unfold exact; lia).
Qed.

Definition finite (f : float32) : Prop := is_nan f = false /\ is_inf f = false.

Lemma f32_of_Z_finite z : Z.abs z < 2 ^ 24 -> finite (f32_of_Z z).
Proof.
  intros Hz. change (f32_of_Z z) with (int_float 24 128 z).
  by destruct (int_float_cases 24 128 ltac:(lia) ltac:(lia) z Hz) as [[_ ->]|(s & p & _ & _ & ->)].
Qed.

Lemma total_square_small zs : total_abs zs < 2 ^ 24 -> 0 <= total_square zs < 2 ^ 48.
Proof.
  intros Hab. pose proof (total_square_bound zs). pose proof (total_abs_nonneg zs). change (2 ^ 48) with (2 ^ 24 * 2 ^ 24). nia.
Qed.

Lemma embed_finite dims text : few text -> Forall finite (embed dims text).
Proof.
  intros Hf. destruct (embed_counts dims text Hf) as [Hab ->]. set (zs := counts dims (tokenize text)) in *.
  pose proof (total_square_small zs Hab) as Hsq. apply Forall_forall. intros f Hin.
  destruct (Z.eq_dec (total_square zs) 0) as [Hz|Hz].
  - rewrite Hz in Hin. change (f_eqb (f64_of_Z 0) f_zero) with true in Hin. cbv iota in Hin.
    apply list_elem_of_fmap in Hin as (z & -> & [i Hi]%list_elem_of_lookup). apply f32_of_Z_finite.
    pose proof (total_abs_lookup zs i z Hi). lia.
  - destruct (f_eqb _ _); apply list_elem_of_fmap in Hin as (z & -> & [i Hi]%list_elem_of_lookup);
      pose proof (total_abs_lookup zs i z Hi); [apply f32_of_Z_finite; lia|].
    destruct (sqrt_above (total_square zs)) as [Ha Hb]; [lia|].
    eapply below_finite, f32_of_f64_below, div_below; [unfold exact; lia|done|done].
Qed.

Lemma length_embed dims text : few text -> length (embed dims text) = Z.to_nat dims.
Proof.
  intros Hf. destruct (embed_counts dims text Hf) as [_ ->].
  destruct (f_eqb _ _); rewrite length_map; unfold counts; by rewrite length_add_tokens, length_replicate.
Qed.

Lemma embed_bag dims t1 t2 : few t1 -> tokenize t1 ≡ₚ tokenize t2 -> embed dims t1 = embed dims t2.
Proof.
  intros Hf Hp. assert (few t2) as Hf2 by (unfold few in *; by rewrite <- (Permutation_length Hp)).
  destruct (embed_counts dims t1 Hf) as [_ ->], (embed_counts dims t2 Hf2) as [_ ->].
  unfold counts. by rewrite (add_tokens_bag dims _ _ _ Hp).
Qed.

Lemma embed_empty dims text : tokenize text = [] -> embed dims text = replicate (Z.to_nat dims) f_zero.
Proof.
  intros Ht. assert (few text) as Hf by (unfold few; rewrite Ht; done). destruct (embed_counts dims text Hf) as [_ ->].
  rewrite Ht. unfold counts. cbn [foldl]. replace (total_square _) with 0; [apply (fmap_replicate f32_of_Z)|].
  unfold total_square. induction (Z.to_nat dims) as [|n IH]; cbn; [done|]. by rewrite <- IH.
Qed.

(** The call is counted. *)
Definition counted (e : EmbedderDouble) : EmbedderDouble := MkEmbedderDouble (ed_dims e) (ed_model e) (ed_failure e) (ed_calls e + 1).

(** the hashing embedder gives one vector per text, in the order of the texts and
    of the declared width, every component a number. A query dims_of as the document
    of the same text would. Texts with the same words, in any order and whatever
    separates them, share a vector, and a text without words has the zero vector.
    It fails, without a vector, exactly when the context is done or it was told to
    fail, and a cancelled call is not counted. *)
Theorem Double_EmbedDocuments_spec ctx texts e :
  0 < ed_dims e -> Forall few texts ->
  Double_EmbedDocuments IsLetter IsDigit ctx texts e =
    match ctx, ed_failure e with
    | Some err, _ => (e, Err err)
    | None, Some err => (counted e, Err err)
    | None, None => (counted e, Ok (map (embed (ed_dims e)) texts))
    end /\
  (forall text, text ∈ texts ->
    (ctx = None -> ed_failure e = None -> Double_EmbedQuery IsLetter IsDigit ctx text e = (counted e, Ok (embed (ed_dims e) text))) /\
    Dimensions (embed (ed_dims e) text) = ed_dims e /\
    Forall (fun f => is_nan f = false /\ is_inf f = false) (embed (ed_dims e) text) /\
    (tokenize text = [] -> embed (ed_dims e) text = replicate (Z.to_nat (ed_dims e)) f_zero) /\
    forall other, tokenize text ≡ₚ tokenize other -> embed (ed_dims e) other = embed (ed_dims e) text).
Proof.
  intros Hd Hfew. split.
  - unfold Double_EmbedDocuments, begin, dims_of, obind, counted. destruct ctx; [done|]. cbn. by destruct (ed_failure e) eqn:He.
  - intros text Hin. rewrite Forall_forall in Hfew. specialize (Hfew text Hin). split_and!.
    + intros -> Hnf. unfold Double_EmbedQuery, begin, dims_of, obind, counted. cbn. by rewrite Hnf.
    + unfold Dimensions. rewrite length_embed by done. lia.
    + by apply embed_finite.
    + apply embed_empty.
    + intros other Hp. symmetry. by apply embed_bag.
Qed.
End Embedding.

(** ** What the rules say *)

(** The first element with a key, and what stands before it. *)
Lemma first_with {A B} `{!EqDecision B} (f : A -> B) l b :
  b ∈ map f l -> exists l1 x l2, l = l1 ++ x :: l2 /\ f x = b /\ b ∉ map f l1.
Proof.
  induction l as [|y l IH]; cbn; [by intros ?%not_elem_of_nil|]. destruct (decide (f y = b)) as [<-|Hne].
  - intros _. exists [], y, l. split; [done|]. split; [done|]. apply not_elem_of_nil.
  - intros [->|(l1 & x & l2 & -> & Hx & Hn)%IH]%elem_of_cons; [done|]. exists (y :: l1), x, l2. split; [done|].
    split; [done|]. cbn. rewrite not_elem_of_cons. naive_solver.
Qed.

Lemma flat_map_split {A B} (f : A -> list B) l b1 x b2 :
  flat_map f l = b1 ++ x :: b2 ->
  exists l1 y l2 c1 c2, l = l1 ++ y :: l2 /\ b1 = flat_map f l1 ++ c1 /\ f y = c1 ++ x :: c2.
Proof.
  revert b1. induction l as [|y l IH]; intros b1 H; cbn in H; [by destruct b1|].
  destruct (decide (length b1 < length (f y))%nat) as [Hlt|Hge].
  - exists [], y, l, b1. assert (f y = b1 ++ drop (length b1) (f y)) as Hy.
    { rewrite <- (take_drop (length b1) (f y)) at 1. f_equal. apply (f_equal (take (length b1))) in H.
      rewrite take_app_length, take_app_le in H by lia. done. }
    destruct (drop (length b1) (f y)) as [|z c2] eqn:Hd.
    + apply (f_equal length) in Hd. rewrite length_drop in Hd. cbn in Hd. lia.
    + exists c2. split; [done|]. split; [done|]. rewrite Hy in H |- *. rewrite <- app_assoc in H. apply app_inv_head in H.
      cbn in H. by injection H as -> _.
  - assert (b1 = f y ++ drop (length (f y)) b1) as Hb.
    { rewrite <- (take_drop (length (f y)) b1) at 1. f_equal. apply (f_equal (take (length (f y)))) in H.
      rewrite take_app_length, take_app_le in H by lia. done. }
    rewrite Hb in H. rewrite <- app_assoc in H. apply app_inv_head, IH in H as (l1 & y' & l2 & c1 & c2 & -> & Hb1 & Hy).
    exists (y :: l1), y', l2, c1, c2. split; [done|]. split; [|done]. cbn. by rewrite Hb, Hb1, app_assoc.
Qed.

Section Extracting.
Context `{Tx : Texts}.

(** The rules that fire, episode after episode. *)
Definition firings (rules : list Rule) (episodes : list Episode) : list (Episode * Rule) :=
  flat_map (fun ep => map (pair ep) (List.filter (fires (ToLower (ep_content ep))) rules)) episodes.

(** What one firing contradicts of what is known. *)
Definition contradicted (known : list Fact) (f : Episode * Rule) : list Retraction :=
  let a := claimed f.1 f.2 in
  if ru_replaces f.2 then map (fun k => MkRetraction (f_id k) (v_from (a_valid a))) (List.filter (contradicts a) known) else [].

(** Of the retractions of one fact, the first. *)
Definition keep_first (st : gset FactID * list Retraction) (r : Retraction) : gset FactID * list Retraction :=
  if bool_decide (r_fact r ∈ st.1) then st else (st.1 ∪ {[r_fact r]}, st.2 ++ [r]).

Lemma retract_known_all a known st :
  foldl (retract_known a) st known =
  foldl keep_first st (map (fun k => MkRetraction (f_id k) (v_from (a_valid a))) (List.filter (contradicts a) known)).
Proof.
  revert st. induction known as [|k known IH]; intros st; [done|]. cbn [foldl List.filter].
  rewrite IH. unfold retract_known. destruct (contradicts a k); [|done]. done.
Qed.

Definition fire_step (known : list Fact) (st : list Assertion * (gset FactID * list Retraction)) (f : Episode * Rule)
    : list Assertion * (gset FactID * list Retraction) :=
  (st.1 ++ [claimed f.1 f.2], foldl keep_first st.2 (contradicted known f)).

Lemma apply_rules_all rules known st ep :
  apply_rules rules known st ep =
  foldl (fire_step known) st (map (pair ep) (List.filter (fires (ToLower (ep_content ep))) rules)).
Proof.
  unfold apply_rules. generalize (ToLower (ep_content ep)). intros content. revert st.
  induction rules as [|rule rules IH]; intros st; [done|]. cbn [foldl List.filter]. rewrite IH.
  unfold apply_rule. destruct (fires content rule); [|done]. cbn [map foldl negb]. f_equal.
  unfold fire_step, contradicted. cbn [fst snd]. f_equal. destruct (ru_replaces rule); [|done]. apply retract_known_all.
Qed.

Lemma extract_all rules known episodes st :
  foldl (apply_rules rules known) st episodes = foldl (fire_step known) st (firings rules episodes).
Proof.
  revert st. induction episodes as [|ep episodes IH]; intros st; [done|]. cbn [foldl]. unfold firings. cbn [flat_map].
  rewrite foldl_app, IH. by rewrite apply_rules_all.
Qed.

Lemma fire_steps known fs st :
  foldl (fire_step known) st fs =
  (st.1 ++ map (fun f => claimed f.1 f.2) fs, foldl keep_first st.2 (flat_map (contradicted known) fs)).
Proof.
  revert st. induction fs as [|f fs IH]; intros [a r]; cbn [foldl map flat_map]; [by rewrite app_nil_r|].
  rewrite IH, foldl_app. unfold fire_step. cbn [fst snd]. by rewrite <- app_assoc.
Qed.

(** The first retraction of each fact, in order, and no other. *)
Definition firsts (l : list Retraction) : list Retraction := (foldl keep_first (∅, []) l).2.

Lemma keep_first_inv l : let st := foldl keep_first (∅, []) l in
  (forall id, id ∈ st.1 <-> id ∈ map r_fact l) /\ NoDup (map r_fact st.2) /\
  (forall r, r ∈ st.2 <-> exists l1 l2, l = l1 ++ r :: l2 /\ r_fact r ∉ map r_fact l1).
Proof.
  induction l as [|x l IH] using rev_ind; cbn zeta; [|rewrite foldl_snoc; destruct IH as (Hset & Hnd & Hel)].
  { cbn. split_and!; [set_solver|constructor|]. intros r. split; [by intros ?%not_elem_of_nil|].
    intros (l1 & l2 & H & _). by destruct l1. }
  set (st := foldl keep_first (∅, []) l) in *. rewrite map_app. cbn [map].
  assert (forall r, (exists l1 l2, l ++ [x] = l1 ++ r :: l2 /\ r_fact r ∉ map r_fact l1) <->
    (exists l1 l2, l = l1 ++ r :: l2 /\ r_fact r ∉ map r_fact l1) \/ r = x /\ r_fact r ∉ map r_fact l) as Hsnoc.
  { intros r. split.
    - intros (l1 & l2 & H & Hn). destruct l2 as [|y l2 _] using rev_ind.
      + apply app_inj_tail in H as [-> ->]. by right.
      + change (r :: l2 ++ [y]) with ((r :: l2) ++ [y]) in H. rewrite app_assoc in H. apply app_inj_tail in H as [-> ->]. left. by exists l1, l2.
    - intros [(l1 & l2 & -> & Hn)|[-> Hn]]; [|by exists l, []]. exists l1, (l2 ++ [x]). by rewrite <- app_assoc. }
  unfold keep_first. case_bool_decide as Hx; cbn [fst snd]; split_and!.
  - intros id. rewrite Hset. apply Hset in Hx. set_solver.
  - done.
  - intros r. rewrite Hel, Hsnoc. apply Hset in Hx. naive_solver.
  - intros id. rewrite elem_of_union, Hset. set_solver.
  - rewrite map_app. apply NoDup_app. split; [done|]. split; [|apply NoDup_singleton].
    intros id (r & -> & Hr)%list_elem_of_fmap Hid%list_elem_of_singleton. apply Hx, Hset. rewrite <- Hid.
    apply list_elem_of_fmap_2. apply Hel in Hr as (l1 & l2 & -> & _). set_solver.
  - intros r. rewrite elem_of_app, list_elem_of_singleton, Hel, Hsnoc. rewrite Hset in Hx. naive_solver.
Qed.

Definition counted_extraction (e : ExtractorDouble) : ExtractorDouble :=
  MkExtractorDouble (xd_id e) (xd_rules e) (xd_failure e) (xd_calls e + 1).

Lemma elem_of_contradictions known fs x :
  x ∈ flat_map (contradicted known) fs <->
  exists f k, f ∈ fs /\ ru_replaces f.2 = true /\ k ∈ known /\ contradicts (claimed f.1 f.2) k = true /\
    x = MkRetraction (f_id k) (v_from (a_valid (claimed f.1 f.2))).
Proof.
  rewrite list_elem_of_In, in_flat_map. setoid_rewrite <- list_elem_of_In. unfold contradicted. split.
  - intros (f & Hf & Hx). exists f. destruct (ru_replaces f.2) eqn:Hr; [|by apply not_elem_of_nil in Hx].
    apply list_elem_of_fmap in Hx as (k & -> & [Hk Hc]%elem_of_filter_b). exists k. by split_and!.
  - intros (f & k & Hf & Hr & Hk & Hc & ->). exists f. split; [done|]. rewrite Hr. apply list_elem_of_fmap.
    exists k. split; [done|]. by apply elem_of_filter_b.
Qed.

(** the rule extractor asserts, episode after episode and rule after rule, the claim
    of every rule that fires; it retracts each known fact at most once, exactly those
    a replacing rule that fired contradicts, with another object for the same subject
    and predicate, each from the start of the first claim that contradicts it. It
    fails exactly when the context is done or it was told to fail. *)
Theorem Double_Extract_spec ctx req e :
  let fired := firings (xd_rules e) (xr_episodes req) in
  exists retracted,
    Double_Extract ctx req e =
      match ctx, xd_failure e with
      | Some err, _ => (e, Err err)
      | None, Some err => (counted_extraction e, Err err)
      | None, None => (counted_extraction e, Ok (MkExtractResult (map (fun f => claimed f.1 f.2) fired) retracted))
      end /\
    NoDup (map r_fact retracted) /\
    (forall id, id ∈ map r_fact retracted <->
       exists f k, f ∈ fired /\ ru_replaces f.2 = true /\ k ∈ xr_known req /\ f_id k = id /\
         contradicts (claimed f.1 f.2) k = true) /\
    (forall x, x ∈ retracted -> exists before f after,
       fired = before ++ f :: after /\ r_at x = v_from (a_valid (claimed f.1 f.2)) /\
       (exists k, k ∈ xr_known req /\ f_id k = r_fact x /\ contradicts (claimed f.1 f.2) k = true) /\
       forall g k, g ∈ before -> ru_replaces g.2 = true -> k ∈ xr_known req -> f_id k = r_fact x ->
         contradicts (claimed g.1 g.2) k = false).
Proof.
  intros fired. set (found := flat_map (contradicted (xr_known req)) fired).
  destruct (keep_first_inv found) as (_ & Hnd & Hel). exists (firsts found). unfold firsts. split_and!; [|done| |].
  - unfold Double_Extract, counted_extraction. destruct ctx; [done|]. cbn [xd_failure xd_rules].
    destruct (xd_failure e); [done|]. by rewrite extract_all, fire_steps.
  - intros id. rewrite list_elem_of_fmap. split.
    + intros (x & -> & (l1 & l2 & Hl & _)%Hel). assert (x ∈ found) as Hx by (rewrite Hl; set_solver).
      apply elem_of_contradictions in Hx as (f & k & ? & ? & ? & ? & ->). by exists f, k.
    + intros (f & k & Hf & Hr & Hk & <- & Hc).
      assert (f_id k ∈ map r_fact found) as Hin.
      { apply list_elem_of_fmap. exists (MkRetraction (f_id k) (v_from (a_valid (claimed f.1 f.2)))).
        split; [done|]. apply elem_of_contradictions. by exists f, k. }
      apply first_with in Hin as (l1 & x & l2 & Hl & Hx & Hn). exists x. split; [done|]. apply Hel. exists l1, l2. by rewrite Hx.
  - intros x (l1 & l2 & Hl & Hn)%Hel.
    destruct (flat_map_split (contradicted (xr_known req)) fired l1 x l2 Hl) as (before & f & after & c1 & c2 & Hf & -> & Hc).
    exists before, f, after. split; [done|].
    assert (x ∈ contradicted (xr_known req) f) as Hx by (rewrite Hc; set_solver).
    assert (x ∈ flat_map (contradicted (xr_known req)) [f]) as Hx' by (cbn; by rewrite app_nil_r).
    apply elem_of_contradictions in Hx' as (f' & k & ->%list_elem_of_singleton & Hr & Hk & Hcon & ->). split; [done|].
    split; [by exists k|]. intros g k' Hg Hrg Hk' Hid. apply not_true_is_false. intros Hcg. apply Hn.
    rewrite map_app. apply elem_of_app. left. apply list_elem_of_fmap. cbn [r_fact] in *.
    exists (MkRetraction (f_id k') (v_from (a_valid (claimed g.1 g.2)))). split; [done|]. apply elem_of_contradictions. by exists g, k'.
Qed.
End Extracting.

(** ** A deployment with the hashing embedder *)

(** A double kept beside the database. *)
Definition beside {E S} (p : Part E S) : Part (World E) S :=
  MkPart (fun w => held p (w_env w)) (fun s w => MkWorld (w_db w) (put p s (w_env w))).

Section Wired.
Context `{Sv : Server} `{!ServerLaws Sv} `{Tx : Texts} (IsLetter IsDigit : N -> bool) {E : Type}.
Context (locked : E -> list JobID) (dims : Z) (error_text : Error -> string) (w : Worker (World E)).
Context (p : Part E EmbedderDouble) (ctx : World E -> option Error) (e : EmbedderDouble).
Context (Hw : deployed locked dims error_text w)
  (He : w_embedder w = embedder_double IsLetter IsDigit (beside p) ctx e).

(** in a deployment whose embedder is the hashing double, of the database's width and
    not told to fail, an encode job over episodes of the log is always done: each of
    them has the hashed vector of its content stored, and every other encoding stays
    as it was. *)
Theorem encode_hashed job rows s :
  sound s -> db_ready (w_db s) = true -> dims = db_dims (w_db s) -> 0 < dims ->
  ScopeID_Validate (job_scope job) = Ok tt -> NoDup (job_episodes job) ->
  is_empty (ed_model e) = false -> pg_text (ed_model e) = true -> pg_length (ed_model e) <= 200 ->
  ed_dims (held p (w_env s)) = dims -> ed_failure (held p (w_env s)) = None -> ctx s = None ->
  Forall2 (fun id r => r ∈ db_episodes (w_db s) /\ er_scope r = job_scope job /\ er_id r = id /\ id <> 0%N)
    (job_episodes job) rows ->
  Forall (fun r => few IsLetter IsDigit (er_content r)) rows ->
  exists s' t, encode w job s = (s', Ok tt) /\ sound s' /\
    forall r, r ∈ db_encodings (w_db s') <->
      (exists row, row ∈ rows /\ r = stored_encoding w t row (embed IsLetter IsDigit dims (er_content row))) \/
      r ∈ db_encodings (w_db s) /\ forall id, id ∈ job_episodes job -> encoding_key r <> (id, ed_model e).
Proof using All.
  intros Hok Hready Hdims Hpos Hsc Hnd Hm1 Hm2 Hm3 Hed Hnf Hctx HF Hfew.
  set (vs := map (embed IsLetter IsDigit dims) (map er_content rows)).
  set (s1 := put (beside p) (counted (held p (w_env s))) s).
  assert (e_EmbedDocuments (w_embedder w) (map er_content rows) s = (s1, Ok vs)) as Hemb.
  { rewrite He. cbn [e_EmbedDocuments embedder_double]. unfold on_part. rewrite Hctx.
    unfold Double_EmbedDocuments, begin, dims_of, obind. cbn [held beside ed_failure]. rewrite Hnf. unfold oret.
    unfold s1, counted. cbn [ed_dims]. by rewrite Hed, Hnf. }
  destruct (Now (w_clock w) s1) as [s2 t] eqn:Hnow.
  destruct (encode_completes locked dims error_text w Hw job rows vs s s1 s2 t) as (s' & H & Hok' & Hel);
    rewrite ?He; try done.
  - by rewrite <- He.
  - unfold vs. by rewrite !length_map.
  - unfold vs. rewrite map_map. apply Forall_forall. intros v (row & -> & Hrow)%list_elem_of_fmap.
    rewrite Forall_forall in Hfew. specialize (Hfew row Hrow). split.
    + unfold Dimensions. rewrite length_embed by done. lia.
    + by apply embed_finite.
  - exists s', t. split; [done|]. split; [done|]. intros r. rewrite Hel, He. apply or_iff_compat_r. unfold vs. rewrite map_map. split.
    + intros (i & row & v & Hrow & Hv & ->). rewrite list_lookup_fmap, Hrow in Hv. injection Hv as <-.
      exists row. split; [by eapply list_elem_of_lookup_2|done].
    + intros (row & [i Hi]%list_elem_of_lookup & ->). exists i, row, (embed IsLetter IsDigit dims (er_content row)).
      split; [done|]. by rewrite list_lookup_fmap, Hi.
Qed.
End Wired.

(** ** Concrete doubles *)

Definition demo_letter (r : N) : bool := in_range 97 r 122 || in_range 65 r 90.
Definition demo_digit (r : N) : bool := in_range 48 r 57.

(** The widths, the signs and the hash are those of the source's own example. *)
Example demo_sum : Sum64 "a" = 12638187200555641996.
Proof. vm_compute. reflexivity. Qed.

#[local] Instance lower_texts : Texts := {
  unmarshal_extraction _ := Err (EOther "no model");
  unmarshal_topics _ := Err (EOther "no model");
  parse_RFC3339 _ := None;
  parse_DateOnly _ _ := None;
  format_RFC3339 _ := EmptyString;
  ToLower s := of_bytes (map (fun b => if in_range 65 b 90 then (b + 32)%N else b) (bytes_of s));
  uuid_Parse _ := None;
  uuid_String _ := EmptyString;
  quoted s := s;
  two_decimals _ := EmptyString;
  json_text _ := EmptyString;
}.

Definition demo_hash : EmbedderDouble := MkEmbedderDouble 2 "memphertest/hashed-bow@2" None 0.
Example demo_hash_new : NewEmbedderDouble 2 = Some demo_hash.
Proof. vm_compute. reflexivity. Qed.

Local Notation demo_embed := (embed demo_letter demo_digit).

(** Case, punctuation and order do not count; other words do. *)
Example demo_same_words : demo_embed 8 "Dark Roast, no sugar!" = demo_embed 8 "no   sugar dark-roast".
Proof. vm_compute. reflexivity. Qed.
Example demo_other_words : demo_embed 8 "dark roast" <> demo_embed 8 "green tea".
Proof. vm_compute. discriminate. Qed.

Lemma Double_EmbedDocuments_spec_witness :
  Double_EmbedDocuments demo_letter demo_digit None ["Dark Roast"; "roast, dark"] demo_hash =
    (counted demo_hash, Ok (map (demo_embed 2) ["Dark Roast"; "roast, dark"])) /\
  demo_embed 2 "roast, dark" = demo_embed 2 "Dark Roast".
Proof.
  assert (0 < ed_dims demo_hash) as Hd by (vm_compute; reflexivity).
  assert (Forall (few demo_letter demo_digit) ["Dark Roast"; "roast, dark"]) as Hf by (repeat constructor; vm_compute; reflexivity).
  destruct (Double_EmbedDocuments_spec demo_letter demo_digit None ["Dark Roast"; "roast, dark"] demo_hash Hd Hf) as [H Hall].
  split; [exact H|]. apply (Hall "Dark Roast"%string); [by left|].
  replace (tokenize demo_letter demo_digit "Dark Roast") with ["dark"; "roast"]%string by (vm_compute; reflexivity).
  replace (tokenize demo_letter demo_digit "roast, dark") with ["roast"; "dark"]%string by (vm_compute; reflexivity).
  apply perm_swap.
Defined.

(** A clock's reading and an embedder, beside the database. *)
Definition demo_part : Part (Z * EmbedderDouble) EmbedderDouble := MkPart snd (fun e w => (w.1, e)).
Definition hashed_clock : Clock (World (Z * EmbedderDouble)) :=
  MkClock (fun w => (MkWorld (w_db w) ((w_env w).1 + 1000, (w_env w).2), utc (Z.max 1 (w_env w).1))).

Definition hashed_store : Store (World (Z * EmbedderDouble)) := pg_store (fun _ => []) 2.
Definition hashed_worker : Worker (World (Z * EmbedderDouble)) :=
  MkWorker hashed_store (pg_queue (fun _ => [])) (embedder_double demo_letter demo_digit (beside demo_part) (fun _ => None) demo_hash)
    None None hashed_clock "host/1" 8 100 DefaultLeaseDuration DefaultPollInterval DefaultReclaimInterval [JobKindEncode].
Definition hashed_world : World (Z * EmbedderDouble) := MkWorld demo_appended (9000, demo_hash).

Lemma hashed_deployed : deployed (fun _ => []) 2 demo_error_text hashed_worker.
Proof.
  split; try reflexivity.
  - intros s. split; [reflexivity|]. cbn. lia.
  - intros texts [d [z [dm mo [f|] c]]]; reflexivity.
  - discriminate.
  - split; vm_compute; reflexivity.
Qed.

Lemma encode_hashed_witness :
  exists s', encode hashed_worker demo_encode_job hashed_world = (s', Ok tt) /\ sound s'.
Proof.
  destruct (encode_hashed demo_letter demo_digit (fun _ => []) 2 demo_error_text hashed_worker demo_part (fun _ => None)
    demo_hash hashed_deployed eq_refl demo_encode_job (db_episodes demo_appended) hashed_world) as (s' & t & H & Hok & _).
  - exact demo_appended_ok.
  - vm_compute. reflexivity.
  - vm_compute. reflexivity.
  - vm_compute. reflexivity.
  - vm_compute. reflexivity.
  - refine (bool_decide_unpack _ _). vm_compute. exact I.
  - reflexivity.
  - vm_compute. reflexivity.
  - vm_compute. discriminate.
  - reflexivity.
  - reflexivity.
  - reflexivity.
  - repeat constructor; try (vm_compute; reflexivity); try (vm_compute; discriminate); refine (bool_decide_unpack _ _); vm_compute; exact I.
  - repeat constructor; vm_compute; reflexivity.
  - exists s'. split; [exact H|exact Hok].
Defined.

(** A rule that fires, and what it says of a fact that is known. *)
Definition demo_move (object : string) (replaces : bool) : Rule :=
  MkRule ("Moved to " ++ object) (MkAssertion "user" "lives_in" object "" (MkValidity zeroTime zeroTime) (f32_of_Z 1)) replaces.
Definition demo_rules : ExtractorDouble := On [demo_move "Paris" true; demo_move "Oslo" false] NewExtractor.
Definition demo_home : Fact :=
  MkFact 7%N "s" "memphertest/rules" "user" "lives_in" "Berlin" "" (MkValidity (utc 100) zeroTime) (f32_of_Z 1) [1%N] (utc 100) (utc 100).
Definition demo_moved : Episode := MkEpisode 2%N "s" 2 "We moved to Paris!" RoleUser "ada" "chat" (utc 500) (utc 900) None.

Example demo_moves :
  Double_Extract None (MkExtractRequest "s" [demo_moved] [demo_home] (utc 2000)) demo_rules =
    (counted_extraction demo_rules,
     Ok (MkExtractResult [MkAssertion "user" "lives_in" "Paris" "" (MkValidity (utc 500) zeroTime) (f32_of_Z 1)]
           [MkRetraction 7%N (utc 500)])).
Proof. vm_compute. reflexivity. Qed.
