(* ===== verification/Extraction.v ===== *)
(** * What a model's answer can do ([Extract])

    That everything an extraction returns passes the library's validation, whatever
    the model answered; that nothing acceptable is lost but by the caps;
    and that an extractor's identity is its options and no accident of spelling. *)

From S2P Require Import Types OpsTypes Validate Windows Sha256 Strconv Server Db PgFact Failures Ports Extract.

#[local] Open Scope Z_scope.

(** ** Reading under a cap *)

Definition accepted {A B} (read : A -> res B) (raw : A) : option B :=
  match read raw with Ok b => Some b | Err _ => None end.

Lemma read_capped_spec {A B} cap (read : A -> res B) raws out :
  Z.of_nat (length out) <= cap ->
  read_capped cap read raws out = take (Z.to_nat cap) (out ++ omap (accepted read) raws).
Proof.
  revert out. induction raws as [|raw raws IH]; intros out Hlen; cbn [read_capped].
  { rewrite app_nil_r, take_ge by lia. done. }
  destruct (Z.leb_spec cap (Z.of_nat (length out))) as [Hfull|Hroom].
  { rewrite take_app_le by lia. by rewrite take_ge by lia. }
  cbn [omap list_omap]. unfold accepted at 1. destruct (read raw) as [b|e].
  - rewrite IH by (rewrite length_app; cbn; lia). by rewrite <- app_assoc.
  - by apply IH.
Qed.

Lemma elem_of_accepted {A B} (read : A -> res B) raws n b :
  b ∈ take n (omap (accepted read) raws) -> exists raw, raw ∈ raws /\ read raw = Ok b.
Proof.
  intros Hb. assert (b ∈ omap (accepted read) raws) as Hin.
  { rewrite <- (take_drop n (omap (accepted read) raws)). apply elem_of_app. by left. }
  apply list_elem_of_omap in Hin as (raw & Hraw & Hok). exists raw. split; [done|].
  unfold accepted in Hok. by destruct (read raw); [injection Hok as ->|].
Qed.

Section Reading.
Context `{Tx : Texts} {W : Type}.
Implicit Types e : ModelExtractor W.

Lemma assertion_Ok e raw now a :
  assertion e raw now = Ok a ->
  Assertion_Validate a = Ok tt /\ (opt_predicates (me_opts e) <> [] -> a_predicate a ∈ opt_predicates (me_opts e)).
Proof.
  unfold assertion. destruct (ja_confidence raw); [|done].
  intros (from & _ & (to & _ & ([] & Hp & ([] & Hv & [= <-])%rbind_Ok)%rbind_Ok)%rbind_Ok)%rbind_Ok.
  split; [done|]. intros Hne. apply reject_Ok in Hp. rewrite bool_decide_false in Hp by done. cbn [negb andb] in Hp.
  by apply negb_false_iff, one_of_spec in Hp.
Qed.

Lemma retraction_Ok raw known now r :
  retraction raw known now = Ok r ->
  Retraction_Validate r = Ok tt /\
  exists f, f ∈ known /\ f_id f = r_fact r /\ t_ns (v_from (f_valid f)) <= t_ns (r_at r).
Proof.
  unfold retraction. destruct (uuid_Parse _) as [id|]; [|done]. destruct (known_fact known id) as [f|] eqn:Hf; [|done].
  intros (at_ & _ & ([] & Hb & ([] & Hv & [= <-])%rbind_Ok)%rbind_Ok)%rbind_Ok. split; [done|].
  apply find_elem in Hf as [Hf Hid%N.eqb_eq]. exists f. split; [|split; [done|]].
  - by rewrite list_elem_of_In, in_rev, <- list_elem_of_In.
  - apply reject_Ok, Before_ge in Hb. done.
Qed.

(** What [New] settles of the options. *)
Lemma extractor_New_Ok (c : option (Completer W)) opts e :
  New c opts = Ok e ->
  0 < opt_max_assertions (me_opts e) <= MaxAssertionsPerExtraction /\
  0 < opt_max_prompt (me_opts e) /\ me_id e <> EmptyString /\ len (me_id e) <= MaxExtractorLen.
Proof.
  unfold New. destruct c as [c|]; [|done].
  intros ([] & _ & ([] & Hlo & ([] & Hhi & ([] & Hmp & ([] & _ & ([] & Hid & [= <-])%rbind_Ok)%rbind_Ok)%rbind_Ok)
    %rbind_Ok)%rbind_Ok)%rbind_Ok.
  apply reject_Ok in Hlo, Hhi, Hmp, Hid. cbn [me_opts me_id opt_max_assertions opt_max_prompt].
  unfold MaxAssertionsPerExtraction, DefaultMaxAssertions, DefaultMaxPromptBytes in *.
  split_and!; [destruct (Z.eqb_spec (opt_max_assertions opts) 0); lia..| |done|lia].
  destruct (Z.eqb_spec (opt_max_prompt opts) 0); lia.
Qed.

(** How an extraction that returned went. *)
Lemma Extract_run e req w w' out :
  Extract e req w = (w', Ok out) ->
  (xr_episodes req = [] /\ w' = w /\ out = MkExtractResult [] []) \/
  (xr_episodes req <> [] /\ budget e (xr_episodes req) = Ok tt /\
   exists known w1 raw body,
     (known = xr_known req \/
      opt_reconcile (me_opts e) = true /\ exists body, known = narrowed body (xr_known req)) /\
     c_Complete (me_completer e)
       (MkPrompt (me_system e)
          (renderNow (xr_now req) ++ renderKnown known ++ renderEpisodes (xr_episodes req)) (me_schema e)) w1 = (w', Ok raw) /\
     unmarshal_extraction raw = Ok body /\ extraction_answered body = true /\ out = validate e body req).
Proof.
  unfold Extract. destruct (xr_episodes req) as [|ep eps] eqn:Heps; [intros [= <- <-]; by left|].
  rewrite obind_olift. destruct (budget e (ep :: eps)) as [[]|] eqn:Hb; [|done]. intros Hrun. right.
  split; [done|]. split; [done|].
  apply obind_Ok in Hrun as (w1 & known & Hk & Hx).
  assert (known = xr_known req \/ opt_reconcile (me_opts e) = true /\ exists body, known = narrowed body (xr_known req)) as Hkn.
  { destruct (opt_reconcile (me_opts e) && _) eqn:Hc; [|by injection Hk as _ <-; left].
    apply andb_true_iff in Hc as [Hrec _]. right. split; [done|]. unfold narrow in Hk.
    apply obind_Ok in Hk as (w2 & raw & _ & Hk). rewrite obind_olift in Hk.
    destruct (decode _ raw) as [body|]; [|done]. rewrite obind_olift in Hk. destruct (reject _ _); [|done].
    injection Hk as _ <-. by exists body. }
  unfold extract in Hx. apply obind_Ok in Hx as (w2 & raw & Hc & Hx). rewrite obind_olift in Hx.
  destruct (decode _ raw) as [body|] eqn:Hd; [|done]. rewrite obind_olift in Hx.
  destruct (reject _ _) eqn:Ha; [|done]. injection Hx as <- <-. exists known, w1, raw, body.
  rewrite Heps in Hc. split_and!; [done|done| | |done].
  - unfold decode in Hd. by destruct (unmarshal_extraction raw); [injection Hd as ->|].
  - unfold reject in Ha. by destruct (extraction_answered body).
Qed.

(** What an extraction of some episodes returned, in terms of the reply. *)
Lemma Extract_lists e req w w' out :
  0 <= opt_max_assertions (me_opts e) -> Extract e req w = (w', Ok out) ->
  exists raws closings,
    xr_assert out = take (Z.to_nat (opt_max_assertions (me_opts e))) (omap (accepted (fun raw => assertion e raw (xr_now req))) raws) /\
    xr_retract out = take (Z.to_nat MaxRetractionsPerExtraction)
      (omap (accepted (fun raw => retraction raw (xr_known req) (xr_now req))) closings).
Proof.
  intros Hcap [(_ & _ & ->)|(_ & _ & known & w1 & raw & body & _ & _ & _ & _ & ->)]%Extract_run.
  - exists [], []. cbn. by rewrite !take_nil.
  - exists (default [] (ex_assertions body)), (default [] (ex_retractions body)).
    cbn [xr_assert xr_retract validate]. unfold assertions, retractions. by rewrite !read_capped_spec by (cbn; lia || done).
Qed.

(** What comes back of an answer. *)
Lemma Extract_run_valid c opts e req w w' out :
  New c opts = Ok e -> Extract e req w = (w', Ok out) ->
  Z.of_nat (length (xr_assert out)) <= opt_max_assertions (me_opts e) <= MaxAssertionsPerExtraction /\
  Z.of_nat (length (xr_retract out)) <= MaxRetractionsPerExtraction /\
  (forall a, a ∈ xr_assert out -> Assertion_Validate a = Ok tt /\
     (opt_predicates (me_opts e) <> [] -> a_predicate a ∈ opt_predicates (me_opts e))) /\
  (forall r, r ∈ xr_retract out -> Retraction_Validate r = Ok tt /\
     exists f, f ∈ xr_known req /\ f_id f = r_fact r /\ t_ns (v_from (f_valid f)) <= t_ns (r_at r)).
Proof.
  intros Hnew Hrun. destruct (extractor_New_Ok _ _ _ Hnew) as (Hcap & _).
  destruct (Extract_lists e req w w' out ltac:(lia) Hrun) as (raws & closings & Ha & Hr). split_and!.
  - rewrite Ha, length_take. lia.
  - lia.
  - rewrite Hr, length_take. unfold MaxRetractionsPerExtraction. lia.
  - intros a Hin. rewrite Ha in Hin. apply elem_of_accepted in Hin as (raw & _ & Hok). by eapply assertion_Ok.
  - intros r Hin. rewrite Hr in Hin. apply elem_of_accepted in Hin as (raw & _ & Hok). by eapply retraction_Ok.
Qed.

Lemma Extract_fit c opts e req w w' out :
  New c opts = Ok e -> Extract e req w = (w', Ok out) -> fit (xr_known req) out.
Proof.
  intros Hnew Hrun. destruct (Extract_run_valid c opts e req w w' out Hnew Hrun) as (? & ? & Has & Hrs).
  split; [lia|done|apply Forall_forall; intros a Ha; by apply Has|].
  apply Forall_forall. intros r Hr. destruct (Hrs r Hr) as (? & f & ? & ? & _). split; [done|by exists f].
Qed.

(** The extractor as its port keeps the promise of one. *)
Lemma as_extractor_fit c opts e : New c opts = Ok e -> FitExtractor (as_extractor e).
Proof. intros Hnew. split. intros req w w' out. by apply (Extract_fit c opts). Qed.

(** C37: whatever a model answers, an extraction passes the library's validation. Each
    claim returned passes [Assertion.Validate] and, under a closed vocabulary, uses a
    predicate of it; each closing passes [Retraction.Validate], names a fact the
    worker supplied, and is not before that fact began; neither exceeds its cap; and
    the command a worker makes of the result is valid. Validation is not all that
    PostgreSQL asks. The row of a claim fits the table of facts, and its texts are
    stored, but for three things validation lets through: a window that is empty at
    the column's resolution, a confidence that is no number, a zero byte. A closing
    at the very instant its fact began is let through too, and refused
    ([Supersession.closing_at_start_fails]). *)
Theorem Extract_valid c opts e req w w' out :
  New c opts = Ok e -> Extract e req w = (w', Ok out) ->
  Z.of_nat (length (xr_assert out)) <= opt_max_assertions (me_opts e) /\
  Z.of_nat (length (xr_retract out)) <= MaxRetractionsPerExtraction /\
  (forall a, a ∈ xr_assert out -> Assertion_Validate a = Ok tt /\
     (opt_predicates (me_opts e) <> [] -> a_predicate a ∈ opt_predicates (me_opts e))) /\
  (forall r, r ∈ xr_retract out -> Retraction_Validate r = Ok tt /\
     exists f, f ∈ xr_known req /\ f_id f = r_fact r /\ t_ns (v_from (f_valid f)) <= t_ns (r_at r)) /\
  (forall scope episodes at_, ScopeID_Validate scope = Ok tt -> episodes <> [] ->
     Forall (fun id => IsZeroID id = false) episodes -> IsZero at_ = false ->
     ExtractCommand_Validate (MkExtractCommand scope (me_id e) episodes (xr_assert out) (xr_retract out) at_) = Ok tt) /\
  (forall (Sv : Server) scope episodes at_ id a, ServerLaws Sv -> a ∈ xr_assert out -> nameable (me_id e) ->
     episodes <> [] -> range_ok (lower_of a) (upper_of a) = true -> is_nan (a_confidence a) = false ->
     forallb no_nul (assertion_texts a) = true ->
     fact_checks (new_fact scope (me_id e) episodes at_ id a) = true /\ forallb pg_text (assertion_texts a) = true).
Proof.
  intros Hnew Hrun. destruct (extractor_New_Ok _ _ _ Hnew) as (_ & _ & Hid & _).
  destruct (Extract_run_valid c opts e req w w' out Hnew Hrun) as (Hc & Hr & Has & Hrs). do 4 (split; [done || lia|]).
  split; [intros scope episodes at_ Hs Hne Hz Hat; by apply (fit_command (xr_known req)); [apply (Extract_fit c opts e req w w')|..]|].
  intros Sv scope episodes at_ id a HSv Ha Hx Hne Hro Hn Hz. apply claim_storable; [by apply Has|done..].
Qed.

(** C38: an extraction loses nothing it could keep. When it returns, the model was
    shown the request's instant and episodes, and all the known facts unless a
    first pass narrowed them; its reply decoded and answered; and the result is,
    in the reply's order, every claim and closing that stands on its own, the
    claims up to the configured cap and the closings up to the store's. Closings
    are judged against every known fact, narrowed or not. *)
Theorem Extract_keeps c opts e req w w' out :
  New c opts = Ok e -> xr_episodes req <> [] -> Extract e req w = (w', Ok out) ->
  exists known w1 raw body,
    (known = xr_known req \/
     opt_reconcile (me_opts e) = true /\ exists t, known = narrowed t (xr_known req)) /\
    c_Complete (me_completer e)
      (MkPrompt (me_system e)
         (renderNow (xr_now req) ++ renderKnown known ++ renderEpisodes (xr_episodes req)) (me_schema e)) w1 = (w', Ok raw) /\
    unmarshal_extraction raw = Ok body /\ (ex_assertions body <> None \/ ex_retractions body <> None) /\
    xr_assert out = take (Z.to_nat (opt_max_assertions (me_opts e)))
      (omap (accepted (fun raw => assertion e raw (xr_now req))) (default [] (ex_assertions body))) /\
    xr_retract out = take (Z.to_nat MaxRetractionsPerExtraction)
      (omap (accepted (fun raw => retraction raw (xr_known req) (xr_now req))) (default [] (ex_retractions body))).
Proof.
  intros Hnew Hne Hrun. destruct (extractor_New_Ok _ _ _ Hnew) as (Hcap & _).
  apply Extract_run in Hrun as [(? & _)|(_ & _ & known & w1 & raw & body & Hk & Hc & Hu & Ha & ->)]; [done|].
  exists known, w1, raw, body. split_and!; [done..| | |].
  - unfold extraction_answered in Ha. by destruct (ex_assertions body), (ex_retractions body); [left|left|right|].
  - cbn [xr_assert validate]. unfold assertions. by rewrite read_capped_spec by (cbn; lia).
  - cbn [xr_retract validate]. unfold retractions. by rewrite read_capped_spec by (cbn; done).
Qed.
End Reading.

(** ** Identity *)

(** *** The vocabulary as a set *)

Lemma elem_of_Compact l x : x ∈ Compact l <-> x ∈ l.
Proof.
  induction l as [|a l IH]; [done|]. cbn [Compact]. destruct l as [|b l]; [done|].
  destruct (String.eqb_spec a b) as [->|]; rewrite ?elem_of_cons, ?IH, ?elem_of_cons; tauto.
Qed.

Lemma Compact_strict l :
  StronglySorted (fun x y => String.compare x y <> Gt) l -> StronglySorted (fun x y => String.compare x y = Lt) (Compact l).
Proof.
  induction 1 as [|a l Hl IH Ha]; [constructor|]. cbn [Compact]. destruct l as [|b l]; [repeat constructor|].
  destruct (String.eqb_spec a b) as [->|Hne]; [done|]. constructor; [done|].
  apply Forall_forall. intros x Hx. rewrite elem_of_Compact in Hx. rewrite Forall_forall in Ha.
  destruct (String.compare a x) eqn:Hc; [|done|by destruct (Ha x Hx)].
  apply String.compare_eq_iff in Hc as <-. apply elem_of_cons in Hx as [->|Hx]; [done|].
  apply StronglySorted_inv in Hl as [_ Hb]. rewrite Forall_forall in Hb. specialize (Hb a Hx).
  specialize (Ha b ltac:(by left)). rewrite String.compare_antisym in Hb.
  destruct (String.compare a b) eqn:Hab; [by apply String.compare_eq_iff in Hab|done|done].
Qed.

Lemma strict_unique (l k : list string) :
  StronglySorted (fun x y => String.compare x y = Lt) l -> StronglySorted (fun x y => String.compare x y = Lt) k ->
  (forall x, x ∈ l <-> x ∈ k) -> l = k.
Proof.
  assert (forall l, StronglySorted (fun x y => String.compare x y = Lt) l -> NoDup l) as Hnd.
  { induction 1 as [|x l' Hl IH Hx]; constructor; [|done]. intros Hin. rewrite Forall_forall in Hx.
    specialize (Hx x Hin). by rewrite (cmp_refl String.compare) in Hx. }
  intros Hl Hk Hin. apply (StronglySorted_unique_strong (fun x y => String.compare x y = Lt)); [|done|done|].
  - intros x y _ _ H1 H2. rewrite String.compare_antisym, H1 in H2. done.
  - apply NoDup_Permutation; auto.
Qed.

Definition vocabulary (l : list Predicate) : list Predicate := Compact (sort_func String.compare l).

Lemma vocabulary_eq l k : vocabulary l = vocabulary k <-> forall p, p ∈ l <-> p ∈ k.
Proof.
  unfold vocabulary. assert (forall l p, p ∈ Compact (sort_func String.compare l) <-> p ∈ l) as Hel.
  { intros l' p. rewrite elem_of_Compact. unfold sort_func. apply elem_of_sort_by. }
  split.
  - intros Heq p. by rewrite <- (Hel l), Heq, Hel.
  - intros Hin. apply strict_unique; [apply Compact_strict, sort_func_Sorted, _..|].
    intros p. by rewrite !Hel.
Qed.

(** *** The text a digest is taken of *)

Lemma split_colon (a b x y : list N) : 58%N ∉ a -> 58%N ∉ b -> a ++ 58%N :: x = b ++ 58%N :: y -> a = b /\ x = y.
Proof.
  revert b. induction a as [|c a IH]; intros [|c' b] Ha Hb; cbn.
  - by intros [= ->].
  - intros [= <- _]. destruct Hb. by left.
  - intros [= -> _]. destruct Ha. by left.
  - intros [= <- Heq]. destruct (IH b) as [-> ->]; [by intros ?; apply Ha; right|by intros ?; apply Hb; right|done|done].
Qed.

Lemma bytes_of_concat l : bytes_of (String.concat EmptyString l) = concat (map bytes_of l).
Proof.
  induction l as [|s l IH]; [done|]. cbn [map concat]. rewrite <- IH. destruct l as [|t l].
  - cbn. by rewrite app_nil_r.
  - change (String.concat EmptyString (s :: t :: l)) with (s ++ EmptyString ++ String.concat EmptyString (t :: l))%string.
    by rewrite bytes_of_app.
Qed.

Definition entry_bytes (e : string * string) : list N :=
  bytes_of e.1 ++ 58%N :: digits_of (Z.to_N (len e.2)) ++ 58%N :: bytes_of e.2 ++ [10%N].

Lemma bytes_of_entry e : bytes_of (digest_entry e) = entry_bytes e.
Proof.
  unfold digest_entry, entry_bytes. rewrite !bytes_of_app, bytes_of_Itoa by apply len_nonneg. done.
Qed.

Lemma entry_bytes_inj k v k' v' rest rest' :
  58%N ∉ bytes_of k -> 58%N ∉ bytes_of k' ->
  entry_bytes (k, v) ++ rest = entry_bytes (k', v') ++ rest' -> k = k' /\ v = v' /\ rest = rest'.
Proof.
  intros Hk Hk'. unfold entry_bytes. cbn [fst snd]. rewrite <- !app_assoc. cbn [app]. rewrite <- !app_assoc. cbn [app].
  assert (forall n, 58%N ∉ digits_of n) as Hdig.
  { intros n Hin. destruct (digits_of_spec n) as (Hd & _). rewrite Forall_forall in Hd. specialize (Hd _ Hin). lia. }
  intros [Hkey [Hlen Hrest]%split_colon]%split_colon; [|done..].
  assert (String.length v = String.length v') as Hl.
  { destruct (digits_of_spec (Z.to_N (len v))) as (_ & Hv & _), (digits_of_spec (Z.to_N (len v'))) as (_ & Hv' & _).
    rewrite Hlen, Hv' in Hv. unfold len in Hv. lia. }
  rewrite <- !app_assoc in Hrest. apply app_inj_1 in Hrest as [Hval [= Hrest]]; [|by rewrite !length_bytes_of].
  split_and!; [by apply bytes_of_inj|by apply bytes_of_inj|done].
Qed.

Lemma entries_inj es es' :
  Forall (fun e => 58%N ∉ bytes_of e.1) es -> Forall (fun e => 58%N ∉ bytes_of e.1) es' ->
  concat (map entry_bytes es) = concat (map entry_bytes es') -> es = es'.
Proof.
  intros Hes. revert es'. induction Hes as [|[k v] es Hk _ IH]; intros es' Hes' Heq; destruct Hes' as [|[k' v'] es' Hk' Hes'].
  - done.
  - exfalso. cbn [map concat] in Heq. unfold entry_bytes in Heq. cbn [fst] in Heq. by destruct (bytes_of k').
  - exfalso. cbn [map concat] in Heq. unfold entry_bytes in Heq. cbn [fst] in Heq. by destruct (bytes_of k).
  - cbn [map concat] in Heq. apply entry_bytes_inj in Heq as (-> & -> & Heq); [|done..]. f_equal. by apply IH.
Qed.

Lemma digest_input_inj o o' :
  0 <= opt_max_assertions o -> 0 <= opt_max_assertions o' -> digest_input o = digest_input o' ->
  opt_instructions o = opt_instructions o' /\ opt_max_assertions o = opt_max_assertions o' /\
  opt_reconcile o = opt_reconcile o' /\ opt_predicates o = opt_predicates o'.
Proof.
  intros Ho Ho' Heq%(f_equal bytes_of). unfold digest_input in Heq. rewrite !bytes_of_concat, !map_map in Heq.
  rewrite !(map_ext _ entry_bytes bytes_of_entry) in Heq.
  assert (forall o, Forall (fun e => 58%N ∉ bytes_of e.1) (digest_entries o)) as Hkeys.
  { intros o0. unfold digest_entries. apply Forall_app. split.
    - repeat apply Forall_cons_2; try apply Forall_nil_2; refine (bool_decide_unpack _ _); vm_compute; exact I.
    - apply Forall_forall. intros e (p & -> & _)%list_elem_of_fmap. refine (bool_decide_unpack _ _). vm_compute. exact I. }
  apply entries_inj in Heq; [|done..]. unfold digest_entries in Heq. cbn [app] in Heq.
  injection Heq as Hi Hm Hr Hp. apply Itoa_inj in Hm; [|done..].
  split_and!; [done|done|by destruct (opt_reconcile o), (opt_reconcile o')|].
  revert Hp. generalize (opt_predicates o), (opt_predicates o'). clear. intros l. induction l as [|p l IH]; intros [|q k]; cbn; try done.
  intros [= -> Hp]. f_equal. by apply IH.
Qed.

Section Identity.
Context `{Tx : Texts} {W : Type}.

Definition resolved_cap (o : Options) : Z :=
  if opt_max_assertions o =? 0 then DefaultMaxAssertions else opt_max_assertions o.

Lemma New_opts (c : Completer W) o e :
  New (Some c) o = Ok e ->
  opt_predicates (me_opts e) = vocabulary (opt_predicates o) /\ opt_instructions (me_opts e) = opt_instructions o /\
  opt_max_assertions (me_opts e) = resolved_cap o /\ opt_reconcile (me_opts e) = opt_reconcile o /\
  me_id e = ("mempher-extract/v1+" ++ c_Model c ++ "+" ++ digest (me_opts e))%string.
Proof.
  unfold New. intros ([] & _ & ([] & _ & ([] & _ & ([] & _ & ([] & _ & ([] & _ & [= <-])%rbind_Ok)%rbind_Ok)%rbind_Ok)
    %rbind_Ok)%rbind_Ok)%rbind_Ok. done.
Qed.

(** an extractor is what it asks and of whom. Its id is the model and a prefix of
    the SHA-256 of a text, and two extractors have the same text exactly when they
    have the same instructions, assertion cap, and first pass, and the same
    vocabulary as a set: another order or a repetition makes no difference, and no
    value can be written so as to pass for another configuration. *)
Theorem extractor_identity c c' o o' (e e' : ModelExtractor W) :
  New (Some c) o = Ok e -> New (Some c') o' = Ok e' ->
  me_id e = ("mempher-extract/v1+" ++ c_Model c ++ "+" ++ slice_to (sha256_hex (digest_input (me_opts e))) 8)%string /\
  (digest_input (me_opts e) = digest_input (me_opts e') <->
   opt_instructions o = opt_instructions o' /\ resolved_cap o = resolved_cap o' /\
   opt_reconcile o = opt_reconcile o' /\ forall p, p ∈ opt_predicates o <-> p ∈ opt_predicates o').
Proof.
  intros Hn Hn'. destruct (New_opts _ _ _ Hn) as (Hp & Hi & Hc & Hr & Hid).
  destruct (New_opts _ _ _ Hn') as (Hp' & Hi' & Hc' & Hr' & _). split; [by rewrite Hid|].
  destruct (extractor_New_Ok _ _ _ Hn) as (Hcap & _), (extractor_New_Ok _ _ _ Hn') as (Hcap' & _).
  rewrite <- Hi, <- Hi', <- Hc, <- Hc', <- Hr, <- Hr', <- vocabulary_eq, <- Hp, <- Hp'. split.
  - apply digest_input_inj; lia.
  - intros (H1 & H2 & H3 & H4). unfold digest_input, digest_entries. by rewrite H1, H2, H3, H4.
Qed.
End Identity.

(** ** A concrete model *)

Definition demo_claim (subject predicate : string) (confidence : option float64) : jsonAssertion :=
  MkJsonAssertion subject predicate "tea" "The user drinks tea." "2024-05-01" EmptyString confidence.

(** Its reply: a claim, one without a confidence, one outside the vocabulary, and
    one closing of a fact nobody showed it. *)
Definition demo_reply : extraction :=
  MkExtraction
    (Some [demo_claim " the user " "drinks" (Some (f64_of_Z 1)); demo_claim "the user" "drinks" None;
           demo_claim "the user" "sips" (Some (f64_of_Z 1))])
    (Some [MkJsonRetraction "9" "2024-05-01"]).

#[export] Instance demo_texts : Texts := {
  unmarshal_extraction raw := if String.eqb raw "reply" then Ok demo_reply else Err (EOther "invalid character");
  unmarshal_topics _ := Ok (MkTopics None None);
  parse_RFC3339 _ := None;
  parse_DateOnly s _ := if String.eqb s "2024-05-01" then Some (utc 1000) else None;
  format_RFC3339 t := Itoa (t_ns t);
  ToLower s := s;
  uuid_Parse s := match Atoi s with Some z => Some (Z.to_N z) | None => None end;
  uuid_String n := Itoa (Z.of_N n);
  quoted s := s;
  two_decimals _ := "1.00"%string;
  json_text _ := "{}"%string;
}.

Definition demo_completer (reply : string) : Completer unit := MkCompleter (fun _ => oret reply) "model".
Definition demo_vocabulary : Options := MkOptions ["drinks"; "eats"; "drinks"] "Tea matters." 0 false 0.
Definition demo_respelled : Options := MkOptions ["eats"; "drinks"] "Tea matters." 16 false 100.

Definition demo_model (o : Options) : ModelExtractor unit :=
  match New (Some (demo_completer "reply")) o with
  | Ok e => e
  | Err _ => MkModelExtractor (demo_completer "") "" o "" ""
  end.

Definition demo_extract_request : ExtractRequest :=
  MkExtractRequest "s" [MkEpisode 1%N "s" 1 "I drink tea" RoleUser "ada" "chat" (utc 500) (utc 900) None] [] (utc 2000).

Definition demo_result : ExtractResult :=
  MkExtractResult
    [MkAssertion "the user" "drinks" "tea" "The user drinks tea." (MkValidity (utc 1000) zeroTime) (f32_of_Z 1)] [].

Example demo_extract : Extract (demo_model demo_vocabulary) demo_extract_request tt = (tt, Ok demo_result).
Proof. vm_compute. reflexivity. Qed.

Lemma demo_model_new : New (Some (demo_completer "reply")) demo_vocabulary = Ok (demo_model demo_vocabulary).
Proof. vm_compute. reflexivity. Qed.

Lemma Extract_valid_witness :
  Z.of_nat (length (xr_assert demo_result)) <= 16 /\
  ExtractCommand_Validate (MkExtractCommand "s" (me_id (demo_model demo_vocabulary)) [1%N] (xr_assert demo_result) [] (utc 3000)) = Ok tt.
Proof.
  destruct (Extract_valid (Some (demo_completer "reply")) demo_vocabulary (demo_model demo_vocabulary)
    demo_extract_request tt tt demo_result demo_model_new) as (Hcap & _ & _ & _ & Hcmd & _).
  - vm_compute. reflexivity.
  - split.
    + vm_compute in Hcap |- *. exact Hcap.
    + apply (Hcmd "s"%string [1%N] (utc 3000)).
      * vm_compute. reflexivity.
      * discriminate.
      * repeat constructor.
      * reflexivity.
Defined.

Lemma Extract_keeps_witness :
  exists body, unmarshal_extraction "reply" = Ok body /\
    length (default [] (ex_assertions body)) = 3%nat /\ length (xr_assert demo_result) = 1%nat.
Proof.
  destruct (Extract_keeps (Some (demo_completer "reply")) demo_vocabulary (demo_model demo_vocabulary)
    demo_extract_request tt tt demo_result demo_model_new) as (known & w1 & raw & body & _ & Hc & Hu & _ & _ & _).
  - discriminate.
  - vm_compute. reflexivity.
  - injection Hc as _ <-. exists body. split; [exact Hu|]. vm_compute in Hu. injection Hu as <-. split; reflexivity.
Defined.

Lemma extractor_identity_witness :
  digest_input (me_opts (demo_model demo_vocabulary)) = digest_input (me_opts (demo_model demo_respelled)).
Proof.
  refine (proj2 (proj2 (extractor_identity (demo_completer "reply") (demo_completer "reply") demo_vocabulary demo_respelled
    (demo_model demo_vocabulary) (demo_model demo_respelled) demo_model_new _)) _).
  - vm_compute. reflexivity.
  - split; [reflexivity|]. split; [reflexivity|]. split; [reflexivity|].
    intros p. cbn. rewrite !elem_of_cons. tauto.
Defined.
