(* ===== verification/Extracting.v ===== *)
(** * An extract job, whatever its model answers

    [Worker.extract] between the adapter and any extractor that keeps the promise of
    its port ([FitExtractor], which [Extraction] discharges for the shipped one): the
    job records the answer, or fails because of the answer; nothing the worker asks
    of the store on the way is refused, and a job that fails has changed nothing. *)

From S2P Require Import Prelude Utf8 GoNum Types Windows OpsTypes Validate Server Db PgQueue Queueing PgEpisode Appending Replaying PgFact FactWriting FactReading Supersession Failures Ports Memory Worker Postgres Deployment Consolidation Extract Extraction.

#[local] Open Scope Z_scope.

(** ** The cue is text the database stores *)

Lemma contains_func_app f a b :
  ValidString a = true -> contains_func f (a ++ b)%string = contains_func f a || contains_func f b.
Proof. intros Ha. unfold contains_func. by rewrite bytes_of_app, runes_app, existsb_app. Qed.

Lemma no_nul_app a b : ValidString a = true -> no_nul (a ++ b)%string = no_nul a && no_nul b.
Proof. intros Ha. unfold no_nul. by rewrite contains_func_app, negb_orb. Qed.

Lemma slice_to_prefix s n : exists rest, s = (slice_to s n ++ rest)%string.
Proof.
  unfold slice_to. revert n. induction s as [|c s IH]; intros [|n]; cbn; [by exists EmptyString..|by eexists|].
  destruct (IH n) as [rest Hr]. exists rest. by rewrite Hr at 1.
Qed.

Section Cue.
Context `{Sv : Server} `{!ServerLaws Sv}.

Lemma join_cue_text acc episodes :
  pg_text acc = true -> Forall (fun e => pg_text (ep_content e) = true) episodes -> pg_text (join_cue acc episodes) = true.
Proof.
  intros Ha H. revert acc Ha. induction H as [|e l He Hl IH]; intros acc Ha; cbn [join_cue]; [done|].
  destruct (_ <=? _); [done|]. apply IH. rewrite pg_text_spec in Ha, He |- *. destruct Ha as [Hv Hn], He as [Hv' Hn'].
  assert (ValidString (if (0 <? len acc)%Z then acc ++ " " else acc)%string = true /\
    no_nul (if (0 <? len acc)%Z then acc ++ " " else acc)%string = true) as [Hv2 Hn2].
  { destruct (0 <? len acc); [|done]. split; [by apply ValidString_app|]. by rewrite no_nul_app, Hn. }
  split; [by apply ValidString_app|]. by rewrite no_nul_app, Hn2, Hn'.
Qed.

Lemma knownFactCue_text episodes :
  Forall (fun e => pg_text (ep_content e) = true) episodes ->
  pg_text (knownFactCue episodes) = true /\ len (knownFactCue episodes) <= 8192.
Proof.
  intros H. assert (Forall (fun e => ValidString (ep_content e) = true) episodes) as Hv.
  { eapply Forall_impl; [exact H|]. intros e He. by apply pg_text_spec in He as [? _]. }
  destruct (knownFactCue_spec episodes Hv) as (Hval & Hlen & [n Hn] & _). split; [|done].
  assert (pg_text (join_cue "" episodes) = true) as Hj by (apply join_cue_text; [by apply pg_text_spec|done]).
  apply pg_text_spec in Hj as [_ Hj]. apply pg_text_spec. split; [done|].
  destruct (slice_to_prefix (join_cue "" episodes) n) as [rest Hr]. rewrite <- Hn in Hr. rewrite Hr, no_nul_app in Hj by done.
  by apply andb_true_iff in Hj as [? _].
Qed.
End Cue.

Section Job.
Context `{Sv : Server} `{!ServerLaws Sv} {E : Type}.
Context (locked : E -> list JobID) (dims : Z) (error_text : Error -> string) (w : Worker (World E)) (x : Extractor (World E)).
Context (Hw : deployed locked dims error_text w) (Hx : w_extractor w = Some x) `{!FitExtractor x}.

(** An episode of the job as the log has it. *)
Definition readable (job : Job) (d : Db) (id : N) (r : EpisodeRow) : Prop :=
  (r ∈ db_episodes d /\ er_scope r = job_scope job /\ er_id r = id /\ id <> 0%N) /\
  pg_text (er_content r) = true /\ er_occurred r <> 0 /\ er_ingested r <> 0.

Definition shown_episodes (rows : list EpisodeRow) : list Episode := sort_func cmp_seq (map episode_of rows).

(** Asking what is believed already is always answered, with facts of the scope. *)
Lemma known_answered job rows latest d :
  db_ready d = true -> ScopeID_Validate (job_scope job) = Ok tt -> nameable (x_Model x) -> 0 <= w_known w ->
  Forall2 (readable job d) (job_episodes job) rows -> latest ∈ shown_episodes rows ->
  exists facts, Facts (known_query w x job (shown_episodes rows) latest) d = (d, Ok (map scanFact facts)) /\
    forall f, f ∈ facts -> f ∈ db_facts d /\ gr_scope f = job_scope job.
Proof using ServerLaws0.
  intros Hready Hs [Hxt Hxl] Hk HF Hlast. set (q := known_query w x job (shown_episodes rows) latest).
  assert (forall e, e ∈ shown_episodes rows -> pg_text (ep_content e) = true /\ t_ns (ep_ingested e) <> 0 /\ t_ns (ep_occurred e) <> 0) as Hep.
  { intros e He. unfold shown_episodes, sort_func in He. rewrite elem_of_sort_by in He.
    apply list_elem_of_fmap in He as (r & -> & [i Hi]%list_elem_of_lookup).
    destruct (Forall2_lookup_r _ _ _ _ _ HF Hi) as (id & _ & _ & ? & ? & ?). by split_and!. }
  destruct (knownFactCue_text (shown_episodes rows)) as [Hcue Hlen]; [apply Forall_forall; intros e He; by apply Hep|].
  destruct (Hep latest Hlast) as (_ & Hi & Ho).
  eexists. split; [apply (Facts_run q)|].
  - done.
  - unfold FactQuery_Validate. rewrite !seq_Ok, !reject_Ok_tt, !check_all_Ok. cbn.
    split_and!; try done; try apply Forall_nil_2; try lia.
    + apply bool_decide_false. intros He. rewrite He in Hxl. vm_compute in Hxl. by destruct Hxl.
    + rewrite Z.gtb_ltb. apply Z.ltb_ge. change MaxContentLen with 1048576. lia.
  - exact Hi.
  - exact Ho.
  - cbn [fq_text fq_extractor known_query q]. destruct (String.eqb _ _); cbn; by rewrite Hxt, ?Hcue.
  - intros f Hf. unfold page, sort_func in Hf. apply elem_of_take in Hf as (i & Hf%list_elem_of_lookup_2 & _).
    rewrite elem_of_sort_by, elem_of_filter_b in Hf. destruct Hf as [Hf Hp]. split; [done|].
    apply facts_filter_spec in Hp. apply Hp.
Qed.
(** ** The outcome *)

(** What an extract job makes of the model's answer. *)
Definition answer_command (job : Job) (out : ExtractResult) (at_ : Time) : ExtractCommand :=
  MkExtractCommand (job_scope job) (x_Model x) (job_episodes job) (xr_assert out) (xr_retract out) at_.

(** Recording an answer about what was shown: it is done, or the answer is at fault. *)
Lemma record_answer job rows known facts out at_ (s : World E) :
  sound s -> db_ready (w_db s) = true -> ScopeID_Validate (job_scope job) = Ok tt -> nameable (x_Model x) ->
  NoDup (job_episodes job) -> job_episodes job <> [] -> Forall2 (readable job (w_db s)) (job_episodes job) rows ->
  known = map scanFact facts -> (forall f, f ∈ facts -> f ∈ db_facts (w_db s) /\ gr_scope f = job_scope job) ->
  fit known out -> t_ns at_ <> 0 ->
  match ApplyExtraction (answer_command job out at_) (w_db s) with
  | (d', Ok _) => db_ok d' /\ forall id, id ∈ job_episodes job -> has_extraction d' id (x_Model x) = true
  | (d', Err e) => d' = w_db s /\ fault (answer_command job out at_) (w_db s) e /\ e <> EWrap ErrNotFound
  end.
Proof using ServerLaws0.
  intros Hok Hready Hs Hn Hnd Hne HF -> Hfacts Hfit Hat. set (cmd := answer_command job out at_).
  assert (ExtractCommand_Validate cmd = Ok tt) as Hv.
  { apply (fit_command (map scanFact facts)); [done..| |done| |by apply IsZero_neq].
    - intros He. destruct Hn as [_ [Hn _]]. rewrite He in Hn. vm_compute in Hn. by apply Hn.
    - apply Forall_forall. intros id [i Hi]%list_elem_of_lookup. destruct (Forall2_lookup_l _ _ _ _ _ HF Hi) as (r & _ & (_ & _ & _ & ?) & _).
      by apply IsZeroID_false. }
  destruct (ApplyExtraction cmd (w_db s)) as [d' [fs|e]] eqn:H.
  - split; [by eapply ApplyExtraction_ok|]. by apply (ApplyExtraction_marked cmd (w_db s) d' fs).
  - assert (in_log (xc_episodes cmd) (xc_scope cmd) (w_db s)) as Hlog.
    { apply Forall_forall. intros id [i Hi]%list_elem_of_lookup. destruct (Forall2_lookup_l _ _ _ _ _ HF Hi) as (r & _ & (? & ? & ? & _) & _).
      by exists r. }
    destruct (ApplyExtraction_faults cmd (w_db s) d' e Hok Hready Hv Hn Hnd Hlog H) as [-> Hf].
    split; [done|]. split; [done|]. intros ->. inversion Hf as [|y Hy Hno| | |]; subst.
    destruct Hfit as [_ _ _ Hret]. rewrite Forall_forall in Hret. destruct (Hret y Hy) as (_ & f & (g & -> & Hg)%list_elem_of_fmap & Hid).
    destruct (Hfacts g Hg). by apply (Hno g).
Qed.
Lemma shown_latest job d rows :
  job_episodes job <> [] -> Forall2 (readable job d) (job_episodes job) rows ->
  exists latest, last (shown_episodes rows) = Some latest /\ latest ∈ shown_episodes rows.
Proof.
  intros Hne HF. destruct (last (shown_episodes rows)) as [e|] eqn:Hl.
  - exists e. split; [done|]. by apply last_Some_elem_of.
  - apply last_None in Hl. destruct HF as [|id r ids rows _ _]; [done|].
    assert (episode_of r ∈ shown_episodes (r :: rows)) as Hr by (unfold shown_episodes, sort_func; rewrite elem_of_sort_by; by left).
    rewrite Hl in Hr. by apply not_elem_of_nil in Hr.
Qed.

(** Why an extract job fails: the extractor did, on the job's episodes, or what it
    answered is to blame. *)
Definition extractor_failed (rows : list EpisodeRow) (e : Error) : Prop :=
  exists req s1 s2, xr_episodes req = shown_episodes rows /\ x_Extract x req s1 = (s2, Err e).
Definition answer_refused (job : Job) (rows : list EpisodeRow) (d : Db) (e : Error) : Prop :=
  exists req s1 s2 out at_, xr_episodes req = shown_episodes rows /\ x_Extract x req s1 = (s2, Ok out) /\
    fault (answer_command job out at_) d e /\ e <> EWrap ErrNotFound.

(** C21: an extract job fails only for its model. Over the adapter, a job whose
    episodes are in the log always gets as far as asking the extractor, about its
    episodes in the order of the log. If the extractor keeps its port's promise, the
    job then either succeeds, and every episode it names is marked as read, or it
    fails: because the extractor did, or because the claims it answered conflict, do
    not fit the columns, or close a fact at or before its beginning; never because a
    fact or an episode is missing. A job that fails has changed nothing. *)
Theorem extract_outcome job rows s :
  sound s -> db_ready (w_db s) = true -> ScopeID_Validate (job_scope job) = Ok tt ->
  nameable (x_Model x) -> 0 <= w_known w -> NoDup (job_episodes job) -> job_episodes job <> [] ->
  Forall2 (readable job (w_db s)) (job_episodes job) rows ->
  exists s' r, Worker.extract w x pg_facts job s = (s', r) /\ sound s' /\
    match r with
    | Ok _ => forall id, id ∈ job_episodes job -> has_extraction (w_db s') id (x_Model x) = true
    | Err e => w_db s' = w_db s /\ (extractor_failed rows e \/ answer_refused job rows (w_db s) e)
    end.
Proof using All.
  intros Hok Hready Hs Hn Hk Hnd Hne HF. unfold Worker.extract.
  destruct (Nat.eqb_spec (length (job_episodes job)) 0) as [Hz|_]; [by destruct (job_episodes job)|].
  unfold obind at 1. rewrite (read_all locked dims error_text w Hw _ _ rows) by
    first [done|eapply Forall2_impl; [exact HF|by intros id r [? _]]].
  cbv beta iota zeta. change (sort_func cmp_seq (map episode_of rows)) with (shown_episodes rows).
  destruct (shown_latest job (w_db s) rows Hne HF) as (latest & -> & Hlast).
  destruct (known_answered job rows latest (w_db s) Hready Hs Hn Hk HF Hlast) as (facts & Hq & Hfacts).
  unfold obind at 1. cbn [fs_Facts pg_facts]. unfold on_db at 1. rewrite Hq.
  unfold obind at 1. destruct (now_reads locked dims error_text w Hw (MkWorld (w_db s) (w_env s))) as (s1 & asked & -> & Hd1 & _).
  set (req := MkExtractRequest _ _ _ _). unfold obind at 1.
  pose proof (dp_extract locked dims error_text w Hw x req s1 Hx) as Hd2. destruct (x_Extract x req s1) as [s2 [out|e]] eqn:Hans; cbn [fst] in Hd2.
  - unfold obind at 1. destruct (now_reads locked dims error_text w Hw s2) as (s3 & at_ & -> & Hd3 & Ht).
    assert (w_db s3 = w_db s) as Hd by (rewrite Hd3, Hd2; exact Hd1).
    pose proof (record_answer job rows (map scanFact facts) facts out at_ s Hok Hready Hs Hn Hnd Hne HF eq_refl Hfacts
      (fx_fit req s1 s2 out Hans)) as Hrec.
    unfold obind, on_db. cbn [fs_ApplyExtraction pg_facts]. unfold on_db. rewrite Hd. unfold answer_command in Hrec.
    destruct (ApplyExtraction _ (w_db s)) as [d' [fs|e]].
    + destruct Hrec as [Hok' Hmk]; [lia|]. by eexists _, _.
    + destruct Hrec as (-> & Hf & Hno); [lia|]. eexists _, _. split; [done|]. split; [done|]. split; [done|]. right.
      by exists req, s1, s2, out, at_.
  - eexists s2, _. split; [done|]. assert (w_db s2 = w_db s) as Hd by (rewrite Hd2; exact Hd1).
    split; [unfold sound; by rewrite Hd|]. split; [done|]. left. by exists req, s1, s2.
Qed.
End Job.

(** ** Concrete jobs *)

#[export] Instance demo_extractor_fit : FitExtractor demo_extractor.
Proof. split. intros req w w' out [= _ <-]. split; [vm_compute; discriminate..|constructor|constructor]. Qed.

Definition demo_extract_job : Job :=
  MkJob 4%N JobKindExtract "s" [1%N; 2%N] JobStateRunning 1 5 (utc 1) (utc 2) "host/1" "" (utc 1) (utc 1).

Lemma extract_outcome_witness :
  exists s', Worker.extract running_worker demo_extractor pg_facts demo_extract_job demo_pending = (s', Ok tt) /\
    has_extraction (w_db s') 1%N "x" = true /\ has_extraction (w_db s') 2%N "x" = true.
Proof.
  destruct (extract_outcome (fun _ => []) 2 demo_error_text running_worker demo_extractor running_deployed eq_refl
    demo_extract_job (db_episodes demo_appended) demo_pending) as (s' & r & H & _ & Hr).
  - exact demo_appended_ok.
  - vm_compute. reflexivity.
  - vm_compute. reflexivity.
  - split; [vm_compute; reflexivity|split; vm_compute; discriminate].
  - vm_compute. discriminate.
  - refine (bool_decide_unpack _ _). vm_compute. exact I.
  - discriminate.
  - repeat constructor; vm_compute; first [reflexivity|discriminate|constructor].
  - assert (r = Ok tt) as ->.
    { apply (f_equal snd) in H. vm_compute in H. symmetry. exact H. }
    exists s'. split; [exact H|]. split; apply Hr; [left|right; left].
Defined.

(** A model that contradicts itself in one answer: the job fails and nothing is
    recorded, the good claim with the bad. *)
Definition torn_claim (to : Z) : Assertion :=
  MkAssertion "the user" "drinks" "tea" "The user drinks tea." (MkValidity (utc 1000) (utc to)) (f32_of_Z 1).
Definition torn_extractor : Extractor (World Z) :=
  MkExtractor (fun _ => oret (MkExtractResult [torn_claim 5000; torn_claim 7000] [])) "x".

Example torn_answer :
  (Worker.extract running_worker torn_extractor pg_facts demo_extract_job demo_pending).2 = Err (EWrap ErrFactConflict) /\
  w_db (Worker.extract running_worker torn_extractor pg_facts demo_extract_job demo_pending).1 = demo_appended.
Proof. vm_compute. split; reflexivity. Qed.
