(* ===== verification/Clients.v ===== *)
(** * Clients of model services
      ([extract/anthropic/anthropic.go], [extract/openai/openai.go], [embed/openai/openai.go])

    Two completers for the extractor and one embedder: what each is configured
    with, the request it sends, and the reading of the reply. The exchange itself,
    the environment and the text of each message are outside the repository. *)

From Stdlib Require Import Ascii.
From S2P Require Import Types OpsTypes Validate Utf8 Sha256 Ports Json Extract.

#[local] Open Scope Z_scope.

(** ** The exchange *)

Record HttpRequest : Type := MkHttpRequest {
  hq_url : string;
  hq_headers : list (string * string);
  hq_body : string;
}.
Record HttpResponse : Type := MkHttpResponse { hr_status : Z; hr_body : string }.

Definition StatusOK : Z := 200.

(** A POST and the reading of its whole answer, or the error either met with. *)
Abbreviation HttpClient W := (HttpRequest -> op Error W HttpResponse).

(** [strings.TrimSuffix(base, "/")]. *)
Definition trim_slash (base : string) : string :=
  match String.get (String.length base - 1) base with
  | Some c => if Ascii.eqb c (Ascii.ascii_of_nat 47) then slice_to base (String.length base - 1) else base
  | None => base
  end.

Definition or_default (s default_ : string) : string := if is_empty s then default_ else s.

(** An error object in a reply: its type and message. *)
Record ApiError : Type := MkApiError { ae_type : string; ae_message : string }.

(** The requests, with the constants the code puts in them. *)
Record chatMessage : Type := MkChatMessage { cm_role : string; cm_content : string }.
Record chatRequest : Type := MkChatRequest {
  cq_model : string;
  cq_messages : list chatMessage;
  cq_temperature : Z;
  cq_max_tokens : Z;
  (** Of [response_format]: the schema's name, strictness and text. *)
  cq_schema_name : string;
  cq_strict : bool;
  cq_schema : string;
}.
Record messagesRequest : Type := MkMessagesRequest {
  mq_model : string;
  mq_max_tokens : Z;
  mq_temperature : Z;
  mq_system : string;
  mq_messages : list chatMessage;
  (** The one tool: its name and schema; and the tool the reply must call. *)
  mq_tool : string * string;
  mq_tool_choice : string;
}.
Record embeddingsRequest : Type := MkEmbeddingsRequest {
  eq_model : string;
  eq_input : list string;
  (** Zero is left out. *)
  eq_dimensions : Z;
}.

(** The replies. *)
Record chatChoice : Type := MkChatChoice { cc_finish_reason : string; cc_content : string; cc_refusal : string }.
Record chatResponse : Type := MkChatResponse { cr_choices : list chatChoice; cr_error : option ApiError }.
Record contentBlock : Type := MkContentBlock { cb_type : string; cb_name : string; cb_input : string }.
Record messagesResponse : Type := MkMessagesResponse {
  mr_content : list contentBlock;
  mr_stop_reason : string;
  mr_error : option ApiError;
}.
Record embeddingsDatum : Type := MkDatum { ed_index : Z; ed_embedding : Vector }.
Record embeddingsResponse : Type := MkEmbeddingsResponse { er_data : list embeddingsDatum; er_error : option ApiError }.

(** What is used of [encoding/json], [net/http] and [os] beside [Texts]. *)
Class Wire (W : Type) : Type := {
  DefaultClient : HttpClient W;
  Getenv : string -> string;
  json_parse : string -> res json;
  marshal_chat : chatRequest -> string;
  unmarshal_chat : string -> res chatResponse;
  marshal_messages : messagesRequest -> string;
  unmarshal_messages : string -> res messagesResponse;
  marshal_embeddings : embeddingsRequest -> string;
  unmarshal_embeddings : string -> res embeddingsResponse;
}.

(** What the three share: sending, and refusing a status that is not 200. *)
Definition exchange {W} (client : HttpClient W) (req : HttpRequest) : op Error W string :=
  let! res := client req in
  olift (reject (negb (hr_status res =? StatusOK)) (EOther "status")) ;;; oret (hr_body res).

Definition refuse_error (e : option ApiError) : res unit := reject (is_some e) (EOther "the service reported an error").

Definition json_header : string * string := ("Content-Type", "application/json")%string.
Definition bearer (key : string) : list (string * string) :=
  if is_empty key then [] else [("Authorization"%string, ("Bearer " ++ key)%string)].

(** ** [extract/anthropic] *)

Section Anthropic.
Context {W : Type} `{Wi : Wire W}.

Definition AnthropicBaseURL : string := "https://api.anthropic.com".
Definition DefaultMaxTokens : Z := 4096.
Definition APIVersion : string := "2023-06-01".
Definition toolName : string := "record_extraction".

Record AnthropicConfig : Type := MkAnthropicConfig {
  ag_model : string;
  ag_api_key : string;
  ag_base_url : string;
  ag_max_tokens : Z;
  ag_client : option (HttpClient W);
}.

Record AnthropicCompleter : Type := MkAnthropic {
  ac_client : HttpClient W;
  ac_url : string;
  ac_api_key : string;
  ac_model : string;
  ac_max_tokens : Z;
}.

(** [New]. *)
Definition NewAnthropic (cfg : AnthropicConfig) : res AnthropicCompleter :=
  reject (is_empty (ag_model cfg)) (EWrap ErrInvalidConfig) ;;?
  reject (ag_max_tokens cfg <? 0) (EWrap ErrInvalidConfig) ;;?
  Ok (MkAnthropic (default DefaultClient (ag_client cfg))
        (trim_slash (or_default (ag_base_url cfg) AnthropicBaseURL) ++ "/v1/messages")%string
        (or_default (ag_api_key cfg) (Getenv "ANTHROPIC_API_KEY"))
        (ag_model cfg)
        (if ag_max_tokens cfg =? 0 then DefaultMaxTokens else ag_max_tokens cfg)).

(** The request of [Complete]. *)
Definition messages_request (c : AnthropicCompleter) (p : Prompt) : HttpRequest :=
  MkHttpRequest (ac_url c)
    (json_header :: ("anthropic-version"%string, APIVersion) ::
     (if is_empty (ac_api_key c) then [] else [("x-api-key"%string, ac_api_key c)]))
    (marshal_messages
       (MkMessagesRequest (ac_model c) (ac_max_tokens c) 0 (pr_system p) [MkChatMessage "user" (pr_user p)]
          (toolName, pr_schema p) toolName)).

(** The first call of the tool in a reply. *)
Definition tool_input (content : list contentBlock) : option string :=
  cb_input <$> List.find (fun b => String.eqb (cb_type b) "tool_use" && String.eqb (cb_name b) toolName) content.

(** [Complete]. *)
Definition CompleteMessages (c : AnthropicCompleter) (p : Prompt) : op Error W string :=
  let! raw := exchange (ac_client c) (messages_request c p) in
  let! parsed := olift (unmarshal_messages raw) in
  olift (refuse_error (mr_error parsed)) ;;;
  olift (reject (String.eqb (mr_stop_reason parsed) "max_tokens") (EOther "the reply was cut off at the token budget")) ;;;
  match tool_input (mr_content parsed) with
  | Some input => oret input
  | None => ofail (EOther "the reply holds no call")
  end.

Definition anthropic_completer (c : AnthropicCompleter) : Completer W := MkCompleter (CompleteMessages c) (ac_model c).
End Anthropic.
Arguments AnthropicConfig : clear implicits.
Arguments AnthropicCompleter : clear implicits.

(** ** [extract/openai] *)

Section Chat.
Context {W : Type} `{Wi : Wire W} `{Tx : Texts}.

Definition ChatBaseURL : string := "https://api.openai.com/v1".
Definition schemaName : string := "extraction".

Record ChatConfig : Type := MkChatConfig {
  hg_model : string;
  hg_base_url : string;
  hg_api_key : string;
  hg_max_tokens : Z;
  hg_lenient : bool;
  hg_client : option (HttpClient W);
}.

Record ChatCompleter : Type := MkChat {
  oc_client : HttpClient W;
  oc_url : string;
  oc_api_key : string;
  oc_model : string;
  oc_max_tokens : Z;
  oc_strict : bool;
}.

(** [New]. *)
Definition NewChat (cfg : ChatConfig) : res ChatCompleter :=
  reject (is_empty (hg_model cfg)) (EWrap ErrInvalidConfig) ;;?
  reject (hg_max_tokens cfg <? 0) (EWrap ErrInvalidConfig) ;;?
  Ok (MkChat (default DefaultClient (hg_client cfg))
        (trim_slash (or_default (hg_base_url cfg) ChatBaseURL) ++ "/chat/completions")%string
        (or_default (hg_api_key cfg) (Getenv "OPENAI_API_KEY"))
        (hg_model cfg) (hg_max_tokens cfg) (negb (hg_lenient cfg))).

(** [strictify]. *)
Definition strictify (raw : string) : res string :=
  let? doc := json_parse raw in Ok (json_text (requireEverything doc)).

(** The request of [Complete], the schema as it is to be sent. *)
Definition chat_request (c : ChatCompleter) (p : Prompt) (schema : string) : HttpRequest :=
  MkHttpRequest (oc_url c) (json_header :: bearer (oc_api_key c))
    (marshal_chat
       (MkChatRequest (oc_model c) [MkChatMessage "system" (pr_system p); MkChatMessage "user" (pr_user p)]
          0 (oc_max_tokens c) schemaName (oc_strict c) schema)).

(** What [Complete] answers with the first choice of a reply. *)
Definition read_choice (choices : list chatChoice) : res string :=
  match choices with
  | [] => Err (EOther "the reply holds no choices")
  | choice :: _ =>
      reject (negb (is_empty (cc_refusal choice))) (EOther "the model refused") ;;?
      reject (String.eqb (cc_finish_reason choice) "length") (EOther "the reply was cut off at the token budget") ;;?
      Ok (cc_content choice)
  end.

(** [Complete]. *)
Definition CompleteChat (c : ChatCompleter) (p : Prompt) : op Error W string :=
  let! schema := olift (if oc_strict c then strictify (pr_schema p) else Ok (pr_schema p)) in
  let! raw := exchange (oc_client c) (chat_request c p schema) in
  let! parsed := olift (unmarshal_chat raw) in
  olift (refuse_error (cr_error parsed)) ;;;
  olift (read_choice (cr_choices parsed)).

Definition chat_completer (c : ChatCompleter) : Completer W := MkCompleter (CompleteChat c) (oc_model c).
End Chat.
Arguments ChatConfig : clear implicits.
Arguments ChatCompleter : clear implicits.

(** ** [embed/openai] *)

Section Embeddings.
Context {W : Type} `{Wi : Wire W}.

Definition EmbeddingsBaseURL : string := "https://api.openai.com/v1".
Definition DefaultMaxBatch : Z := 64.

Record EmbedderConfig : Type := MkEmbedderConfig {
  eg_model : string;
  eg_dimensions : Z;
  eg_request_dimensions : bool;
  eg_query_prefix : string;
  eg_base_url : string;
  eg_api_key : string;
  eg_max_batch : Z;
  eg_client : option (HttpClient W);
}.

Record OpenAIEmbedder : Type := MkOpenAIEmbedder {
  oe_client : HttpClient W;
  oe_url : string;
  oe_api_key : string;
  oe_model : string;
  oe_id : ModelID;
  oe_dimensions : Z;
  oe_send_dims : bool;
  oe_query_prefix : string;
  oe_max_batch : Z;
}.

(** The id: the model, and a fingerprint of the query prefix when there is one. *)
Definition embedder_id (model prefix : string) : ModelID :=
  if is_empty prefix then model else (model ++ "+q:" ++ slice_to (sha256_hex prefix) 8)%string.

(** [New]. *)
Definition NewEmbedder (cfg : EmbedderConfig) : res OpenAIEmbedder :=
  reject (is_empty (eg_model cfg)) (EWrap ErrInvalidConfig) ;;?
  reject (eg_dimensions cfg <=? 0) (EWrap ErrInvalidConfig) ;;?
  reject (eg_max_batch cfg <? 0) (EWrap ErrInvalidConfig) ;;?
  Ok (MkOpenAIEmbedder (default DefaultClient (eg_client cfg))
        (trim_slash (or_default (eg_base_url cfg) EmbeddingsBaseURL) ++ "/embeddings")%string
        (or_default (eg_api_key cfg) (Getenv "OPENAI_API_KEY"))
        (eg_model cfg) (embedder_id (eg_model cfg) (eg_query_prefix cfg))
        (eg_dimensions cfg) (eg_request_dimensions cfg) (eg_query_prefix cfg)
        (if eg_max_batch cfg =? 0 then DefaultMaxBatch else eg_max_batch cfg)).

(** The comparison [post] sorts by: a difference of two ints. *)
Definition cmp_index (a b : embeddingsDatum) : comparison := int64 (ed_index a - ed_index b) ?= 0.

Definition embeddings_request (e : OpenAIEmbedder) (texts : list string) : HttpRequest :=
  MkHttpRequest (oe_url e) (json_header :: bearer (oe_api_key e))
    (marshal_embeddings (MkEmbeddingsRequest (oe_model e) texts (if oe_send_dims e then oe_dimensions e else 0))).

(** The loop of [post] over the sorted reply. *)
Definition checked_vector (e : OpenAIEmbedder) (item : embeddingsDatum) : res Vector :=
  reject (negb (Z.of_nat (length (ed_embedding item)) =? oe_dimensions e)) (EWrap ErrDimensionMismatch) ;;?
  Ok (ed_embedding item).

(** [post]. Go's sort leaves items of equal index in no particular order, and here
    they keep the reply's. *)
Definition post (e : OpenAIEmbedder) (texts : list string) : op Error W (list Vector) :=
  let! raw := exchange (oe_client e) (embeddings_request e texts) in
  let! parsed := olift (unmarshal_embeddings raw) in
  olift (refuse_error (er_error parsed)) ;;;
  olift (reject (negb (Nat.eqb (length (er_data parsed)) (length texts))) (EOther "another number of embeddings")) ;;;
  olift (map_res (checked_vector e) (sort_func cmp_index (er_data parsed))).

(** [EmbedQuery]. *)
Definition EmbedQuery (e : OpenAIEmbedder) (text : string) : op Error W Vector :=
  let! vectors := post e [(oe_query_prefix e ++ text)%string] in
  match vectors with
  | v :: _ => oret v
  | [] => ofail (EOther "index out of range")
  end.

(** The loop of [EmbedDocuments]; a batch holds at least one text, so their number
    is enough fuel. *)
Fixpoint embed_batches (fuel : nat) (e : OpenAIEmbedder) (texts : list string) (out : list Vector) : op Error W (list Vector) :=
  match texts, fuel with
  | [], _ => oret out
  | _, O => ofail (EOther "fuel")
  | _, S fuel' =>
      let n := Z.to_nat (oe_max_batch e) in
      let! vectors := post e (take n texts) in
      embed_batches fuel' e (drop n texts) (out ++ vectors)
  end.

(** [EmbedDocuments]. *)
Definition EmbedDocuments (e : OpenAIEmbedder) (texts : list string) : op Error W (list Vector) :=
  embed_batches (length texts) e texts [].

(** [*Embedder] as the port. *)
Definition openai_embedder (e : OpenAIEmbedder) : Embedder W :=
  MkEmbedder (EmbedDocuments e) (EmbedQuery e) (oe_dimensions e) (oe_id e).
End Embeddings.
Arguments EmbedderConfig : clear implicits.
Arguments OpenAIEmbedder : clear implicits.

(** ** What an embedder promises *)

Section Embedding.
Context {W : Type} `{Wi : Wire W}.
Implicit Types e : OpenAIEmbedder W.

Definition wide e (v : Vector) : Prop := Z.of_nat (length v) = oe_dimensions e.

Lemma checked_vector_Ok e item v : checked_vector e item = Ok v <-> wide e v /\ v = ed_embedding item.
Proof.
  unfold checked_vector, wide. rewrite rbind_Ok. split.
  - intros ([] & H%reject_Ok & [= <-]). split; [lia|done].
  - intros [H ->]. exists tt. split; [|done]. apply reject_Ok. lia.
Qed.

Lemma post_Ok e texts w w' vs :
  post e texts w = (w', Ok vs) -> length vs = length texts /\ Forall (wide e) vs.
Proof.
  unfold post. intros (w1 & raw & _ & H)%obind_Ok. rewrite obind_olift in H.
  destruct (unmarshal_embeddings raw) as [parsed|]; [|done]. rewrite obind_olift in H.
  destruct (refuse_error _); [|done]. rewrite obind_olift in H.
  destruct (reject _ _) eqn:Hl; [|done]. apply reject_Ok, negb_false_iff, Nat.eqb_eq in Hl.
  injection H as _ H. apply map_res_Ok in H. split.
  - rewrite <- (Forall2_length _ _ _ H), <- Hl. apply length_sort_by.
  - clear Hl. induction H as [|item v items vs Hv _ IH]; [constructor|]. apply checked_vector_Ok in Hv as [? _]. by constructor.
Qed.

Lemma embed_batches_Ok fuel e texts out w w' vs :
  embed_batches fuel e texts out w = (w', Ok vs) -> Forall (wide e) out ->
  length vs = (length out + length texts)%nat /\ Forall (wide e) vs.
Proof.
  revert texts out w. induction fuel as [|fuel IH]; intros [|t texts] out w; cbn [embed_batches]; try done.
  - intros [= _ <-]. cbn. auto with lia.
  - intros [= _ <-]. cbn. auto with lia.
  - set (l := t :: texts). intros (w1 & v1 & [Hl Hw]%post_Ok & H)%obind_Ok Hout. apply IH in H as [Hlen Hall].
    + split; [|done]. rewrite Hlen, length_app, Hl, length_take, length_drop. lia.
    + by apply Forall_app.
Qed.

(** A service that embeds each text it takes as [vec] does: to a request of as many
    such texts as the client may send it answers with one item for each, in any
    order, under the text's index. *)
Definition serves e (Inv : W -> Prop) (takes : string -> Prop) (vec : string -> Vector) : Prop :=
  forall texts w, Inv w -> texts <> [] -> Z.of_nat (length texts) <= oe_max_batch e -> Forall takes texts ->
  exists w' body data,
    oe_client e (embeddings_request e texts) w = (w', Ok (MkHttpResponse StatusOK body)) /\ Inv w' /\
    unmarshal_embeddings body = Ok (MkEmbeddingsResponse data None) /\
    data ≡ₚ imap (fun i t => MkDatum (Z.of_nat i) (vec t)) texts.

Lemma sorted_reply (vec : string -> Vector) texts data :
  Z.of_nat (length texts) < 2 ^ 62 -> data ≡ₚ imap (fun i t => MkDatum (Z.of_nat i) (vec t)) texts ->
  sort_func cmp_index data = imap (fun i t => MkDatum (Z.of_nat i) (vec t)) texts.
Proof.
  intros Hlen Hp. set (items := imap _ texts) in *.
  assert (forall x, x ∈ items -> 0 <= ed_index x < 2 ^ 62) as Hb.
  { intros x (i & t & -> & Hi)%elem_of_lookup_imap. apply lookup_lt_Some in Hi. cbn. lia. }
  assert (forall l, (forall x, x ∈ l -> x ∈ items) -> sort_func cmp_index l = sort_func (cmp_on ed_index Z.compare) l) as Hext.
  { intros l Hl. apply sort_by_ext. intros x y Hx%Hl%Hb Hy%Hl%Hb. unfold leb_of, cmp_index, cmp_on.
    rewrite int64_id by lia. by rewrite <- Z.compare_sub. }
  rewrite Hext by (intros x Hx; by rewrite <- Hp).
  assert (StronglySorted (fun x y => ed_index x < ed_index y) items) as Hs.
  { unfold items. clear. change texts with (drop 0 texts) at 1.
    assert (forall n, StronglySorted (fun x y => ed_index x < ed_index y) (imap (fun i t => MkDatum (Z.of_nat (n + i)) (vec t)) texts)) as H; [|apply (H 0%nat)].
    induction texts as [|t texts IH]; intros n; cbn; constructor.
    - specialize (IH (S n)). erewrite imap_ext; [exact IH|]. intros i x _. cbn. do 2 f_equal. lia.
    - apply Forall_forall. intros x (i & t' & -> & _)%elem_of_lookup_imap. cbn. lia. }
  assert (forall x y, x ∈ items -> y ∈ items -> ed_index x = ed_index y -> x = y) as Hinj.
  { intros x y (i & t & -> & Hi)%elem_of_lookup_imap (j & u & -> & Hj)%elem_of_lookup_imap. cbn. intros ->%Nat2Z.inj. congruence. }
  rewrite (sort_func_unique (cmp_on ed_index Z.compare) data items); [|intros x y|done].
  - apply sort_func_sorted_id. eapply StronglySorted_impl; [|exact Hs]. unfold cmp_on. intros x y H.
    apply Z.compare_le_iff. lia.
  - rewrite Hp. intros Hx Hy Heq%Z.compare_eq. by apply Hinj.
Qed.
Lemma post_served e Inv takes vec texts w :
  serves e Inv takes vec -> Inv w -> texts <> [] -> Z.of_nat (length texts) <= oe_max_batch e -> Z.of_nat (length texts) < 2 ^ 62 ->
  Forall (fun t => takes t /\ wide e (vec t)) texts ->
  exists w', post e texts w = (w', Ok (map vec texts)) /\ Inv w'.
Proof.
  intros Hserves Hi Hne Hmax Hlen Hwide. apply Forall_and in Hwide as [Htakes Hwide].
  destruct (Hserves texts w Hi Hne Hmax Htakes) as (w' & body & data & Hdo & Hi' & Hu & Hp).
  exists w'. split; [|done]. assert (exchange (oe_client e) (embeddings_request e texts) w = (w', Ok body)) as Hex.
  { unfold exchange, obind. by rewrite Hdo. }
  unfold post. unfold obind at 1. rewrite Hex, obind_olift, Hu, !obind_olift. cbn [refuse_error reject is_some er_data er_error].
  assert (length data = length texts) as Hdl by (by rewrite Hp, length_imap). rewrite Hdl, Nat.eqb_refl. cbn [negb reject].
  rewrite (sorted_reply vec texts) by done. unfold olift. f_equal. apply map_res_Ok.
  apply Forall2_same_length_lookup. split; [by rewrite length_imap, length_map|].
  intros i item v Hitem Hv. rewrite list_lookup_imap in Hitem. rewrite list_lookup_fmap in Hv.
  destruct (texts !! i) as [t|] eqn:Ht; [|done]. injection Hitem as <-. injection Hv as <-.
  apply checked_vector_Ok. split; [|done]. rewrite Forall_forall in Hwide. by eapply Hwide, list_elem_of_lookup_2.
Qed.

Lemma embed_batches_served e Inv takes vec fuel texts out w :
  serves e Inv takes vec -> 0 < oe_max_batch e -> Inv w -> (length texts <= fuel)%nat -> Z.of_nat (length texts) < 2 ^ 62 ->
  Forall (fun t => takes t /\ wide e (vec t)) texts ->
  exists w', embed_batches fuel e texts out w = (w', Ok (out ++ map vec texts)) /\ Inv w'.
Proof.
  intros Hserves Hmax. revert texts out w. induction fuel as [|fuel IH]; intros [|t texts] out w Hi Hf Hlen Hwide;
    cbn [embed_batches length] in *; try (exists w; by rewrite app_nil_r); [lia|].
  set (l := t :: texts) in *. set (n := Z.to_nat (oe_max_batch e)). assert (length l = S (length texts)) as Hl by done.
  rewrite <- (take_drop n l) in Hwide. apply Forall_app in Hwide as [Hw1 Hw2].
  destruct (post_served e Inv takes vec (take n l) w) as (w1 & Hpost & Hi1); [done|done| | | |done|].
  { destruct n eqn:Hn; [unfold n in *; lia|done]. }
  { rewrite length_take. lia. }
  { rewrite length_take. lia. }
  destruct (IH (drop n l) (out ++ map vec (take n l)) w1) as (w' & Hrest & Hi'); [done| | |done|].
  { rewrite length_drop. lia. }
  { rewrite length_drop. lia. }
  exists w'. split; [|done]. unfold obind. rewrite Hpost, Hrest. by rewrite <- app_assoc, <- map_app, take_drop.
Qed.

Lemma NewEmbedder_Ok cfg e : NewEmbedder cfg = Ok e -> 0 < oe_max_batch e /\ 0 < oe_dimensions e.
Proof.
  unfold NewEmbedder. intros ([] & _ & ([] & Hd & ([] & Hb & [= <-])%rbind_Ok)%rbind_Ok)%rbind_Ok.
  apply reject_Ok in Hd, Hb. cbn. unfold DefaultMaxBatch. destruct (Z.eqb_spec (eg_max_batch cfg) 0); lia.
Qed.

(** C40: [EmbedDocuments] keeps the contract of an embedder. Whatever the service sends,
    what is returned is one vector per text, each of the declared width, or an
    error; and a service that answers each request it allows, its items in any
    order, has every text embedded in the texts' order, in requests of no more than
    the configured size. *)
Theorem EmbedDocuments_spec cfg e :
  NewEmbedder cfg = Ok e ->
  (forall texts w w' vs, EmbedDocuments e texts w = (w', Ok vs) -> length vs = length texts /\ Forall (wide e) vs) /\
  (forall Inv takes vec texts w, serves e Inv takes vec -> Inv w -> Z.of_nat (length texts) < 2 ^ 62 ->
     Forall (fun t => takes t /\ wide e (vec t)) texts ->
     exists w', EmbedDocuments e texts w = (w', Ok (map vec texts)) /\ Inv w').
Proof.
  intros Hnew. destruct (NewEmbedder_Ok _ _ Hnew) as [Hmax _]. split.
  - intros texts w w' vs H. unfold EmbedDocuments in H. by apply (embed_batches_Ok _ _ _ _ _ _ _ H).
  - intros Inv takes vec texts w Hs Hi Hl Hw. by apply (embed_batches_served e Inv takes vec _ _ [] w).
Qed.
End Embedding.

(** ** A concrete service *)

(** It counts the exchanges, embeds a text as its length, and answers backwards. *)
Fixpoint demo_split (l : list Ascii.ascii) : list (list Ascii.ascii) :=
  match l with
  | [] => [[]]
  | c :: l' =>
      match demo_split l' with
      | part :: parts => if Ascii.eqb c "," then [] :: part :: parts else (c :: part) :: parts
      | [] => []
      end
  end.
Definition demo_vector (text : string) : Vector := [f32_of_Z (len text)].
Definition demo_data (texts : list string) : list embeddingsDatum :=
  rev (imap (fun i t => MkDatum (Z.of_nat i) (demo_vector t)) texts).

#[export] Instance demo_wire : Wire nat := {
  DefaultClient req := fun n => (S n, Ok (MkHttpResponse StatusOK (hq_body req)));
  Getenv _ := "key"%string;
  json_parse _ := Ok JNull;
  marshal_chat _ := EmptyString;
  unmarshal_chat _ := Err (EOther "unexpected");
  marshal_messages _ := EmptyString;
  unmarshal_messages _ := Err (EOther "unexpected");
  marshal_embeddings req := String.concat "," (eq_input req);
  unmarshal_embeddings body :=
    Ok (MkEmbeddingsResponse (demo_data (map String.string_of_list_ascii (demo_split (String.list_ascii_of_string body)))) None);
}.

Definition demo_embedder_config : EmbedderConfig nat := MkEmbedderConfig "model" 1 false "query: " "http://local/" EmptyString 2 None.
Definition demo_openai_embedder : OpenAIEmbedder nat :=
  match NewEmbedder demo_embedder_config with
  | Ok e => e
  | Err _ => MkOpenAIEmbedder DefaultClient "" "" "" "" 1 false "" 1
  end.

Definition demo_taken (t : string) : Prop := t ∈ ["a"; "bb"; "ccc"]%string.

Lemma demo_serves : serves demo_openai_embedder (fun _ => True) demo_taken demo_vector.
Proof.
  intros texts w _ Hne Hlen Htaken.
  exists (S w), (String.concat "," texts), (demo_data texts). split; [reflexivity|]. split; [done|].
  split; [|unfold demo_data; by rewrite <- Permutation_rev].
  assert (length texts <= 2)%nat as Hl by (cbn in Hlen; lia).
  destruct texts as [|x [|y [|z texts]]]; [done| | |cbn in Hl; lia].
  - apply Forall_cons in Htaken as [Hx _]. unfold demo_taken in Hx. set_unfold in Hx.
    destruct Hx as [->|[->|[->|[]]]]; reflexivity.
  - apply Forall_cons in Htaken as [Hx Htaken]. apply Forall_cons in Htaken as [Hy _].
    unfold demo_taken in Hx, Hy. set_unfold in Hx. set_unfold in Hy.
    destruct Hx as [->|[->|[->|[]]]], Hy as [->|[->|[->|[]]]]; reflexivity.
Qed.

Lemma EmbedDocuments_spec_witness :
  exists w, EmbedDocuments demo_openai_embedder ["a"; "bb"; "ccc"]%string 0%nat =
    (w, Ok [[f32_of_Z 1]; [f32_of_Z 2]; [f32_of_Z 3]]).
Proof.
  destruct (EmbedDocuments_spec demo_embedder_config demo_openai_embedder eq_refl) as [_ H].
  destruct (H (fun _ => True) demo_taken demo_vector ["a"; "bb"; "ccc"]%string 0%nat demo_serves I) as (w & Hrun & _).
  - reflexivity.
  - repeat constructor; unfold demo_taken; refine (bool_decide_unpack _ _); vm_compute; exact I.
  - exists w. exact Hrun.
Defined.

(** Three texts go in two exchanges. *)
Example demo_exchanges : (EmbedDocuments demo_openai_embedder ["a"; "bb"; "ccc"]%string 0%nat).1 = 2%nat.
Proof. reflexivity. Qed.

(** A reply that numbers every item 0 is taken as it comes: nothing checks that
    the indexes are those of the texts. *)
Definition careless_wire : Wire nat := {|
  DefaultClient := DefaultClient;
  Getenv := Getenv;
  json_parse := json_parse;
  marshal_chat := marshal_chat;
  unmarshal_chat := unmarshal_chat;
  marshal_messages := marshal_messages;
  unmarshal_messages := unmarshal_messages;
  marshal_embeddings := marshal_embeddings;
  unmarshal_embeddings _ := Ok (MkEmbeddingsResponse [MkDatum 0 (demo_vector "bb"); MkDatum 0 (demo_vector "a")] None);
|}.

Example indexes_unchecked :
  EmbedDocuments (Wi := careless_wire) demo_openai_embedder ["a"; "bb"]%string 0%nat =
    (1%nat, Ok [demo_vector "bb"; demo_vector "a"]).
Proof. reflexivity. Qed.
