(* ===== verification/Eval.v ===== *)
(** * The retrieval harness ([eval/eval.go], [eval/metrics.go], [eval/longmemeval.go])

    Labelled questions in, scored retrieval out: the benchmark's loader, the run
    over a memory with its ingestion and drain, the score of one recollection and
    the summary of many. Dates, JSON and [math.Log2] are the standard library's and
    parameters here; the table a summary prints is in [Tables], and the progress
    callback is not modelled. *)

From stdpp Require Import gmap.
From S2P Require Import Types OpsTypes Validate GoNum Fusion Ports Memory Worker.

#[local] Open Scope Z_scope.

(** ** Questions *)

Record Question : Type := MkQuestion {
  q_id : string;
  q_type : string;
  q_query : string;
  q_answer : string;
  q_asked : Time;
  q_haystack : list AppendRequest;
  q_relevant : list Z;
}.

(** [Dataset]: the iterator as the questions, or errors, it yields. *)
Record Dataset : Type := MkDataset { ds_name : string; ds_questions : list (res Question) }.

(** *** The LongMemEval loader *)

Record lmeTurn : Type := MkLmeTurn { lt_role : string; lt_content : string; lt_has_answer : bool }.
Record lmeInstance : Type := MkLmeInstance {
  li_id : string;
  li_type : string;
  li_question : string;
  li_answer : string;
  li_date : string;
  li_haystack_dates : list string;
  li_session_ids : list string;
  li_sessions : list (list lmeTurn);
}.

(** [lmeRole]. *)
Definition lmeRole (role : string) : res Role :=
  if String.eqb role "user" then Ok RoleUser
  else if String.eqb role "assistant" then Ok RoleAssistant
  else Err (EWrap ErrInvalidRole).

(** One turn of the loop over a session. *)
Definition read_turn (occurred : Time) (session : string) (q : Question) (turn : lmeTurn) : res Question :=
  if is_empty (TrimSpace (lt_content turn)) then Ok q
  else
    let? role := lmeRole (lt_role turn) in
    Ok (MkQuestion (q_id q) (q_type q) (q_query q) (q_answer q) (q_asked q)
          (q_haystack q ++ [MkAppendRequest EmptyString (lt_content turn) role EmptyString "longmemeval" occurred
                              (Some {["session" := session]})])
          (if lt_has_answer turn then q_relevant q ++ [Z.of_nat (length (q_haystack q))] else q_relevant q)).

Fixpoint fold_res {A B} (f : B -> A -> res B) (b : B) (l : list A) : res B :=
  match l with
  | [] => Ok b
  | x :: l' => let? b := f b x in fold_res f b l'
  end.

Section Loader.
(** [time.Parse] with the benchmark's layout. *)
Context (parse_date : string -> option Time).

(** One turn of the loop over the sessions. *)
Definition read_session (li : lmeInstance) (q : Question) (session : nat * list lmeTurn) : res Question :=
  match li_haystack_dates li !! session.1 with
  | None => Err (EOther "session has no date")
  | Some date =>
      match parse_date date with
      | None => Err (EOther "session date")
      | Some occurred =>
          fold_res (read_turn occurred (default EmptyString (li_session_ids li !! session.1))) q session.2
      end
  end.

(** [lmeInstance.question]. *)
Definition question (li : lmeInstance) : res Question :=
  match parse_date (li_date li) with
  | None => Err (EOther "question date")
  | Some asked =>
      fold_res (read_session li) (MkQuestion (li_id li) (li_type li) (li_question li) (li_answer li) asked [] [])
        (imap pair (li_sessions li))
  end.
End Loader.

(** ** Scores *)

(** [Result]. *)
Record Result : Type := MkResult {
  rs_id : string;
  rs_type : string;
  rs_relevant : Z;
  rs_returned : Z;
  rs_hit : bool;
  rs_recall : float64;
  rs_reciprocal_rank : float64;
  rs_ndcg : float64;
  rs_channels : list ChannelReport;
  rs_ingest : Duration;
  rs_latency : Duration;
}.

Section Score.
(** [math.Log2]. *)
Context (Log2 : float64 -> float64).

Definition discount (rank : nat) : float64 := f64_div (f64_of_Z 1) (Log2 (f64_of_Z (Z.of_nat rank + 2))).

(** [idcg]. *)
Definition idcg (n : nat) : float64 := foldl (fun ideal i => f64_add ideal (discount i)) f_zero (seq 0 n).

(** What the loop of [score] has seen: how many relevant episodes, the reciprocal
    rank of the first, and their gain. *)
Record scored : Type := MkScored { sc_found : Z; sc_rr : option float64; sc_gain : float64 }.

Definition score_one (relevant : list Z) (st : scored) (hit : nat * RecalledEpisode) : scored :=
  if bool_decide (ep_seq (re_episode hit.2) - 1 ∈ relevant) then
    MkScored (sc_found st + 1)
      (match sc_rr st with
       | None => Some (f64_div (f64_of_Z 1) (f64_of_Z (Z.of_nat hit.1 + 1)))
       | Some rr => Some rr
       end)
      (f64_add (sc_gain st) (discount hit.1))
  else st.

(** [score]. *)
Definition score (q : Question) (rec : Recollection) (limit : Z) : Result :=
  let relevant := remove_dups (q_relevant q) in
  let st := foldl (score_one relevant) (MkScored 0 None f_zero) (imap pair (rec_episodes rec)) in
  let n := Z.of_nat (length relevant) in
  let ideal := idcg (Z.to_nat (Z.min n limit)) in
  MkResult (q_id q) (q_type q) n (Z.of_nat (length (rec_episodes rec)))
    (match sc_rr st with Some _ => true | None => false end)
    (f64_div (f64_of_Z (sc_found st)) (f64_of_Z n))
    (default f_zero (sc_rr st))
    (if f_gtb ideal f_zero then f64_div (sc_gain st) ideal else f_zero)
    [] 0 0.
End Score.

(** *** Summaries *)

(** [TypeSummary]. *)
Record TypeSummary : Type := MkTypeSummary {
  ts_questions : Z;
  ts_hits : Z;
  ts_sum_recall : float64;
  ts_sum_rr : float64;
  ts_sum_ndcg : float64;
  ts_hit_rate : float64;
  ts_recall : float64;
  ts_mrr : float64;
  ts_ndcg : float64;
}.

(** [Summary]. *)
Record Summary : Type := MkSummary {
  su_dataset : string;
  su_variant : string;
  su_channels : list Channel;
  su_limit : Z;
  su_questions : Z;
  su_skipped : Z;
  su_hits : Z;
  su_empty : Z;
  su_sum_recall : float64;
  su_sum_rr : float64;
  su_sum_ndcg : float64;
  su_latencies : list Duration;
  su_ingested : Duration;
  su_by_type : gmap string TypeSummary;
  su_hit_rate : float64;
  su_empty_rate : float64;
  su_recall : float64;
  su_mrr : float64;
  su_ndcg : float64;
  su_p50 : Duration;
  su_p95 : Duration;
}.

Definition empty_type : TypeSummary := MkTypeSummary 0 0 f_zero f_zero f_zero f_zero f_zero f_zero f_zero.
Definition empty_summary (dataset variant : string) (channels : list Channel) (limit : Z) : Summary :=
  MkSummary dataset variant channels limit 0 0 0 0 f_zero f_zero f_zero [] 0 ∅ f_zero f_zero f_zero f_zero f_zero 0 0.

Definition count (b : bool) : Z := if b then 1 else 0.

(** The category's share of [add]. *)
Definition add_type (t : TypeSummary) (r : Result) : TypeSummary :=
  MkTypeSummary (ts_questions t + 1) (ts_hits t + count (rs_hit r))
    (f64_add (ts_sum_recall t) (rs_recall r)) (f64_add (ts_sum_rr t) (rs_reciprocal_rank r))
    (f64_add (ts_sum_ndcg t) (rs_ndcg r)) (ts_hit_rate t) (ts_recall t) (ts_mrr t) (ts_ndcg t).

(** [Summary.add]. *)
Definition add (s : Summary) (r : Result) : Summary :=
  MkSummary (su_dataset s) (su_variant s) (su_channels s) (su_limit s)
    (su_questions s + 1) (su_skipped s) (su_hits s + count (rs_hit r)) (su_empty s + count (rs_returned r =? 0))
    (f64_add (su_sum_recall s) (rs_recall r)) (f64_add (su_sum_rr s) (rs_reciprocal_rank r))
    (f64_add (su_sum_ndcg s) (rs_ndcg r))
    (su_latencies s ++ [rs_latency r]) (su_ingested s + rs_ingest r)
    (<[rs_type r := add_type (default empty_type (su_by_type s !! rs_type r)) r]> (su_by_type s))
    (su_hit_rate s) (su_empty_rate s) (su_recall s) (su_mrr s) (su_ndcg s) (su_p50 s) (su_p95 s).

(** A question passed over. *)
Definition skip (s : Summary) : Summary :=
  MkSummary (su_dataset s) (su_variant s) (su_channels s) (su_limit s)
    (su_questions s) (su_skipped s + 1) (su_hits s) (su_empty s) (su_sum_recall s) (su_sum_rr s) (su_sum_ndcg s)
    (su_latencies s) (su_ingested s) (su_by_type s) (su_hit_rate s) (su_empty_rate s) (su_recall s) (su_mrr s)
    (su_ndcg s) (su_p50 s) (su_p95 s).

(** [int(x)] of a float that is not negative. *)
Definition f64_trunc (x : float64) : Z :=
  match x with
  | S754_finite false m e => Z.shiftl (Zpos m) e
  | _ => 0
  end.
Definition percent (n : Z) : float64 := f64_div (f64_of_Z n) (f64_of_Z 100).

(** [percentile], of a fraction given in hundredths. *)
Definition percentile (sorted : list Duration) (p : Z) : Duration :=
  match sorted with
  | [] => 0
  | _ =>
      let index := f64_trunc (f64_mul (percent p) (f64_of_Z (Z.of_nat (length sorted) - 1))) in
      default 0 (sorted !! Z.to_nat index)
  end.

Definition ratio (a b : Z) : float64 := f64_div (f64_of_Z a) (f64_of_Z b).
Definition mean (total : float64) (n : Z) : float64 := f64_div total (f64_of_Z n).

Definition finish_type (t : TypeSummary) : TypeSummary :=
  if ts_questions t =? 0 then t
  else
    let n := ts_questions t in
    MkTypeSummary n (ts_hits t) (ts_sum_recall t) (ts_sum_rr t) (ts_sum_ndcg t)
      (ratio (ts_hits t) n) (mean (ts_sum_recall t) n) (mean (ts_sum_rr t) n) (mean (ts_sum_ndcg t) n).

(** [Summary.finish]. *)
Definition finish (s : Summary) : Summary :=
  let n := su_questions s in
  let scored := 0 <? n in
  let sorted := sort_func Z.compare (su_latencies s) in
  MkSummary (su_dataset s) (su_variant s) (su_channels s) (su_limit s)
    n (su_skipped s) (su_hits s) (su_empty s) (su_sum_recall s) (su_sum_rr s) (su_sum_ndcg s)
    sorted (su_ingested s) (finish_type <$> su_by_type s)
    (if scored then ratio (su_hits s) n else su_hit_rate s)
    (if scored then ratio (su_empty s) n else su_empty_rate s)
    (if scored then mean (su_sum_recall s) n else su_recall s)
    (if scored then mean (su_sum_rr s) n else su_mrr s)
    (if scored then mean (su_sum_ndcg s) n else su_ndcg s)
    (percentile sorted 50) (percentile sorted 95).

(** ** A run *)

Section Run.
Context {W : Type} (Log2 : float64 -> float64).

(** What a run meets in the world it runs in: the host's clock, the order and
    length of a recall's goroutines, the state of the context, the text of errors. *)
Record Host : Type := MkHost {
  ho_clock : Clock W;
  ho_sched : W -> list nat;
  ho_elapsed : W -> nat -> Duration;
  ho_recall_ctx : W -> option Error;
  ho_drain_ctx : W -> nat -> option Error;
  ho_error_text : Error -> string;
}.

Record Variant : Type := MkVariant { va_name : string; va_channels : list Channel; va_memory : option (Memory W) }.

Record EvalConfig : Type := MkEvalConfig {
  ec_memory : option (Memory W);
  ec_store : option (Store W);
  ec_worker : option (Worker W);
  ec_variants : list Variant;
  ec_limit : Z;
  ec_bound : bool;
}.

Definition EvalDefaultLimit : Z := DefaultRecallLimit.
Definition maxDrainPasses : nat := 1000.

Definition in_scope (scope : ScopeID) (r : AppendRequest) : AppendRequest :=
  MkAppendRequest scope (ar_content r) (ar_role r) (ar_actor r) (ar_source r) (ar_occurred r) (ar_binding r).

(** [ingest]; a batch is never empty, so as many as there are requests is enough. *)
Fixpoint ingest_batches (fuel : nat) (m : Memory W) (scope : ScopeID) (haystack : list AppendRequest) : op Error W unit :=
  match haystack, fuel with
  | [], _ => oret tt
  | _, O => ofail (EOther "fuel")
  | _, S fuel' =>
      let n := Z.to_nat MaxAppendBatch in
      AppendBatch m (map (in_scope scope) (take n haystack)) ;;;
      ingest_batches fuel' m scope (drop n haystack)
  end.
Definition ingest (m : Memory W) (scope : ScopeID) (haystack : list AppendRequest) : op Error W unit :=
  ingest_batches (length haystack) m scope haystack.

(** [drain]: at most [maxDrainPasses] of them. *)
Fixpoint drain_passes (passes : nat) (h : Host) (worker : Worker W) : op Error W unit := fun w =>
  match passes with
  | O => (w, Err (EOther "the queue did not empty"))
  | S passes' =>
      match DrainOnce (ho_error_text h) worker (ho_drain_ctx h w) w with
      | (w', (_, Some e)) => (w', Err e)
      | (w', (done_, None)) => if done_ =? 0 then (w', Ok tt) else drain_passes passes' h worker w'
      end
  end.
Definition drain (h : Host) (worker : Worker W) : op Error W unit := drain_passes maxDrainPasses h worker.

(** What is asked of one variant's memory. *)
Definition recall_request (scope : ScopeID) (q : Question) (channels : list Channel) (limit : Z) (bound : bool) : RecallRequest :=
  MkRecallRequest scope (q_query q) zeroTime zeroTime (if bound then q_asked q else zeroTime) None []
    channels 0 limit 0 f_zero [] 0.

(** The turn of [run]'s loop over the variants. *)
Definition run_variant (h : Host) (q : Question) (limit : Z) (bound : bool) (ingested : Duration)
    (v : nat * (string * list Channel * Memory W)) : op Error W Result :=
  let '(name, channels, m) := v.2 in
  let! recalled_at := now (ho_clock h) in
  let! rec := (fun w => Recall m (ho_sched h w) (ho_elapsed h w) (ho_recall_ctx h w)
                          (recall_request ("eval:" ++ q_id q)%string q channels limit bound) w) in
  let! done_ := now (ho_clock h) in
  let r := score Log2 q rec limit in
  oret (MkResult (rs_id r) (rs_type r) (rs_relevant r) (rs_returned r) (rs_hit r) (rs_recall r)
          (rs_reciprocal_rank r) (rs_ndcg r) (rec_channels rec)
          (if Nat.eqb v.1 0 then ingested else 0) (Sub done_ recalled_at)).

(** [run]. *)
Definition run (h : Host) (cfg : EvalConfig) (m : Memory W) (q : Question) (limit : Z)
    (variants : list (string * list Channel * Memory W)) : op Error W (list Result) :=
  let scope := ("eval:" ++ q_id q)%string in
  let! started := now (ho_clock h) in
  ingest m scope (q_haystack q) ;;;
  match ec_worker cfg with Some worker => drain h worker | None => oret tt end ;;;
  let! ended := now (ho_clock h) in
  let! results := omapM (run_variant h q limit (ec_bound cfg) (Sub ended started)) (imap pair variants) in
  match ec_store cfg with
  | Some s => s_Forget s (MkForgetRequest scope []) ;;; oret results
  | None => oret results
  end.

(** The variants a run scores, each with the memory it uses. *)
Definition resolve_variants (m : Memory W) (variants : list Variant) : list (string * list Channel * Memory W) :=
  match variants with
  | [] => [("default"%string, [], m)]
  | _ => map (fun v => (va_name v, va_channels v, default m (va_memory v))) variants
  end.

(** The loop of [Run] over the questions. *)
Fixpoint run_questions (h : Host) (cfg : EvalConfig) (m : Memory W) (limit : Z)
    (variants : list (string * list Channel * Memory W)) (questions : list (res Question)) (summaries : list Summary)
    : op Error W (list Summary) :=
  match questions with
  | [] => oret summaries
  | Err e :: _ => ofail e
  | Ok q :: rest =>
      match q_relevant q with
      | [] => run_questions h cfg m limit variants rest (map skip summaries)
      | _ =>
          let! results := run h cfg m q limit variants in
          run_questions h cfg m limit variants rest (zip_with add summaries results)
      end
  end.

(** [Run]. *)
Definition Run (h : Host) (cfg : EvalConfig) (ds : Dataset) : op Error W (list Summary) :=
  match ec_memory cfg with
  | None => ofail (EWrap ErrInvalidConfig)
  | Some m =>
      let limit := if ec_limit cfg =? 0 then EvalDefaultLimit else ec_limit cfg in
      let variants := resolve_variants m (ec_variants cfg) in
      let! summaries := run_questions h cfg m limit variants (ds_questions ds)
                          (map (fun v => empty_summary (ds_name ds) v.1.1 v.1.2 limit) variants) in
      oret (map finish summaries)
  end.
End Run.
Arguments Host : clear implicits.
Arguments Variant : clear implicits.
Arguments EvalConfig : clear implicits.
