(* ===== verification/Loading.v ===== *)
(** * Reading the benchmark's file ([eval/longmemeval.go])

    The questions are decoded one at a time and handed to whoever ranges over them,
    who may stop. [encoding/json]'s decoder is the standard library's and a record of
    operations here; that each element it decodes uses input up is what ends the loop. *)

From S2P Require Import Prelude Utf8 GoNum Types Memory Eval.

#[local] Open Scope Z_scope.

(** ** The loose field *)

Definition is_quote (b : N) : bool := N.eqb b 34.
Fixpoint drop_quotes (l : list N) : list N :=
  match l with
  | b :: l' => if is_quote b then drop_quotes l' else l
  | [] => []
  end.
(** [strings.Trim] of the double quote. *)
Definition TrimQuotes (s : string) : string :=
  of_bytes (rev (drop_quotes (rev (drop_quotes (bytes_of s))))).

(** [loose.UnmarshalJSON]; [unmarshal] reads a JSON string. *)
Definition loose_UnmarshalJSON (unmarshal : string -> option string) (data : string) : string :=
  match unmarshal data with
  | Some text => text
  | None => TrimQuotes data
  end.

(** ** The iterator *)

Section Loader.
Context (parse_date : string -> option Time) {D : Type}.

(** [json.Decoder], of the operations the loader uses. *)
Record Decoder : Type := MkDecoder {
  Token : D -> D * res unit;
  More : D -> bool;
  Decode : D -> D * res lmeInstance;
}.
Context (dec : Decoder) (open : string -> res D) (base : string -> string) (size : D -> nat).

(** The loop over the elements; [yield] says whether to go on. *)
Fixpoint yield_questions {S} (fuel : nat) (d : D) (yield : res Question -> S -> S * bool) (s : S) : S :=
  match fuel with
  | O => s
  | Datatypes.S fuel' =>
      if More dec d then
        match Decode dec d with
        | (_, Err e) => (yield (Err e) s).1
        | (d', Ok instance) =>
            let (s', go) := yield (question parse_date instance) s in
            if go then yield_questions fuel' d' yield s' else s'
        end
      else s
  end.

(** [longMemEvalQuestions]. *)
Definition longMemEvalQuestions {S} (path : string) (yield : res Question -> S -> S * bool) (s : S) : S :=
  match open path with
  | Err e => (yield (Err e) s).1
  | Ok d =>
      match Token dec d with
      | (_, Err e) => (yield (Err e) s).1
      | (d', Ok _) => yield_questions (Datatypes.S (size d')) d' yield s
      end
  end.

(** Collecting what is yielded, and going on. *)
Definition collect (q : res Question) (l : list (res Question)) : list (res Question) * bool := (l ++ [q], true).

(** [LongMemEval]. *)
Definition LongMemEval (path : string) : Dataset :=
  MkDataset ("LongMemEval (" ++ base path ++ ")")%string (longMemEvalQuestions path collect []).

(** ** What is yielded *)

(** The elements of the array at [d], as questions, up to the first that does not decode. *)
Inductive elements : D -> list (res Question) -> Prop :=
  | elements_end d : More dec d = false -> elements d []
  | elements_bad d d' e : More dec d = true -> Decode dec d = (d', Err e) -> elements d [Err e]
  | elements_one d d' instance l :
      More dec d = true -> Decode dec d = (d', Ok instance) -> elements d' l ->
      elements d (question parse_date instance :: l).

(** What opening the file leads to. *)
Inductive contents (path : string) : list (res Question) -> Prop :=
  | contents_closed e : open path = Err e -> contents path [Err e]
  | contents_garbled d d' e : open path = Ok d -> Token dec d = (d', Err e) -> contents path [Err e]
  | contents_read d d' u l : open path = Ok d -> Token dec d = (d', Ok u) -> elements d' l -> contents path l.

Fixpoint feed {S} (l : list (res Question)) (yield : res Question -> S -> S * bool) (s : S) : S :=
  match l with
  | [] => s
  | q :: l' => let (s', go) := yield q s in if go then feed l' yield s' else s'
  end.

Lemma feed_one {S} q (yield : res Question -> S -> S * bool) s : feed [q] yield s = (yield q s).1.
Proof. cbn. by destruct (yield q s) as [? []]. Qed.

Lemma feed_collect l s : feed l collect s = s ++ l.
Proof. revert s. induction l as [|q l IH]; intros s; cbn; [by rewrite app_nil_r|]. by rewrite IH, <- app_assoc. Qed.

Lemma yield_elements fuel d :
  (forall d d' i, Decode dec d = (d', Ok i) -> (size d' < size d)%nat) -> (size d < fuel)%nat ->
  exists l, elements d l /\ forall S (yield : res Question -> S -> S * bool) s, yield_questions fuel d yield s = feed l yield s.
Proof.
  intros Huse. revert d. induction fuel as [|fuel IH]; intros d Hf; [lia|]. cbn [yield_questions].
  destruct (More dec d) eqn:Hm; [|exists []; split; [by constructor|done]].
  destruct (Decode dec d) as [d' [i|e]] eqn:Hd.
  - destruct (IH d') as (l & Hl & Hy); [apply Huse in Hd; lia|].
    exists (question parse_date i :: l). split; [by econstructor|]. intros S yield s. cbn [feed].
    destruct (yield _ s) as [s' []]; [apply Hy|done].
  - exists [Err e]. split; [by econstructor|]. intros S yield s. by rewrite feed_one.
Qed.

(** the iteration ends, and whoever ranges over the benchmark is handed its elements
    in order, each as its question or as what is wrong with it, until they stop or an
    element does not decode; a file that does not open, or does not start, is one
    error. *)
Theorem longMemEvalQuestions_spec path :
  (forall d d' i, Decode dec d = (d', Ok i) -> (size d' < size d)%nat) ->
  exists l, contents path l /\ ds_questions (LongMemEval path) = l /\
    forall S (yield : res Question -> S -> S * bool) s, longMemEvalQuestions path yield s = feed l yield s.
Proof.
  intros Huse. assert (exists l, contents path l /\
    forall S (yield : res Question -> S -> S * bool) s, longMemEvalQuestions path yield s = feed l yield s) as (l & Hc & Hl).
  { unfold longMemEvalQuestions. destruct (open path) as [d|e] eqn:Ho.
    - destruct (Token dec d) as [d' [u|e]] eqn:Ht.
      + destruct (yield_elements (Datatypes.S (size d')) d' Huse) as (l & Hl & Hy); [lia|].
        exists l. split; [by eapply contents_read|done].
      + exists [Err e]. split; [by eapply contents_garbled|]. intros S yield s. by rewrite feed_one.
    - exists [Err e]. split; [by eapply contents_closed|]. intros S yield s. by rewrite feed_one. }
  exists l. split; [done|]. split; [|done]. cbn. by rewrite Hl, feed_collect.
Qed.
End Loader.
Arguments Decoder : clear implicits.
Arguments MkDecoder {D}.

(** ** A concrete file *)

(** A file as its elements, and whether its closing bracket is there. *)
Record File : Type := MkFile { file_elements : list lmeInstance; file_closed : bool }.

(** [Decoder.More] is false at the closing bracket, and at the end of the input. *)
Definition file_decoder : Decoder File :=
  MkDecoder (fun f => (f, Ok tt)) (fun f => match file_elements f with [] => false | _ => true end)
    (fun f => match file_elements f with
              | [] => (f, Err (EOther "EOF"))
              | i :: l => (MkFile l (file_closed f), Ok i)
              end).
Definition file_size (f : File) : nat := length (file_elements f).

Definition demo_question (id : string) : lmeInstance := MkLmeInstance id "single" "what?" "tea" "now" [] [] [].
Definition demo_date (s : string) : option Time := Some (utc 4000).

Lemma longMemEvalQuestions_spec_witness :
  exists l, contents demo_date file_decoder (fun _ => Ok (MkFile [demo_question "a"; demo_question "b"] true)) "f" l /\
    length l = 2%nat.
Proof.
  destruct (longMemEvalQuestions_spec demo_date file_decoder (fun _ => Ok (MkFile [demo_question "a"; demo_question "b"] true))
    (fun p => p) file_size "f") as (l & Hc & <- & _).
  - intros [[|x es] c] d' i H; [discriminate|]. injection H as <- _. unfold file_size. cbn. lia.
  - eexists. split; [exact Hc|]. vm_compute. reflexivity.
Defined.

(** A download cut off between two elements reads as a shorter benchmark: the loop
    ends where [More] is false and nobody looks for the closing bracket. *)
Example truncated_file_reads_clean :
  ds_questions (LongMemEval demo_date file_decoder (fun _ => Ok (MkFile [demo_question "a"] false)) (fun p => p) file_size "f") =
  ds_questions (LongMemEval demo_date file_decoder (fun _ => Ok (MkFile [demo_question "a"] true)) (fun p => p) file_size "f").
Proof. vm_compute. reflexivity. Qed.

(** An answer of [2] is the text [2]. *)
Example loose_number : loose_UnmarshalJSON (fun _ => None) "2" = "2"%string.
Proof. vm_compute. reflexivity. Qed.
