(* ===== verification/EvalL1.v ===== *)
(** * Measuring extraction ([eval/l1.go])

    A haystack ingested session by session with a drain between, the facts that
    came of it counted, and the summary. The rune classes are the standard library's
    and parameters, as are case folding and the text of a uuid ([Texts]); the table
    is in [Tables], and the progress callback is not modelled. *)

From stdpp Require Import gmap.
From S2P Require Import Types OpsTypes Validate Windows GoNum Ports Memory Worker Extract Eval.

#[local] Open Scope Z_scope.

(** ** Sessions *)

Definition session_of (r : AppendRequest) : string := default EmptyString (Binding_entries (ar_binding r) !! "session"%string).

(** One turn of [sessions]: what has been split, and the id of its last part. *)
Definition split_session (st : list (list AppendRequest) * string) (r : AppendRequest) : list (list AppendRequest) * string :=
  let id := session_of r in
  let st := match st.1 with
            | [] => ([[]], id)
            | _ => if String.eqb id st.2 then st else (st.1 ++ [[]], id)
            end in
  (match last st.1 with
   | Some part => take (length st.1 - 1) st.1 ++ [part ++ [r]]
   | None => st.1
   end, st.2).

(** [sessions]. *)
Definition sessions (haystack : list AppendRequest) : list (list AppendRequest) :=
  (foldl split_session ([], EmptyString) haystack).1.

(** ** Coverage *)

Section Words.
Context `{Tx : Texts} (IsLetter IsDigit : N -> bool).

Definition stopWords : list string :=
  ["the"; "a"; "an"; "and"; "or"; "of"; "to"; "in"; "is"; "was"; "are"; "were"; "for"; "on"; "at"; "it"; "that";
   "this"; "with"; "as"; "by"; "from"; "has"; "have"]%string.

(** [contentWords], the set without repeats. *)
Definition contentWords (text : string) : list string :=
  remove_dups
    (List.filter (fun field => (2 <? len field) && negb (one_of field stopWords))
       (FieldsFunc (fun r => negb (IsLetter r) && negb (IsDigit r)) (ToLower text))).

Definition found_words (statement answer : string) : Z :=
  let have := contentWords statement in
  Z.of_nat (length (List.filter (fun w => one_of w have) (contentWords answer))).

(** [covers]. *)
Definition covers (statement answer : string) : bool :=
  match contentWords answer with
  | [] => false
  | wanted =>
      let share := ratio (found_words statement answer) (Z.of_nat (length wanted)) in
      f_gtb share (percent 66) || f_eqb share (percent 66)
  end.

(** ** One question *)

Record L1Result : Type := MkL1Result {
  l1_id : string;
  l1_type : string;
  l1_episodes : Z;
  l1_facts : Z;
  l1_open : Z;
  l1_closed : Z;
  l1_contradictions : Z;
  l1_covered : bool;
  l1_stable : option bool;
  l1_duration : Duration;
}.

Definition claim_key (f : Fact) : string := ToLower (f_subject f ++ String Ascii.zero EmptyString ++ f_predicate f).

(** What is open of each subject and predicate: its objects without repeats. *)
Definition open_object (open : gmap string (list string)) (f : Fact) : gmap string (list string) :=
  if IsOpen (f_valid f) then
    let key := claim_key f in
    let objects := default [] (open !! key) in
    if one_of (f_object f) objects then open else <[key := objects ++ [f_object f]]> open
  else open.
Definition open_objects (facts : list Fact) : gmap string (list string) := foldl open_object ∅ facts.

Definition contradictions (facts : list Fact) : Z :=
  Z.of_nat (length (List.filter (fun p => (1 <? length p.2)%nat) (map_to_list (open_objects facts)))).

(** The count of [runL1] over the facts it read. *)
Definition tally_facts (q : Question) (facts : list Fact) (stable : option bool) (duration : Duration) : L1Result :=
  MkL1Result (q_id q) (q_type q) (Z.of_nat (length (q_haystack q))) (Z.of_nat (length facts))
    (Z.of_nat (length (List.filter (fun f => IsOpen (f_valid f)) facts)))
    (Z.of_nat (length (List.filter (fun f => negb (IsOpen (f_valid f))) facts)))
    (contradictions facts) (existsb (fun f => covers (f_statement f) (q_answer q)) facts) stable duration.

(** [sameClaims]: what two extractions assert and retract, rendered and sorted. *)
Definition rendered (r : ExtractResult) : list string :=
  sort_func String.compare
    (map (fun a => "a|" ++ a_subject a ++ "|" ++ a_predicate a ++ "|" ++ a_object a)%string (xr_assert r) ++
     map (fun c => "r|" ++ uuid_String (r_fact c))%string (xr_retract r)).
Definition sameClaims (a b : ExtractResult) : bool := bool_decide (rendered a = rendered b).

Section RunL1.
Context {W : Type}.

Record L1Config : Type := MkL1Config {
  lc_memory : option (Memory W);
  lc_worker : option (Worker W);
  lc_facts : option (FactStore W);
  lc_extractor : option (Extractor W);
  lc_store : option (Store W);
  lc_replay : bool;
}.

(** [replayStable]. *)
Definition replayStable (h : Host W) (m : Memory W) (x : Extractor W) (scope : ScopeID) (q : Question) (known : list Fact)
    : op Error W bool :=
  match sessions (q_haystack q) with
  | [] => oret true
  | _ =>
      let! rec := (fun w => Recall m (ho_sched h w) (ho_elapsed h w) (ho_recall_ctx h w)
                              (MkRecallRequest scope (q_query q) zeroTime zeroTime zeroTime None [] [ChannelLexical] 0 8 0 f_zero [] 0) w) in
      match rec_episodes rec with
      | [] => oret true
      | episodes =>
          let reread := sort_func cmp_seq (map re_episode episodes) in
          let! now1 := now (ho_clock h) in
          let! first := x_Extract x (MkExtractRequest scope reread known now1) in
          let! now2 := now (ho_clock h) in
          let! second := x_Extract x (MkExtractRequest scope reread known now2) in
          oret (sameClaims first second)
      end
  end.

(** The sessions, each ingested and drained before the next. *)
Definition read_sessions (h : Host W) (m : Memory W) (worker : Worker W) (scope : ScopeID) (haystack : list AppendRequest)
    : op Error W unit :=
  ofor (fun session => ingest m scope session ;;; drain h worker) (sessions haystack).

Definition fact_query (scope : ScopeID) (x : Extractor W) (as_of at_ : Time) : FactQuery :=
  MkFactQuery scope (x_Model x) as_of at_ true [] [] f_zero EmptyString 1000.

(** [runL1]. *)
Definition runL1 (h : Host W) (m : Memory W) (worker : Worker W) (fs : FactStore W) (x : Extractor W)
    (store : option (Store W)) (replay : bool) (q : Question) : op Error W L1Result :=
  let scope := ("l1:" ++ q_id q)%string in
  let! started := now (ho_clock h) in
  read_sessions h m worker scope (q_haystack q) ;;;
  let! as_of := now (ho_clock h) in
  let! at_ := now (ho_clock h) in
  let! facts := fs_Facts fs (fact_query scope x as_of at_) in
  let! stable := (if replay then let! b := replayStable h m x scope q facts in oret (Some b) else oret None) in
  let! ended := now (ho_clock h) in
  let result := tally_facts q facts stable (Sub ended started) in
  match store with
  | Some s => s_Forget s (MkForgetRequest scope []) ;;; oret result
  | None => oret result
  end.
End RunL1.
End Words.
Arguments L1Config : clear implicits.

(** ** The summary *)

Record L1TypeSummary : Type := MkL1TypeSummary {
  lt_questions : Z;
  lt_superseded : Z;
  lt_contradicted : Z;
  lt_covered : Z;
  lt_supersession_rate : float64;
  lt_contradiction_rate : float64;
  lt_answer_coverage : float64;
}.

Record L1Summary : Type := MkL1Summary {
  ls_dataset : string;
  ls_questions : Z;
  ls_skipped : Z;
  ls_episodes : Z;
  ls_facts : Z;
  ls_superseded : Z;
  ls_contradicted : Z;
  ls_covered : Z;
  ls_replayed : Z;
  ls_stable : Z;
  ls_durations : list Duration;
  ls_by_type : gmap string L1TypeSummary;
  ls_facts_per_episode : float64;
  ls_supersession_rate : float64;
  ls_contradiction_rate : float64;
  ls_answer_coverage : float64;
  ls_replay_stability : float64;
  ls_p50 : Duration;
  ls_p95 : Duration;
}.

Definition empty_l1_type : L1TypeSummary := MkL1TypeSummary 0 0 0 0 f_zero f_zero f_zero.
Definition empty_l1 (dataset : string) : L1Summary :=
  MkL1Summary dataset 0 0 0 0 0 0 0 0 0 [] ∅ f_zero f_zero f_zero f_zero f_zero 0 0.

Definition add_l1_type (t : L1TypeSummary) (r : L1Result) : L1TypeSummary :=
  MkL1TypeSummary (lt_questions t + 1) (lt_superseded t + count (0 <? l1_closed r))
    (lt_contradicted t + count (0 <? l1_contradictions r)) (lt_covered t + count (l1_covered r))
    (lt_supersession_rate t) (lt_contradiction_rate t) (lt_answer_coverage t).

(** [addL1]. *)
Definition addL1 (s : L1Summary) (r : L1Result) : L1Summary :=
  MkL1Summary (ls_dataset s) (ls_questions s + 1) (ls_skipped s) (ls_episodes s + l1_episodes r) (ls_facts s + l1_facts r)
    (ls_superseded s + count (0 <? l1_closed r)) (ls_contradicted s + count (0 <? l1_contradictions r))
    (ls_covered s + count (l1_covered r)) (ls_replayed s + count (is_some (l1_stable r)))
    (ls_stable s + count (default false (l1_stable r))) (ls_durations s ++ [l1_duration r])
    (<[l1_type r := add_l1_type (default empty_l1_type (ls_by_type s !! l1_type r)) r]> (ls_by_type s))
    (ls_facts_per_episode s) (ls_supersession_rate s) (ls_contradiction_rate s) (ls_answer_coverage s)
    (ls_replay_stability s) (ls_p50 s) (ls_p95 s).

Definition skip_l1 (s : L1Summary) : L1Summary :=
  MkL1Summary (ls_dataset s) (ls_questions s) (ls_skipped s + 1) (ls_episodes s) (ls_facts s) (ls_superseded s)
    (ls_contradicted s) (ls_covered s) (ls_replayed s) (ls_stable s) (ls_durations s) (ls_by_type s)
    (ls_facts_per_episode s) (ls_supersession_rate s) (ls_contradiction_rate s) (ls_answer_coverage s)
    (ls_replay_stability s) (ls_p50 s) (ls_p95 s).

Definition finish_l1_type (t : L1TypeSummary) : L1TypeSummary :=
  if lt_questions t =? 0 then t
  else
    let n := lt_questions t in
    MkL1TypeSummary n (lt_superseded t) (lt_contradicted t) (lt_covered t)
      (ratio (lt_superseded t) n) (ratio (lt_contradicted t) n) (ratio (lt_covered t) n).

(** [finishL1]. *)
Definition finishL1 (s : L1Summary) : L1Summary :=
  let n := ls_questions s in
  let scored := 0 <? n in
  let sorted := sort_func Z.compare (ls_durations s) in
  MkL1Summary (ls_dataset s) n (ls_skipped s) (ls_episodes s) (ls_facts s) (ls_superseded s) (ls_contradicted s)
    (ls_covered s) (ls_replayed s) (ls_stable s) sorted (finish_l1_type <$> ls_by_type s)
    (if 0 <? ls_episodes s then ratio (ls_facts s) (ls_episodes s) else ls_facts_per_episode s)
    (if scored then ratio (ls_superseded s) n else ls_supersession_rate s)
    (if scored then ratio (ls_contradicted s) n else ls_contradiction_rate s)
    (if scored then ratio (ls_covered s) n else ls_answer_coverage s)
    (if 0 <? ls_replayed s then ratio (ls_stable s) (ls_replayed s) else ls_replay_stability s)
    (percentile sorted 50) (percentile sorted 95).

Section RunAll.
Context `{Tx : Texts} (IsLetter IsDigit : N -> bool) {W : Type}.

(** The loop of [RunL1] over the questions. *)
Fixpoint l1_questions (h : Host W) (one : Question -> op Error W L1Result) (questions : list (res Question)) (s : L1Summary)
    : op Error W L1Summary :=
  match questions with
  | [] => oret s
  | Err e :: _ => ofail e
  | Ok q :: rest =>
      if is_empty (q_answer q) then l1_questions h one rest (skip_l1 s)
      else let! r := one q in l1_questions h one rest (addL1 s r)
  end.

(** [RunL1]. *)
Definition RunL1 (h : Host W) (cfg : L1Config W) (ds : Dataset) : op Error W L1Summary :=
  match lc_memory cfg, lc_worker cfg, lc_facts cfg, lc_extractor cfg with
  | Some m, Some worker, Some fs, Some x =>
      let! s := l1_questions h (runL1 IsLetter IsDigit h m worker fs x (lc_store cfg) (lc_replay cfg))
                  (ds_questions ds) (empty_l1 (ds_name ds)) in
      oret (finishL1 s)
  | _, _, _, _ => ofail (EWrap ErrInvalidConfig)
  end.
End RunAll.
