(* ===== verification/Tables.v ===== *)
(** * The tables a run reports ([eval/metrics.go], [eval/l1.go])

    [Summary.String] and [L1Summary.String]. The digits of a rate and the text of
    a duration are [fmt]'s and parameters; the padding of the columns, the order of
    the categories and the rounding of the durations are the code's. *)

From stdpp Require Import gmap.
From S2P Require Import Types Utf8 GoNum Strconv Fusion Eval EvalL1.

#[local] Open Scope Z_scope.

(** ** [fmt]'s widths, which count runes *)

Definition times (n : Z) (s : string) : string := String.concat EmptyString (replicate (Z.to_nat n) s).

(** [%8s] and [%-26s]. *)
Definition pad_left (width : Z) (s : string) : string := (times (width - rune_count s) " " ++ s)%string.
Definition pad_right (width : Z) (s : string) : string := (s ++ times (width - rune_count s) " ")%string.

(** [Duration.Round], to the nearest multiple, half away from zero, kept in range. *)
Definition Round (d m : Duration) : Duration :=
  if m <=? 0 then d
  else
    let r := Z.rem d m in
    if d <? 0 then
      if - r + - r <? m then d - r
      else let d1 := int64 (d - m - r) in if d1 <? d then d1 else - 2 ^ 63
    else if r + r <? m then d - r
    else let d1 := int64 (d + m - r) in if d <? d1 then d1 else maxInt64.

Definition Microsecond : Duration := 1000.

Section Tables.
(** [%.<n>f], and [Duration.String]. *)
Context (decimals : Z -> float64 -> string) (duration_text : Duration -> string).

Definition rate (width : Z) (x : float64) : string := pad_left width (decimals 3 x).

(** ["  %-26s %5d  %8.3f %10.3f %8.3f %7.3f\n"] *)
Definition metrics_row (name : string) (n : Z) (hit recall ndcg mrr : float64) : string :=
  "  " ++ pad_right 26 name ++ " " ++ pad_left 5 (Itoa n) ++ "  " ++ rate 8 hit ++ " " ++ rate 10 recall ++ " " ++
    rate 8 ndcg ++ " " ++ rate 7 mrr ++ newline.
Definition metrics_header : string :=
  "  " ++ pad_right 26 "category" ++ " " ++ pad_left 5 "n" ++ "  " ++ pad_left 8 "hit@k" ++ " " ++
    pad_left 10 "recall@k" ++ " " ++ pad_left 8 "nDCG@k" ++ " " ++ pad_left 7 "MRR" ++ newline.
Definition rule_line : string := "  " ++ times 70 "-" ++ newline.

(** The categories, sorted. *)
Definition names {V} (m : gmap string V) : list string := sort_func String.compare (map_to_list m).*1.

Definition type_row (by_type : gmap string TypeSummary) (name : string) : string :=
  match by_type !! name with
  | Some t => metrics_row name (ts_questions t) (ts_hit_rate t) (ts_recall t) (ts_ndcg t) (ts_mrr t)
  | None => EmptyString
  end.

(** The table of [Summary.String]: the header, the rule, the whole, the categories. *)
Definition metrics_table (s : Summary) : list string :=
  [metrics_header; rule_line;
   metrics_row "overall" (su_questions s) (su_hit_rate s) (su_recall s) (su_ndcg s) (su_mrr s)] ++
  map (type_row (su_by_type s)) (names (su_by_type s)).

(** [Summary.String]. *)
Definition Summary_String (s : Summary) : string :=
  su_dataset s ++ " -- " ++ su_variant s ++ " -- " ++ Itoa (su_questions s) ++ " scored, " ++ Itoa (su_skipped s) ++
    " skipped, k=" ++ Itoa (su_limit s) ++ newline ++ newline ++
  String.concat EmptyString (metrics_table s) ++
  newline ++ "  " ++ Itoa (su_empty s) ++ " of " ++ Itoa (su_questions s) ++ " questions (" ++
    decimals 1 (f64_mul (f64_of_Z 100) (su_empty_rate s)) ++ "%) matched nothing at all" ++ newline ++
  "  recall latency: p50 " ++ duration_text (Round (su_p50 s) Microsecond) ++ ", p95 " ++
    duration_text (Round (su_p95 s) Microsecond) ++ " (ingest " ++
    duration_text (Round (su_ingested s) Millisecond) ++ ", not part of recall)" ++ newline.

(** ["  %-26s %5d %11.3f %13.3f %9.3f\n"] *)
Definition l1_row (name : string) (n : Z) (superseded contradicted answered : float64) : string :=
  "  " ++ pad_right 26 name ++ " " ++ pad_left 5 (Itoa n) ++ " " ++ rate 11 superseded ++ " " ++
    rate 13 contradicted ++ " " ++ rate 9 answered ++ newline.
Definition l1_header : string :=
  "  " ++ pad_right 26 "category" ++ " " ++ pad_left 5 "n" ++ " " ++ pad_left 11 "superseded" ++ " " ++
    pad_left 13 "contradicted" ++ " " ++ pad_left 9 "answered" ++ newline.
Definition l1_type_row (by_type : gmap string L1TypeSummary) (name : string) : string :=
  match by_type !! name with
  | Some t => l1_row name (lt_questions t) (lt_supersession_rate t) (lt_contradiction_rate t) (lt_answer_coverage t)
  | None => EmptyString
  end.
Definition l1_table (s : L1Summary) : list string :=
  [l1_header; rule_line;
   l1_row "overall" (ls_questions s) (ls_supersession_rate s) (ls_contradiction_rate s) (ls_answer_coverage s)] ++
  map (l1_type_row (ls_by_type s)) (names (ls_by_type s)).

(** [L1Summary.String]. *)
Definition L1Summary_String (s : L1Summary) : string :=
  ls_dataset s ++ " -- L1 -- " ++ Itoa (ls_questions s) ++ " questions scored, " ++ Itoa (ls_skipped s) ++ " skipped" ++
    newline ++ newline ++
  String.concat EmptyString (l1_table s) ++
  newline ++ "  " ++ decimals 3 (ls_facts_per_episode s) ++ " facts per episode (" ++ Itoa (ls_facts s) ++
    " facts from " ++ Itoa (ls_episodes s) ++ " episodes)" ++ newline ++
  (if 0 <? ls_replayed s then
     "  replay asserted the same claims on " ++ decimals 3 (ls_replay_stability s) ++ " of " ++ Itoa (ls_replayed s) ++
       " checked" ++ newline
   else EmptyString) ++
  "  per question: p50 " ++ duration_text (Round (ls_p50 s) Millisecond) ++ ", p95 " ++
    duration_text (Round (ls_p95 s) Millisecond) ++ newline.

(** ** The columns line up *)

(** What fits a column. *)
Definition fits (width : Z) (s : string) : Prop := ValidString s = true /\ rune_count s <= width.

(** A valid text of a known number of runes. *)
Definition wide (n : Z) (s : string) : Prop := ValidString s = true /\ rune_count s = n.

Lemma wide_app m n a b : wide m a -> wide n b -> wide (m + n) (a ++ b)%string.
Proof.
  intros [Ha Hm] [Hb Hn]. split; [by apply ValidString_app|]. rewrite rune_count_app by done. by rewrite Hm, Hn.
Qed.

Lemma times_succ n s : (0 <= n) -> times (n + 1) s = (s ++ times n s)%string.
Proof.
  intros Hn. unfold times. replace (Z.to_nat (n + 1)) with (S (Z.to_nat n)) by lia. cbn [replicate].
  destruct (replicate (Z.to_nat n) s) as [|x l]; cbn [String.concat]; [by rewrite string_app_nil_r|done].
Qed.

Lemma wide_spaces n : 0 <= n -> wide n (times n " ").
Proof.
  intros Hn. revert n Hn. apply natlike_ind; [by split; vm_compute|]. intros n Hn IH. unfold Z.succ.
  rewrite times_succ by done. rewrite Z.add_comm. by apply (wide_app 1 n).
Qed.

Lemma wide_pad_left width s : fits width s -> wide width (pad_left width s).
Proof.
  intros [Hv Hw]. replace width with ((width - rune_count s) + rune_count s) at 1 by lia.
  apply wide_app; [apply wide_spaces; lia|done].
Qed.

Lemma wide_pad_right width s : fits width s -> wide width (pad_right width s).
Proof.
  intros [Hv Hw]. replace width with (rune_count s + (width - rune_count s)) at 1 by lia.
  apply wide_app; [done|apply wide_spaces; lia].
Qed.
(** What every number of a row needs to fit. *)
Definition metrics_fit (name : string) (n : Z) (hit recall ndcg mrr : float64) : Prop :=
  fits 26 name /\ fits 5 (Itoa n) /\ fits 8 (decimals 3 hit) /\ fits 10 (decimals 3 recall) /\
  fits 8 (decimals 3 ndcg) /\ fits 7 (decimals 3 mrr).
Definition type_fits (name : string) (t : TypeSummary) : Prop :=
  metrics_fit name (ts_questions t) (ts_hit_rate t) (ts_recall t) (ts_ndcg t) (ts_mrr t).

Lemma metrics_row_wide name n hit recall ndcg mrr :
  metrics_fit name n hit recall ndcg mrr -> wide 73 (metrics_row name n hit recall ndcg mrr).
Proof.
  intros (H1 & H2 & H3 & H4 & H5 & H6). unfold metrics_row, rate.
  apply (wide_app 2 71); [by split|]. apply (wide_app 26 45); [by apply wide_pad_right|].
  apply (wide_app 1 44); [by split|]. apply (wide_app 5 39); [by apply wide_pad_left|].
  apply (wide_app 2 37); [by split|]. apply (wide_app 8 29); [by apply wide_pad_left|].
  apply (wide_app 1 28); [by split|]. apply (wide_app 10 18); [by apply wide_pad_left|].
  apply (wide_app 1 17); [by split|]. apply (wide_app 8 9); [by apply wide_pad_left|].
  apply (wide_app 1 8); [by split|]. apply (wide_app 7 1); [by apply wide_pad_left|by split].
Qed.

(** The columns of a summary line up: the header, the rule beneath it, the line of
    the whole and the line of every category have the same number of runes, as long
    as each name and number fits its column; and there is one line a category, in
    the order of their names, whatever order the map gives them in. *)
Theorem metrics_table_aligned s :
  metrics_fit "overall" (su_questions s) (su_hit_rate s) (su_recall s) (su_ndcg s) (su_mrr s) ->
  (forall name t, su_by_type s !! name = Some t -> type_fits name t) ->
  Forall (wide 73) (metrics_table s) /\ length (metrics_table s) = (3 + size (su_by_type s))%nat /\
  StronglySorted (fun a b => String.compare a b <> Gt) (names (su_by_type s)) /\
  forall name, name ∈ names (su_by_type s) <-> is_Some (su_by_type s !! name).
Proof.
  intros Hall Htypes.
  assert (forall name, name ∈ names (su_by_type s) <-> is_Some (su_by_type s !! name)) as Hnames.
  { intros name. unfold names, sort_func. by rewrite elem_of_sort_by, elem_of_keys. }
  split; [|split; [|split; [apply sort_func_Sorted, _|exact Hnames]]].
  - unfold metrics_table. apply Forall_app. split.
    + apply Forall_cons. split; [split; vm_compute; reflexivity|].
      apply Forall_cons. split; [split; vm_compute; reflexivity|].
      apply Forall_singleton. by apply metrics_row_wide.
    + apply Forall_map, Forall_forall. intros name [t Ht]%Hnames. unfold type_row. rewrite Ht.
      by apply metrics_row_wide, Htypes.
  - unfold metrics_table, names, sort_func. rewrite length_app, length_map, length_sort_by.
    by rewrite length_fmap, length_map_to_list.
Qed.

(** A duration is rounded to a multiple, and by no more than half of one. *)
Lemma Round_spec d m :
  0 < m -> - 2 ^ 63 + m <= d <= maxInt64 - m ->
  Z.rem (Round d m) m = 0 /\ 2 * Z.abs (Round d m - d) <= m.
Proof.
  unfold maxInt64. intros Hm Hd. unfold Round. rewrite (proj2 (Z.leb_gt _ _)) by lia. cbv zeta.
  pose proof (Z.quot_rem' d m) as Hq. pose proof (Z.rem_bound_abs d m). set (q := Z.quot d m) in *. set (r := Z.rem d m) in *.
  assert (forall k, Z.rem (m * k) m = 0) as Hmul by (intros k; rewrite Z.mul_comm; apply Z.rem_mul; lia).
  destruct (Z.ltb_spec d 0) as [Hneg|Hneg].
  - assert (r <= 0) by (apply Z.rem_nonpos; lia). destruct (Z.ltb_spec (- r + - r) m).
    + replace (d - r) with (m * q) by lia. split; [apply Hmul|lia].
    + rewrite int64_id by lia. rewrite (proj2 (Z.ltb_lt _ _)) by lia.
      replace (d - m - r) with (m * (q - 1)) by lia. split; [apply Hmul|lia].
  - assert (0 <= r) by (apply Z.rem_nonneg; lia). destruct (Z.ltb_spec (r + r) m).
    + replace (d - r) with (m * q) by lia. split; [apply Hmul|lia].
    + rewrite int64_id by lia. rewrite (proj2 (Z.ltb_lt _ _)) by lia.
      replace (d + m - r) with (m * (q + 1)) by lia. split; [apply Hmul|lia].
Qed.
End Tables.

(** ** A concrete table *)

Definition demo_decimals (places : Z) (x : float64) : string := if f_eqb x f_zero then "0.000" else "1.000".
Definition demo_summary : Summary :=
  MkSummary "longmemeval" "both" [] 10 3 1 2 1 f_zero f_zero f_zero [] 0
    (<["temporal" := MkTypeSummary 1 0 f_zero f_zero f_zero f_zero f_zero f_zero f_zero]>
       (<["abstention" := MkTypeSummary 2 2 f_zero f_zero f_zero (f64_of_Z 1) (f64_of_Z 1) (f64_of_Z 1) (f64_of_Z 1)]> ∅))
    (f64_of_Z 1) f_zero (f64_of_Z 1) (f64_of_Z 1) (f64_of_Z 1) 1500 2499.

Example demo_table :
  metrics_table demo_decimals demo_summary =
    ["  category                       n     hit@k   recall@k   nDCG@k     MRR" ++ newline;
     "  ----------------------------------------------------------------------" ++ newline;
     "  overall                        3     1.000      1.000    1.000   1.000" ++ newline;
     "  abstention                     2     1.000      1.000    1.000   1.000" ++ newline;
     "  temporal                       1     0.000      0.000    0.000   0.000" ++ newline]%string.
Proof. vm_compute. reflexivity. Qed.

Lemma metrics_table_aligned_witness :
  Forall (wide 73) (metrics_table demo_decimals demo_summary).
Proof.
  assert (forall s, (s = "0.000" \/ s = "1.000")%string -> forall w, 5 <= w -> fits w s) as Hd.
  { intros s [-> | ->] w Hw; (split; [vm_compute; reflexivity|]); vm_compute rune_count; lia. }
  assert (forall x, demo_decimals 3 x = "0.000"%string \/ demo_decimals 3 x = "1.000"%string) as Hx.
  { intros x. unfold demo_decimals. destruct (f_eqb x f_zero); [left|right]; reflexivity. }
  assert (forall name n, fits 26 name -> fits 5 (Itoa n) -> forall a b c d, metrics_fit demo_decimals name n a b c d) as Hf.
  { intros name n H1 H2 a b c d. split; [exact H1|]. split; [exact H2|].
    split; [|split; [|split]]; apply Hd; try apply Hx; lia. }
  refine (proj1 (metrics_table_aligned demo_decimals demo_summary _ _)).
  - apply Hf; split; vm_compute; try reflexivity; discriminate.
  - intros name t Ht. unfold demo_summary in Ht. cbn [su_by_type] in Ht.
    apply lookup_insert_Some in Ht as [[<- <-]|[_ Ht]].
    { apply Hf; split; vm_compute; try reflexivity; discriminate. }
    apply lookup_insert_Some in Ht as [[<- <-]|[_ Ht]]; [|discriminate Ht].
    apply Hf; split; vm_compute; try reflexivity; discriminate.
Defined.
