(* ===== verification/Evaluation.v ===== *)
(** * What the harness measures ([Eval], [EvalL1])

    That a label refers to the episode it was put on: the loader's indexes, the
    batches of an ingestion and the sequence numbers of the log name one and the
    same turn. That a score counts what it says, and a summary what it was given.
    That a haystack is split into its conversations and nothing else. *)

From stdpp Require Import gmap.
From S2P Require Import Types OpsTypes Validate GoNum Windows Server Db PgQueue Queueing PgEpisode Appending Replaying PgFact FactWriting FactReading PgForget Ports Memory Worker Postgres Deployment Eval EvalL1.

#[local] Open Scope Z_scope.

(** ** The loader *)

Definition blank (turn : lmeTurn) : bool := is_empty (TrimSpace (lt_content turn)).

(** The turns that become episodes. *)
Definition kept_turns (li : lmeInstance) : list lmeTurn := List.filter (fun t => negb (blank t)) (concat (li_sessions li)).

(** The positions of the turns that carry the answer, counted from [base]. *)
Fixpoint answers_from (base : Z) (turns : list lmeTurn) : list Z :=
  match turns with
  | [] => []
  | t :: turns' => (if lt_has_answer t then [base] else []) ++ answers_from (base + 1) turns'
  end.

Lemma answers_from_app base l1 l2 :
  answers_from base (l1 ++ l2) = answers_from base l1 ++ answers_from (base + Z.of_nat (length l1)) l2.
Proof.
  revert base. induction l1 as [|t l1 IH]; intros base; cbn [answers_from app length]; [by rewrite Z.add_0_r|].
  rewrite IH, <- app_assoc. do 3 f_equal. lia.
Qed.

Lemma answers_from_spec base turns x :
  x ∈ answers_from base turns <-> exists i t, x = base + Z.of_nat i /\ turns !! i = Some t /\ lt_has_answer t = true.
Proof.
  revert base. induction turns as [|t turns IH]; intros base; cbn [answers_from].
  - split; [by intros ?%not_elem_of_nil|]. by intros (i & t & _ & H & _).
  - rewrite elem_of_app, IH. split.
    + intros [Hx|(i & t' & -> & Hi & Ht)]; [|exists (S i), t'; split; [lia|done]].
      destruct (lt_has_answer t) eqn:Ht; [|by apply not_elem_of_nil in Hx]. apply list_elem_of_singleton in Hx as ->.
      exists 0%nat, t. split; [lia|done].
    + intros ([|i] & t' & -> & Hi & Ht).
      * injection Hi as ->. left. rewrite Ht, Z.add_0_r. by left.
      * right. exists i, t'. split; [lia|done].
Qed.

(** What a question holds after some turns. *)
Definition reads_turns (q : Question) (turns : list lmeTurn) : Prop :=
  map ar_content (q_haystack q) = map lt_content turns /\ q_relevant q = answers_from 0 turns.

Lemma read_turn_spec occurred session q turn q' turns :
  reads_turns q turns -> read_turn occurred session q turn = Ok q' ->
  reads_turns q' (turns ++ if blank turn then [] else [turn]).
Proof.
  intros [Hc Hr]. unfold read_turn. fold (blank turn). destruct (blank turn).
  - intros [= <-]. by rewrite app_nil_r.
  - intros (role & _ & [= <-])%rbind_Ok. unfold reads_turns. cbn [q_haystack q_relevant]. rewrite !map_app, Hc. split; [done|].
    rewrite answers_from_app, <- Hr, <- (length_map lt_content turns), <- Hc, length_map. cbn [answers_from].
    destruct (lt_has_answer turn); by rewrite ?app_nil_r, ?Z.add_0_l.
Qed.

Lemma read_turns_spec occurred session l q q' turns :
  reads_turns q turns -> fold_res (read_turn occurred session) q l = Ok q' ->
  reads_turns q' (turns ++ List.filter (fun t => negb (blank t)) l).
Proof.
  revert q turns. induction l as [|t l IH]; intros q turns Hq; cbn; [intros [= <-]; by rewrite app_nil_r|].
  intros (q1 & H1 & Hl)%rbind_Ok. apply (read_turn_spec _ _ _ _ _ _ Hq) in H1. specialize (IH _ _ H1 Hl).
  rewrite <- app_assoc in IH. by destruct (blank t).
Qed.

Lemma read_sessions_spec parse_date li l n turns q q' :
  reads_turns q turns -> fold_res (read_session parse_date li) q (imap (fun i s => ((n + i)%nat, s)) l) = Ok q' ->
  reads_turns q' (turns ++ List.filter (fun t => negb (blank t)) (concat l)).
Proof.
  revert n turns q. induction l as [|s l IH]; intros n turns q Hq; cbn [imap fold_res concat].
  - intros [= <-]. by rewrite app_nil_r.
  - intros (q1 & H1 & Hl)%rbind_Ok. rewrite List.filter_app, app_assoc. apply (IH (S n) _ q1).
    + unfold read_session in H1. destruct (li_haystack_dates li !! _); [|done]. destruct (parse_date _); [|done].
      by eapply read_turns_spec.
    + erewrite imap_ext; [exact Hl|]. intros i x _. cbn. f_equal. lia.
Qed.

(** A question's labels point at the turns that carry its answer. What the loader
    yields holds the benchmark's turns in order, blank ones left out, and its
    relevant indexes are exactly the positions, among those that are kept, of the
    turns marked as having the answer. *)
Theorem question_labels parse_date li q :
  question parse_date li = Ok q ->
  map ar_content (q_haystack q) = map lt_content (kept_turns li) /\
  forall x, x ∈ q_relevant q <-> exists i t, x = Z.of_nat i /\ kept_turns li !! i = Some t /\ lt_has_answer t = true.
Proof.
  unfold question. destruct (parse_date (li_date li)); [|done]. intros Hq.
  apply (read_sessions_spec _ _ _ 0 []) in Hq as [Hc Hr]; [|done]. split; [done|].
  intros x. rewrite Hr, answers_from_spec. by setoid_rewrite Z.add_0_l.
Qed.

(** ** Conversations *)

(** Consecutive parts are of different sessions. *)
Definition parted (parts : list (list AppendRequest)) : Prop :=
  forall i p q a b, parts !! i = Some p -> parts !! S i = Some q -> a ∈ p -> b ∈ q -> session_of a <> session_of b.

Definition of_one_session (part : list AppendRequest) : Prop :=
  part <> [] /\ forall a b, a ∈ part -> b ∈ part -> session_of a = session_of b.

(** What [sessions] has after some requests. *)
Record split_ok (st : list (list AppendRequest) * string) (seen : list AppendRequest) : Prop := {
  so_concat : concat st.1 = seen;
  so_parts : Forall of_one_session st.1;
  so_parted : parted st.1;
  so_last : forall part a, last st.1 = Some part -> a ∈ part -> session_of a = st.2;
}.

Lemma parted_snoc parts part :
  parted parts -> (forall p a b, last parts = Some p -> a ∈ p -> b ∈ part -> session_of a <> session_of b) ->
  parted (parts ++ [part]).
Proof.
  intros Hp Hl i p q a b Hi Hsi Ha Hb. destruct (decide (S i < length parts)%nat) as [Hlt|Hge].
  - rewrite lookup_app_l in Hi by lia. rewrite lookup_app_l in Hsi by done. by apply (Hp i p q).
  - assert (S i = length parts) as Heq.
    { apply lookup_lt_Some in Hsi. rewrite length_app in Hsi. cbn in Hsi. lia. }
    rewrite lookup_app_l in Hi by lia. rewrite Heq, list_lookup_middle in Hsi by done. injection Hsi as <-.
    apply (Hl p a b); [|done|done]. rewrite last_lookup, <- Heq. done.
Qed.

Lemma split_session_ok st seen r : split_ok st seen -> split_ok (split_session st r) (seen ++ [r]).
Proof.
  intros [Hc Hparts Hparted Hlast]. destruct st as [parts current]. cbn [fst snd] in *. unfold split_session. cbn [fst snd].
  destruct parts as [|p0 ps] using rev_ind; [|clear IHps].
  { cbn in *. subst seen. split; cbn.
    - done.
    - constructor; [|constructor]. split; [done|]. by intros a b ->%list_elem_of_singleton ->%list_elem_of_singleton.
    - intros [|i] p q a b; cbn; done.
    - by intros part a [= <-] ->%list_elem_of_singleton. }
  replace (match ps ++ [p0] with
           | [] => ([[]], session_of r)
           | _ :: _ => if String.eqb (session_of r) current then (ps ++ [p0], current) else ((ps ++ [p0]) ++ [[]], session_of r)
           end) with (if String.eqb (session_of r) current then (ps ++ [p0], current) else ((ps ++ [p0]) ++ [[]], session_of r))
    by (by destruct ps).
  apply Forall_app in Hparts as [Hps Hp0]. pose proof Hp0 as Hone. rewrite Forall_singleton in Hone. destruct Hone as [Hne Hsame].
  assert (forall a, a ∈ p0 -> session_of a = current) as Hcur by (intros a; apply Hlast; by rewrite last_snoc).
  destruct (String.eqb_spec (session_of r) current) as [Heq|Hneq]; cbn [fst snd];
    rewrite last_snoc, length_app, Nat.add_sub, take_app_length.
  - split; cbn [fst snd].
    + rewrite <- Hc, !concat_app. cbn. by rewrite !app_nil_r, app_assoc.
    + apply Forall_app. split; [done|]. apply Forall_singleton. split; [by destruct p0|].
      intros a b Ha Hb. assert (forall x, x ∈ p0 ++ [r] -> session_of x = current) as Hx; [|by rewrite !Hx].
      intros x [Hx| ->%list_elem_of_singleton]%elem_of_app; [by apply Hcur|done].
    + assert (parted ps) as Hpps.
      { intros i p q a b Hi Hsi. apply (Hparted i); rewrite lookup_app_l by (by eapply lookup_lt_Some); done. }
      apply parted_snoc; [done|]. intros p a b Hp Ha Hb.
      assert (exists x, x ∈ p0) as [x Hx] by (destruct p0 as [|x]; [done|exists x; by left]).
      assert (session_of b = session_of x) as ->.
      { rewrite (Hcur x Hx). by apply elem_of_app in Hb as [Hb| ->%list_elem_of_singleton]; [apply Hcur|]. }
      rewrite last_lookup in Hp. destruct (length ps) as [|n] eqn:Hn; [by destruct ps|]. cbn in Hp.
      apply (Hparted n p p0 a x); [|by apply list_lookup_middle|done|done].
      rewrite lookup_app_l by lia. done.
    + intros part a. rewrite last_snoc. intros [= <-] [Ha| ->%list_elem_of_singleton]%elem_of_app; [by apply Hcur|done].
  - split; cbn [fst snd].
    + rewrite <- Hc, !concat_app. cbn. by rewrite !app_nil_r.
    + apply Forall_app. split; [by apply Forall_app|]. apply Forall_singleton. split; [done|].
      by intros a b ->%list_elem_of_singleton ->%list_elem_of_singleton.
    + apply parted_snoc; [done|]. intros p a b. rewrite last_snoc. intros [= <-] Ha ->%list_elem_of_singleton.
      rewrite (Hcur a Ha). congruence.
    + intros part a. rewrite last_snoc. by intros [= <-] ->%list_elem_of_singleton.
Qed.

(** [sessions] takes a haystack apart into its conversations: put together again the
    parts are the haystack, each part is one conversation's and not empty, and
    where one ends another begins. *)
Theorem sessions_spec haystack :
  concat (sessions haystack) = haystack /\ Forall of_one_session (sessions haystack) /\ parted (sessions haystack).
Proof.
  assert (split_ok (foldl split_session ([], EmptyString) haystack) haystack) as [Hc Hp Hd _]; [|done].
  induction haystack as [|r l IH] using rev_ind.
  - split; cbn; [done|constructor| |done]. by intros i p q a b Hi.
  - rewrite foldl_snoc. by apply split_session_ok.
Qed.

(** ** Scores *)

Section Scores.
Context (Log2 : float64 -> float64).

Definition labelled (relevant : list Z) (e : RecalledEpisode) : bool := bool_decide (ep_seq (re_episode e) - 1 ∈ relevant).

(** The ranks, from 0, of the episodes a label names. *)
Definition hit_ranks (relevant : list Z) (episodes : list RecalledEpisode) : list nat :=
  omap (fun p => if labelled relevant p.2 then Some p.1 else None) (imap pair episodes).

(** Their gain, one by one in binary64. *)
Definition gain (ranks : list nat) : float64 := foldl (fun g i => f64_add g (discount Log2 i)) f_zero ranks.

Definition reciprocal (rank : nat) : float64 := f64_div (f64_of_Z 1) (f64_of_Z (Z.of_nat rank + 1)).

Lemma score_one_labelled relevant st p :
  score_one Log2 relevant st p =
  if labelled relevant p.2 then
    MkScored (sc_found st + 1) (match sc_rr st with None => Some (reciprocal p.1) | Some rr => Some rr end)
      (f64_add (sc_gain st) (discount Log2 p.1))
  else st.
Proof. done. Qed.

Lemma score_fold relevant (l : list (nat * RecalledEpisode)) :
  let ranks := omap (fun p => if labelled relevant p.2 then Some p.1 else None) l in
  foldl (score_one Log2 relevant) (MkScored 0 None f_zero) l =
  MkScored (Z.of_nat (length ranks)) (reciprocal <$> head ranks) (gain ranks).
Proof.
  induction l as [|p l IH] using rev_ind; [done|]. cbv zeta. rewrite foldl_snoc, IH, omap_app. cbn [omap list_omap].
  rewrite score_one_labelled. cbn [sc_found sc_rr sc_gain]. set (ranks := omap _ l). destruct (labelled relevant p.2).
  - unfold gain. rewrite length_app, foldl_snoc. f_equal; [cbn; lia|]. by destruct ranks.
  - by rewrite app_nil_r.
Qed.

Lemma elem_of_hit_ranks relevant episodes i :
  i ∈ hit_ranks relevant episodes <-> exists e, episodes !! i = Some e /\ ep_seq (re_episode e) - 1 ∈ relevant.
Proof.
  unfold hit_ranks. rewrite list_elem_of_omap. split.
  - intros ([j e] & (k & e' & [= -> ->] & He)%elem_of_lookup_imap & Hf). cbn in Hf.
    destruct (labelled relevant e') eqn:Hl; [|done]. injection Hf as <-. exists e'. split; [done|].
    by apply bool_decide_eq_true in Hl.
  - intros (e & He & Hin). exists (i, e). split; [by apply elem_of_lookup_imap; exists i, e|]. cbn.
    unfold labelled. by rewrite bool_decide_true.
Qed.

Lemma hit_ranks_sorted relevant episodes : StronglySorted lt (hit_ranks relevant episodes).
Proof.
  unfold hit_ranks. assert (forall n, StronglySorted lt (omap (fun p => if labelled relevant p.2 then Some p.1 else None)
    (imap (fun i e => ((n + i)%nat, e)) episodes))) as H; [|apply (H 0%nat)].
  induction episodes as [|e l IH]; intros n; cbn; [constructor|]. specialize (IH (S n)).
  assert (imap ((fun i e => ((n + i)%nat, e)) ∘ S) l = imap (fun i e => ((S n + i)%nat, e)) l) as ->.
  { apply imap_ext. intros i x _. cbn. f_equal. lia. }
  destruct (labelled relevant e); [|done]. constructor; [done|]. apply Forall_forall.
  intros x ([j y] & (k & y' & [= -> ->] & _)%elem_of_lookup_imap & Hf)%list_elem_of_omap. cbn in Hf.
  destruct (labelled relevant y'); [injection Hf as <-; lia|done].
Qed.

(** Distinct episodes hit distinct labels. *)
Lemma hit_ranks_bound relevant episodes :
  NoDup (map (fun e => ep_seq (re_episode e)) episodes) -> (length (hit_ranks relevant episodes) <= length relevant)%nat.
Proof.
  intros Hnd. set (seqs := map (fun e => ep_seq (re_episode e) - 1) (List.filter (labelled relevant) episodes)).
  assert (length (hit_ranks relevant episodes) = length seqs) as ->.
  { unfold seqs, hit_ranks. rewrite length_map. clear. assert (forall f : nat -> nat,
      length (omap (fun p => if labelled relevant p.2 then Some p.1 else None) (imap (fun i e => (f i, e)) episodes)) =
      length (List.filter (labelled relevant) episodes)) as H; [|apply (H id)].
    induction episodes as [|e l IH]; intros f; cbn; [done|]. destruct (labelled relevant e); cbn; [f_equal|]; apply (IH (f ∘ S)). }
  apply submseteq_length, NoDup_submseteq.
  - unfold seqs. clear seqs. assert (NoDup (map (fun e => ep_seq (re_episode e) - 1) episodes)) as H.
    { rewrite <- (map_map (fun e => ep_seq (re_episode e)) (fun z => z - 1)). apply NoDup_fmap; [intros x y; lia|done]. }
    by apply NoDup_map_filter.
  - intros x (e & -> & He)%list_elem_of_fmap. apply elem_of_filter_b in He as [_ He]. by apply bool_decide_eq_true in He.
Qed.

(** [score] counts what it says. It looks at the ranks whose episode's sequence
    number is one past a labelled index: the recall is their number over that of
    the distinct labels, never above one when no episode is returned twice; there
    is a hit when there is one, and then the reciprocal rank is the first's; and
    the nDCG is their discounted gain, summed in rank order, over that of as many
    ranks from the top as there are labels or places. *)
Theorem score_spec q rec limit :
  let labels := remove_dups (q_relevant q) in
  let r := score Log2 q rec limit in
  exists ranks, StronglySorted lt ranks /\
    (forall i, i ∈ ranks <-> exists e, rec_episodes rec !! i = Some e /\ ep_seq (re_episode e) - 1 ∈ q_relevant q) /\
    (NoDup (map (fun e => ep_seq (re_episode e)) (rec_episodes rec)) -> (length ranks <= length labels)%nat) /\
    rs_relevant r = Z.of_nat (length labels) /\ rs_returned r = Z.of_nat (length (rec_episodes rec)) /\
    rs_recall r = ratio (Z.of_nat (length ranks)) (Z.of_nat (length labels)) /\
    (rs_hit r = true <-> ranks <> []) /\ rs_reciprocal_rank r = default f_zero (reciprocal <$> head ranks) /\
    let ideal := gain (seq 0 (Z.to_nat (Z.min (Z.of_nat (length labels)) limit))) in
    rs_ndcg r = if f_gtb ideal f_zero then f64_div (gain ranks) ideal else f_zero.
Proof.
  intros labels r. exists (hit_ranks labels (rec_episodes rec)). unfold r, score. fold labels. rewrite score_fold.
  fold (hit_ranks labels (rec_episodes rec)). cbn [sc_found sc_rr sc_gain rs_relevant rs_returned rs_recall rs_hit rs_reciprocal_rank rs_ndcg].
  split; [apply hit_ranks_sorted|]. split.
  { intros i. rewrite elem_of_hit_ranks. unfold labels. by setoid_rewrite elem_of_remove_dups. }
  split; [apply hit_ranks_bound|]. do 3 (split; [done|]). split; [|done].
  by destruct (hit_ranks labels (rec_episodes rec)).
Qed.

(** The score of a perfect answer divides its gain by itself. *)
Lemma perfect_ndcg q rec limit n :
  hit_ranks (remove_dups (q_relevant q)) (rec_episodes rec) = seq 0 n ->
  n = Z.to_nat (Z.min (Z.of_nat (length (remove_dups (q_relevant q)))) limit) -> f_gtb (gain (seq 0 n)) f_zero = true ->
  rs_ndcg (score Log2 q rec limit) = f64_div (gain (seq 0 n)) (gain (seq 0 n)).
Proof.
  intros Hr -> Hpos. unfold score. rewrite score_fold. fold (hit_ranks (remove_dups (q_relevant q)) (rec_episodes rec)).
  rewrite Hr. cbn [sc_gain rs_ndcg]. unfold idcg. fold (gain (seq 0 (Z.to_nat (Z.min (Z.of_nat (length (remove_dups (q_relevant q)))) limit)))).
  by rewrite Hpos.
Qed.
End Scores.

(** ** Summaries *)

Definition total (f : TypeSummary -> Z) (m : gmap string TypeSummary) : Z := map_fold (fun _ t acc => f t + acc) 0 m.

Lemma total_fresh f key t m : m !! key = None -> total f (<[key := t]> m) = f t + total f m.
Proof. intros Hm. unfold total. rewrite map_fold_insert_L; [done| |done]. intros. lia. Qed.

Lemma total_insert f key t m : total f (<[key := t]> m) = total f m - default 0 (f <$> m !! key) + f t.
Proof.
  rewrite <- insert_delete_eq, total_fresh by apply lookup_delete_eq.
  destruct (m !! key) as [t0|] eqn:Hm; cbn; [|rewrite delete_id by done; lia].
  rewrite <- (insert_delete_id m key t0 Hm) at 2. rewrite total_fresh by apply lookup_delete_eq. lia.
Qed.

Lemma total_fmap f (g : TypeSummary -> TypeSummary) m : (forall t, f (g t) = f t) -> total f (g <$> m) = total f m.
Proof.
  intros Hg. induction m as [|key t m Hm IH] using map_ind; [by rewrite fmap_empty|].
  rewrite fmap_insert, !total_fresh by (done || by rewrite lookup_fmap, Hm). by rewrite Hg, IH.
Qed.

(** A summary that has been given [n] questions. *)
Record summary_ok (n : Z) (s : Summary) : Prop := {
  sm_all : su_questions s + su_skipped s = n;
  sm_hits : 0 <= su_hits s <= su_questions s;
  sm_empty : 0 <= su_empty s <= su_questions s;
  sm_latencies : Z.of_nat (length (su_latencies s)) = su_questions s;
  sm_by_type : total ts_questions (su_by_type s) = su_questions s;
  sm_hits_by_type : total ts_hits (su_by_type s) = su_hits s;
}.

Lemma count_range b : 0 <= count b <= 1.
Proof. destruct b; cbn; lia. Qed.

Lemma empty_summary_ok dataset variant channels limit : summary_ok 0 (empty_summary dataset variant channels limit).
Proof. split; cbn; done. Qed.

Lemma skip_ok n s : summary_ok n s -> summary_ok (n + 1) (skip s).
Proof. intros [H1 H2 H3 H4 H5 H6]. split; cbn; try done; lia. Qed.

Lemma add_ok n s r : summary_ok n s -> summary_ok (n + 1) (add s r).
Proof.
  intros [H1 H2 H3 H4 H5 H6]. pose proof (count_range (rs_hit r)). pose proof (count_range (rs_returned r =? 0)).
  split; cbn; [lia|lia|lia|rewrite length_app; cbn; lia| |].
  - rewrite total_insert. cbn. destruct (su_by_type s !! rs_type r); cbn; lia.
  - rewrite total_insert. cbn. destruct (su_by_type s !! rs_type r); cbn; lia.
Qed.

Lemma finish_ok n s : summary_ok n s -> summary_ok n (finish s).
Proof.
  assert (forall t, ts_questions (finish_type t) = ts_questions t /\ ts_hits (finish_type t) = ts_hits t) as Ht.
  { intros t. unfold finish_type. by destruct (ts_questions t =? 0). }
  intros [H1 H2 H3 H4 H5 H6]. split; cbn; [done..| | |].
  - unfold sort_func. by rewrite length_sort_by.
  - rewrite total_fmap; [done|]. apply Ht.
  - rewrite total_fmap; [done|]. apply Ht.
Qed.

Section Counts.
Context {W : Type} (Log2 : float64 -> float64).

Lemma omapM_length {S A B} (f : A -> op Error S B) l s s' ys : omapM f l s = (s', Ok ys) -> length ys = length l.
Proof.
  revert s ys. induction l as [|x l IH]; intros s ys; cbn; [by intros [= _ <-]|].
  intros (s1 & y & _ & (s2 & ys' & Hl & [= -> <-])%obind_Ok)%obind_Ok. cbn. f_equal. by eapply IH.
Qed.

Lemma run_length (h : Host W) cfg m q limit variants w w' rs :
  run Log2 h cfg m q limit variants w = (w', Ok rs) -> length rs = length variants.
Proof.
  unfold run. intros (? & ? & _ & (? & ? & _ & (? & ? & _ & (? & ? & _ & (? & results & Hm & Hs)
    %obind_Ok)%obind_Ok)%obind_Ok)%obind_Ok)%obind_Ok.
  apply omapM_length in Hm. rewrite length_imap in Hm.
  destruct (ec_store cfg); [apply obind_Ok in Hs as (? & ? & _ & Hs)|]; by injection Hs as _ <-.
Qed.

Lemma run_questions_ok (h : Host W) cfg m limit variants qs n ss w w' ss' :
  run_questions Log2 h cfg m limit variants qs ss w = (w', Ok ss') ->
  length ss = length variants -> Forall (summary_ok n) ss ->
  length ss' = length variants /\ Forall (summary_ok (n + Z.of_nat (length qs))) ss'.
Proof.
  revert n ss w. induction qs as [|[q|e] qs IH]; intros n ss w; cbn [run_questions]; [| |done].
  { intros [= _ <-] Hl Hok. cbn. by rewrite Z.add_0_r. }
  intros Hrun Hl Hok. replace (n + Z.of_nat (length (Ok (E := Error) q :: qs))) with (n + 1 + Z.of_nat (length qs)) by (cbn; lia).
  destruct (q_relevant q).
  - eapply IH; [exact Hrun|by rewrite length_map|]. apply Forall_map. eapply Forall_impl; [exact Hok|]. intros s. apply skip_ok.
  - apply obind_Ok in Hrun as (w1 & rs & Hr & Hrun). apply run_length in Hr.
    eapply IH; [exact Hrun|rewrite length_zip_with; lia|]. clear -Hok. revert rs.
    induction Hok as [|s ss Hs _ IH]; intros [|r rs]; cbn; constructor; [by apply add_ok|done].
Qed.

(** A run loses no question and counts none twice. When [Run] returns there is one
    summary for each variant, and in each every question of the dataset is either
    scored or skipped; hits and empty answers are among the scored; and the
    categories share the scored questions and the hits out between them. *)
Theorem Run_counts (h : Host W) cfg ds w w' ss :
  Run Log2 h cfg ds w = (w', Ok ss) ->
  length ss = Nat.max 1 (length (ec_variants cfg)) /\
  Forall (summary_ok (Z.of_nat (length (ds_questions ds)))) ss.
Proof.
  unfold Run. destruct (ec_memory cfg) as [m|]; [|done]. intros (w1 & ss0 & Hrun & [= _ <-])%obind_Ok.
  apply (run_questions_ok _ _ _ _ _ _ 0) in Hrun as [Hl Hok].
  - rewrite length_map, Hl. split.
    + unfold resolve_variants. destruct (ec_variants cfg); cbn; [done|by rewrite length_map].
    + apply Forall_map. eapply Forall_impl; [exact Hok|]. intros s. apply finish_ok.
  - by rewrite length_map.
  - apply Forall_map, Forall_true. intros v. apply empty_summary_ok.
Qed.
End Counts.

(** ** Ingestion *)

Section Ingestion.
Context `{Sv : Server} `{!ServerLaws Sv} {E : Type}.
Implicit Types (w : World E) (m : Memory (World E)).

(** A request whose text the server can store. *)
Definition storable (r : AppendRequest) : bool :=
  forallb pg_text [ar_scope r; ar_content r; ar_actor r; ar_source r] &&
  forallb (fun kv => pg_text kv.1 && pg_text kv.2) (map_to_list (Binding_entries (Binding_Clone (ar_binding r)))).

Lemma batch_storable now reqs scope :
  reqs <> [] -> Forall (fun r => ar_scope r = scope /\ storable r = true) reqs -> batch_texts now reqs = true.
Proof.
  intros Hne Hall. unfold batch_texts, cmd_texts. cbn [ac_episodes].
  assert (cmd_scope (MkAppendCommand (map (new_episode now) reqs) []) = scope) as ->.
  { destruct reqs as [|r reqs]; [done|]. by apply Forall_cons in Hall as [[? _] _]. }
  apply andb_true_iff. split; apply forallb_forall; intros x; rewrite <- list_elem_of_In; rewrite Forall_forall in Hall.
  - intros [->|Hx]%elem_of_cons.
    + destruct reqs as [|r reqs]; [done|]. destruct (Hall r) as [<- Hr]; [by left|]. unfold storable in Hr.
      cbn in Hr. rewrite !andb_true_iff in Hr. tauto.
    + rewrite map_map in Hx. apply list_elem_of_In, in_concat in Hx as (texts & Hin & Hx).
      apply list_elem_of_In, list_elem_of_fmap in Hin as (r & -> & Hr). destruct (Hall r Hr) as [_ Hs].
      unfold storable in Hs. cbn in Hs. rewrite !andb_true_iff in Hs. cbn in Hx. naive_solver.
  - intros (r & -> & Hr)%list_elem_of_fmap.
    destruct (Hall r Hr) as [_ Hs]. unfold storable in Hs. apply andb_true_iff in Hs as [_ Hs]. exact Hs.
Qed.

(** The rows an ingestion adds: the requests in order, numbered on from [base]. *)
Definition rows_of (scope : ScopeID) (base : Z) (reqs : list AppendRequest) (rows : list EpisodeRow) : Prop :=
  length rows = length reqs /\
  forall i req, reqs !! i = Some req -> exists r, rows !! i = Some r /\ er_scope r = scope /\
    er_seq r = base + 1 + Z.of_nat i /\ er_content r = ar_content req /\ er_role r = ar_role req.

Lemma rows_of_app scope base l1 l2 r1 r2 :
  rows_of scope base l1 r1 -> rows_of scope (base + Z.of_nat (length l1)) l2 r2 -> rows_of scope base (l1 ++ l2) (r1 ++ r2).
Proof.
  intros [H1 Hr1] [H2 Hr2]. split; [by rewrite !length_app, H1, H2|]. intros i req Hi.
  destruct (decide (i < length l1)%nat) as [Hlt|Hge].
  - rewrite lookup_app_l in Hi by done. destruct (Hr1 i req Hi) as (r & Hr & H). exists r. by rewrite lookup_app_l by lia.
  - rewrite lookup_app_r in Hi by lia. destruct (Hr2 _ req Hi) as (r & Hr & Hs & Hq & Hc & Hro). exists r.
    rewrite lookup_app_r, H1 by lia. split; [done|]. split; [done|]. split; [lia|done].
Qed.

(** A clock beside the database, that reads no zero once it has started. *)
Definition clock_ok (started : E -> Prop) (c : Clock (World E)) : Prop :=
  (forall w, w_db (Now c w).1 = w_db w) /\
  forall w, started (w_env w) -> t_ns (Now c w).2 <> 0 /\ started (w_env (Now c w).1).

Lemma ingest_batch (locked : E -> list JobID) dims started m scope reqs w :
  m_store m = pg_store locked dims -> clock_ok started (m_clock m) -> started (w_env w) -> sound w -> db_ready (w_db w) = true ->
  reqs <> [] -> Z.of_nat (length reqs) <= MaxAppendBatch ->
  Forall (fun r => AppendRequest_Validate r = Ok tt /\ ar_scope r = scope /\ storable r = true) reqs ->
  exists w' eps rows, AppendBatch m reqs w = (w', Ok eps) /\ started (w_env w') /\ sound w' /\ db_ready (w_db w') = true /\
    db_episodes (w_db w') = db_episodes (w_db w) ++ rows /\ rows_of scope (last_seq_of scope (w_db w)) reqs rows /\
    last_seq_of scope (w_db w') = last_seq_of scope (w_db w) + Z.of_nat (length reqs).
Proof.
  intros Hm [Hclock Hstarted] Hst0 Hok Hready Hne Hlen Hall.
  destruct (Now (m_clock m) w) as [w1 now] eqn:Hnow. pose proof (Hclock w) as Hdb. destruct (Hstarted w Hst0) as [Hnz Hst1].
  rewrite Hnow in Hdb, Hnz, Hst1. cbn in Hdb, Hnz, Hst1.
  destruct (AppendBatch_run locked dims m reqs w w1 now scope) as (d' & r & Hrun & Happ & Hst & _); [done..| | |].
  { eapply Forall_impl; [exact Hall|]. naive_solver. }
  { apply (batch_storable now reqs scope); [done|]. eapply Forall_impl; [exact Hall|]. naive_solver. }
  assert (Z.of_nat (length (ac_episodes (MkAppendCommand (map (new_episode now) reqs) (jobsFor m scope)))) < 2 ^ 31) as Hl.
  { cbn. rewrite length_map. unfold MaxAppendBatch in Hlen. lia. }
  destruct (Append_written _ _ _ _ Hok Hl Happ) as (s & rows & jobs & Hcmd & Hs & Hpost & _).
  assert (s = scope) as ->.
  { rewrite Hs. unfold cmd_scope. cbn [ac_episodes]. destruct reqs as [|q reqs]; [done|].
    by apply Forall_cons in Hall as [(_ & ? & _) _]. }
  destruct Hpost as [Hok' (mint & _ & Hrows) Heps Hseq _ _ _ _ (_ & _ & _ & Hready') _].
  exists (MkWorld d' (w_env w1)), (res_episodes r), rows. cbn [w_db w_env ac_episodes] in *. do 5 (split; [done|]). split; [|by rewrite Hseq, length_map].
  split; [by rewrite Hrows, length_episode_rows, length_map|]. intros i req Hi.
  eexists. rewrite Hrows, (episode_rows_lookup _ _ _ _ i (new_episode now req)); [done|]. by rewrite list_lookup_fmap, Hi.
Qed.
Lemma ingest_batches_run (locked : E -> list JobID) dims started m scope fuel haystack w :
  m_store m = pg_store locked dims -> clock_ok started (m_clock m) -> started (w_env w) -> sound w -> db_ready (w_db w) = true ->
  (length haystack <= fuel)%nat ->
  Forall (fun r => AppendRequest_Validate (in_scope scope r) = Ok tt /\ storable (in_scope scope r) = true) haystack ->
  exists w' rows, ingest_batches fuel m scope haystack w = (w', Ok tt) /\ sound w' /\ db_ready (w_db w') = true /\
    db_episodes (w_db w') = db_episodes (w_db w) ++ rows /\
    rows_of scope (last_seq_of scope (w_db w)) (map (in_scope scope) haystack) rows.
Proof.
  intros Hm Hclock. assert (forall fuel w, sound w -> db_ready (w_db w) = true ->
    exists w' rows, ingest_batches fuel m scope [] w = (w', Ok tt) /\ sound w' /\ db_ready (w_db w') = true /\
      db_episodes (w_db w') = db_episodes (w_db w) ++ rows /\ rows_of scope (last_seq_of scope (w_db w)) [] rows) as Hnil.
  { intros f w0 Hok Hready. exists w0, []. rewrite app_nil_r. split; [by destruct f|]. do 3 (split; [done|]).
    split; [done|]. by intros [|i]. }
  revert haystack w. induction fuel as [|fuel IH]; intros [|r haystack] w Hst Hok Hready Hf Hall;
    [by apply Hnil|cbn in Hf; lia|by apply Hnil|].
  set (l := r :: haystack) in *. change (ingest_batches (S fuel) m scope l) with
    (AppendBatch m (map (in_scope scope) (take (Z.to_nat MaxAppendBatch) l)) ;;;
     ingest_batches fuel m scope (drop (Z.to_nat MaxAppendBatch) l)).
  set (n := Z.to_nat MaxAppendBatch). rewrite <- (take_drop n l) in Hall. apply Forall_app in Hall as [H1 H2].
  assert (n = S (Nat.pred n)) as Hn by reflexivity.
  destruct (ingest_batch locked dims started m scope (map (in_scope scope) (take n l)) w)
    as (w1 & eps & rows1 & Hrun & Hst1 & Hok1 & Hready1 & He1 & Hr1 & Hs1);
    [done|done|done|done|done| | | |].
  { rewrite Hn. done. }
  { rewrite length_map, length_take. unfold n. unfold MaxAppendBatch. lia. }
  { apply Forall_map. eapply Forall_impl; [exact H1|]. naive_solver. }
  destruct (IH (drop n l) w1) as (w' & rows2 & Hrest & Hok' & Hready' & He2 & Hr2); [done|done|done| |done|].
  { rewrite length_drop. cbn [length l] in *. unfold l in *. cbn in Hf. cbn. rewrite Hn. lia. }
  exists w', (rows1 ++ rows2). unfold obind. rewrite Hrun, Hrest. split_and!; [done..| |].
  - by rewrite He2, He1, app_assoc.
  - rewrite <- (take_drop n l) at 1. rewrite map_app. apply rows_of_app; [done|]. by rewrite <- Hs1.
Qed.

(** C39: A label names the episode it was put on. Over the adapter, a haystack of valid,
    storable requests is ingested without fail into a scope that has never been
    used, whatever its length; and of every episode that any recall of that scope
    then shows, in any order of its channels and after any consolidation, the
    sequence number less one is the position in the haystack of the request it was
    made from. *)
Theorem ingest_labels (locked : E -> list JobID) dims started m scope haystack w :
  m_store m = pg_store locked dims -> clock_ok started (m_clock m) -> started (w_env w) -> (forall f, m_facts m = Some f -> f = pg_facts) -> reads_only m ->
  sound w -> db_ready (w_db w) = true ->
  (forall r, r ∈ db_episodes (w_db w) -> er_scope r <> scope) -> last_seq_of scope (w_db w) = 0 ->
  Forall (fun r => AppendRequest_Validate (in_scope scope r) = Ok tt /\ storable (in_scope scope r) = true) haystack ->
  exists w1, ingest m scope haystack w = (w1, Ok tt) /\ sound w1 /\
    forall w2 sched elapsed rr w3 out,
      sound w2 -> db_episodes (w_db w2) = db_episodes (w_db w1) ->
      sched ≡ₚ seq 0 (length (resolveChannels m (rr_channels rr))) -> rr_scope rr = scope ->
      Recall m sched elapsed None rr w2 = (w3, Ok out) ->
      forall e, e ∈ rec_episodes out ->
        exists i req, haystack !! i = Some req /\ ep_seq (re_episode e) - 1 = Z.of_nat i /\
          ep_content (re_episode e) = ar_content req /\ ep_role (re_episode e) = ar_role req.
Proof.
  intros Hm Hclock Hst Hfacts Hro Hok Hready Hfresh Hseq Hall.
  destruct (ingest_batches_run locked dims started m scope (length haystack) haystack w Hm Hclock Hst Hok Hready (le_n _) Hall)
    as (w1 & rows & Hrun & Hok1 & _ & He & Hlen & Hrows).
  exists w1. split; [done|]. split; [done|]. intros w2 sched elapsed rr w3 out Hok2 Heq Hp Hscope Hrec e Hin.
  assert (SearchSpec sound pg_ts pg_log (m_store m)) as Hss by (rewrite Hm; apply _).
  assert (forall w0, w_db (cut m rr w0).1 = w_db w0) as Hcut by (intros w0; unfold cut; destruct (IsZero _); [apply (proj1 Hclock)|done]).
  destruct (Recall_sources sound pg_ts pg_log pg_known m) with (sched := sched) (elapsed := elapsed)
    (req := rr) (w := w2) (w' := w3) (out := out) as (-> & Hlog & _); [| |done|done|done|done|].
  { intros f Hf. rewrite (Hfacts f Hf). apply _. }
  { intros w0 Hw0. unfold sound. by rewrite (proj1 Hclock w0). }
  destruct (Hlog e Hin) as [Hinlog (Hs & _)]. cbn in Hs. rewrite Hscope in Hs. unfold pg_log in Hinlog.
  rewrite Hcut, Heq, He in Hinlog. apply list_elem_of_fmap in Hinlog as (row & Hrow & [Hold|Hnew]%elem_of_app).
  { destruct (Hfresh row Hold). by rewrite Hrow in Hs. }
  apply list_elem_of_lookup in Hnew as [i Hi]. assert (i < length haystack)%nat as Hlt.
  { rewrite length_map in Hlen. rewrite <- Hlen. by eapply lookup_lt_Some. }
  destruct (lookup_lt_is_Some_2 haystack i Hlt) as [req Hreq]. exists i, req.
  destruct (Hrows i (in_scope scope req)) as (row' & Hi' & _ & Hq & Hc & Hr); [by rewrite list_lookup_fmap, Hreq|].
  assert (row' = row) as -> by congruence. rewrite Hrow. cbn. split; [done|]. split; [lia|done].
Qed.
End Ingestion.

(** ** A concrete benchmark *)

Definition demo_parse_date (s : string) : option Time := if String.eqb s "2023/05/30 (Tue) 23:40" then Some (utc 4000) else None.

Definition demo_instance : lmeInstance :=
  MkLmeInstance "q1" "single-session" "first" "tea" "2023/05/30 (Tue) 23:40" ["2023/05/30 (Tue) 23:40"; "2023/05/30 (Tue) 23:40"]
    ["a"; "b"]
    [[MkLmeTurn "user" "hello" false; MkLmeTurn "assistant" " " false; MkLmeTurn "user" "the first tea" true];
     [MkLmeTurn "user" "something else" false]].

Definition demo_question : Question :=
  match question demo_parse_date demo_instance with
  | Ok q => q
  | Err _ => MkQuestion "" "" "" "" zeroTime [] []
  end.

Lemma demo_question_read : question demo_parse_date demo_instance = Ok demo_question.
Proof. vm_compute. reflexivity. Qed.

Lemma question_labels_witness : map ar_content (q_haystack demo_question) = ["hello"; "the first tea"; "something else"]%string /\
  1 ∈ q_relevant demo_question.
Proof.
  destruct (question_labels demo_parse_date demo_instance demo_question demo_question_read) as [Hc Hr]. split.
  - rewrite Hc. vm_compute. reflexivity.
  - apply Hr. exists 1%nat, (MkLmeTurn "user" "the first tea" true). vm_compute. repeat split.
Defined.

(** Its conversations. *)
Example demo_sessions : map (map ar_content) (sessions (q_haystack demo_question)) =
  [["hello"; "the first tea"]; ["something else"]]%string.
Proof. vm_compute. reflexivity. Qed.

Definition demo_host : Host (World Z) :=
  MkHost demo_clock (fun _ => [2; 0; 1]%nat) (fun _ _ => 0) (fun _ => None) (fun _ _ => None) (fun _ => "error"%string).

Definition demo_log2 (x : float64) : float64 := x.

Definition demo_eval : EvalConfig (World Z) := MkEvalConfig (Some demo_memory) (Some demo_store) None [] 0 false.
Definition demo_dataset : Dataset :=
  MkDataset "demo" [Ok demo_question; Ok (MkQuestion "q2" "abstention" "nothing" "" zeroTime [] [])].

Definition demo_fresh : World Z := MkWorld (empty_db 2) 9000.

Definition demo_run : World Z * result Error (list Summary) := Run demo_log2 demo_host demo_eval demo_dataset demo_fresh.

Lemma Run_counts_witness :
  match demo_run.2 with
  | Ok ss => length ss = 1%nat /\ Forall (fun s => su_questions s + su_skipped s = 2) ss
  | Err _ => False
  end.
Proof.
  destruct demo_run as [w' [ss|e]] eqn:H.
  - destruct (Run_counts demo_log2 demo_host demo_eval demo_dataset demo_fresh w' ss H) as [Hl Hall]. split; [exact Hl|].
    eapply Forall_impl; [exact Hall|]. intros s Hs. exact (sm_all _ _ Hs).
  - apply (f_equal (fun r => is_ok r.2)) in H. vm_compute in H. discriminate H.
Defined.

(** The answer is found, and the scope is erased again. *)
Example demo_scored :
  match demo_run with
  | (w, Ok [s]) => su_questions s = 1 /\ su_skipped s = 1 /\ su_hits s = 1 /\ su_hit_rate s = f64_of_Z 1 /\ db_episodes (w_db w) = []
  | _ => False
  end.
Proof. vm_compute. repeat split. Qed.

Lemma ingest_labels_witness :
  exists w1, ingest demo_memory "eval:q1" (q_haystack demo_question) demo_fresh = (w1, Ok tt) /\
    match Recall demo_memory [2; 0; 1]%nat demo_elapsed None
            (recall_request "eval:q1" demo_question [] 10 false) w1 with
    | (_, Ok out) => forall e, e ∈ rec_episodes out -> exists i req, q_haystack demo_question !! i = Some req /\
        ep_seq (re_episode e) - 1 = Z.of_nat i /\ ep_content (re_episode e) = ar_content req
    | (_, Err _) => False
    end.
Proof.
  destruct (ingest_labels (fun _ => []) 2 (fun z => 0 < z) demo_memory "eval:q1" (q_haystack demo_question) demo_fresh)
    as (w1 & Hrun & Hok & H).
  - reflexivity.
  - split; [reflexivity|]. intros w Hw. cbn. cbn in Hw. split; lia.
  - reflexivity.
  - intros f Hf. injection Hf as <-. reflexivity.
  - exact demo_reads.
  - apply empty_db_ok.
  - reflexivity.
  - intros r Hr. apply not_elem_of_nil in Hr. contradiction.
  - reflexivity.
  - apply Forall_forall. intros r Hr.
    assert (forallb (fun r => is_ok (AppendRequest_Validate (in_scope "eval:q1" r)) && storable (in_scope "eval:q1" r))
      (q_haystack demo_question) = true) as Hall by (vm_compute; reflexivity).
    rewrite forallb_forall in Hall. apply list_elem_of_In, Hall, andb_true_iff in Hr as [Hv Hs]. split; [|exact Hs].
    destruct (AppendRequest_Validate _) as [[]|]; [reflexivity|discriminate Hv].
  - exists w1. split; [exact Hrun|].
    destruct (Recall demo_memory [2; 0; 1]%nat demo_elapsed None (recall_request "eval:q1" demo_question [] 10 false) w1)
      as [w2 [out|e]] eqn:Hrec.
    + intros e He. destruct (H w1 [2; 0; 1]%nat demo_elapsed (recall_request "eval:q1" demo_question [] 10 false) w2 out
        Hok eq_refl demo_sched eq_refl Hrec e He) as (i & req & Hi & Hs & Hc & _).
      exists i, req. split; [exact Hi|]. split; [exact Hs|exact Hc].
    + assert (w1 = (ingest demo_memory "eval:q1" (q_haystack demo_question) demo_fresh).1) as Hw1 by (rewrite Hrun; reflexivity).
      rewrite Hw1 in Hrec. apply (f_equal (fun r => is_ok r.2)) in Hrec. vm_compute in Hrec. discriminate Hrec.
Defined.
