(* ===== verification/Quickstart.v ===== *)
(** * The quickstart ([examples/quickstart/main.go])

    The one program of the repository: it migrates a schema, wires a [Memory] and
    a [Worker] to it with the test doubles for models, and writes, consolidates,
    recalls and erases. A run is over a world that holds the database and the
    doubles; what it prints is kept beside the world, line by line; a [log.Fatalf]
    ends it with the name of the step that failed. *)

From stdpp Require Import gmap.
From S2P Require Import Types Windows Validate OpsTypes GoNum Strconv Fusion Ports Memory Worker Migrate Extract Doubles.

#[local] Open Scope Z_scope.

(** ** A program that prints *)

Definition Fatal : Type := string * Error.
Definition prog (W A : Type) : Type := op Fatal (W * list string) A.

(** [if err != nil { log.Fatalf("stage: %v", err) }]. *)
Definition run {W A} (stage : string) (m : op Error W A) : prog W A := fun s =>
  match m s.1 with
  | (w, Ok a) => ((w, s.2), Ok a)
  | (w, Err e) => ((w, s.2), Err (stage, e))
  end.
Definition print_line {W} (line : string) : prog W unit := fun s => ((s.1, s.2 ++ [line]), Ok tt).

(** ** [time.Date] in UTC, at noon *)

(** The days of the civil calendar before the year, and before the month within it. *)
Definition leap (year : Z) : bool :=
  (year mod 4 =? 0) && (negb (year mod 100 =? 0) || (year mod 400 =? 0)).
Definition days_before_year (year : Z) : Z :=
  let y := year - 1 in 365 * y + y / 4 - y / 100 + y / 400.
Definition month_days (year month : Z) : Z :=
  if month =? 2 then if leap year then 29 else 28
  else if bool_decide (month ∈ [4; 6; 9; 11]) then 30 else 31.
Definition days_before_month (year month : Z) : Z :=
  foldr (fun m n => month_days year (Z.of_nat m + 1) + n) 0 (seq 0 (Z.to_nat (month - 1))).

Definition Hour : Duration := 60 * Minute.

(** [date], for a month of the calendar. *)
Definition date (year month day : Z) : Time :=
  utc ((days_before_year year + days_before_month year month + (day - 1)) * (24 * Hour) + 12 * Hour).

(** ** The program *)

Definition scope : ScopeID := "user:8123".

(** A decimal constant at single precision: the quotient, rounded once. *)
Definition f32_ratio (p q : Z) : float32 := SFdiv 24 128 (f32_of_Z p) (f32_of_Z q).

Definition livesIn (match_ city : string) (from : Time) : Rule :=
  MkRule match_
    (MkAssertion "user" "lives_in" city ("the user lives in " ++ city) (MkValidity from zeroTime) (f32_ratio 9 10))
    true.

Definition allergy : Rule :=
  MkRule "hazelnut"
    (MkAssertion "user" "allergic_to" "hazelnuts" "the user is allergic to hazelnuts"
       (MkValidity zeroTime zeroTime) (f32_ratio 95 100)) false.

Definition rules : list Rule :=
  [livesIn "paris" "Paris" (date 2019 4 1); livesIn "berlin" "Berlin" (date 2024 6 1); allergy].

(** [channels]. *)
Definition channels (hits : list ChannelHit) : string :=
  (foldl (fun st hit => (S st.1, (if Nat.ltb 0 st.1 then st.2 ++ "+" else st.2) ++ hit_channel hit)) (0%nat, EmptyString) hits).2%string.

Definition format_bool (b : bool) : string := if b then "true" else "false".

(** The requests of [say], of [show], and of the question about the past. *)
Definition said (content : string) (at_ : Time) : AppendRequest :=
  MkAppendRequest scope content RoleUser EmptyString "quickstart" at_ (Some {[ "session" := "s-42" ]}%string).
Definition shown_request (query : string) : RecallRequest :=
  MkRecallRequest scope query zeroTime zeroTime zeroTime None [] [] 0 3 0 f_zero [] 500.
Definition past_request : RecallRequest :=
  MkRecallRequest scope "where do they live?" zeroTime zeroTime (date 2020 1 1) None [] [] 0 0 0 f_zero [] 0.

(** The last line. *)
Definition erased_line (erased : ForgetResult) : string :=
  "erased: " ++ Itoa (fg_episodes erased) ++ " episodes, " ++ Itoa (fg_encodings erased) ++ " encodings, " ++
    Itoa (fg_facts erased) ++ " facts, " ++ Itoa (fg_jobs erased) ++ " jobs (scope removed: " ++
    format_bool (fg_scope_removed erased) ++ ")" ++ newline.

Section Quickstart.
Context {W : Type} `{Tx : Texts} (IsLetter IsDigit : N -> bool).

(** [Time.Format("2006-01-02")], [%.4f], and the text of an error. *)
Context (Format : Time -> string) (four_decimals : float64 -> string) (error_text : Error -> string).

(** [window]. *)
Definition window (v : Validity) : string :=
  if IsOpen v then "[since " ++ Format (v_from v) ++ ", still true]"
  else "[" ++ Format (v_from v) ++ " to " ++ Format (v_to v) ++ "]".

(** [say]. *)
Definition say (memory : Memory W) (content : string) (at_ : Time) : prog W unit :=
  run "append" (Memory.Append memory (said content at_)) ;;; oret tt.

(** The lines of [show]. *)
Definition fact_line (f : RecalledFact) : string :=
  "  fact     " ++ f_statement (rf_fact f) ++ "  " ++ window (f_valid (rf_fact f)) ++ newline.
Definition episode_line (r : RecalledEpisode) : string :=
  "  episode  " ++ four_decimals (re_score r) ++ "  " ++ quoted (ep_content (re_episode r)) ++
    "  via " ++ channels (re_hits r) ++ newline.
Definition failure_line (c : ChannelReport) : option string :=
  match rep_err c with
  | None => None
  | Some e => Some ("  channel " ++ rep_channel c ++ " failed: " ++ error_text e ++ newline)%string
  end.

Definition past_line (f : RecalledFact) : string :=
  "  fact  " ++ f_statement (rf_fact f) ++ "  " ++ window (f_valid (rf_fact f)) ++ newline.

(** Goroutines run in some order, and are timed; neither is seen. *)
Context (sched : list nat) (elapsed : nat -> Duration).

Definition recall (memory : Memory W) (req : RecallRequest) : prog W Recollection :=
  run "recall" (Recall memory sched elapsed None req).

(** [show]. *)
Definition show (memory : Memory W) (query : string) : prog W unit :=
  let! recalled := recall memory (shown_request query) in
  print_line ("query: " ++ quoted query ++ newline) ;;;
  ofor print_line (map fact_line (rec_facts recalled)) ;;;
  ofor print_line (map episode_line (rec_episodes recalled)) ;;;
  ofor print_line (omap failure_line (rec_channels recalled)) ;;;
  print_line ("  (" ++ Itoa (rec_tokens recalled) ++ " tokens)" ++ newline ++ newline).

(** [DrainOnce] under a context that is never cancelled. *)
Definition drain_once (worker : Worker W) : prog W Z :=
  run "drain" (fun s =>
    match DrainOnce error_text worker (fun _ => None) s with
    | (s', (n, None)) => (s', Ok n)
    | (s', (_, Some e)) => (s', Err e)
    end).

(** The write, read and erase of [main], once everything is wired. *)
Definition tour (memory : Memory W) (worker : Worker W) : prog W unit :=
  say memory "I moved to Paris last spring." (date 2019 4 2) ;;;
  say memory "I'm allergic to hazelnuts, so no Nutella." (date 2019 5 10) ;;;
  say memory "Deployed the billing service this morning." (date 2024 1 9) ;;;
  print_line ("appended 3 episodes -- already searchable lexically" ++ newline ++ newline) ;;;
  let! drained := drain_once worker in
  print_line ("worker drained " ++ Itoa drained ++ " jobs -- now searchable semantically, and facts exist" ++ newline ++ newline) ;;;
  show memory "allergic to hazelnuts" ;;;
  say memory "Actually I've moved to Berlin now." (date 2024 6 2) ;;;
  drain_once worker ;;;
  print_line ("---- after moving to Berlin ----" ++ newline) ;;;
  show memory "moved to Berlin" ;;;
  print_line ("---- and where did they live in 2020? ----" ++ newline) ;;;
  let! recalled := recall memory past_request in
  ofor print_line (map past_line (rec_facts recalled)) ;;;
  print_line newline ;;;
  let! erased := run "forget" (Memory.Forget memory (MkForgetRequest scope [])) in
  print_line (erased_line erased).

(** [main]: connecting to the server and migrating it are operations on the world;
    [store] is [postgres.New], which gives the store of the schema it finds. The
    doubles are put where the world keeps them. *)
Definition main (connect : op Error W unit) (migrate : MigrateOptions -> op Error W MigrateResult)
    (store : op Error W (Store W)) (SystemClock : Clock W) (hostID : WorkerID)
    (embedders : Part W EmbedderDouble) (extractors : Part W ExtractorDouble) : prog W unit :=
  run "connect" connect ;;;
  match NewEmbedderDouble 256 with
  | None => ofail ("panic"%string, EOther "memphertest: dimensions must be positive")
  | Some ed =>
      let xd := On rules NewExtractor in
      run EmptyString (fun w => (put extractors xd (put embedders ed w), Ok tt)) ;;;
      let embedder := embedder_double IsLetter IsDigit embedders (fun _ => None) ed in
      let extractor := extractor_double extractors (fun _ => None) xd in
      let! migrated := run "migrate" (migrate (MkMigrateOptions (e_Dimensions embedder) EmptyString EmptyString 0)) in
      print_line ("schema at version " ++ Itoa (mr_version migrated) ++ " (" ++
        Itoa (Z.of_nat (length (mr_applied migrated))) ++ " migrations applied by this run)" ++ newline ++ newline) ;;;
      let! store := run "store" store in
      let! memory := run "memory" (olift (Memory.New SystemClock
        (MkConfig (Some store) None (Some embedder) (Some extractor) None None None (MkFusionOptions f_zero None) 0))) in
      let! worker := run "worker" (olift (NewWorker SystemClock hostID
        (MkWorkerConfig (Some store) None (Some embedder) (Some extractor) None 0 None EmptyString 0 0 0 0))) in
      tour memory worker
  end.
End Quickstart.

(** ** The calendar *)

Lemma div_succ n y : 0 < n -> (y + 1) / n = y / n + if (y + 1) mod n =? 0 then 1 else 0.
Proof.
  intros Hn. pose proof (Z.div_mod (y + 1) n). pose proof (Z.div_mod y n).
  pose proof (Z.mod_pos_bound (y + 1) n Hn). pose proof (Z.mod_pos_bound y n Hn).
  destruct (Z.eqb_spec ((y + 1) mod n) 0); nia.
Qed.

(** The days agree with the calendar's own recursion: a year has 365 of them, and one
    more when it is leap. *)
Lemma days_before_year_succ year :
  days_before_year (year + 1) = days_before_year year + if leap year then 366 else 365.
Proof.
  unfold days_before_year, leap. cbv zeta. replace (year + 1 - 1) with (year - 1 + 1) by lia.
  rewrite !div_succ by lia. replace (year - 1 + 1) with year by lia.
  assert (year mod 100 = 0 -> year mod 4 = 0) as H1 by (intros H; apply Z.mod_divide in H as [k ->]; [|lia]; by rewrite <- (Z.mod_mul (k * 25) 4); [f_equal; lia|]).
  assert (year mod 400 = 0 -> year mod 100 = 0) as H2 by (intros H; apply Z.mod_divide in H as [k ->]; [|lia]; by rewrite <- (Z.mod_mul (k * 4) 100); [f_equal; lia|]).
  destruct (Z.eqb_spec (year mod 4) 0), (Z.eqb_spec (year mod 100) 0), (Z.eqb_spec (year mod 400) 0); cbn; lia.
Qed.

Example dates :
  t_ns (date 1 1 1) = 12 * Hour /\ date 2024 3 1 = Add (date 2024 2 28) (48 * Hour) /\
  t_ns (date 1970 1 1) = 62135596800 * Second + 12 * Hour.
Proof. split; [|split]; vm_compute; reflexivity. Qed.
