(* ===== verification/Touring.v ===== *)
(** * The quickstart runs to its end

    [Quickstart.main] over the adapter, whatever server is behind it: no step of it
    calls [log.Fatalf], and when it ends, what it wrote is gone. Then a run, line
    by line. *)

From stdpp Require Import gmap.
From S2P Require Import Types Validate OpsTypes Strconv Fusion Server Db PgQueue Queueing PgEpisode Appending Replaying PgFact FactWriting FactReading PgForget PgSearch Ports Memory Worker Postgres Deployment Consolidation Migrations Migrate Migrating Extract Doubles Doubling Recalling Quickstart.

#[local] Open Scope Z_scope.

(** ** Total correctness of a program that prints *)

Section Total.
Context {W : Type}.
Implicit Types P : W * list string -> Prop.

(** From a state of [P] the program returns, and its value and state satisfy [Q]. *)
Definition total {A} P (m : prog W A) (Q : A -> W * list string -> Prop) : Prop :=
  forall s, P s -> exists s' a, m s = (s', Ok a) /\ Q a s'.

Lemma total_bind {A B} P (m : prog W A) Q (k : A -> prog W B) R :
  total P m Q -> (forall a, total (Q a) (k a) R) -> total P (obind m k) R.
Proof.
  intros Hm Hk s Hs. destruct (Hm s Hs) as (s1 & a & H1 & Hq). destruct (Hk a s1 Hq) as (s2 & b & H2 & Hr).
  exists s2, b. split; [|done]. unfold obind. by rewrite H1.
Qed.

Lemma total_ret {A} (a : A) (Q : A -> W * list string -> Prop) : total (Q a) (oret a) Q.
Proof. intros s Hs. by exists s, a. Qed.

Lemma total_weaken {A} P (m : prog W A) (Q R : A -> W * list string -> Prop) :
  total P m Q -> (forall a s, Q a s -> R a s) -> total P m R.
Proof. intros Hm HQ s Hs. destruct (Hm s Hs) as (s' & a & H & Hq). exists s', a. auto. Qed.

(** A step that cannot return but one value. *)
Lemma total_known {A B} P (m : prog W A) a (P' : W * list string -> Prop) (k : A -> prog W B) R :
  total P m (fun x s => x = a /\ P' s) -> total P' (k a) R -> total P (obind m k) R.
Proof. intros Hm Hk. eapply total_bind; [exact Hm|]. intros x s [-> Hs]. by apply Hk. Qed.

(** What says nothing of the lines is not changed by printing. *)
Lemma total_printed (P : W -> Prop) line : total (fun s => P s.1) (print_line line) (fun _ s => P s.1).
Proof. intros s Hs. by exists (s.1, s.2 ++ [line]), tt. Qed.

Lemma total_lines (P : W -> Prop) lines : total (fun s => P s.1) (ofor print_line lines) (fun _ s => P s.1).
Proof.
  induction lines as [|line lines IH]; [by intros s Hs; exists s, tt|].
  apply total_bind with (Q := fun _ s => P s.1); [apply total_printed|done].
Qed.

(** A step of the world, under its name. *)
Lemma total_run {A} (P : W -> Prop) stage (m : op Error W A) (Q : A -> W -> Prop) :
  (forall w, P w -> exists w' a, m w = (w', Ok a) /\ Q a w') ->
  total (fun s => P s.1) (run stage m) (fun a s => Q a s.1).
Proof.
  intros H [w out] Hw. destruct (H w Hw) as (w' & a & Hm & Hq). exists (w', out), a.
  unfold run. cbn. by rewrite Hm.
Qed.
End Total.

(** ** A recall whose models keep to themselves *)

Section Answering.
Context `{Sv : Server} `{!ServerLaws Sv} {E : Type}.
Context (locked : E -> list JobID) (dims : Z) (m : Memory (World E)).
Context (Hstore : m_store m = pg_store locked dims).
Context (Hfacts : m_facts m = Some pg_facts).
Context (Hembed : forall text w, w_db (e_EmbedQuery (m_embedder m) text w).1 = w_db w).
Context (Hclock : forall w, w_db (Now (m_clock m) w).1 = w_db w /\ 0 < t_ns (Now (m_clock m) w).2).
Implicit Types w : World E.

(** No channel touches the database. *)
Lemma runChannel_db ch plan w : w_db (runChannel m ch plan w).1 = w_db w.
Proof using All.
  assert (forall A (o : op Error (World E) A), reads o -> w_db (o w).1 = w_db w) as Hr by (intros A o H; by rewrite H).
  unfold runChannel. destruct (String.eqb _ _).
  { unfold obind at 1. pose proof (Hembed (pl_text plan) w) as H.
    destruct (e_EmbedQuery _ _ w) as [w1 [v|]]; [|done]. cbn [fst] in H. rewrite <- H.
    pose proof (reads_on_db (E := E) _ (reads_SearchSemantic dims
      (MkSemanticQuery (pl_episodes plan) v (e_Model (m_embedder m)))) w1) as Hs.
    unfold obind. rewrite Hstore. cbn [s_SearchSemantic pg_store] in *.
    destruct (on_db _ w1) as [w2 [c|]]; cbn [fst] in Hs; by subst w2. }
  destruct (String.eqb _ _).
  { apply Hr, reads_bind; [rewrite Hstore; apply reads_on_db, reads_SearchLexical|]. intros c. apply reads_oret. }
  destruct (String.eqb _ _); [|done]. rewrite Hfacts.
  apply Hr, reads_bind; [apply reads_on_db, reads_Facts|]. intros c. apply reads_oret.
Qed.

(** The lexical channel answers, from wherever its goroutine is run. *)
Lemma lexical_answers plan e w :
  sound w -> pg_searchable w (lexical_query plan) -> 0 < cq_limit (pl_episodes plan) ->
  cr_err (run_slot m plan e ChannelLexical w).2 = None.
Proof using All.
  intros Hok Ha Hl. unfold run_slot.
  change (runChannel m ChannelLexical plan)
    with (let! c := s_SearchLexical (m_store m) (lexical_query plan) in oret (c, @nil Fact)).
  destruct (cs_lexical (s := pg_store locked dims) (lexical_query plan) w Hok Ha Hl) as (cands & Hs & _).
  rewrite Hstore. unfold obind. by rewrite Hs.
Qed.

(** The goroutines leave the database alone, and each lexical slot that was run holds an answer. *)
Lemma run_sched_db plan elapsed channels sched w slots :
  sound w -> pg_searchable w (lexical_query plan) -> 0 < cq_limit (pl_episodes plan) ->
  length slots = length channels ->
  let st := foldl (run_one m plan elapsed channels) (w, slots) sched in
  w_db st.1 = w_db w /\ length st.2 = length channels /\
  forall i, channels !! i = Some ChannelLexical ->
    i ∈ sched \/ (exists r, slots !! i = Some r /\ cr_err r = None) ->
    exists r, st.2 !! i = Some r /\ cr_err r = None.
Proof using All.
  intros Hok Ha Hl. revert w slots Hok Ha. induction sched as [|j sched IH]; intros w slots Hok Ha Hlen; cbn [foldl].
  { split; [done|]. split; [done|]. intros i _ [?%not_elem_of_nil|]; done. }
  unfold run_one at 2 4 6. cbn [fst snd]. destruct (channels !! j) as [cj|] eqn:Hj.
  2: { destruct (IH w slots Hok Ha Hlen) as (H1 & H2 & H3). split; [done|]. split; [done|].
       intros i Hi [[->|Hin]%elem_of_cons|Hs]; [congruence|by apply H3; [|left]|by apply H3; [|right]]. }
  pose proof (runChannel_db cj plan w) as Hdb. pose proof (lexical_answers plan (elapsed j) w Hok Ha Hl) as Hlex.
  assert (w_db (run_slot m plan (elapsed j) cj w).1 = w_db w) as Hdb'
    by (unfold run_slot; by destruct (runChannel m cj plan w) as [? [[? ?]|]]).
  destruct (run_slot m plan (elapsed j) cj w) as [w1 r] eqn:Hr. cbn [fst] in Hdb'.
  destruct (IH w1 (<[j:=r]> slots)) as (H1 & H2 & H3).
  { unfold sound. by rewrite Hdb'. }
  { unfold pg_searchable in *. by rewrite Hdb'. }
  { by rewrite length_insert. }
  split; [by rewrite H1|]. split; [done|]. intros i Hi Hor.
  destruct (decide (i = j)) as [->|Hne].
  - apply H3; [done|]. right. exists r. rewrite list_lookup_insert_eq by (apply lookup_lt_Some in Hj; lia).
    split; [done|]. assert (cj = ChannelLexical) as -> by congruence. by rewrite Hr in Hlex.
  - apply H3; [done|]. rewrite list_lookup_insert_ne by done.
    destruct Hor as [[?|?]%elem_of_cons|?]; [done|by left|by right].
Qed.

(** A recall with a lexical channel and a query the adapter can answer answers. *)
Lemma Recall_answers sched elapsed rr w :
  sched ≡ₚ seq 0 (length (resolveChannels m (rr_channels rr))) -> sound w -> db_ready (w_db w) = true ->
  RecallRequest_Validate rr = Ok tt -> ChannelLexical ∈ resolveChannels m (rr_channels rr) ->
  pg_text (rr_query rr) = true -> rr_binding rr = None -> IsZero (rr_as_of rr) = true ->
  exists w' out, Recall m sched elapsed None rr w = (w', Ok out) /\ w_db w' = w_db w.
Proof using All.
  intros Hp Hok Hready Hv (i & Hi)%list_elem_of_lookup Ht Hb Hz. unfold Recall. rewrite obind_olift, Hv.
  rewrite Hz. unfold obind, now. pose proof (Hclock w) as [Hdb Hpos].
  destruct (Now (m_clock m) w) as [w1 as_of]. cbn [fst snd] in Hdb, Hpos.
  unfold runChannels. destruct (run_sched_db (make_plan m rr as_of) elapsed (resolveChannels m (rr_channels rr)) sched w1
    (replicate (length (resolveChannels m (rr_channels rr))) zero_result)) as (H1 & _ & H3).
  - unfold sound. by rewrite Hdb.
  - apply recall_searchable; [by rewrite Hdb|done|lia|done|]. unfold query_binding_text, make_plan.
    cbn [pl_episodes cq_binding]. by rewrite Hb.
  - by apply valid_limits.
  - apply length_replicate.
  - destruct (foldl _ _ sched) as [w2 results]. cbn [fst snd] in H1, H3.
    destruct (H3 i Hi) as (r & Hr & He).
    { left. rewrite Hp. apply elem_of_seq. apply lookup_lt_Some in Hi. lia. }
    rewrite (allFailed_one results r (list_elem_of_lookup_2 _ _ _ Hr) He). eexists w2, _.
    split; [done|congruence].
Qed.
End Answering.

(** ** The program over the adapter *)

Section Touring.
Context `{Sv : Server} `{!ServerLaws Sv} {E : Type}.
Context (locked : E -> list JobID) (dims : Z).
Implicit Types w : World E.

(** The whole scope, as the program erases it. *)
Definition everything : ForgetRequest := MkForgetRequest scope [].
Definition written (d : Db) : Z := matching (gone_episode everything) (db_episodes d).

(** A deployment at work, with so many episodes of the scope. *)
Definition at_work (n : Z) w : Prop := sound w /\ db_ready (w_db w) = true /\ written (w_db w) = n.

Lemma at_work_db n w w' : w_db w' = w_db w -> at_work n w -> at_work n w'.
Proof. intros H. unfold at_work, sound. by rewrite H. Qed.

(** Nothing under the scope, in any table. *)
Record clean (d : Db) : Prop := {
  cl_scopes : forall r, r ∈ db_scopes d -> sr_id r <> scope;
  cl_episodes : forall r, r ∈ db_episodes d -> er_scope r <> scope;
  cl_encodings : forall r, r ∈ db_encodings d -> nr_scope r <> scope;
  cl_jobs : forall r, r ∈ db_jobs d -> jr_scope r <> scope;
  cl_facts : forall r, r ∈ db_facts d -> gr_scope r <> scope;
  cl_extractions : forall r, r ∈ db_extractions d -> xt_scope r <> scope;
}.

Lemma erased_clean d : clean (erased everything d).
Proof.
  assert (forall A (p : A -> bool) (key : A -> string) (l : list A) x,
    (forall y, p y = String.eqb (key y) scope) -> x ∈ keep_unless p l -> key x <> scope) as H.
  { intros A p key l x Hp [_ Hx]%elem_of_keep. rewrite Hp in Hx. by apply String.eqb_neq. }
  split; cbn [erased db_scopes db_episodes db_encodings db_jobs db_facts db_extractions]; intros r; apply H;
    intros y; [done|..]; unfold gone_episode, gone_encoding, gone_job, gone_fact, gone_extraction, named;
    cbn; by rewrite andb_true_r.
Qed.

Context (memory : Memory (World E)) (worker : Worker (World E)) (error_text : Error -> string).
Context (Hstore : m_store memory = pg_store locked dims).
Context (Hfacts : m_facts memory = Some pg_facts).
Context (Hembed : forall text w, w_db (e_EmbedQuery (m_embedder memory) text w).1 = w_db w).
Context (Hclock : forall w, w_db (Now (m_clock memory) w).1 = w_db w /\ 0 < t_ns (Now (m_clock memory) w).2).
Context (Hworker : deployed locked dims error_text worker).
Context (Hbatch : 0 <= w_batch worker) (Hlease : 0 <= w_lease worker).
Context (Hkinds : Forall (fun k => JobKind_Valid k = true) (w_kinds worker)).

(** An append that must be accepted: valid, and of text the server stores. *)
Definition sayable (content : string) (t : Time) : Prop :=
  AppendRequest_Validate (said content t) = Ok tt /\ ValidString content = true /\ no_nul content = true.

Lemma text_of s : ValidString s = true -> no_nul s = true -> pg_text s = true.
Proof. intros. by apply pg_text_spec. Qed.

Lemma said_texts now content t : sayable content t -> batch_texts now [said content t] = true.
Proof.
  intros (_ & Hv & Hn). unfold batch_texts, cmd_texts, cmd_scope. cbn [ac_episodes map concat app forallb].
  unfold binding_text. change (Binding_entries (ne_binding (new_episode now (said content t))))
    with ({[ "session" := "s-42" ]}%string : gmap string string).
  rewrite map_to_list_singleton. unfold episode_texts. cbn [forallb fst snd new_episode ne_scope ne_content ne_role ne_actor ne_source
    said ar_scope ar_content ar_role ar_actor ar_source app].
  rewrite !text_of by (done || by vm_compute). done.
Qed.

Lemma Append_said content t n w :
  sayable content t -> at_work n w ->
  exists w' e, Memory.Append memory (said content t) w = (w', Ok e) /\ at_work (n + 1) w'.
Proof using All.
  intros Hsay (Hok & Hready & Hn). pose proof Hsay as [Hv _]. set (req := said content t) in *.
  destruct (Hclock w) as [Hdb Hpos]. unfold Memory.Append. rewrite obind_olift, Hv. unfold obind, now.
  destruct (Now (m_clock memory) w) as [w1 now] eqn:Hnow. cbn [fst snd] in Hdb, Hpos.
  destruct (batch_written memory now [req] scope (w_db w)) as (d' & r & Happ & Hst & _);
    [done|done|lia|done|done|by repeat constructor|by apply said_texts|].
  assert (Z.of_nat (length (map (new_episode now) [req])) < 2 ^ 31) as Hl by done.
  pose proof (fun H => Append_written _ _ _ _ Hok H Happ) as Hw.
  destruct (Hw Hl) as (sc & rows & jobs & _ & -> & [_ (mint & _ & Hrows) Heps _ _ _ _ _ (_ & _ & _ & Hready') _] & _).
  rewrite Hstore. cbn [s_Append pg_store]. unfold on_db. rewrite Hdb. cbn [map] in Happ. cbn [ar_scope said].
  change (ar_scope req) with scope. rewrite Happ.
  pose proof (bs_length _ _ _ _ _ _ Hst) as Hlen. destruct (res_episodes r) as [|e l]; [done|].
  exists (MkWorld d' (w_env w1)), e. split; [done|]. split; [apply (bs_ok _ _ _ _ _ _ Hst)|]. split; [done|].
  cbn [w_db]. unfold written, matching. rewrite Heps, List.filter_app, length_app, Nat2Z.inj_add.
  fold (matching (gone_episode everything) (db_episodes (w_db w))). fold (written (w_db w)). rewrite Hn.
  rewrite Hrows. done.
Qed.

Lemma say_total content t n :
  sayable content t -> total (fun s => at_work n s.1) (say memory content t) (fun _ s => at_work (n + 1) s.1).
Proof using All.
  intros Hs. unfold say. apply total_bind with (Q := fun _ s => at_work (n + 1) s.1);
    [|intros a; exact (total_ret tt (fun _ s => at_work (n + 1) s.1))].
  apply (total_run (at_work n) "append" _ (fun _ => at_work (n + 1))). intros w. by apply Append_said.
Qed.

Lemma drain_total n :
  total (fun s => at_work n s.1) (drain_once error_text worker) (fun _ s => at_work n s.1).
Proof using All.
  apply (total_run (at_work n) "drain" _ (fun _ => at_work n)). intros w (Hok & Hready & Hn).
  destruct (DrainOnce_run locked dims error_text worker Hworker w Hok Hready Hbatch Hlease Hkinds)
    as (w' & k & t & claimed & outs & -> & [Hok' Hret _ _ _ _ _ _ _]).
  exists w', k. split; [done|]. split; [done|]. split; [by rewrite (rt_ready _ _ Hret)|].
  unfold written. by rewrite (rt_episodes _ _ Hret).
Qed.

Context (sched : list nat) (elapsed : nat -> Duration) (Hsched : sched ≡ₚ seq 0 3).

(** A request of the program: every channel, at the clock. *)
Definition askable (rr : RecallRequest) : Prop :=
  RecallRequest_Validate rr = Ok tt /\ rr_channels rr = [] /\ rr_binding rr = None /\ IsZero (rr_as_of rr) = true /\
  ValidString (rr_query rr) = true /\ no_nul (rr_query rr) = true.

Lemma recall_total rr n :
  askable rr -> total (fun s => at_work n s.1) (recall sched elapsed memory rr) (fun _ s => at_work n s.1).
Proof using All.
  intros (Hv & Hch & Hb & Hz & Hvs & Hnn). apply (total_run (at_work n) "recall" _ (fun _ => at_work n)).
  intros w Hw. assert (resolveChannels memory (rr_channels rr) = [ChannelSemantic; ChannelLexical; ChannelFact]) as Hall
    by (rewrite Hch; unfold resolveChannels; by rewrite Hfacts).
  destruct (Recall_answers locked dims memory Hstore Hfacts Hembed Hclock sched elapsed rr w) as (w' & out & H & Hdb).
  - by rewrite Hall.
  - apply Hw.
  - apply Hw.
  - done.
  - rewrite Hall. right. by left.
  - by apply text_of.
  - done.
  - done.
  - exists w', out. split; [done|]. by apply (at_work_db n w).
Qed.

Context (IsLetter IsDigit : N -> bool) `{Tx : Texts}.
Context (Format : Time -> string) (four_decimals : float64 -> string).

Lemma show_total query n :
  askable (shown_request query) ->
  total (fun s => at_work n s.1) (show Format four_decimals error_text sched elapsed memory query)
    (fun _ s => at_work n s.1).
Proof using All.
  intros Ha. unfold show. apply total_bind with (Q := fun _ s => at_work n s.1); [by apply recall_total|].
  intros recalled. apply total_bind with (Q := fun _ s => at_work n s.1); [apply total_printed|intros _].
  do 3 (apply total_bind with (Q := fun _ s => at_work n s.1); [apply total_lines|intros _]).
  apply total_printed.
Qed.

(** What the end of the tour knows. *)
Definition toured (n : Z) (s : World E * list string) : Prop :=
  sound s.1 /\ clean (w_db s.1) /\ exists r, last s.2 = Some (erased_line r) /\ fg_episodes r = n.

Lemma forget_total n :
  total (fun s => at_work n s.1) (run "forget" (Memory.Forget memory everything))
    (fun r s => sound s.1 /\ clean (w_db s.1) /\ fg_episodes r = n).
Proof using All.
  apply (total_run (at_work n) "forget" _ (fun r w => sound w /\ clean (w_db w) /\ fg_episodes r = n)).
  intros w (Hok & Hready & Hn). assert (ForgetRequest_Validate everything = Ok tt) as Hv by (by vm_compute).
  unfold Memory.Forget. rewrite obind_olift, Hv, Hstore. cbn [s_Forget pg_store]. unfold on_db.
  rewrite (Forget_run everything (w_db w) Hok Hready Hv). eexists _, _. split; [done|].
  split; [by apply erased_ok|]. split; [apply erased_clean|exact Hn].
Qed.

(** A step of the tour that leaves the deployment at work. *)
Ltac step n := apply total_bind with (Q := fun _ s => at_work n s.1).

Lemma tour_total n :
  total (fun s => at_work n s.1) (tour Format four_decimals error_text sched elapsed memory worker)
    (fun _ => toured (n + 4)).
Proof using All.
  unfold tour. step (n + 1); [apply say_total; vm_compute; tauto|intros _].
  step (n + 1 + 1); [apply say_total; vm_compute; tauto|intros _].
  step (n + 1 + 1 + 1); [apply say_total; vm_compute; tauto|intros _].
  step (n + 1 + 1 + 1); [apply total_printed|intros _].
  step (n + 1 + 1 + 1); [apply drain_total|intros drained].
  step (n + 1 + 1 + 1); [apply total_printed|intros _].
  step (n + 1 + 1 + 1); [apply show_total; vm_compute; tauto|intros _].
  step (n + 1 + 1 + 1 + 1); [apply say_total; vm_compute; tauto|intros _].
  replace (n + 1 + 1 + 1 + 1) with (n + 4) by lia.
  step (n + 4); [apply drain_total|intros _]. step (n + 4); [apply total_printed|intros _].
  step (n + 4); [apply show_total; vm_compute; tauto|intros _].
  step (n + 4); [apply total_printed|intros _].
  step (n + 4); [apply recall_total; vm_compute; tauto|intros recalled].
  step (n + 4); [apply total_lines|intros _]. step (n + 4); [apply total_printed|intros _].
  eapply total_bind; [apply forget_total|]. intros r [w out] (Hok & Hc & Hn).
  exists (w, out ++ [erased_line r]), tt. split; [done|]. split; [done|]. split; [done|].
  exists r. split; [apply last_snoc|done].
Qed.
End Touring.

(** ** [main] *)

Lemma on_part_db {E S A} (p : Part E S) (o : op Error S A) (w : World E) :
  w_db (on_part (beside p) o w).1 = w_db w.
Proof. unfold on_part. by destruct (o _). Qed.

Section Main.
Context `{Sv : Server} `{!ServerLaws Sv} {E : Type} `{Tx : Texts} (IsLetter IsDigit : N -> bool).
Context (Format : Time -> string) (four_decimals : float64 -> string) (error_text : Error -> string).
Context (sched : list nat) (elapsed : nat -> Duration) (Hsched : sched ≡ₚ seq 0 3).
Context (locked : E -> list JobID) (dims : Z).
Context (SystemClock : Clock (World E)) (workerID : WorkerID).
Context (embedders : Part E EmbedderDouble) (extractors : Part E ExtractorDouble).
Context (connect : op Error (World E) unit) (migrate : MigrateOptions -> op Error (World E) MigrateResult).
Context (store : op Error (World E) (Store (World E))).

(** The system clock runs and touches no table; the host has a name; the text of an
    error can be stored. *)
Context (Hclock : forall w, w_db (Now SystemClock w).1 = w_db w /\ 0 < t_ns (Now SystemClock w).2).
Context (Hname : is_empty workerID = false /\ pg_text workerID = true).
Context (Herrors : forall e, forallb pg_text (option_list (truncateError (Some (error_text e)))) = true).

(** What connecting, migrating and opening the store come to: from the worlds the
    program may start in, with its doubles put in their place, to a database that is
    ready. *)
Context (start migrated : World E -> Prop) (n : Z).
Context (Hput : forall w e x, start w -> start (put (beside extractors) x (put (beside embedders) e w))).
Context (Hconnect : forall w, start w -> exists w', connect w = (w', Ok tt) /\ start w').
Context (Hmigrate : forall o w, o = MkMigrateOptions 256 EmptyString EmptyString 0 -> start w ->
  exists w' r, migrate o w = (w', Ok r) /\ migrated w').
Context (Hstore : forall w, migrated w -> exists w', store w = (w', Ok (pg_store locked dims)) /\ at_work n w').

Definition quick_embedder : Embedder (World E) :=
  embedder_double IsLetter IsDigit (beside embedders) (fun _ => None)
    (MkEmbedderDouble 256 "memphertest/hashed-bow@256" None 0).
Definition quick_extractor : Extractor (World E) :=
  extractor_double (beside extractors) (fun _ => None) (On rules NewExtractor).
Definition quick_memory : Memory (World E) :=
  MkMemory (pg_store locked dims) (pg_queue locked) quick_embedder (Some quick_extractor) (Some pg_facts)
    SystemClock (CountTokens (MkApproxTokenCounter 0))
    (match resolve (MkFusionOptions f_zero None) with Ok o => o | Err _ => MkFusionOptions f_zero None end) 10.
Definition quick_worker : Worker (World E) :=
  MkWorker (pg_store locked dims) (pg_queue locked) quick_embedder (Some quick_extractor) (Some pg_facts)
    SystemClock workerID DefaultWorkerBatch DefaultKnownFactLimit DefaultLeaseDuration DefaultPollInterval
    DefaultReclaimInterval [JobKindEncode; JobKindExtract].

Lemma quick_deployed : deployed locked dims error_text quick_worker.
Proof using All.
  split; [done|done|done|exact Hclock| | |exact Hname|exact Herrors].
  - intros texts s. apply on_part_db.
  - intros x req s [= <-]. apply on_part_db.
Qed.

Lemma tour_runs :
  total (fun s => at_work n s.1) (tour Format four_decimals error_text sched elapsed quick_memory quick_worker)
    (fun _ => toured (n + 4)).
Proof using All.
  apply (tour_total locked dims); try done.
  - intros text w. apply on_part_db.
  - exact quick_deployed.
  - by repeat constructor.
Qed.

Lemma total_built {A} stage (built : res A) a :
  built = Ok a ->
  total (fun s : World E * list string => at_work n s.1) (run stage (olift built)) (fun x s => x = a /\ at_work n s.1).
Proof using Type. intros -> [w out] Hw. by exists (w, out), a. Qed.

(** C20: the quickstart runs to its end. Whatever server is behind the adapter and
    whatever order the goroutines run in: once connecting and migrating left a
    database that is ready, no step of [main] fails. [New] and [NewWorker] accept
    the doubles, every append is stored, both drains return, all three recalls
    answer and the erasure succeeds; at the end no table holds anything of the
    scope, and the last line printed counts the four episodes the program wrote
    beside those it found. *)
Theorem main_completes :
  total (fun s => start s.1)
    (main IsLetter IsDigit Format four_decimals error_text sched elapsed connect migrate store SystemClock workerID
       (beside embedders) (beside extractors))
    (fun _ => toured (n + 4)).
Proof using All.
  unfold main. apply total_bind with (Q := fun _ s => start s.1).
  { apply (total_run start "connect" _ (fun _ => start)). intros w Hw.
    destruct (Hconnect w Hw) as (w' & ? & ?). by exists w', tt. }
  intros _. change (NewEmbedderDouble 256) with (Some (MkEmbedderDouble 256 "memphertest/hashed-bow@256" None 0)).
  cbv iota zeta. apply total_bind with (Q := fun _ s => start s.1).
  { apply (total_run start EmptyString _ (fun _ => start)). intros w Hw. eexists _, tt. split; [reflexivity|]. by apply Hput. }
  intros _. apply total_bind with (Q := fun _ s => migrated s.1).
  { apply (total_run start "migrate" _ (fun _ => migrated)). intros w Hw. by apply Hmigrate. }
  intros r. apply total_bind with (Q := fun _ s => migrated s.1); [apply total_printed|intros _].
  apply total_known with (a := pg_store locked dims) (P' := fun s => at_work n s.1).
  { apply (total_run migrated "store" _ (fun st w => st = pg_store locked dims /\ at_work n w)). intros w Hw.
    destruct (Hstore w Hw) as (w' & ? & ?). by exists w', (pg_store locked dims). }
  apply total_known with (a := quick_memory) (P' := fun s => at_work n s.1); [apply total_built; reflexivity|].
  apply total_known with (a := quick_worker) (P' := fun s => at_work n s.1); [|apply tour_runs].
  apply total_built. reflexivity.
Qed.
End Main.

(** ** A run *)

(** Beside the database: a clock that moves a microsecond a reading, the doubles, and
    the session that migrates. *)
Record Beside : Type := MkBeside {
  bs_now : Z;
  bs_embedder : EmbedderDouble;
  bs_extractor : ExtractorDouble;
  bs_session : Session (list (string * string));
}.

Definition quick_clock : Clock (World Beside) :=
  MkClock (fun w =>
    let b := w_env w in
    (MkWorld (w_db w) (MkBeside (bs_now b + 1000) (bs_embedder b) (bs_extractor b) (bs_session b)), utc (Z.max 1 (bs_now b)))).

Definition embedder_part : Part Beside EmbedderDouble :=
  MkPart bs_embedder (fun e b => MkBeside (bs_now b) e (bs_extractor b) (bs_session b)).
Definition extractor_part : Part Beside ExtractorDouble :=
  MkPart bs_extractor (fun x b => MkBeside (bs_now b) (bs_embedder b) x (bs_session b)).
Definition embedders : Part (World Beside) EmbedderDouble :=
  beside embedder_part.
Definition extractors : Part (World Beside) ExtractorDouble :=
  beside extractor_part.
Definition quick_session : Part (World Beside) (Session (list (string * string))) :=
  beside (MkPart bs_session (fun s b => MkBeside (bs_now b) (bs_embedder b) (bs_extractor b) s)).

#[local] Instance quick_texts : Texts := {
  unmarshal_extraction s := unmarshal_extraction (Texts := lower_texts) s;
  unmarshal_topics s := unmarshal_topics (Texts := lower_texts) s;
  parse_RFC3339 s := parse_RFC3339 (Texts := lower_texts) s;
  parse_DateOnly s loc := parse_DateOnly (Texts := lower_texts) s loc;
  format_RFC3339 t := format_RFC3339 (Texts := lower_texts) t;
  ToLower s := ToLower (Texts := lower_texts) s;
  uuid_Parse s := uuid_Parse (Texts := lower_texts) s;
  uuid_String n := uuid_String (Texts := lower_texts) n;
  quoted s := (String (Ascii.ascii_of_N quote) s ++ String (Ascii.ascii_of_N quote) EmptyString)%string;
  two_decimals x := two_decimals (Texts := lower_texts) x;
  json_text j := json_text (Texts := lower_texts) j;
}.


(** The demonstration server of [Migrating], with the width the program asks for. *)
#[local] Instance quick_server : MigrationServer (list (string * string)) := {
  sql_version d := sql_version (MigrationServer := demo_migration_server) d;
  sql_extensions d := sql_extensions (MigrationServer := demo_migration_server) d;
  sql_ts_config d name := sql_ts_config (MigrationServer := demo_migration_server) d name;
  sql_exec path sql d := sql_exec (MigrationServer := demo_migration_server) path sql d;
  sql_config d :=
    match d with
    | (_, sql) :: _ => if String.eqb sql "dims 256 config english" then Ok (256, "english"%string) else Err ENoRows
    | [] => Err (EPg pgerrcodeUndefinedTable)
    end;
}.

Definition quick_migrate (o : MigrateOptions) : op Error (World Beside) MigrateResult :=
  on_part quick_session (Migrate.Migrate demo_entries demo_wait true o).
Definition quick_store : op Error (World Beside) (Store (World Beside)) := fun w =>
  (w, let? c := Migrate.New true (ss_db (held quick_session w)) in Ok (pg_store (fun _ => []) (pc_dimensions c))).

Definition quick_world : World Beside :=
  MkWorld (empty_db 256)
    (MkBeside (t_ns (date 2026 1 1)) (MkEmbedderDouble 0 EmptyString None 0) NewExtractor demo_fresh).

(** The civil date of an instant, and a number to four places. *)
Fixpoint count_up (fuel : nat) (before : Z -> Z) (days k : Z) : Z :=
  match fuel with
  | O => k
  | S fuel' => if before (k + 1) <=? days then count_up fuel' before days (k + 1) else k
  end.
Definition zeros (width : nat) (z : Z) : string :=
  let s := Itoa z in (String.concat EmptyString (replicate (width - String.length s) "0") ++ s)%string.
Definition format_day (t : Time) : string :=
  let days := t_ns t / (24 * Hour) in
  let year := count_up 100 days_before_year days (days / 366 + 1) in
  let rest := days - days_before_year year in
  let month := count_up 11 (days_before_month year) rest 1 in
  (zeros 4 year ++ "-" ++ zeros 2 month ++ "-" ++ zeros 2 (rest - days_before_month year month + 1))%string.
Definition to_four (x : float64) : string :=
  match x with
  | S754_finite false m e =>
      let scaled := (Zpos m * 10000 + 2 ^ (- e - 1)) / 2 ^ (- e) in
      (Itoa (scaled / 10000) ++ "." ++ zeros 4 (scaled mod 10000))%string
  | _ => "0.0000"%string
  end.

Definition quick_run (sched : list nat) : (World Beside * list string) * result Fatal unit :=
  main demo_letter demo_digit format_day to_four demo_error_text sched (fun _ => 0)
    (oret tt) quick_migrate quick_store quick_clock "host/1" embedders extractors (quick_world, []).

(** A line as it is expected. *)
Definition line (s : string) : string := (s ++ newline)%string.
Definition in_quotes (s : string) : string := quoted s.

(** The calendar of the demonstration reads back the dates of the program. *)
Example days_read_back :
  map format_day [date 2019 4 2; date 2024 2 29; date 2023 12 31; date 2000 1 1] =
    ["2019-04-02"; "2024-02-29"; "2023-12-31"; "2000-01-01"]%string.
Proof. vm_compute. reflexivity. Qed.

(** The run, line by line: two facts in force, the second superseded by the move, the
    first home still the answer for 2020, and the tally of the erasure. *)
Example quick_output :
  (quick_run [0; 1; 2]%nat).2 = Ok tt /\
  (quick_run [0; 1; 2]%nat).1.2 =
    [line (line "schema at version 2 (2 migrations applied by this run)");
     line (line "appended 3 episodes -- already searchable lexically");
     line (line "worker drained 6 jobs -- now searchable semantically, and facts exist");
     line ("query: " ++ in_quotes "allergic to hazelnuts");
     line "  fact     the user is allergic to hazelnuts  [since 2019-05-10, still true]";
     line "  fact     the user lives in Paris  [since 2019-04-01, still true]";
     line ("  episode  0.0202  " ++ in_quotes "I'm allergic to hazelnuts, so no Nutella." ++ "  via lexical+semantic");
     line ("  episode  0.0164  " ++ in_quotes "Deployed the billing service this morning." ++ "  via semantic");
     line ("  episode  0.0159  " ++ in_quotes "I moved to Paris last spring." ++ "  via semantic");
     line (line "  (45 tokens)");
     line "---- after moving to Berlin ----";
     line ("query: " ++ in_quotes "moved to Berlin");
     line "  fact     the user is allergic to hazelnuts  [since 2019-05-10, still true]";
     line "  fact     the user lives in Berlin  [since 2024-06-01, still true]";
     line ("  episode  0.0205  " ++ in_quotes "Actually I've moved to Berlin now." ++ "  via lexical+semantic");
     line ("  episode  0.0161  " ++ in_quotes "Deployed the billing service this morning." ++ "  via semantic");
     line ("  episode  0.0159  " ++ in_quotes "I'm allergic to hazelnuts, so no Nutella." ++ "  via semantic");
     line (line "  (46 tokens)");
     line "---- and where did they live in 2020? ----";
     line "  fact  the user is allergic to hazelnuts  [since 2019-05-10, still true]";
     line "  fact  the user lives in Paris  [2019-04-01 to 2024-06-01]";
     newline;
     line "erased: 4 episodes, 4 encodings, 3 facts, 8 jobs (scope removed: true)"]%string.
Proof. split; vm_compute; reflexivity. Qed.

(** The worlds of the run before the migration, and after it. *)
Definition quick_start (w : World Beside) : Prop := w_db w = empty_db 256 /\ bs_session (w_env w) = demo_fresh.
Definition quick_migrated (w : World Beside) : Prop :=
  w_db w = empty_db 256 /\ Migrate.New true (ss_db (bs_session (w_env w))) = Ok (MkPgConfig "public" 256 "english").

Lemma quick_migrates o w :
  o = MkMigrateOptions 256 EmptyString EmptyString 0 -> quick_start w ->
  exists w' r, quick_migrate o w = (w', Ok r) /\ quick_migrated w'.
Proof.
  intros -> [Hd Hs]. unfold quick_migrate, on_part. cbn [held quick_session beside]. rewrite Hs.
  destruct (Migrate.Migrate demo_entries demo_wait true (MkMigrateOptions 256 EmptyString EmptyString 0) demo_fresh)
    as [s' [r|e]] eqn:H; [|exfalso; apply (f_equal snd) in H; vm_compute in H; discriminate H].
  eexists _, r. split; [reflexivity|]. split; [exact Hd|]. cbn.
  apply (f_equal fst) in H. cbn in H. rewrite <- H. vm_compute. reflexivity.
Qed.

Lemma main_completes_witness :
  exists s', quick_run [2; 0; 1]%nat = (s', Ok tt) /\ clean (w_db s'.1) /\
    exists r, last s'.2 = Some (erased_line r) /\ fg_episodes r = 4.
Proof.
  assert (forall w, w_db (Now quick_clock w).1 = w_db w /\ 0 < t_ns (Now quick_clock w).2) as Hc
    by (intros w; split; [reflexivity|cbn; lia]).
  assert (is_empty "host/1" = false /\ pg_text "host/1" = true) as Hn by (split; vm_compute; reflexivity).
  assert (forall e, forallb pg_text (option_list (truncateError (Some (demo_error_text e)))) = true) as He
    by (intros e; vm_compute; reflexivity).
  assert (forall w, quick_migrated w -> exists w', quick_store w = (w', Ok (pg_store (fun _ => []) 256)) /\ at_work 0 w') as Hs.
  { intros w [Hd Hr]. exists w. split.
    - unfold quick_store. cbn [held quick_session beside]. rewrite Hr. reflexivity.
    - unfold at_work, sound. rewrite Hd. split; [apply empty_db_ok|]. split; vm_compute; reflexivity. }
  destruct (main_completes demo_letter demo_digit format_day to_four demo_error_text [2; 0; 1]%nat (fun _ => 0)
    (Permutation_app_comm [2%nat] [0; 1]%nat) (fun _ => []) 256 quick_clock "host/1" embedder_part extractor_part
    (oret tt) quick_migrate quick_store Hc Hn He quick_start quick_migrated 0
    (fun w e x Hw => Hw) (fun w Hw => ex_intro _ w (conj eq_refl Hw)) quick_migrates Hs (quick_world, @nil string)
    (conj eq_refl eq_refl)) as (s' & u & H & Hok & Hcl & Hl).
  exists s'. destruct u. split; [exact H|]. split; [exact Hcl|exact Hl].
Defined.
